(** * malloc-lab: three allocators over one simulated heap

    A shallow embedding of [mm-explicit.c], [mm-segregated-fit.c] and
    [mm-segregated-buddy.c], and the properties of their free lists,
    coalescing and reallocation.

    Machine model.  The sources store a [void *] in one [WSIZE] = 4 byte
    slot (the root array of the segregated variants is indexed in steps of
    [WSIZE], and [mm_init] of the explicit variant clears the two link
    slots with one [PUT] each), so the program is the ILP32 build of the
    lab: [unsigned int], [size_t] and pointers are 32 bits wide.  [size_t]
    arithmetic is written with its wrap-around ([wrap32]); addresses are
    integers, and an access outside the simulated heap is a fault
    ([memcpy] of the C library alone may touch the memory the memory
    library holds behind the heap).

    Every function of the sources is a computation in the monad [M]: it
    takes the state of the process and returns a value and a new state,
    faults, or diverges.  The bounded loops of the sources are fixpoints
    over their trip count; the list walks carry the size of the heap as
    fuel, which only a cyclic list exhausts.

    The bump allocator of [mm.c] and the two bodies of [find_fit] that
    [mm-explicit.c] does not select are embedded as well, after the three
    sources.

    The file has two parts: the definitions (the machine, the sources,
    the words of the specification, the predicates on heaps, the
    scenarios), then the lemmas and theorems. *)

From stdpp Require Import base gmap list.
From Stdlib Require Import ZArith Lia.

Open Scope Z_scope.

(** ** Bytes, words and the simulated heap *)

Definition wrap32 (z : Z) : Z := z mod 2 ^ 32.

(** [int] conversion of an unsigned 32-bit value (two's complement). *)
Definition to_int32 (z : Z) : Z :=
  if wrap32 z <? 2 ^ 31 then wrap32 z else wrap32 z - 2 ^ 32.

(** The state of the process: the bytes of the simulated heap, the three
    pointers of the memory library, and the one static pointer each
    allocator keeps ([free_listp] in the explicit variant, [heap_listp]
    in the segregated ones). *)
Record heap_state : Type := HeapState {
  mem_bytes : gmap Z Z;
  mem_start_brk : Z;
  mem_brk : Z;
  mem_max_addr : Z;
  listp : Z
}.

Definition set_bytes (m : gmap Z Z) (s : heap_state) : heap_state :=
  HeapState m (mem_start_brk s) (mem_brk s) (mem_max_addr s) (listp s).

Definition set_brk (b : Z) (s : heap_state) : heap_state :=
  HeapState (mem_bytes s) (mem_start_brk s) b (mem_max_addr s) (listp s).

Definition set_listp (p : Z) (s : heap_state) : heap_state :=
  HeapState (mem_bytes s) (mem_start_brk s) (mem_brk s) (mem_max_addr s) p.

(** An empty heap of capacity [cap] starting at address [base]. *)
Definition mem_init (base cap : Z) : heap_state :=
  HeapState ∅ base base (base + cap) 0.

(** Outcome of running a piece of the program: it returns, it touches
    memory outside the heap, or it loops for ever. *)
Inductive outcome (A : Type) : Type :=
| Ok (a : A) (s : heap_state)
| Fault
| Diverge.
Arguments Ok {A} a s.
Arguments Fault {A}.
Arguments Diverge {A}.

Definition M (A : Type) : Type := heap_state → outcome A.

Definition ret {A} (a : A) : M A := λ s, Ok a s.

Definition bind {A B} (c : M A) (k : A → M B) : M B :=
  λ s, match c s with
       | Ok a s' => k a s'
       | Fault => Fault
       | Diverge => Diverge
       end.

Notation "'let*' x ':=' c 'in' k" := (bind c (λ x, k))
  (at level 10, x name, c at level 100, k at level 200, only parsing).
Notation "c '>>' k" := (bind c (λ _, k))
  (at level 63, right associativity, only parsing).

Definition get_state : M heap_state := λ s, Ok s s.

(** An assignment to the static pointer of the allocator. *)
Definition assign_listp (p : Z) : M unit := λ s, Ok tt (set_listp p s).

Definition diverge {A} : M A := λ _, Diverge.

Definition in_heap (s : heap_state) (a n : Z) : bool :=
  (mem_start_brk s <=? a) && (a + n <=? mem_brk s).

Definition byte_at (m : gmap Z Z) (a : Z) : Z := default 0 (m !! a).

(** Little-endian 32-bit word at [a]. *)
Definition word_at (m : gmap Z Z) (a : Z) : Z :=
  byte_at m a + 2 ^ 8 * byte_at m (a + 1) + 2 ^ 16 * byte_at m (a + 2)
  + 2 ^ 24 * byte_at m (a + 3).

Definition put_word (m : gmap Z Z) (a v : Z) : gmap Z Z :=
  <[a + 3 := (v / 2 ^ 24) mod 2 ^ 8]>
    (<[a + 2 := (v / 2 ^ 16) mod 2 ^ 8]>
       (<[a + 1 := (v / 2 ^ 8) mod 2 ^ 8]>
          (<[a := v mod 2 ^ 8]> m))).

(** [GET(p)]: the [unsigned int] stored at address [p]. *)
Definition GET (p : Z) : M Z :=
  λ s, if in_heap s p 4 then Ok (word_at (mem_bytes s) p) s else Fault.

(** [PUT(p, val)]: store [val] as an [unsigned int] at address [p]. *)
Definition PUT (p v : Z) : M unit :=
  λ s, if in_heap s p 4 then Ok tt (set_bytes (put_word (mem_bytes s) p v) s)
       else Fault.

(** Byte accesses of the client ([char] loads and stores in a payload). *)
Definition load_byte (p : Z) : M Z :=
  λ s, if in_heap s p 1 then Ok (byte_at (mem_bytes s) p) s else Fault.

Definition store_byte (p v : Z) : M unit :=
  λ s, if in_heap s p 1 then Ok tt (set_bytes (<[p := v mod 2 ^ 8]> (mem_bytes s)) s)
       else Fault.

(** The memory behind the simulated heap: the memory library allocates
    all of it, up to [mem_max_addr], before the first [mem_sbrk], so a
    load or store of the C library between [mem_brk] and [mem_max_addr]
    touches memory of the process. *)
Definition in_arena (s : heap_state) (a n : Z) : bool :=
  (mem_start_brk s <=? a) && (a + n <=? mem_max_addr s).

(** [memcpy] of the C library copies [n] bytes from [src] to [dst].  The
    source bytes are read before any byte is written, which agrees with
    every implementation when the two ranges do not overlap.  The
    function does not look at [mem_brk]: the two ranges lie in the memory
    behind the heap. *)
Definition copy_bytes (old : gmap Z Z) (dst src n : Z) (m : gmap Z Z) : gmap Z Z :=
  foldl (λ acc i, <[dst + i := byte_at old (src + i)]> acc) m (seqZ 0 n).

Definition memcpy (dst src n : Z) : M unit :=
  λ s, if in_arena s src n && in_arena s dst n
       then Ok tt (set_bytes (copy_bytes (mem_bytes s) dst src n (mem_bytes s)) s)
       else Fault.

(** Modelled from the spec: [mem_sbrk] of the memory library
    ([memlib.c], the [HeapBackend] of the specification) is not part of
    the repository.  [extend(bytes)] appends [bytes] at the current end
    of the region and returns the address of the first new byte, or fails
    with a sentinel ([None] here, the pointer [-1] in C) when the request is
    negative as an [int] or does not fit below the limit. *)
Definition mem_sbrk (incr : Z) : M (option Z) :=
  λ s, let i := to_int32 incr in
       if (i <? 0) || (mem_max_addr s <? mem_brk s + i) then Ok None s
       else Ok (Some (mem_brk s)) (set_brk (mem_brk s + i) s).

(** ** Constants and macros shared by the three sources *)

Definition WSIZE : Z := 4.
Definition DSIZE : Z := 8.
Definition CHUNKSIZE : Z := 2 ^ 12.
Definition NULL : Z := 0.

(** [ALIGN(size)]: [((size) + (ALIGNMENT - 1)) & ~0x7] on [size_t]. *)
Definition ALIGN (size : Z) : Z := Z.land (wrap32 (size + 7)) (2 ^ 32 - 8).

Definition MAX (x y : Z) : Z := if y <? x then x else y.

(** [PACK(size, alloc)]. *)
Definition PACK (size alloc : Z) : Z := Z.lor size alloc.

Definition size_of (w : Z) : Z := Z.land w (2 ^ 32 - 8).
Definition flag_of (w : Z) : Z := Z.land w 1.

Definition GET_SIZE (p : Z) : M Z := let* w := GET p in ret (size_of w).
Definition GET_ALLOC (p : Z) : M Z := let* w := GET p in ret (flag_of w).

Definition HDRP (bp : Z) : Z := bp - WSIZE.
Definition FTRP (bp : Z) : M Z :=
  let* sz := GET_SIZE (HDRP bp) in ret (bp + sz - DSIZE).
Definition NEXT_BLKP (bp : Z) : M Z :=
  let* sz := GET_SIZE (bp - WSIZE) in ret (bp + sz).
Definition PREV_BLKP (bp : Z) : M Z :=
  let* sz := GET_SIZE (bp - DSIZE) in ret (bp - sz).

(** [GET_PRED(bp)] and [GET_SUCC(bp)] as r-values and as l-values. *)
Definition GET_PRED (bp : Z) : M Z := GET bp.
Definition GET_SUCC (bp : Z) : M Z := GET (bp + WSIZE).
Definition SET_PRED (bp v : Z) : M unit := PUT bp v.
Definition SET_SUCC (bp v : Z) : M unit := PUT (bp + WSIZE) v.

(** Every list walk visits distinct addresses of the heap unless the list
    is cyclic, so the size of the heap bounds the walks that terminate. *)
Definition walk_fuel (s : heap_state) : nat := Z.to_nat (mem_brk s - mem_start_brk s).

(** ** The boundary-tag skeleton

    [coalesce], [extend_heap], [place], [mm_malloc] and [mm_free] have the
    same text in [mm-explicit.c] and in [mm-segregated-fit.c]; the two
    files differ in the list operations and the search they call. *)

Section BoundaryTag.

Variable remove_free_block : Z → M unit.
Variable add_free_block : Z → M unit.
Variable find_fit : Z → M Z.

Definition coalesce (bp : Z) : M Z :=
  let* prev := PREV_BLKP bp in
  let* pftr := FTRP prev in
  let* prev_alloc := GET_ALLOC pftr in
  let* next := NEXT_BLKP bp in
  let* next_alloc := GET_ALLOC (HDRP next) in
  let* size := GET_SIZE (HDRP bp) in
  if negb (prev_alloc =? 0) && negb (next_alloc =? 0) then
    (* Case 1 *)
    add_free_block bp >> ret bp
  else if negb (prev_alloc =? 0) && (next_alloc =? 0) then
    (* Case 2 *)
    let* next := NEXT_BLKP bp in
    remove_free_block next >>
    let* next := NEXT_BLKP bp in
    let* nsize := GET_SIZE (HDRP next) in
    let size := wrap32 (size + nsize) in
    PUT (HDRP bp) (PACK size 0) >>
    let* ftr := FTRP bp in
    PUT ftr (PACK size 0) >>
    add_free_block bp >> ret bp
  else if (prev_alloc =? 0) && negb (next_alloc =? 0) then
    (* Case 3 *)
    let* prev := PREV_BLKP bp in
    remove_free_block prev >>
    let* prev := PREV_BLKP bp in
    let* psize := GET_SIZE (HDRP prev) in
    let size := wrap32 (size + psize) in
    let* ftr := FTRP bp in
    PUT ftr (PACK size 0) >>
    let* prev := PREV_BLKP bp in
    PUT (HDRP prev) (PACK size 0) >>
    let* bp := PREV_BLKP bp in
    add_free_block bp >> ret bp
  else
    (* Case 4 *)
    let* prev := PREV_BLKP bp in
    remove_free_block prev >>
    let* next := NEXT_BLKP bp in
    remove_free_block next >>
    let* prev := PREV_BLKP bp in
    let* psize := GET_SIZE (HDRP prev) in
    let* next := NEXT_BLKP bp in
    let* nftr := FTRP next in
    let* nsize := GET_SIZE nftr in
    let size := wrap32 (size + wrap32 (psize + nsize)) in
    let* prev := PREV_BLKP bp in
    PUT (HDRP prev) (PACK size 0) >>
    let* next := NEXT_BLKP bp in
    let* nftr := FTRP next in
    PUT nftr (PACK size 0) >>
    let* bp := PREV_BLKP bp in
    add_free_block bp >> ret bp.

Definition extend_heap (words : Z) : M Z :=
  let size := if words mod 2 =? 1 then wrap32 ((words + 1) * WSIZE)
              else wrap32 (words * WSIZE) in
  let* r := mem_sbrk size in
  match r with
  | None => ret NULL
  | Some bp =>
      PUT (HDRP bp) (PACK size 0) >>
      let* ftr := FTRP bp in
      PUT ftr (PACK size 0) >>
      let* next := NEXT_BLKP bp in
      PUT (HDRP next) (PACK 0 1) >>
      coalesce bp
  end.

Definition place (bp allocate_size : Z) : M unit :=
  remove_free_block bp >>
  let* chunk_size := GET_SIZE (HDRP bp) in
  if 2 * DSIZE <=? wrap32 (chunk_size - allocate_size) then
    PUT (HDRP bp) (PACK allocate_size 1) >>
    let* ftr := FTRP bp in
    PUT ftr (PACK allocate_size 1) >>
    let* bp := NEXT_BLKP bp in
    PUT (HDRP bp) (PACK (wrap32 (chunk_size - allocate_size)) 0) >>
    let* ftr := FTRP bp in
    PUT ftr (PACK (wrap32 (chunk_size - allocate_size)) 0) >>
    add_free_block bp
  else
    PUT (HDRP bp) (PACK chunk_size 1) >>
    let* ftr := FTRP bp in
    PUT ftr (PACK chunk_size 1).

Definition mm_malloc (size : Z) : M Z :=
  if size =? 0 then ret NULL
  else
    let asize := if size <=? DSIZE then 2 * DSIZE
                 else ALIGN (wrap32 (size + DSIZE)) in
    let* bp := find_fit asize in
    if negb (bp =? NULL) then place bp asize >> ret bp
    else
      let extendsize := MAX asize CHUNKSIZE in
      let* bp := extend_heap (extendsize / WSIZE) in
      if bp =? NULL then ret NULL
      else place bp asize >> ret bp.

Definition mm_free (bp : Z) : M unit :=
  let* size := GET_SIZE (HDRP bp) in
  PUT (HDRP bp) (PACK size 0) >>
  let* ftr := FTRP bp in
  PUT ftr (PACK size 0) >>
  let* _ := coalesce bp in ret tt.

(** The part of [mm_realloc] the two files share: everything after the
    locals [originsize] and [newsize] are set (and, in the segregated-fit
    file, after its test of [size]). *)
Definition realloc_tail (oldptr originsize newsize : Z) : M Z :=
  if newsize <=? originsize then ret oldptr
  else
    let* next := NEXT_BLKP oldptr in
    let* nsize := GET_SIZE (HDRP next) in
    let addSize := wrap32 (originsize + nsize) in
    let* nalloc := GET_ALLOC (HDRP next) in
    if (nalloc =? 0) && (newsize <=? addSize) then
      let* next := NEXT_BLKP oldptr in
      remove_free_block next >>
      PUT (HDRP oldptr) (PACK addSize 1) >>
      let* ftr := FTRP oldptr in
      PUT ftr (PACK addSize 1) >>
      ret oldptr
    else
      let* newptr := mm_malloc newsize in
      if newptr =? NULL then ret NULL
      else
        memcpy newptr oldptr newsize >>
        mm_free oldptr >>
        ret newptr.

End BoundaryTag.

(** ** The explicit free list ([mm-explicit.c], built with [BEST_FIT]) *)

Module Explicit.

(** [free_listp] is [listp]. *)
Definition remove_free_block (bp : Z) : M unit :=
  let* st := get_state in
  if bp =? listp st then
    let* succ := GET_SUCC bp in
    assign_listp succ
  else
    let* pred := GET_PRED bp in
    let* succ := GET_SUCC bp in
    SET_SUCC pred succ >>
    let* succ := GET_SUCC bp in
    if succ =? NULL then ret tt
    else
      let* pred := GET_PRED bp in
      let* succ := GET_SUCC bp in
      SET_PRED succ pred.

Definition add_free_block (bp : Z) : M unit :=
  SET_PRED bp NULL >>
  let* st := get_state in
  SET_SUCC bp (listp st) >>
  (if listp st =? NULL then ret tt else SET_PRED (listp st) bp) >>
  assign_listp bp.

(** The [BEST_FIT] loop; [best_bp] and [min_size] are its two locals. *)
Fixpoint find_fit_loop (fuel : nat) (asize bp best_bp min_size : Z) : M Z :=
  if bp =? NULL then ret best_bp
  else match fuel with
       | O => diverge
       | S fuel' =>
           let* sz := GET_SIZE (HDRP bp) in
           let* succ := GET_SUCC bp in
           if (asize <=? sz) && ((min_size =? 0) || (sz <? min_size))
           then find_fit_loop fuel' asize succ bp sz
           else find_fit_loop fuel' asize succ best_bp min_size
       end.

Definition find_fit (asize : Z) : M Z :=
  let* st := get_state in
  find_fit_loop (walk_fuel st) asize (listp st) NULL 0.

Definition coalesce := coalesce remove_free_block add_free_block.
Definition extend_heap := extend_heap remove_free_block add_free_block.
Definition place := place remove_free_block add_free_block.
Definition mm_malloc := mm_malloc remove_free_block add_free_block find_fit.
Definition mm_free := mm_free remove_free_block add_free_block.

Definition mm_init : M Z :=
  let* r := mem_sbrk (8 * WSIZE) in
  match r with
  | None => assign_listp (wrap32 (-1)) >> ret (-1)
  | Some p =>
      assign_listp p >>
      PUT p 0 >>
      PUT (p + 1 * WSIZE) (PACK DSIZE 1) >>
      PUT (p + 2 * WSIZE) (PACK DSIZE 1) >>
      PUT (p + 3 * WSIZE) (PACK (4 * WSIZE) 0) >>
      PUT (p + 4 * WSIZE) NULL >>
      PUT (p + 5 * WSIZE) NULL >>
      PUT (p + 6 * WSIZE) (PACK (4 * WSIZE) 0) >>
      PUT (p + 7 * WSIZE) (PACK 0 1) >>
      assign_listp (p + 4 * WSIZE) >>
      let* bp := extend_heap (CHUNKSIZE / WSIZE) in
      if bp =? NULL then ret (-1) else ret 0
  end.

Definition mm_realloc (ptr size : Z) : M Z :=
  let oldptr := ptr in
  let* originsize := GET_SIZE (HDRP oldptr) in
  let newsize := wrap32 (size + DSIZE) in
  realloc_tail remove_free_block add_free_block find_fit oldptr originsize newsize.

End Explicit.

(** ** Segregated fit ([mm-segregated-fit.c], built with [BEST_FIT]) *)

Definition SEGREGATED_LIST_SIZE : Z := 20.

(** Address of the slot [GET_ROOT(index)] names; [heap_listp] is [listp]. *)
Definition root_slot (heap_listp index : Z) : Z := heap_listp + index * WSIZE.

Definition GET_ROOT (index : Z) : M Z :=
  let* st := get_state in GET (root_slot (listp st) index).
Definition SET_ROOT (index v : Z) : M unit :=
  let* st := get_state in PUT (root_slot (listp st) index) v.

(** The root slots and the two sentinels [mm_init] of both segregated
    files writes into the fresh [p]. *)
Fixpoint init_roots (n : nat) (p i : Z) : M unit :=
  match n with
  | O => ret tt
  | S n' => PUT (p + (2 + i) * WSIZE) NULL >> init_roots n' p (i + 1)
  end.

(** The list operations have the same text in [mm-segregated-fit.c] and
    in [mm-segregated-buddy.c]; the files differ in [get_class]. *)
Section SegregatedList.

Variable get_class : Z → Z.

(** [int class = get_class(GET_SIZE(HDRP(bp)));], the first line of both
    list operations. *)
Definition block_class (bp : Z) : M Z :=
  let* sz := GET_SIZE (HDRP bp) in ret (get_class sz).

Definition seg_remove_free_block (bp : Z) : M unit :=
  let* class := block_class bp in
  let* root := GET_ROOT class in
  if bp =? root then
    let* root := GET_ROOT class in
    let* succ := GET_SUCC root in
    SET_ROOT class succ
  else
    let* pred := GET_PRED bp in
    let* succ := GET_SUCC bp in
    SET_SUCC pred succ >>
    let* succ := GET_SUCC bp in
    if succ =? NULL then ret tt
    else
      let* pred := GET_PRED bp in
      let* succ := GET_SUCC bp in
      SET_PRED succ pred.

Definition seg_add_free_block (bp : Z) : M unit :=
  let* class := block_class bp in
  let* root := GET_ROOT class in
  SET_SUCC bp root >>
  let* root := GET_ROOT class in
  (if root =? NULL then ret tt
   else let* root := GET_ROOT class in SET_PRED root bp) >>
  SET_ROOT class bp.

End SegregatedList.

Module SegFit.

(** The loop of [get_class]: [prev] is [class_sizes[i - 1]]. *)
Fixpoint get_class_loop (n : nat) (i prev size : Z) : Z :=
  match n with
  | O => SEGREGATED_LIST_SIZE - 1
  | S n' =>
      let cur := wrap32 (Z.shiftl prev 1) in
      if size <=? cur then i else get_class_loop n' (i + 1) cur size
  end.

Definition get_class (size : Z) : Z :=
  if size <? 16 then -1
  else get_class_loop (Z.to_nat (SEGREGATED_LIST_SIZE - 1)) 1 16 size.

Definition block_class := block_class get_class.
Definition remove_free_block := seg_remove_free_block get_class.
Definition add_free_block := seg_add_free_block get_class.

(** The inner [BEST_FIT] loop over one list. *)
Fixpoint find_fit_list (fuel : nat) (asize bp best_bp min_size : Z) : M (Z * Z) :=
  if bp =? NULL then ret (best_bp, min_size)
  else match fuel with
       | O => diverge
       | S fuel' =>
           let* sz := GET_SIZE (HDRP bp) in
           let* succ := GET_SUCC bp in
           if (asize <=? sz) && ((min_size =? 0) || (sz <? min_size))
           then find_fit_list fuel' asize succ bp sz
           else find_fit_list fuel' asize succ best_bp min_size
       end.

(** The outer loop: [n] classes remain, starting at [class]. *)
Fixpoint find_fit_classes (n : nat) (asize class best_bp min_size : Z) : M Z :=
  match n with
  | O => ret best_bp
  | S n' =>
      let* st := get_state in
      let* root := GET_ROOT class in
      let* r := find_fit_list (walk_fuel st) asize root best_bp min_size in
      find_fit_classes n' asize (class + 1) (fst r) (snd r)
  end.

Definition find_fit (asize : Z) : M Z :=
  let class := get_class asize in
  find_fit_classes (Z.to_nat (SEGREGATED_LIST_SIZE - class)) asize class NULL 0.

Definition coalesce := coalesce remove_free_block add_free_block.
Definition extend_heap := extend_heap remove_free_block add_free_block.
Definition place := place remove_free_block add_free_block.
Definition mm_malloc := mm_malloc remove_free_block add_free_block find_fit.
Definition mm_free := mm_free remove_free_block add_free_block.

Definition mm_init : M Z :=
  let* r := mem_sbrk ((SEGREGATED_LIST_SIZE + 4) * WSIZE) in
  match r with
  | None => assign_listp (wrap32 (-1)) >> ret (-1)
  | Some p =>
      assign_listp p >>
      PUT p 0 >>
      PUT (p + 1 * WSIZE) (PACK ((SEGREGATED_LIST_SIZE + 2) * WSIZE) 1) >>
      init_roots (Z.to_nat SEGREGATED_LIST_SIZE) p 0 >>
      PUT (p + (SEGREGATED_LIST_SIZE + 2) * WSIZE)
          (PACK ((SEGREGATED_LIST_SIZE + 2) * WSIZE) 1) >>
      PUT (p + (SEGREGATED_LIST_SIZE + 3) * WSIZE) (PACK 0 1) >>
      assign_listp (p + 2 * WSIZE) >>
      let* bp := extend_heap ((CHUNKSIZE + 2 * DSIZE) / WSIZE) in
      if bp =? NULL then ret (-1) else ret 0
  end.

Definition mm_realloc (ptr size : Z) : M Z :=
  let oldptr := ptr in
  let* originsize := GET_SIZE (HDRP oldptr) in
  let newsize := wrap32 (size + DSIZE) in
  if size =? 0 then ret NULL
  else realloc_tail remove_free_block add_free_block find_fit oldptr originsize newsize.

End SegFit.

(** ** The segregated-fit source over its list operations

    The functions of [mm-segregated-fit.c] that reach
    [remove_free_block] and [add_free_block], with the two list
    operations as parameters: the functions of [SegFit] are the instances
    at the list operations of the source. *)
Module SegFitOver.
Section ListOperations.

Variable remove_free_block : Z → M unit.
Variable add_free_block : Z → M unit.

Definition coalesce := coalesce remove_free_block add_free_block.
Definition extend_heap := extend_heap remove_free_block add_free_block.
Definition place := place remove_free_block add_free_block.
Definition mm_malloc := mm_malloc remove_free_block add_free_block SegFit.find_fit.
Definition mm_free := mm_free remove_free_block add_free_block.

Definition mm_init : M Z :=
  let* r := mem_sbrk ((SEGREGATED_LIST_SIZE + 4) * WSIZE) in
  match r with
  | None => assign_listp (wrap32 (-1)) >> ret (-1)
  | Some p =>
      assign_listp p >>
      PUT p 0 >>
      PUT (p + 1 * WSIZE) (PACK ((SEGREGATED_LIST_SIZE + 2) * WSIZE) 1) >>
      init_roots (Z.to_nat SEGREGATED_LIST_SIZE) p 0 >>
      PUT (p + (SEGREGATED_LIST_SIZE + 2) * WSIZE)
          (PACK ((SEGREGATED_LIST_SIZE + 2) * WSIZE) 1) >>
      PUT (p + (SEGREGATED_LIST_SIZE + 3) * WSIZE) (PACK 0 1) >>
      assign_listp (p + 2 * WSIZE) >>
      let* bp := extend_heap ((CHUNKSIZE + 2 * DSIZE) / WSIZE) in
      if bp =? NULL then ret (-1) else ret 0
  end.

Definition mm_realloc (ptr size : Z) : M Z :=
  let oldptr := ptr in
  let* originsize := GET_SIZE (HDRP oldptr) in
  let newsize := wrap32 (size + DSIZE) in
  if size =? 0 then ret NULL
  else realloc_tail remove_free_block add_free_block SegFit.find_fit
         oldptr originsize newsize.

End ListOperations.
End SegFitOver.

(** ** Segregated buddy system ([mm-segregated-buddy.c], [FIRST_FIT]) *)

Module Buddy.

(** The loop of [get_class]: at most [SEGREGATED_LIST_SIZE - 1] rounds. *)
Fixpoint get_class_loop (n : nat) (next_power_of_2 class size : Z) : Z :=
  match n with
  | O => class
  | S n' =>
      if (next_power_of_2 <? size) && (class + 1 <? SEGREGATED_LIST_SIZE)
      then get_class_loop n' (Z.shiftl next_power_of_2 1) (class + 1) size
      else class
  end.

Definition get_class (size : Z) : Z :=
  get_class_loop (Z.to_nat SEGREGATED_LIST_SIZE) 1 0 size.

Definition block_class := block_class get_class.
Definition remove_free_block := seg_remove_free_block get_class.
Definition add_free_block := seg_add_free_block get_class.

(** The [while (1)] of [coalesce].  [csize] doubles in every round, so it
    is 0 after 32 of them and the loop can no longer leave normally. *)
Fixpoint coalesce_loop (fuel : nat) (root bp csize : Z) : M Z :=
  match fuel with
  | O => diverge
  | S fuel' =>
      let left_buddyp :=
        if negb (Z.land (wrap32 (bp - root)) csize =? 0) then bp - csize else bp in
      let right_buddyp :=
        if negb (Z.land (wrap32 (bp - root)) csize =? 0) then bp else bp + csize in
      let* lalloc := GET_ALLOC (HDRP left_buddyp) in
      if negb (lalloc =? 0) then ret bp
      else
        let* ralloc := GET_ALLOC (HDRP right_buddyp) in
        if negb (ralloc =? 0) then ret bp
        else
          let* lsize := GET_SIZE (HDRP left_buddyp) in
          let* rsize := GET_SIZE (HDRP right_buddyp) in
          if lsize =? rsize then
            remove_free_block left_buddyp >>
            remove_free_block right_buddyp >>
            let csize := wrap32 (Z.shiftl csize 1) in
            PUT (HDRP left_buddyp) (PACK csize 0) >>
            add_free_block left_buddyp >>
            coalesce_loop fuel' root left_buddyp csize
          else ret bp
  end.

Definition coalesce (bp : Z) : M Z :=
  add_free_block bp >>
  let* csize := GET_SIZE (HDRP bp) in
  let* st := get_state in
  let root := listp st + (SEGREGATED_LIST_SIZE + 1) * WSIZE in
  coalesce_loop 64 root bp csize.

Definition extend_heap (words : Z) : M Z :=
  let size := if words mod 2 =? 1 then wrap32 ((words + 1) * WSIZE)
              else wrap32 (words * WSIZE) in
  let* r := mem_sbrk size in
  match r with
  | None => ret NULL
  | Some bp =>
      PUT (HDRP bp) (PACK size 0) >>
      let* next := NEXT_BLKP bp in
      PUT (HDRP next) (PACK 0 1) >>
      coalesce bp
  end.

(** The [while] of [place]: [chunk_size] halves in every round. *)
Fixpoint place_loop (fuel : nat) (bp allocate_size chunk_size : Z) : M Z :=
  if allocate_size =? chunk_size then ret chunk_size
  else match fuel with
       | O => diverge
       | S fuel' =>
           let chunk_size := Z.shiftr chunk_size 1 in
           PUT (HDRP (bp + chunk_size)) (PACK chunk_size 0) >>
           add_free_block (bp + chunk_size) >>
           place_loop fuel' bp allocate_size chunk_size
       end.

Definition place (bp allocate_size : Z) : M unit :=
  remove_free_block bp >>
  let* chunk_size := GET_SIZE (HDRP bp) in
  let* chunk_size := place_loop 64 bp allocate_size chunk_size in
  PUT (HDRP bp) (PACK chunk_size 1).

(** [for (class = get_class(asize); class < SEGREGATED_LIST_SIZE; class++)]
    with the first-fit walk of one list inside. *)
Fixpoint find_fit_list (fuel : nat) (asize bp : Z) : M Z :=
  if bp =? NULL then ret NULL
  else match fuel with
       | O => diverge
       | S fuel' =>
           let* sz := GET_SIZE (HDRP bp) in
           if asize <=? sz then ret bp
           else let* succ := GET_SUCC bp in find_fit_list fuel' asize succ
       end.

Fixpoint find_fit_classes (n : nat) (asize class : Z) : M Z :=
  match n with
  | O => ret NULL
  | S n' =>
      let* st := get_state in
      let* root := GET_ROOT class in
      let* bp := find_fit_list (walk_fuel st) asize root in
      if negb (bp =? NULL) then ret bp
      else find_fit_classes n' asize (class + 1)
  end.

Definition find_fit (asize : Z) : M Z :=
  let class := get_class asize in
  find_fit_classes (Z.to_nat (SEGREGATED_LIST_SIZE - class)) asize class.

(** [while (asize < size + DSIZE) asize <<= 1;] on [size_t]: once [asize]
    has been shifted out to 0 the loop never ends. *)
Fixpoint round_up_loop (fuel : nat) (asize size : Z) : M Z :=
  if asize <? wrap32 (size + DSIZE) then
    match fuel with
    | O => diverge
    | S fuel' => round_up_loop fuel' (wrap32 (Z.shiftl asize 1)) size
    end
  else ret asize.

Definition mm_malloc (size : Z) : M Z :=
  if size =? 0 then ret NULL
  else
    let* asize := round_up_loop 32 16 size in
    let* bp := find_fit asize in
    if negb (bp =? NULL) then place bp asize >> ret bp
    else
      let extendsize := MAX asize CHUNKSIZE in
      let* bp := extend_heap (extendsize / WSIZE) in
      if bp =? NULL then ret NULL
      else place bp asize >> ret bp.

Definition mm_free (bp : Z) : M unit :=
  let* size := GET_SIZE (HDRP bp) in
  PUT (HDRP bp) (PACK size 0) >>
  let* _ := coalesce bp in ret tt.

Definition mm_init : M Z :=
  let* r := mem_sbrk ((SEGREGATED_LIST_SIZE + 4) * WSIZE) in
  match r with
  | None => assign_listp (wrap32 (-1)) >> ret (-1)
  | Some p =>
      assign_listp p >>
      PUT p 0 >>
      PUT (p + 1 * WSIZE) (PACK ((SEGREGATED_LIST_SIZE + 2) * WSIZE) 1) >>
      init_roots (Z.to_nat SEGREGATED_LIST_SIZE) p 0 >>
      PUT (p + (SEGREGATED_LIST_SIZE + 2) * WSIZE)
          (PACK ((SEGREGATED_LIST_SIZE + 2) * WSIZE) 1) >>
      PUT (p + (SEGREGATED_LIST_SIZE + 3) * WSIZE) (PACK 0 1) >>
      assign_listp (p + 2 * WSIZE) >>
      let* bp := extend_heap (CHUNKSIZE / WSIZE) in
      if bp =? NULL then ret (-1) else ret 0
  end.

Definition mm_realloc (ptr size : Z) : M Z :=
  if ptr =? NULL then mm_malloc size
  else if size <=? 0 then mm_free ptr >> ret 0
  else
    let* newptr := mm_malloc size in
    if newptr =? NULL then ret NULL
    else
      let* have := GET_SIZE (HDRP ptr) in
      let copySize := wrap32 (have - DSIZE) in
      let copySize := if size <? copySize then size else copySize in
      memcpy newptr ptr copySize >>
      mm_free ptr >>
      ret newptr.

End Buddy.

(** ** The other searches of [mm-explicit.c]

    The explicit source holds three bodies of [find_fit] and selects one
    of them when it is built; [Explicit.find_fit] above is the body the
    file selects as it stands ([BEST_FIT]).  These are the two others. *)

Module ExplicitFirstFit.

(** [for (bp = free_listp; bp != NULL; bp = GET_SUCC(bp))], returning the
    first block with [asize <= GET_SIZE(HDRP(bp))]. *)
Fixpoint find_fit_loop (fuel : nat) (asize bp : Z) : M Z :=
  if bp =? NULL then ret NULL
  else match fuel with
       | O => diverge
       | S fuel' =>
           let* sz := GET_SIZE (HDRP bp) in
           if asize <=? sz then ret bp
           else let* succ := GET_SUCC bp in find_fit_loop fuel' asize succ
       end.

Definition find_fit (asize : Z) : M Z :=
  let* st := get_state in
  find_fit_loop (walk_fuel st) asize (listp st).

End ExplicitFirstFit.

Module ExplicitWorstFit.

(** The same walk, keeping in [worst_bp] and [max_size] the largest block
    that fits: a block replaces the one kept when
    [max_size == 0 || GET_SIZE(HDRP(bp)) > max_size]. *)
Fixpoint find_fit_loop (fuel : nat) (asize bp worst_bp max_size : Z) : M Z :=
  if bp =? NULL then ret worst_bp
  else match fuel with
       | O => diverge
       | S fuel' =>
           let* sz := GET_SIZE (HDRP bp) in
           let* succ := GET_SUCC bp in
           if (asize <=? sz) && ((max_size =? 0) || (max_size <? sz))
           then find_fit_loop fuel' asize succ bp sz
           else find_fit_loop fuel' asize succ worst_bp max_size
       end.

Definition find_fit (asize : Z) : M Z :=
  let* st := get_state in
  find_fit_loop (walk_fuel st) asize (listp st) NULL 0.

End ExplicitWorstFit.

(** ** The bump allocator ([mm.c])

    The fourth source keeps no free list: every request moves the end of
    the heap, and the size asked for is stored in a word in front of the
    payload. *)

Module Naive.

(** [SIZE_T_SIZE] is [ALIGN(sizeof(size_t))], with a [size_t] of 4 bytes. *)
Definition SIZE_T_SIZE : Z := ALIGN 4.

Definition mm_init : M Z := ret 0.

(** [int newsize = ALIGN(size + SIZE_T_SIZE)]: the conversion to [int]
    is the one [mem_sbrk] applies to its argument. *)
Definition mm_malloc (size : Z) : M Z :=
  let newsize := ALIGN (wrap32 (size + SIZE_T_SIZE)) in
  let* r := mem_sbrk newsize in
  match r with
  | None => ret NULL
  | Some p => PUT p size >> ret (p + SIZE_T_SIZE)
  end.

(** The body of [mm_free] is empty. *)
Definition mm_free (ptr : Z) : M unit := ret tt.

Definition mm_realloc (ptr size : Z) : M Z :=
  let oldptr := ptr in
  let* newptr := mm_malloc size in
  if newptr =? NULL then ret NULL
  else
    let* copySize := GET (oldptr - SIZE_T_SIZE) in
    let copySize := if size <? copySize then size else copySize in
    memcpy newptr oldptr copySize >>
    mm_free oldptr >>
    ret newptr.

End Naive.

(** * Observing a run *)

(** Running a computation and looking at the result. *)
Definition peek {A} (c : M A) (s : heap_state) : option A :=
  match c s with Ok a _ => Some a | _ => None end.

Definition after {A} (c : M A) (s : heap_state) : heap_state :=
  match c s with Ok _ s' => s' | _ => s end.

(** A 1 MiB simulated heap at address 4096, as the driver would set up. *)
Definition fresh : heap_state := mem_init 4096 (2 ^ 20).

(** The heap right after [mm_init] of each variant. *)
Definition explicit_ready : heap_state := after Explicit.mm_init fresh.
Definition segfit_ready : heap_state := after SegFit.mm_init fresh.
Definition buddy_ready : heap_state := after Buddy.mm_init fresh.

(** * Words of the specification *)

(** [align_up(x, a)] on mathematical integers. *)
Definition align_up (x a : Z) : Z := (x + (a - 1)) / a * a.

(** The segregated-fit [class_of] of the specification: the smallest [i]
    with [size <= 2^(i+4)] among the 20 classes, the last class taking
    everything larger. *)
Fixpoint class_of_from (n : nat) (i size : Z) : Z :=
  match n with
  | O => i
  | S n' => if size <=? 2 ^ (i + 4) then i else class_of_from n' (i + 1) size
  end.

Definition class_of_spec (size : Z) : Z :=
  class_of_from (Z.to_nat (SEGREGATED_LIST_SIZE - 1)) 0 size.

(** The coalescing table of the specification, written from its words:
    examine the flag in the footer of the previous block and in the header
    of the next block; insert [bp] as it is, absorb the next block, be
    absorbed by the previous block, or merge all three; write header and
    footer of the merged block before inserting it. *)
Definition write_block (bp total : Z) : M unit :=
  PUT (HDRP bp) (PACK total 0) >> PUT (bp + total - DSIZE) (PACK total 0).

Section CoalesceTable.

Variable remove_free_block : Z → M unit.
Variable add_free_block : Z → M unit.

Definition coalesce_table (bp : Z) : M Z :=
  let* prev := PREV_BLKP bp in
  let* pftr := FTRP prev in
  let* prev_alloc := GET_ALLOC pftr in
  let* psize := GET_SIZE (HDRP prev) in
  let* next := NEXT_BLKP bp in
  let* next_alloc := GET_ALLOC (HDRP next) in
  let* nsize := GET_SIZE (HDRP next) in
  let* size := GET_SIZE (HDRP bp) in
  match prev_alloc =? 0, next_alloc =? 0 with
  | false, false => add_free_block bp >> ret bp
  | false, true =>
      remove_free_block next >>
      write_block bp (size + nsize) >>
      add_free_block bp >> ret bp
  | true, false =>
      remove_free_block prev >>
      write_block prev (psize + size) >>
      add_free_block prev >> ret prev
  | true, true =>
      remove_free_block prev >>
      remove_free_block next >>
      write_block prev (psize + size + nsize) >>
      add_free_block prev >> ret prev
  end.

(** The row of the table once the sizes and flags are known. *)
Definition table_action (bp psize size nsize pflag nflag : Z) : M Z :=
  match pflag =? 0, nflag =? 0 with
  | false, false => add_free_block bp >> ret bp
  | false, true =>
      remove_free_block (bp + size) >>
      write_block bp (size + nsize) >>
      add_free_block bp >> ret bp
  | true, false =>
      remove_free_block (bp - psize) >>
      write_block (bp - psize) (psize + size) >>
      add_free_block (bp - psize) >> ret (bp - psize)
  | true, true =>
      remove_free_block (bp - psize) >>
      remove_free_block (bp + size) >>
      write_block (bp - psize) (psize + size + nsize) >>
      add_free_block (bp - psize) >> ret (bp - psize)
  end.

End CoalesceTable.

(** The heap walk of the testable properties: step from block to block
    with [next_block] until the epilogue header and answer whether no
    free block is followed by a free block. *)
Fixpoint no_adjacent_free_from (fuel : nat) (bp : Z) (prev_free : bool) : M bool :=
  match fuel with
  | O => diverge
  | S fuel' =>
      let* w := GET (HDRP bp) in
      if (size_of w =? 0) && (flag_of w =? 1) then ret true
      else if prev_free && (flag_of w =? 0) then ret false
      else no_adjacent_free_from fuel' (bp + size_of w) (flag_of w =? 0)
  end.

(** The first block of the explicit layout follows the padding word, the
    prologue header and footer, and its own header. *)
Definition explicit_no_adjacent_free : M bool :=
  let* st := get_state in
  no_adjacent_free_from (walk_fuel st) (mem_start_brk st + 4 * WSIZE) false.

(** * Predicates on heaps *)

Definition in_word (p a : Z) : Prop := p ≤ a < p + 4.

(** The heap [st'] has the extent of [st] and the same bytes outside the
    addresses [written]. *)
Definition same_bytes_except (st st' : heap_state) (written : Z → Prop) : Prop :=
  mem_start_brk st' = mem_start_brk st
  ∧ mem_brk st' = mem_brk st
  ∧ mem_max_addr st' = mem_max_addr st
  ∧ ∀ a, ¬ written a → byte_at (mem_bytes st') a = byte_at (mem_bytes st) a.

(** A pointer value: what a 4-byte slot can hold. *)
Definition is_ptr (p : Z) : Prop := 0 ≤ p < 2 ^ 32.

(** Word [a] does not overlap word [b]. *)
Definition apart (a b : Z) : Prop := a + 4 ≤ b ∨ b + 4 ≤ a.

(** The old head [h] is either null or a block whose first link word is
    in the heap and away from the two link words of [bp]. *)
Definition head_apart (st : heap_state) (bp h : Z) : Prop :=
  h = NULL ∨ (in_heap st h 4 = true ∧ (h + 4 ≤ bp ∨ bp + 8 ≤ h)).

(** The old head [h] of a segregated list is either null or a block whose
    first link word is in the heap, away from the two link words of [bp]
    and from the root slot [r]. *)
Definition seg_head_apart (st : heap_state) (bp r h : Z) : Prop :=
  h = NULL
  ∨ (in_heap st h 4 = true ∧ (h + 4 ≤ bp ∨ bp + 8 ≤ h) ∧ (h + 4 ≤ r ∨ r + 4 ≤ h)).

(** The word at [a] is in the heap and encodes [size] and [flag]. *)
Definition tag_at (st : heap_state) (a size flag : Z) : Prop :=
  in_heap st a 4 = true
  ∧ size_of (word_at (mem_bytes st) a) = size
  ∧ flag_of (word_at (mem_bytes st) a) = flag.

(** The block at [bp] and its two neighbours as [coalesce] meets them:
    [size] is the size in the header of [bp]; the footer in front of [bp]
    encodes [psize] and [pflag] and the header [psize] bytes before agrees
    on the size; the header behind [bp] encodes [nsize] and [nflag], and
    when both neighbours are free the footer of the next block agrees on
    its size.  The three blocks lie in a heap of less than 4 GiB. *)
Record neighbourhood (st : heap_state) (bp psize size nsize pflag nflag : Z) : Prop := {
  nb_hdr : ∃ f, tag_at st (bp - 4) size f;
  nb_prev_ftr : tag_at st (bp - 8) psize pflag;
  nb_prev_hdr : ∃ f, tag_at st (bp - psize - 4) psize f;
  nb_next_hdr : tag_at st (bp + size - 4) nsize nflag;
  nb_next_ftr : pflag = 0 → nflag = 0 → ∃ f, tag_at st (bp + size + nsize - 8) nsize f;
  nb_size : 8 ≤ size;
  nb_psize : pflag = 0 → 8 ≤ psize;
  nb_total : psize + size + nsize < 2 ^ 32
}.

(** Running [c] in [st] leaves the extent of the heap and the words at
    the addresses [ws] as they were. *)
Definition keeps (c : M unit) (st : heap_state) (ws : list Z) : Prop :=
  ∀ st', c st = Ok tt st' →
    mem_start_brk st' = mem_start_brk st
    ∧ mem_brk st' = mem_brk st
    ∧ Forall (λ a, word_at (mem_bytes st') a = word_at (mem_bytes st) a) ws.

(** A decision procedure for [keeps] on a concrete heap. *)
Definition keeps_check (c : M unit) (st : heap_state) (ws : list Z) : bool :=
  match c st with
  | Ok _ st' =>
      (mem_start_brk st' =? mem_start_brk st) && (mem_brk st' =? mem_brk st)
      && forallb (λ a, word_at (mem_bytes st') a =? word_at (mem_bytes st) a) ws
  | _ => true
  end.

(** Unlinking the free neighbours of [bp] does not write into the
    boundary tags of the three blocks: the link words of a free block
    point at payloads (or at a root slot), never at a header or footer. *)
Definition unlink_keeps_tags (remove_free_block : Z → M unit)
  (st : heap_state) (bp psize size nsize pflag nflag : Z) : Prop :=
  (pflag ≠ 0 → nflag = 0 →
   keeps (remove_free_block (bp + size)) st [bp - 4; bp + size - 4])
  ∧ (pflag = 0 → nflag ≠ 0 →
     keeps (remove_free_block (bp - psize)) st [bp - 8; bp - 4; bp - psize - 4])
  ∧ (pflag = 0 → nflag = 0 →
     keeps (remove_free_block (bp - psize)) st [bp - 4]
     ∧ keeps (remove_free_block (bp - psize) >> remove_free_block (bp + size)) st
         [bp - 8; bp - 4; bp - psize - 4; bp + size - 4; bp + size + nsize - 8]).

(** The tail the two [remove_free_block] share: unlinking a block that
    is not the head of its list. *)
Definition unlink_inner (bp : Z) : M unit :=
  let* pred := GET_PRED bp in
  let* succ := GET_SUCC bp in
  SET_SUCC pred succ >>
  let* succ := GET_SUCC bp in
  if succ =? NULL then ret tt
  else
    let* pred := GET_PRED bp in
    let* succ := GET_SUCC bp in
    SET_PRED succ pred.

(** The link words of [x] point away from [x] itself and from [ws]. *)
Definition links_apart (st : heap_state) (x : Z) (ws : list Z) : Prop :=
  apart (word_at (mem_bytes st) x + 4) x
  ∧ apart (word_at (mem_bytes st) x + 4) (x + 4)
  ∧ Forall (λ a, apart a (word_at (mem_bytes st) x + 4)
                 ∧ (word_at (mem_bytes st) (x + 4) = NULL
                    ∨ apart a (word_at (mem_bytes st) (x + 4)))) ws.

(** Where unlinking [x] may write: nothing in the heap when [x] is the
    head of the explicit list, the link words of its list neighbours
    otherwise. *)
Definition explicit_unlink_safe (st : heap_state) (x : Z) (ws : list Z) : Prop :=
  x = listp st ∨ links_apart st x ws.

(** In a segregated list the head is unlinked by a store into its root
    slot. *)
Definition seg_unlink_safe (get_class : Z → Z) (st : heap_state) (x : Z) (ws : list Z) : Prop :=
  let slot := root_slot (listp st)
                (get_class (size_of (word_at (mem_bytes st) (x - 4)))) in
  (x = word_at (mem_bytes st) slot ∧ Forall (λ a, apart a slot) ws)
  ∨ (x ≠ word_at (mem_bytes st) slot ∧ links_apart st x ws).

(** ** Free lists as lists of blocks *)

(** The size in the header of the block at [bp], and its two link words
    ([GET_PRED] reads the first word of the payload, [GET_SUCC] the
    second). *)
Definition block_size (st : heap_state) (bp : Z) : Z :=
  size_of (word_at (mem_bytes st) (HDRP bp)).

Definition succ_of (st : heap_state) (bp : Z) : Z := word_at (mem_bytes st) (bp + WSIZE).
Definition pred_of (st : heap_state) (bp : Z) : Z := word_at (mem_bytes st) bp.

(** Following the successor links from [p] visits exactly the blocks [l],
    in this order, and ends at the null pointer; the header and the two
    link words of every block lie in the heap. *)
Fixpoint chain (st : heap_state) (p : Z) (l : list Z) : Prop :=
  match l with
  | [] => p = NULL
  | b :: l' =>
      p = b ∧ b ≠ NULL ∧ in_heap st (HDRP b) 12 = true ∧ chain st (succ_of st b) l'
  end.

(** The first block of [l] that fits, or the null pointer. *)
Definition first_fit (st : heap_state) (asize : Z) (l : list Z) (r : Z) : Prop :=
  (r = NULL ∧ Forall (λ b, block_size st b < asize) l)
  ∨ (∃ l1 l2, l = l1 ++ r :: l2
              ∧ Forall (λ b, block_size st b < asize) l1
              ∧ asize ≤ block_size st r).

(** A smallest block of [l] that fits, or the null pointer. *)
Definition best_fit (st : heap_state) (asize : Z) (l : list Z) (r : Z) : Prop :=
  (r = NULL ∧ Forall (λ b, block_size st b < asize) l)
  ∨ (r ∈ l ∧ asize ≤ block_size st r
     ∧ Forall (λ b, asize ≤ block_size st b → block_size st r ≤ block_size st b) l).

(** A largest block of [l], when it fits, or the null pointer. *)
Definition worst_fit (st : heap_state) (asize : Z) (l : list Z) (r : Z) : Prop :=
  (r = NULL ∧ Forall (λ b, block_size st b < asize) l)
  ∨ (r ∈ l ∧ asize ≤ block_size st r
     ∧ Forall (λ b, block_size st b ≤ block_size st r) l).

(** What the best-fit loop has found among the blocks [seen]: nothing
    yet, or a smallest fitting block [best] of size [min]. *)
Definition best_so_far (st : heap_state) (asize : Z) (seen : list Z) (best min : Z) : Prop :=
  (best = NULL ∧ min = 0 ∧ Forall (λ b, block_size st b < asize) seen)
  ∨ (best ∈ seen ∧ min = block_size st best ∧ asize ≤ min
     ∧ Forall (λ b, asize ≤ block_size st b → min ≤ block_size st b) seen).

(** What the worst-fit loop has found among the blocks [seen]. *)
Definition worst_so_far (st : heap_state) (asize : Z) (seen : list Z) (worst max : Z) : Prop :=
  (worst = NULL ∧ max = 0 ∧ Forall (λ b, block_size st b < asize) seen)
  ∨ (worst ∈ seen ∧ max = block_size st worst ∧ asize ≤ max
     ∧ Forall (λ b, block_size st b ≤ max) seen).

(** The lists of the classes [class], [class + 1], ... are the chains
    [ls] that start in their root slots; [class_lists] asks for all the
    classes up to the last one. *)
Fixpoint seg_chains (st : heap_state) (class : Z) (ls : list (list Z)) : Prop :=
  match ls with
  | [] => True
  | l :: ls' =>
      in_heap st (root_slot (listp st) class) 4 = true
      ∧ chain st (word_at (mem_bytes st) (root_slot (listp st) class)) l
      ∧ seg_chains st (class + 1) ls'
  end.

Definition class_lists (st : heap_state) (class : Z) (ls : list (list Z)) : Prop :=
  length ls = Z.to_nat (SEGREGATED_LIST_SIZE - class) ∧ seg_chains st class ls.

(** The predecessor link of every block of [l] names the block in front
    of it, [prev] for the first one. *)
Fixpoint back_links (st : heap_state) (prev : Z) (l : list Z) : Prop :=
  match l with
  | [] => True
  | b :: l' => pred_of st b = prev ∧ back_links st b l'
  end.

(** The pairs of link words of the blocks [l] do not overlap. *)
Fixpoint spaced (l : list Z) : Prop :=
  match l with
  | [] => True
  | b :: l' => Forall (λ c, b + 8 ≤ c ∨ c + 8 ≤ b) l' ∧ spaced l'
  end.

(** A doubly linked free list: the chain [l] from [head], with the
    predecessor links pointing back from the second block on (the link of
    the first block is not constrained: [remove_free_block] leaves the
    one of a new head as it was), link words that do not overlap, and
    addresses of 32 bits. *)
Definition free_list (st : heap_state) (head : Z) (l : list Z) : Prop :=
  chain st head l
  ∧ match l with [] => True | b :: l' => back_links st b l' end
  ∧ spaced l
  ∧ Forall is_ptr l.

(** The address [a] is one of the 8 bytes of link words of a block of [l]. *)
Definition link_words (l : list Z) (a : Z) : Prop := ∃ b, b ∈ l ∧ b ≤ a < b + 8.

(** The link words of [b] lie outside the block of [c] bytes at [r]
    (from its header up to, but without, the header of the next block). *)
Definition clear_of (r c b : Z) : Prop := b + 8 ≤ r - 4 ∨ r + c - 4 ≤ b.

(** The bytes of the block of [c] bytes at [r], header included. *)
Definition block_bytes (r c a : Z) : Prop := r - 4 ≤ a < r + c - 4.

(** The blocks [l] do not overlap, by the sizes in their headers. *)
Fixpoint separate (st : heap_state) (l : list Z) : Prop :=
  match l with
  | [] => True
  | b :: l' =>
      Forall (λ c, b + block_size st b ≤ c ∨ c + block_size st c ≤ b) l'
      ∧ separate st l'
  end.

(** The free list of the explicit source is [l]: a doubly linked list
    from [free_listp] of blocks of at least 16 bytes that end inside the
    heap and do not overlap. *)
Definition free_blocks (st : heap_state) (l : list Z) : Prop :=
  free_list st (listp st) l
  ∧ Forall (λ b, 16 ≤ block_size st b ∧ b + block_size st b - 4 ≤ mem_brk st) l
  ∧ separate st l.

(** The list [l] without the first occurrence of [x]. *)
Fixpoint drop_block (x : Z) (l : list Z) : list Z :=
  match l with
  | [] => []
  | b :: l' => if b =? x then l' else b :: drop_block x l'
  end.

(** The block at [b] lies outside the [c] bytes of the block at [r]. *)
Definition outside (st : heap_state) (r c b : Z) : Prop :=
  b + block_size st b ≤ r ∨ r + c ≤ b.

(** The word at [w] overlaps no link word of the blocks [l]. *)
Definition off_links (l : list Z) (w : Z) : Prop :=
  Forall (λ b, w + 4 ≤ b ∨ b + 8 ≤ w) l.

(** ** The heap of the segregated-fit source as a sequence of blocks *)

(** The blocks [bs], each given by its payload address, the size and the
    flag in its header, lie one behind the other from the block at [p] up
    to the address [q]: every block has a header and a footer that agree,
    and a size of at least 16 bytes. *)
Fixpoint tiles (st : heap_state) (p : Z) (bs : list (Z * Z * Z)) (q : Z) : Prop :=
  match bs with
  | [] => p = q
  | (b, s, f) :: bs' =>
      b = p ∧ 16 ≤ s ∧ (f = 0 ∨ f = 1)
      ∧ tag_at st (b - 4) s f ∧ tag_at st (b + s - 8) s f
      ∧ tiles st (b + s) bs' q
  end.

(** The head of the list of class [c]: the word in its root slot. *)
Definition seg_root (st : heap_state) (c : Z) : Z :=
  word_at (mem_bytes st) (root_slot (listp st) c).

(** The lists [L] with the list of class [c] replaced by [l]. *)
Definition set_list (L : Z → list Z) (c : Z) (l : list Z) : Z → list Z :=
  λ c', if c' =? c then l else L c'.

(** The heap [mm_init] of the segregated-fit source lays out and the
    other functions keep.  The heap starts at an address of at least 4096
    (no word of the heap is an address below the heap, as in a process
    whose first page is not mapped) and the memory behind it ends at or
    below 2^32; [heap_listp] is the third word of the heap; the
    prologue header in front of it and the prologue footer behind the 20
    root slots hold 88 with the flag set; the blocks [bs] follow up to the
    end of the heap, whose last word is the epilogue header; the root slot
    of every class [c] starts the doubly linked list [L c], and every
    block of that list is a block of [bs] marked free whose size belongs
    to class [c]. *)
Record seg_heap (st : heap_state) (bs : list (Z * Z * Z)) (L : Z → list Z) : Prop := {
  sh_base : 4096 ≤ mem_start_brk st;
  sh_listp : listp st = mem_start_brk st + 8;
  sh_limit : mem_brk st ≤ mem_max_addr st ∧ mem_max_addr st ≤ 2 ^ 32;
  sh_prologue_hdr : word_at (mem_bytes st) (listp st - 4) = PACK 88 1;
  sh_prologue_ftr : tag_at st (listp st + 80) 88 1;
  sh_tiles : tiles st (listp st + 88) bs (mem_brk st);
  sh_epilogue : tag_at st (mem_brk st - 4) 0 1;
  sh_lists : ∀ c, 0 ≤ c < 20 → free_list st (seg_root st c) (L c);
  sh_members : ∀ c b, 0 ≤ c < 20 → b ∈ L c →
                 ∃ s, (b, s, 0) ∈ bs ∧ SegFit.get_class s = c
}.

(** Every block of [bs] that is marked free, the blocks [X] apart, is in
    the list of the class of its size. *)
Definition complete (bs : list (Z * Z * Z)) (L : Z → list Z) (X : list Z) : Prop :=
  ∀ b s, (b, s, 0) ∈ bs → b ∉ X → b ∈ L (SegFit.get_class s).

(** [bp] is in none of the lists. *)
Definition unlisted (L : Z → list Z) (bp : Z) : Prop :=
  ∀ c, 0 ≤ c < 20 → bp ∉ L c.

(** Where the list operations of a well-formed heap write: into the root
    slots and into the link words of blocks marked free. *)
Definition list_words (st : heap_state) (bs : list (Z * Z * Z)) (a : Z) : Prop :=
  listp st ≤ a < listp st + 80 ∨ ∃ b s, (b, s, 0) ∈ bs ∧ b ≤ a < b + 8.

(** The list operation [op] does what [op'] does on every block of at
    least 16 bytes; on smaller blocks it may do anything. *)
Definition same_above_floor (op op' : Z → M unit) : Prop :=
  ∀ bp st, 2 * DSIZE ≤ block_size st bp → op bp st = op' bp st.

(** [R] and [A] are the list operations of the segregated-fit source on
    every block of at least 16 bytes. *)
Definition floor_ops (R A : Z → M unit) : Prop :=
  same_above_floor R SegFit.remove_free_block
  ∧ same_above_floor A SegFit.add_free_block.

(** [op] behind a check of the size floor: the run is marked by
    [Diverge] when the block has less than 16 bytes. *)
Definition floor_checked (op : Z → M unit) (bp : Z) : M unit :=
  λ st, if block_size st bp <? 2 * DSIZE then Diverge else op bp st.

(** * Scenarios *)

(** What S1 looks at: the header of the block [mm_malloc(1)] returns, the
    header of the free remainder behind it, the last word of the heap (the
    epilogue header), and the distance of that word from the first byte
    after the prologue. *)
Definition s1_observation : M (Z * Z * Z * Z) :=
  let* _ := Explicit.mm_init in
  let* st0 := get_state in
  let payload_base := mem_start_brk st0 + 3 * WSIZE in
  let* a := Explicit.mm_malloc 1 in
  let* h := GET (HDRP a) in
  let* rest := NEXT_BLKP a in
  let* hr := GET (HDRP rest) in
  let* st := get_state in
  let epilogue := mem_brk st - WSIZE in
  let* he := GET epilogue in
  ret (h, hr, he, epilogue - payload_base).

(** Two neighbouring 16-byte blocks [p] and [q]; the client writes two
    bytes into [q]; then [p] is grown to 9 bytes, which neither [p] nor
    its (allocated) neighbour can supply. *)
Definition move_scenario : M (Z * Z * Z) :=
  let* p := Explicit.mm_malloc 1 in
  let* q := Explicit.mm_malloc 1 in
  store_byte q 171 >>
  store_byte (q + 1) 205 >>
  let* r := Explicit.mm_realloc p 9 in
  ret (p, q, r).

(** The same on the segregated-fit variant. *)
Definition segfit_move_scenario : M (Z * Z * Z) :=
  let* p := SegFit.mm_malloc 1 in
  let* q := SegFit.mm_malloc 1 in
  store_byte q 171 >>
  store_byte (q + 1) 205 >>
  let* r := SegFit.mm_realloc p 9 in
  ret (p, q, r).

(** A heap with no room left: the region ends right behind the first
    chunk, which two blocks fill completely. *)
Definition explicit_full : heap_state :=
  after (Explicit.mm_init >> Explicit.mm_malloc 1 >> Explicit.mm_malloc 4088)
        (mem_init 4096 4128).

(** An explicit heap in which the 16-byte block at 4112 has just been
    marked free (the list head is the free remainder at 4144), and a
    segregated-fit heap in which the block at 4224 has just been marked
    free while the block at 4192 is the head of the list of class 1. *)
Definition explicit_before_insert : heap_state :=
  after (let* a := Explicit.mm_malloc 1 in
         let* _ := Explicit.mm_malloc 1 in
         PUT (HDRP a) (PACK 16 0) >> PUT (a + 8) (PACK 16 0)) explicit_ready.

Definition segfit_before_insert : heap_state :=
  after (let* a := SegFit.mm_malloc 1 in
         let* _ := SegFit.mm_malloc 1 in
         let* c := SegFit.mm_malloc 1 in
         let* _ := SegFit.mm_malloc 1 in
         SegFit.mm_free a >>
         PUT (HDRP c) (PACK 16 0) >> PUT (c + 8) (PACK 16 0)) segfit_ready.

(** Heaps in which a 112-byte block has just been marked free by
    [mm_free] and is about to be coalesced: in the explicit heap both
    neighbours of the block at 4224 are free, in the segregated-fit heap
    only the block in front of 4304 is. *)
Definition explicit_before_merge : heap_state :=
  after (let* a := Explicit.mm_malloc 100 in
         let* b := Explicit.mm_malloc 100 in
         let* c := Explicit.mm_malloc 100 in
         Explicit.mm_free a >>
         Explicit.mm_free c >>
         PUT (HDRP b) (PACK 112 0) >> PUT (b + 112 - DSIZE) (PACK 112 0))
        explicit_ready.

Definition segfit_before_merge : heap_state :=
  after (let* a := SegFit.mm_malloc 100 in
         let* b := SegFit.mm_malloc 100 in
         let* _ := SegFit.mm_malloc 100 in
         SegFit.mm_free a >>
         PUT (HDRP b) (PACK 112 0) >> PUT (b + 112 - DSIZE) (PACK 112 0))
        segfit_ready.

(** Explicit heaps with free blocks between allocated ones: three blocks
    of 112 bytes at 4112, 4224 and 4336 in front of the free remainder at
    4448.  In [explicit_two_free] the first one has been freed, so the
    list is 4112 (112 bytes), 4448 (3776 bytes); in [explicit_three_free]
    the third one has been freed as well and has merged with the
    remainder, so the list is 4336 (3888 bytes), 4112 (112 bytes). *)
Definition explicit_two_free : heap_state :=
  after (let* a := Explicit.mm_malloc 100 in
         let* _ := Explicit.mm_malloc 100 in
         let* _ := Explicit.mm_malloc 100 in
         Explicit.mm_free a) explicit_ready.

Definition explicit_three_free : heap_state :=
  after (let* a := Explicit.mm_malloc 100 in
         let* _ := Explicit.mm_malloc 100 in
         let* c := Explicit.mm_malloc 100 in
         Explicit.mm_free a >> Explicit.mm_free c) explicit_ready.

(** One allocated block of 112 bytes at 4112 in front of the free
    remainder of 4000 bytes at 4224. *)
Definition explicit_one_block : heap_state :=
  after (Explicit.mm_malloc 100) explicit_ready.

(** A segregated-fit heap with four blocks of 16 bytes of which the first
    and the third have been freed: the list of class 1 is 4224, 4192, and
    the free remainder at 4256 is the list of class 8. *)
Definition segfit_two_free : heap_state :=
  after (let* a := SegFit.mm_malloc 1 in
         let* _ := SegFit.mm_malloc 1 in
         let* c := SegFit.mm_malloc 1 in
         let* _ := SegFit.mm_malloc 1 in
         SegFit.mm_free a >> SegFit.mm_free c) segfit_ready.

(** The bump allocator after one request of 10 bytes: the payload is at
    4104, behind the word that holds the 10. *)
Definition naive_one_block : heap_state := after (Naive.mm_malloc 10) fresh.

(** The lists of the heap right after [mm_init]: the one block of 4112
    bytes is alone in the list of class 9. *)
Definition segfit_ready_lists (c : Z) : list Z := if c =? 9 then [4192] else [].

(** * Tactics for closed goals *)

Ltac by_compute :=
  vm_compute;
  first [ reflexivity
        | discriminate
        | intro; discriminate
        | split; [intro; discriminate | reflexivity] ].

Ltac split_leb :=
  repeat match goal with
    | |- context [?a <=? ?b] => destruct (Z.leb_spec a b)
    end.

Ltac eval_consts :=
  repeat match goal with
    | |- context [wrap32 (Z.shiftl ?c 1)] =>
        let v := eval vm_compute in (wrap32 (Z.shiftl c 1)) in
        change (wrap32 (Z.shiftl c 1)) with v
    | |- context [2 ^ ?e] =>
        let v := eval vm_compute in (2 ^ e) in
        progress change (2 ^ e) with v
    end.

(** * Observations *)

Lemma peek_Ok {A} (c : M A) (s s' : heap_state) (a : A) :
  c s = Ok a s' → peek c s = Some a.
Proof. intros E. unfold peek. rewrite E. reflexivity. Qed.

Lemma explicit_init_ok : peek Explicit.mm_init fresh = Some 0.
Proof. vm_compute. reflexivity. Qed.

Lemma segfit_init_ok : peek SegFit.mm_init fresh = Some 0.
Proof. vm_compute. reflexivity. Qed.

Lemma buddy_init_ok : peek Buddy.mm_init fresh = Some 0.
Proof. vm_compute. reflexivity. Qed.

(** * Header words *)

Lemma size_of_spec (w : Z) : size_of w = 8 * ((w / 8) mod 2 ^ 29).
Proof.
  unfold size_of. change (2 ^ 32 - 8) with (Z.shiftl (Z.ones 29) 3).
  rewrite <- (Z.land_ones (w / 8) 29) by lia.
  change 8 with (2 ^ 3) at 2. rewrite <- Z.shiftr_div_pow2 by lia.
  rewrite Z.mul_comm. change 8 with (2 ^ 3). rewrite <- Z.shiftl_mul_pow2 by lia.
  apply Z.bits_inj'. intros n Hn.
  rewrite Z.land_spec.
  destruct (Z.lt_ge_cases n 3) as [Hlt | Hge].
  - rewrite !Z.shiftl_spec_low by lia. apply andb_false_r.
  - rewrite !Z.shiftl_spec by lia. rewrite Z.land_spec, Z.shiftr_spec by lia.
    replace (n - 3 + 3) with n by lia. reflexivity.
Qed.

Lemma size_of_range (w : Z) : 0 ≤ size_of w ≤ 2 ^ 32 - 8.
Proof.
  rewrite size_of_spec. pose proof (Z.mod_pos_bound (w / 8) (2 ^ 29)).
  change (2 ^ 32) with (8 * 2 ^ 29). lia.
Qed.

Lemma size_of_mod8 (w : Z) : size_of w mod 8 = 0.
Proof. rewrite size_of_spec, Z.mul_comm. apply Z.mod_mul. lia. Qed.

Lemma flag_of_spec (w : Z) : flag_of w = w mod 2.
Proof. unfold flag_of. change 1 with (Z.ones 1). rewrite Z.land_ones by lia. reflexivity. Qed.

Lemma PACK_0 (size : Z) : PACK size 0 = size.
Proof. apply Z.lor_0_r. Qed.

Lemma PACK_1 (size : Z) : size mod 8 = 0 → PACK size 1 = size + 1.
Proof.
  intros H. unfold PACK. pose proof (Z.add_lor_land size 1) as E.
  assert (Z.land size 1 = 0) as E0.
  { change 1 with (Z.ones 1). rewrite Z.land_ones by lia.
    change (2 ^ 1) with 2. pose proof (Z.div_mod size 8). pose proof (Z.mod_pos_bound size 2).
    pose proof (Z.div_mod size 2). lia. }
  lia.
Qed.

Lemma size_of_aligned (size : Z) :
  0 ≤ size < 2 ^ 32 → size mod 8 = 0 → size_of size = size.
Proof.
  intros Hr Hm. rewrite size_of_spec.
  pose proof (Z.div_mod size 8).
  rewrite Z.mod_small; [lia |].
  change (2 ^ 32) with (8 * 2 ^ 29) in Hr. split.
  - apply Z.div_pos; lia.
  - apply Z.div_lt_upper_bound; lia.
Qed.

Lemma wrap32_small (x : Z) : 0 ≤ x < 2 ^ 32 → wrap32 x = x.
Proof. apply Z.mod_small. Qed.

Lemma Z_mod_plus_mult8 (x y : Z) : x mod 8 = 0 → y mod 8 = 0 → (x + y) mod 8 = 0.
Proof.
  intros Hx Hy. rewrite Z.add_mod by lia. rewrite Hx, Hy. reflexivity.
Qed.

Lemma wrap32_ptr (p : Z) : is_ptr p → wrap32 p = p.
Proof. intros H. apply Z.mod_small. exact H. Qed.

Lemma align_up_8_ge (x : Z) : x ≤ align_up x 8.
Proof. unfold align_up. pose proof (Z.div_mod (x + (8 - 1)) 8). pose proof (Z.mod_pos_bound (x + (8 - 1)) 8). lia. Qed.

(** * Loads and stores *)

Lemma byte_at_insert_eq (m : gmap Z Z) (a v : Z) : byte_at (<[a := v]> m) a = v.
Proof. unfold byte_at. rewrite lookup_insert_eq. reflexivity. Qed.

Lemma byte_at_insert_ne (m : gmap Z Z) (a b v : Z) :
  a ≠ b → byte_at (<[a := v]> m) b = byte_at m b.
Proof. intros H. unfold byte_at. rewrite lookup_insert_ne by assumption. reflexivity. Qed.

Lemma byte_at_put_word_other (m : gmap Z Z) (a v b : Z) :
  b < a ∨ a + 4 ≤ b → byte_at (put_word m a v) b = byte_at m b.
Proof.
  intros H. unfold put_word.
  rewrite !byte_at_insert_ne by lia. reflexivity.
Qed.

Lemma word_at_put_word_other (m : gmap Z Z) (a v b : Z) :
  b + 4 ≤ a ∨ a + 4 ≤ b → word_at (put_word m a v) b = word_at m b.
Proof.
  intros H. unfold word_at.
  rewrite !byte_at_put_word_other by lia. reflexivity.
Qed.

Lemma bytes_recombine (v : Z) :
  v mod 2 ^ 8 + 2 ^ 8 * ((v / 2 ^ 8) mod 2 ^ 8)
  + 2 ^ 16 * ((v / 2 ^ 16) mod 2 ^ 8) + 2 ^ 24 * ((v / 2 ^ 24) mod 2 ^ 8)
  = v mod 2 ^ 32.
Proof.
  change (2 ^ 32) with (2 ^ 8 * (2 ^ 8 * (2 ^ 8 * 2 ^ 8))).
  rewrite Z.rem_mul_r by lia.
  rewrite Z.rem_mul_r by lia.
  rewrite Z.rem_mul_r by lia.
  rewrite !Z.div_div by lia.
  change (2 ^ 8 * 2 ^ 8) with (2 ^ 16).
  change (2 ^ 16 * 2 ^ 8) with (2 ^ 24).
  change (2 ^ 24) with (2 ^ 8 * 2 ^ 16) at 1.
  change (2 ^ 16) with (2 ^ 8 * 2 ^ 8) at 1.
  lia.
Qed.

Lemma word_at_put_word_same (m : gmap Z Z) (a v : Z) :
  word_at (put_word m a v) a = wrap32 v.
Proof.
  unfold word_at, put_word, wrap32.
  rewrite byte_at_insert_eq.
  rewrite (byte_at_insert_ne _ (a + 3) (a + 2)) by lia. rewrite byte_at_insert_eq.
  rewrite !(byte_at_insert_ne _ _ (a + 1)) by lia. rewrite byte_at_insert_eq.
  rewrite !(byte_at_insert_ne _ _ a) by lia. rewrite byte_at_insert_eq.
  rewrite <- bytes_recombine. lia.
Qed.

Lemma put_word_commute (m : gmap Z Z) (a v b w : Z) :
  a + 4 ≤ b ∨ b + 4 ≤ a →
  put_word (put_word m a v) b w = put_word (put_word m b w) a v.
Proof.
  intros H. unfold put_word.
  apply map_eq. intros i.
  rewrite !lookup_insert.
  repeat case_decide; try lia; reflexivity.
Qed.

Lemma GET_ok (st : heap_state) (p : Z) :
  in_heap st p 4 = true → GET p st = Ok (word_at (mem_bytes st) p) st.
Proof. intros H. unfold GET. rewrite H. reflexivity. Qed.

Lemma PUT_ok (st : heap_state) (p v : Z) :
  in_heap st p 4 = true →
  PUT p v st = Ok tt (set_bytes (put_word (mem_bytes st) p v) st).
Proof. intros H. unfold PUT. rewrite H. reflexivity. Qed.

Lemma GET_inv (st st' : heap_state) (p w : Z) :
  GET p st = Ok w st' → in_heap st p 4 = true ∧ w = word_at (mem_bytes st) p ∧ st' = st.
Proof.
  unfold GET. destruct (in_heap st p 4); [| discriminate].
  intros E. injection E as E1 E2. auto.
Qed.

Lemma GET_SIZE_of (st : heap_state) (p w : Z) :
  GET p st = Ok w st → GET_SIZE p st = Ok (size_of w) st.
Proof. intros H. unfold GET_SIZE, bind, ret. rewrite H. reflexivity. Qed.

Lemma GET_ALLOC_of (st : heap_state) (p w : Z) :
  GET p st = Ok w st → GET_ALLOC p st = Ok (flag_of w) st.
Proof. intros H. unfold GET_ALLOC, bind, ret. rewrite H. reflexivity. Qed.

Lemma in_heap_spec (st : heap_state) (a n : Z) :
  in_heap st a n = true ↔ mem_start_brk st ≤ a ∧ a + n ≤ mem_brk st.
Proof. unfold in_heap. rewrite andb_true_iff, !Z.leb_le. reflexivity. Qed.

Lemma in_arena_spec (st : heap_state) (a n : Z) :
  in_arena st a n = true ↔ mem_start_brk st ≤ a ∧ a + n ≤ mem_max_addr st.
Proof. unfold in_arena. rewrite andb_true_iff, !Z.leb_le. reflexivity. Qed.

Lemma in_heap_set_bytes (m : gmap Z Z) (st : heap_state) (a n : Z) :
  in_heap (set_bytes m st) a n = in_heap st a n.
Proof. reflexivity. Qed.

(** * Running the monad one step at a time *)

Lemma bind_ret_l {A B} (a : A) (k : A → M B) (s : heap_state) :
  bind (ret a) k s = k a s.
Proof. reflexivity. Qed.

Lemma bind_get_state {B} (k : heap_state → M B) (s : heap_state) :
  bind get_state k s = k s s.
Proof. reflexivity. Qed.

Lemma bind_assoc {A B C} (c : M A) (f : A → M B) (g : B → M C) (s : heap_state) :
  bind (bind c f) g s = bind c (λ x, bind (f x) g) s.
Proof. unfold bind. destruct (c s); reflexivity. Qed.

Lemma bind_Ok {A B} (c : M A) (k : A → M B) (s s' : heap_state) (a : A) :
  c s = Ok a s' → bind c k s = k a s'.
Proof. intros E. unfold bind. rewrite E. reflexivity. Qed.

Lemma bind_GET {B} (p : Z) (k : Z → M B) (s : heap_state) :
  in_heap s p 4 = true → bind (GET p) k s = k (word_at (mem_bytes s) p) s.
Proof. intros H. apply bind_Ok, GET_ok, H. Qed.

Lemma bind_PUT {B} (p v : Z) (k : unit → M B) (s : heap_state) :
  in_heap s p 4 = true →
  bind (PUT p v) k s = k tt (set_bytes (put_word (mem_bytes s) p v) s).
Proof. intros H. apply bind_Ok, PUT_ok, H. Qed.

Lemma bind_cong {A B} (c : M A) (k k' : A → M B) (s : heap_state) :
  (∀ a s', c s = Ok a s' → k a s' = k' a s') → bind c k s = bind c k' s.
Proof.
  intros H. unfold bind. destruct (c s) as [a s' | |]; [apply H |..]; reflexivity.
Qed.

Ltac in_heap_solve :=
  apply in_heap_spec; cbn [mem_start_brk mem_brk set_bytes set_listp set_brk]; lia.

Ltac in_heap_hyps :=
  repeat match goal with
    | H : in_heap _ _ _ = true |- _ => apply in_heap_spec in H
    end.

Ltac mstep :=
  first
    [ rewrite bind_assoc
    | rewrite bind_ret_l
    | rewrite bind_get_state
    | rewrite bind_GET by in_heap_solve
    | rewrite bind_PUT by in_heap_solve
    | rewrite GET_ok by in_heap_solve
    | rewrite PUT_ok by in_heap_solve ];
  cbv beta; cbn [mem_bytes listp set_bytes set_listp].

Ltac frame_facts :=
  repeat match goal with
    | H : Forall _ (_ :: _) |- _ =>
        let H1 := fresh "Fw" in
        apply Forall_cons_1 in H as [H1 H]
    | H : Forall _ [] |- _ => clear H
    end.

Ltac use_facts :=
  repeat match goal with
    | H : word_at _ _ = _ |- _ => rewrite H
    | H : size_of (word_at _ _) = _ |- _ => rewrite H
    | H : flag_of (word_at _ _) = _ |- _ => rewrite H
    end.

Ltac simp_vals :=
  rewrite ?PACK_0; repeat rewrite wrap32_small by lia.

(** * Symbolic execution on a heap at an unknown address *)

Lemma bind_mem_sbrk {B} (incr : Z) (k : option Z → M B) (s : heap_state) :
  0 ≤ incr < 2147483648 →
  mem_brk s + incr ≤ mem_max_addr s →
  bind (mem_sbrk incr) k s = k (Some (mem_brk s)) (set_brk (mem_brk s + incr) s).
Proof.
  intros H0 H1. unfold bind, mem_sbrk.
  assert (to_int32 incr = incr) as ->.
  { unfold to_int32, wrap32. change (2 ^ 32) with 4294967296.
    change (2 ^ 31) with 2147483648.
    rewrite Z.mod_small by lia.
    destruct (Z.ltb_spec incr 2147483648); [reflexivity | lia]. }
  destruct (Z.ltb_spec incr 0); [lia |].
  destruct (Z.ltb_spec (mem_max_addr s) (mem_brk s + incr)); [lia |].
  reflexivity.
Qed.

Lemma bind_set_listp {B} (p : Z) (k : unit → M B) (s : heap_state) :
  bind (assign_listp p) k s = k tt (set_listp p s).
Proof. reflexivity. Qed.

Lemma word_at_put_word_eq (m : gmap Z Z) (a b v : Z) :
  a = b → word_at (put_word m a v) b = wrap32 v.
Proof. intros <-. apply word_at_put_word_same. Qed.

Lemma set_bytes_lit (m m0 : gmap Z Z) (a b c l : Z) :
  set_bytes m (HeapState m0 a b c l) = HeapState m a b c l.
Proof. reflexivity. Qed.

Lemma set_listp_lit (p : Z) (m0 : gmap Z Z) (a b c l : Z) :
  set_listp p (HeapState m0 a b c l) = HeapState m0 a b c p.
Proof. reflexivity. Qed.

Lemma set_brk_lit (x : Z) (m0 : gmap Z Z) (a b c l : Z) :
  set_brk x (HeapState m0 a b c l) = HeapState m0 a x c l.
Proof. reflexivity. Qed.

Lemma find_fit_loop_step (k asize bp best_bp min_size : Z) :
  0 < k →
  Explicit.find_fit_loop (Z.to_nat k) asize bp best_bp min_size
  = if bp =? NULL then ret best_bp
    else
      let* sz := GET_SIZE (HDRP bp) in
      let* succ := GET_SUCC bp in
      if (asize <=? sz) && ((min_size =? 0) || (sz <? min_size))
      then Explicit.find_fit_loop (Z.to_nat (k - 1)) asize succ bp sz
      else Explicit.find_fit_loop (Z.to_nat (k - 1)) asize succ best_bp min_size.
Proof.
  intros Hk. replace (Z.to_nat k) with (S (Z.to_nat (k - 1))) by lia. reflexivity.
Qed.

(** Closed subterms are evaluated, tests are decided by [lia], and loads
    are resolved against the stores that precede them. *)
Ltac is_pos_lit p :=
  lazymatch p with
  | xH => idtac
  | xO ?q => is_pos_lit q
  | xI ?q => is_pos_lit q
  end.

Ltac is_Z_lit z :=
  lazymatch z with
  | Z0 => idtac
  | Zpos ?p => is_pos_lit p
  | Zneg ?p => is_pos_lit p
  end.

Ltac eval_lit :=
  match goal with
  | |- context [wrap32 ?x] =>
      is_Z_lit x; let v := eval vm_compute in (wrap32 x) in change (wrap32 x) with v
  | |- context [size_of ?x] =>
      is_Z_lit x; let v := eval vm_compute in (size_of x) in change (size_of x) with v
  | |- context [flag_of ?x] =>
      is_Z_lit x; let v := eval vm_compute in (flag_of x) in change (flag_of x) with v
  | |- context [to_int32 ?x] =>
      is_Z_lit x; let v := eval vm_compute in (to_int32 x) in change (to_int32 x) with v
  | |- context [PACK ?x ?y] =>
      is_Z_lit x; is_Z_lit y;
      let v := eval vm_compute in (PACK x y) in change (PACK x y) with v
  | |- context [ALIGN ?x] =>
      is_Z_lit x; let v := eval vm_compute in (ALIGN x) in change (ALIGN x) with v
  | |- context [MAX ?x ?y] =>
      is_Z_lit x; is_Z_lit y;
      let v := eval vm_compute in (MAX x y) in change (MAX x y) with v
  | |- context [Z.pow ?x ?y] =>
      is_Z_lit x; is_Z_lit y;
      let v := eval vm_compute in (Z.pow x y) in change (Z.pow x y) with v
  | |- context [Z.mul ?x ?y] =>
      is_Z_lit x; is_Z_lit y;
      let v := eval vm_compute in (Z.mul x y) in change (Z.mul x y) with v
  | |- context [Z.div ?x ?y] =>
      is_Z_lit x; is_Z_lit y;
      let v := eval vm_compute in (Z.div x y) in change (Z.div x y) with v
  | |- context [Z.modulo ?x ?y] =>
      is_Z_lit x; is_Z_lit y;
      let v := eval vm_compute in (Z.modulo x y) in change (Z.modulo x y) with v
  | |- context [Z.add ?x ?y] =>
      is_Z_lit x; is_Z_lit y;
      let v := eval vm_compute in (Z.add x y) in change (Z.add x y) with v
  | |- context [Z.sub ?x ?y] =>
      is_Z_lit x; is_Z_lit y;
      let v := eval vm_compute in (Z.sub x y) in change (Z.sub x y) with v
  end.

Ltac decide_test :=
  match goal with
  | |- context [?a =? ?b] =>
      first [ rewrite (proj2 (Z.eqb_eq a b)) by lia
            | rewrite (proj2 (Z.eqb_neq a b)) by lia ]
  | |- context [?a <=? ?b] =>
      first [ rewrite (proj2 (Z.leb_le a b)) by lia
            | rewrite (proj2 (Z.leb_gt a b)) by lia ]
  | |- context [?a <? ?b] =>
      first [ rewrite (proj2 (Z.ltb_lt a b)) by lia
            | rewrite (proj2 (Z.ltb_ge a b)) by lia ]
  end.

Ltac rd :=
  first [ rewrite word_at_put_word_eq by lia
        | rewrite word_at_put_word_other by lia ].

Ltac in_heap_lit :=
  apply in_heap_spec; cbn [mem_start_brk mem_brk]; lia.

Ltac sx_step :=
  first
    [ rewrite bind_assoc
    | rewrite bind_ret_l
    | rewrite bind_get_state
    | rewrite bind_set_listp
    | rewrite bind_GET by in_heap_lit
    | rewrite bind_PUT by in_heap_lit
    | rewrite bind_mem_sbrk by (cbn [mem_brk mem_max_addr]; lia)
    | rd
    | eval_lit
    | decide_test
    | rewrite find_fit_loop_step by (cbn [mem_start_brk mem_brk]; lia);
      unfold GET_SIZE, GET_SUCC, HDRP, WSIZE, NULL ];
  rewrite ?set_bytes_lit, ?set_listp_lit, ?set_brk_lit;
  cbn [mem_bytes listp mem_brk mem_start_brk mem_max_addr negb andb orb].

(** * Size classes of the segregated-fit variant (C2) *)

Lemma get_class_below (size : Z) : size < 16 → SegFit.get_class size = -1.
Proof.
  intros H. unfold SegFit.get_class.
  destruct (Z.ltb_spec size 16); [reflexivity | lia].
Qed.

Lemma get_class_range (size : Z) :
  16 ≤ size → 1 ≤ SegFit.get_class size ≤ 19.
Proof.
  intros H. unfold SegFit.get_class.
  destruct (Z.ltb_spec size 16); [lia |].
  cbv [SegFit.get_class_loop SEGREGATED_LIST_SIZE Z.sub Z.add Z.opp Z.pos_sub
       Z.to_nat Pos.to_nat Pos.iter_op Init.Nat.add Pos.pred_double Z.succ_double
       Z.pred_double Z.double].
  split_leb; lia.
Qed.

Lemma get_class_neg (size : Z) : SegFit.get_class size = -1 ↔ size < 16.
Proof.
  split.
  - intros E. destruct (Z.lt_ge_cases size 16) as [|Hge]; [assumption |].
    pose proof (get_class_range size Hge). lia.
  - apply get_class_below.
Qed.

(** Above 16 the code and the specification agree on the class. *)
Lemma get_class_above_16 (size : Z) :
  16 < size → SegFit.get_class size = class_of_spec size.
Proof.
  intros H. unfold SegFit.get_class, class_of_spec.
  destruct (Z.ltb_spec size 16); [lia |].
  change (Z.to_nat (SEGREGATED_LIST_SIZE - 1)) with 19%nat.
  cbn [SegFit.get_class_loop class_of_from].
  change SEGREGATED_LIST_SIZE with 20.
  repeat match goal with
    | |- context [?a + ?b] =>
        let v := eval vm_compute in (a + b) in
        progress change (a + b) with v
    end.
  eval_consts.
  split_leb; try lia; reflexivity.
Qed.

(** C2 (the code departs from the claim at the smallest block): a block
    of 16 bytes belongs to class 0 by the specification, whose class 0 is
    everything up to [2^4]; [get_class] starts its search at index 1 and
    files the block under class 1.  Class 0 is never returned. *)
Theorem get_class_16_is_class_1 :
  SegFit.get_class 16 = 1 ∧ class_of_spec 16 = 0.
Proof. split; reflexivity. Qed.

(** The last class absorbs everything beyond [2^23]. *)
Lemma get_class_last (size : Z) : 2 ^ 23 < size → SegFit.get_class size = 19.
Proof.
  intros H. assert (16 < size) as H16 by (change (2 ^ 23) with 8388608 in H; lia).
  rewrite (get_class_above_16 _ H16). unfold class_of_spec.
  change (Z.to_nat (SEGREGATED_LIST_SIZE - 1)) with 19%nat.
  cbn [class_of_from].
  repeat match goal with
    | |- context [?a + ?b] =>
        let v := eval vm_compute in (a + b) in
        progress change (a + b) with v
    end.
  change (2 ^ 23) with 8388608 in H.
  eval_consts. split_leb; try lia; reflexivity.
Qed.

(** The slot the out-of-range answer -1 would name is the prologue
    header in front of the root array. *)
Lemma root_slot_minus_one (heap_listp : Z) :
  root_slot heap_listp (-1) = heap_listp - WSIZE.
Proof. unfold root_slot, WSIZE. lia. Qed.

(** The root array [mm_init] lays out: 20 null words between the
    prologue header and the prologue footer, starting at [heap_listp]. *)
Lemma segfit_root_array :
  peek (let* st := get_state in
        let* hdr := GET (listp st - WSIZE) in
        let* first := GET_ROOT 0 in
        let* last := GET_ROOT (SEGREGATED_LIST_SIZE - 1) in
        let* ftr := GET (listp st + SEGREGATED_LIST_SIZE * WSIZE) in
        ret (listp st - mem_start_brk st, hdr, first, last, ftr)) segfit_ready
  = Some (2 * WSIZE, PACK 88 1, NULL, NULL, PACK 88 1).
Proof. by_compute. Qed.

(** * Reallocation (C3, C9, C4, C1) *)

(** C3 (as amended): in the explicit variant for every request, and in
    the segregated-fit variant for every request other than 0, a block
    whose size is at least [align_up (n + 8) 8] is handed back as it is
    and nothing in the heap changes. *)
Theorem realloc_fits_in_place (st : heap_state) (bp n w : Z) :
  GET (HDRP bp) st = Ok w st →
  0 ≤ n < 2 ^ 32 →
  align_up (n + 8) 8 ≤ size_of w →
  Explicit.mm_realloc bp n st = Ok bp st
  ∧ (n ≠ 0 → SegFit.mm_realloc bp n st = Ok bp st).
Proof.
  intros Hget Hn Hneed.
  pose proof (align_up_8_ge (n + 8)) as Hup.
  pose proof (size_of_range w) as Hw.
  assert (wrap32 (n + DSIZE) = n + 8) as Hwrap.
  { unfold wrap32, DSIZE. apply Z.mod_small. lia. }
  assert (realloc_tail Explicit.remove_free_block Explicit.add_free_block
            Explicit.find_fit bp (size_of w) (n + 8) st = Ok bp st
          ∧ realloc_tail SegFit.remove_free_block SegFit.add_free_block
              SegFit.find_fit bp (size_of w) (n + 8) st = Ok bp st) as [He Hs].
  { unfold realloc_tail.
    destruct (Z.leb_spec (n + 8) (size_of w)); [split; reflexivity | lia]. }
  split.
  - unfold Explicit.mm_realloc, bind. rewrite (GET_SIZE_of _ _ _ Hget), Hwrap. exact He.
  - intros Hnz. unfold SegFit.mm_realloc, bind. rewrite (GET_SIZE_of _ _ _ Hget), Hwrap.
    destruct (Z.eqb_spec n 0); [contradiction | exact Hs].
Qed.

Lemma realloc_fits_in_place_witness :
  let st := after (Explicit.mm_malloc 100) explicit_ready in
  GET (HDRP 4112) st = Ok 113 st
  ∧ align_up (50 + 8) 8 ≤ size_of 113
  ∧ Explicit.mm_realloc 4112 50 st = Ok 4112 st
  ∧ SegFit.mm_realloc 4112 50 st = Ok 4112 st.
Proof.
  intros st.
  assert (GET (HDRP 4112) st = Ok 113 st) as Hget by (vm_compute; reflexivity).
  assert (align_up (50 + 8) 8 ≤ size_of 113) as Hneed by (vm_compute; discriminate).
  assert (0 ≤ 50 < 2 ^ 32) as Hn by (change (2 ^ 32) with 4294967296; lia).
  destruct (realloc_fits_in_place st 4112 50 113 Hget Hn Hneed) as [He Hs].
  split; [exact Hget |]. split; [exact Hneed |]. split; [exact He |].
  apply Hs. discriminate.
Defined.

(** C3 as stated fails: the buddy variant has no in-place path at all (a
    16-byte block asked to hold 1 byte is moved to a new block and the old
    one is freed), and the segregated-fit variant answers a request of 0
    bytes with the null pointer. *)
Lemma realloc_in_place_counterexample :
  (let st := after (Buddy.mm_malloc 1) buddy_ready in
   GET (HDRP 4192) st = Ok 17 st
   ∧ align_up (1 + 8) 8 ≤ size_of 17
   ∧ Buddy.mm_realloc 4192 1 st ≠ Ok 4192 st
   ∧ peek (Buddy.mm_realloc 4192 1) st = Some 4208
   ∧ peek (Buddy.mm_realloc 4192 1 >> GET (HDRP 4192)) st = Some (PACK 16 0))
  ∧ (let st := after (SegFit.mm_malloc 1) segfit_ready in
     GET (HDRP 4192) st = Ok 17 st
     ∧ align_up (0 + 8) 8 ≤ size_of 17
     ∧ SegFit.mm_realloc 4192 0 st ≠ Ok 4192 st
     ∧ peek (SegFit.mm_realloc 4192 0) st = Some NULL).
Proof.
  split; intros st.
  - assert (peek (Buddy.mm_realloc 4192 1) st = Some 4208) as Hp
      by (vm_compute; reflexivity).
    split; [vm_compute; reflexivity |].
    split; [vm_compute; discriminate |].
    split; [intros E; apply peek_Ok in E; rewrite Hp in E; discriminate E |].
    split; [exact Hp | vm_compute; reflexivity].
  - assert (peek (SegFit.mm_realloc 4192 0) st = Some NULL) as Hp
      by (vm_compute; reflexivity).
    split; [vm_compute; reflexivity |].
    split; [vm_compute; discriminate |].
    split; [intros E; apply peek_Ok in E; rewrite Hp in E; discriminate E |].
    exact Hp.
Qed.

(** C9: [mm_realloc(bp, 0)] on an allocated block frees nothing.  The
    explicit variant compares [0 + 8] with the block size and hands [bp]
    back; the segregated-fit variant returns the null pointer; in both the
    heap is left as it was, so the block is still allocated. *)
Theorem realloc_zero_keeps_block (st : heap_state) (bp w : Z) :
  GET (HDRP bp) st = Ok w st →
  16 ≤ size_of w →
  flag_of w = 1 →
  Explicit.mm_realloc bp 0 st = Ok bp st
  ∧ SegFit.mm_realloc bp 0 st = Ok NULL st
  ∧ GET_ALLOC (HDRP bp) st = Ok 1 st.
Proof.
  intros Hget Hsz Hfl. split; [| split].
  - unfold Explicit.mm_realloc, bind. rewrite (GET_SIZE_of _ _ _ Hget).
    unfold realloc_tail. change (wrap32 (0 + DSIZE)) with 8.
    destruct (Z.leb_spec 8 (size_of w)); [reflexivity | lia].
  - unfold SegFit.mm_realloc, bind. rewrite (GET_SIZE_of _ _ _ Hget). reflexivity.
  - rewrite (GET_ALLOC_of _ _ _ Hget), Hfl. reflexivity.
Qed.

Lemma realloc_zero_keeps_block_witness :
  let st := after (SegFit.mm_malloc 100) segfit_ready in
  GET (HDRP 4192) st = Ok 113 st
  ∧ 16 ≤ size_of 113
  ∧ flag_of 113 = 1
  ∧ Explicit.mm_realloc 4192 0 st = Ok 4192 st
  ∧ SegFit.mm_realloc 4192 0 st = Ok NULL st
  ∧ GET_ALLOC (HDRP 4192) st = Ok 1 st.
Proof.
  intros st.
  assert (GET (HDRP 4192) st = Ok 113 st) as Hget by (vm_compute; reflexivity).
  assert (16 ≤ size_of 113) as Hsz by (vm_compute; discriminate).
  assert (flag_of 113 = 1) as Hfl by reflexivity.
  destruct (realloc_zero_keeps_block st 4192 113 Hget Hsz Hfl) as (He & Hs & Ha).
  split; [exact Hget |]. split; [exact Hsz |]. split; [exact Hfl |].
  split; [exact He |]. split; [exact Hs | exact Ha].
Defined.

(** The header of the null pointer lies below every heap. *)
Lemma realloc_null_faults (st : heap_state) (n : Z) :
  0 ≤ mem_start_brk st →
  Explicit.mm_realloc NULL n st = Fault ∧ SegFit.mm_realloc NULL n st = Fault.
Proof.
  intros H.
  assert (GET (HDRP NULL) st = Fault) as E.
  { unfold GET, in_heap, HDRP, NULL, WSIZE.
    destruct (Z.leb_spec (mem_start_brk st) (0 - 4)); [lia | reflexivity]. }
  unfold Explicit.mm_realloc, SegFit.mm_realloc, GET_SIZE, bind. rewrite E.
  split; reflexivity.
Qed.

(** The buddy variant tests for the null pointer first. *)
Lemma buddy_realloc_null (st : heap_state) (n : Z) :
  Buddy.mm_realloc NULL n st = Buddy.mm_malloc n st.
Proof. reflexivity. Qed.

(** C4 (the explicit and segregated-fit sources miss the test the buddy
    source makes): right after initialisation [mm_malloc(1)] returns a
    block, but [mm_realloc(NULL, 1)] first loads the header word 4 bytes
    below the null pointer and faults; only the buddy variant forwards
    the call to [mm_malloc]. *)
Theorem realloc_null_reads_header :
  Explicit.mm_realloc NULL 1 explicit_ready = Fault
  ∧ SegFit.mm_realloc NULL 1 segfit_ready = Fault
  ∧ peek (Explicit.mm_malloc 1) explicit_ready = Some 4112
  ∧ peek (SegFit.mm_malloc 1) segfit_ready = Some 4192
  ∧ Buddy.mm_realloc NULL 1 buddy_ready = Buddy.mm_malloc 1 buddy_ready.
Proof.
  split; [vm_compute; reflexivity |].
  split; [vm_compute; reflexivity |].
  split; [vm_compute; reflexivity |].
  split; [vm_compute; reflexivity | reflexivity].
Qed.

(** The moving path of the two boundary-tag sources in general: when the
    block is too small and its neighbour is allocated or too small as
    well, [size + 8] bytes are requested and [size + 8] bytes are copied. *)
Lemma realloc_tail_moves (remove_free_block add_free_block : Z → M unit)
  (find_fit : Z → M Z) (st : heap_state) (ptr newsize w nw : Z) :
  GET (HDRP ptr) st = Ok w st →
  GET (HDRP (ptr + size_of w)) st = Ok nw st →
  size_of w < newsize →
  flag_of nw ≠ 0 ∨ wrap32 (size_of w + size_of nw) < newsize →
  realloc_tail remove_free_block add_free_block find_fit ptr (size_of w) newsize st
  = (let* newptr := mm_malloc remove_free_block add_free_block find_fit newsize in
     if newptr =? NULL then ret NULL
     else memcpy newptr ptr newsize >>
          mm_free remove_free_block add_free_block ptr >>
          ret newptr) st.
Proof.
  intros Hh Hn Hsmall Hnext.
  apply GET_inv in Hh as (Ih & -> & _). apply GET_inv in Hn as (In & -> & _).
  unfold realloc_tail.
  destruct (Z.leb_spec newsize (size_of (word_at (mem_bytes st) (HDRP ptr)))); [lia |].
  unfold NEXT_BLKP, GET_SIZE, GET_ALLOC in *. unfold HDRP in *. unfold WSIZE in *.
  rewrite !bind_assoc, bind_GET by exact Ih.
  rewrite !bind_ret_l, !bind_assoc, bind_GET by exact In.
  rewrite !bind_ret_l, !bind_assoc, bind_GET by exact In.
  rewrite !bind_ret_l.
  set (sw := size_of (word_at (mem_bytes st) (ptr - 4))) in *.
  set (nw := word_at (mem_bytes st) (ptr + sw - 4)) in *.
  destruct (Z.eqb_spec (flag_of nw) 0) as [E | E]; [| reflexivity].
  destruct Hnext as [Hf | Hs]; [contradiction |].
  destruct (Z.leb_spec newsize (wrap32 (sw + size_of nw))); [lia | reflexivity].
Qed.

Lemma explicit_realloc_moves (st : heap_state) (ptr size w nw : Z) :
  GET (HDRP ptr) st = Ok w st →
  GET (HDRP (ptr + size_of w)) st = Ok nw st →
  size_of w < wrap32 (size + DSIZE) →
  flag_of nw ≠ 0 ∨ wrap32 (size_of w + size_of nw) < wrap32 (size + DSIZE) →
  Explicit.mm_realloc ptr size st
  = (let* newptr := Explicit.mm_malloc (wrap32 (size + DSIZE)) in
     if newptr =? NULL then ret NULL
     else memcpy newptr ptr (wrap32 (size + DSIZE)) >>
          Explicit.mm_free ptr >>
          ret newptr) st.
Proof.
  intros Hh Hn Hsmall Hnext.
  unfold Explicit.mm_realloc. unfold bind at 1. rewrite (GET_SIZE_of _ _ _ Hh).
  exact (realloc_tail_moves _ _ _ st ptr _ w nw Hh Hn Hsmall Hnext).
Qed.

Lemma segfit_realloc_moves (st : heap_state) (ptr size w nw : Z) :
  size ≠ 0 →
  GET (HDRP ptr) st = Ok w st →
  GET (HDRP (ptr + size_of w)) st = Ok nw st →
  size_of w < wrap32 (size + DSIZE) →
  flag_of nw ≠ 0 ∨ wrap32 (size_of w + size_of nw) < wrap32 (size + DSIZE) →
  SegFit.mm_realloc ptr size st
  = (let* newptr := SegFit.mm_malloc (wrap32 (size + DSIZE)) in
     if newptr =? NULL then ret NULL
     else memcpy newptr ptr (wrap32 (size + DSIZE)) >>
          SegFit.mm_free ptr >>
          ret newptr) st.
Proof.
  intros Hz Hh Hn Hsmall Hnext.
  unfold SegFit.mm_realloc. unfold bind at 1. rewrite (GET_SIZE_of _ _ _ Hh).
  destruct (Z.eqb_spec size 0); [contradiction |].
  exact (realloc_tail_moves _ _ _ st ptr _ w nw Hh Hn Hsmall Hnext).
Qed.

(** The buddy source asks for [size] bytes and copies
    [min(have - 8, size)] of them. *)
Lemma buddy_realloc_moves (st : heap_state) (ptr size : Z) :
  ptr ≠ NULL → 0 < size →
  Buddy.mm_realloc ptr size st
  = (let* newptr := Buddy.mm_malloc size in
     if newptr =? NULL then ret NULL
     else
       let* have := GET_SIZE (HDRP ptr) in
       memcpy newptr ptr (Z.min (wrap32 (have - DSIZE)) size) >>
       Buddy.mm_free ptr >>
       ret newptr) st.
Proof.
  intros Hp Hs. unfold Buddy.mm_realloc.
  destruct (Z.eqb_spec ptr NULL); [contradiction |].
  destruct (Z.leb_spec size 0); [lia |].
  apply bind_cong. intros newptr s' _.
  destruct (newptr =? NULL); [reflexivity |].
  apply bind_cong. intros have s'' _.
  destruct (Z.ltb_spec size (wrap32 (have - DSIZE))).
  - rewrite Z.min_r by lia. reflexivity.
  - rewrite Z.min_l by lia. reflexivity.
Qed.

(** C1 (the boundary-tag sources copy [size + 8] bytes where the buddy
    source copies [min(have - 8, size)]).  Two neighbouring 16-byte blocks
    [p] and [q] are allocated, the client writes two bytes into [q], and
    [p] is grown to 9 bytes.  [min(have - 8, n)] is 8, yet in the explicit
    and in the segregated-fit variant the new block is requested with
    [mm_malloc(17)] (a 32-byte block, not the 24 bytes [mm_malloc(9)]
    gives) and 17 bytes are copied: the footer of the old block, the
    header of its neighbour and the first payload byte of the neighbour
    arrive in the new payload.  The old block is freed and the new pointer
    returned. *)
Theorem realloc_move_copies_newsize :
  peek (let* pqr := move_scenario in
        let '(p, q, r) := pqr in
        let* hr := GET (HDRP r) in
        let* f := GET (r + 8) in
        let* hq := GET (r + 12) in
        let* b16 := load_byte (r + 16) in
        let* b17 := load_byte (r + 17) in
        let* hp := GET (HDRP p) in
        ret (p, q, r, hr, (f, hq, b16, b17), hp)) explicit_ready
  = Some (4112, 4128, 4144, PACK 32 1, (PACK 16 1, PACK 16 1, 171, 0), PACK 16 0)
  ∧ peek (let* pqr := segfit_move_scenario in
          let '(p, q, r) := pqr in
          let* hr := GET (HDRP r) in
          let* f := GET (r + 8) in
          let* hq := GET (r + 12) in
          let* b16 := load_byte (r + 16) in
          let* b17 := load_byte (r + 17) in
          let* hp := GET (HDRP p) in
          ret (p, q, r, hr, (f, hq, b16, b17), hp)) segfit_ready
    = Some (4192, 4208, 4224, PACK 32 1, (PACK 16 1, PACK 16 1, 171, 0), PACK 16 0).
Proof. split; by_compute. Qed.

(** The buddy source bounds the copy by the old payload. *)
Lemma buddy_realloc_copies_min :
  peek (let* p := Buddy.mm_malloc 1 in
        let* q := Buddy.mm_malloc 1 in
        store_byte (p + 7) 99 >>
        store_byte (p + 8) 171 >>
        let* r := Buddy.mm_realloc p 9 in
        let* hr := GET (HDRP r) in
        let* b7 := load_byte (r + 7) in
        let* b8 := load_byte (r + 8) in
        let* hp := GET (HDRP p) in
        ret (p, q, r, hr, b7, b8, hp)) buddy_ready
  = Some (4192, 4208, 4224, PACK 32 1, 99, 0, PACK 16 0).
Proof. vm_compute. reflexivity. Qed.

(** When the heap cannot grow, the moving path returns the null pointer
    and changes nothing. *)
Lemma realloc_move_out_of_memory :
  Explicit.mm_realloc 4112 100 explicit_full = Ok NULL explicit_full.
Proof. by_compute. Qed.

(** * Scenarios on the explicit variant (C8, C7) *)

(** C8 (as amended): for a heap at any address with room for the
    preamble and one chunk, [mm_init] seeds the list with a free block of
    16 bytes before it extends the heap by [CHUNKSIZE], and [extend_heap]
    merges the two into one free block of 4112 bytes.  After
    [mm_malloc(1)] the block carries size 16 and flag 1, the remainder
    carries size 4096 and flag 0, and the epilogue header is 4112 bytes
    above the first byte after the prologue. *)
Theorem s1_split_and_place (base cap : Z) :
  0 ≤ base →
  4128 ≤ cap →
  peek s1_observation (mem_init base cap)
  = Some (PACK 16 1, PACK 4096 0, PACK 0 1, 4112).
Proof.
  intros Hb Hc.
  unfold peek, s1_observation, mem_init.
  unfold Explicit.mm_init, Explicit.extend_heap, extend_heap, Explicit.coalesce, coalesce,
    Explicit.mm_malloc, mm_malloc, Explicit.find_fit, Explicit.place, place,
    Explicit.remove_free_block, Explicit.add_free_block, walk_fuel.
  unfold FTRP, NEXT_BLKP, PREV_BLKP, GET_SIZE, GET_ALLOC, GET_PRED, GET_SUCC,
    SET_PRED, SET_SUCC, HDRP, WSIZE, DSIZE, CHUNKSIZE, NULL.
  repeat sx_step.
  unfold ret. do 2 f_equal. lia.
Qed.

Lemma s1_split_and_place_witness :
  0 ≤ 4096 ∧ 4128 ≤ 2 ^ 20
  ∧ peek s1_observation fresh = Some (PACK 16 1, PACK 4096 0, PACK 0 1, 4112).
Proof.
  assert (0 ≤ 4096) as Hb by by_compute.
  assert (4128 ≤ 2 ^ 20) as Hc by by_compute.
  split; [exact Hb |]. split; [exact Hc |].
  exact (s1_split_and_place 4096 (2 ^ 20) Hb Hc).
Defined.

(** C8 as stated (remainder 4080, epilogue at offset 4096) fails. *)
Lemma s1_split_and_place_counterexample :
  peek s1_observation fresh ≠ Some (PACK 16 1, PACK 4080 0, PACK 0 1, 4096).
Proof. by_compute. Qed.

(** The free block [mm_init] leaves behind. *)
Lemma explicit_init_block :
  peek (Explicit.mm_init >> let* st := get_state in
        let* h := GET (HDRP (listp st)) in ret (listp st - mem_start_brk st, h))
       fresh = Some (16, PACK (CHUNKSIZE + 16) 0).
Proof. vm_compute. reflexivity. Qed.

(** Scenario S2: the walker accepts the heap after each call. *)
Lemma s2_coalesce_both_sides :
  peek (let* a := Explicit.mm_malloc 100 in
        let* b := Explicit.mm_malloc 100 in
        let* c := Explicit.mm_malloc 100 in
        let* ok0 := explicit_no_adjacent_free in
        Explicit.mm_free a >>
        let* ok1 := explicit_no_adjacent_free in
        Explicit.mm_free c >>
        let* ok2 := explicit_no_adjacent_free in
        Explicit.mm_free b >>
        let* ok3 := explicit_no_adjacent_free in
        let* st := get_state in
        let* h := GET (HDRP (listp st)) in
        let* succ := GET_SUCC (listp st) in
        ret (ok0, ok1, ok2, ok3, listp st, h, succ)) explicit_ready
  = Some (true, true, true, true, 4112, PACK 4112 0, NULL).
Proof. vm_compute. reflexivity. Qed.

(** C7 (the size adjustment of [mm_malloc] wraps around): the request
    [mm_malloc(2^32 - 1)] is rounded to [ALIGN(7)] = 8 bytes and served
    with a block of 8 bytes, below the 16-byte minimum the source
    documents.  When that block is freed between two allocated blocks the
    two link words [add_free_block] writes land on its own footer and on
    the header of the next block, which now reads size 0, flag 0: a free
    block followed by a block marked free. *)
Theorem wrapped_request_breaks_no_adjacent_free :
  peek (let* a := Explicit.mm_malloc (2 ^ 32 - 1) in
        let* ha := GET (HDRP a) in
        let* b := Explicit.mm_malloc 4096 in
        let* hb := GET (HDRP b) in
        let* ok := explicit_no_adjacent_free in
        Explicit.mm_free a >>
        let* ha' := GET (HDRP a) in
        let* next := NEXT_BLKP a in
        let* hb' := GET (HDRP next) in
        let* ok' := explicit_no_adjacent_free in
        ret (a, ha, b, hb, ok, (ha', next, hb', ok'))) explicit_ready
  = Some (4112, PACK 8 1, 4120, PACK 4104 1, true, (PACK 8 0, 4120, 0, false)).
Proof. vm_compute. reflexivity. Qed.

(** In the segregated-fit variant the same request never reaches a list
    operation: [find_fit(8)] starts at class -1, takes the prologue header
    for a list head and faults on the header of that "block". *)
Lemma segfit_wrapped_request_faults :
  SegFit.get_class (ALIGN (wrap32 (2 ^ 32 - 1 + DSIZE))) = -1
  ∧ peek (GET_ROOT (-1)) segfit_ready = Some (PACK 88 1)
  ∧ SegFit.mm_malloc (2 ^ 32 - 1) segfit_ready = Fault.
Proof.
  split; [reflexivity |]. split; by_compute.
Qed.

(** * Insertion at the head of a free list (C5) *)

Lemma explicit_add_free_block_lifo (st : heap_state) (bp : Z) :
  is_ptr bp → is_ptr (listp st) →
  in_heap st bp 8 = true →
  head_apart st bp (listp st) →
  ∃ st', Explicit.add_free_block bp st = Ok tt st'
    ∧ listp st' = bp
    ∧ GET_PRED bp st' = Ok NULL st'
    ∧ GET_SUCC bp st' = Ok (listp st) st'
    ∧ (listp st ≠ NULL → GET_PRED (listp st) st' = Ok bp st')
    ∧ same_bytes_except st st'
        (λ a, in_word bp a ∨ in_word (bp + 4) a
              ∨ (listp st ≠ NULL ∧ in_word (listp st) a)).
Proof.
  intros Hbp Hh Hin Hapart.
  unfold head_apart in Hapart. in_heap_hyps.
  unfold Explicit.add_free_block, SET_PRED, SET_SUCC, GET_PRED, GET_SUCC, WSIZE, NULL in *.
  repeat mstep.
  destruct (Z.eqb_spec (listp st) 0) as [E0 | Hne].
  - repeat mstep. eexists. split; [reflexivity |].
    cbn [listp set_listp set_bytes mem_bytes].
    split; [reflexivity |].
    split. { repeat mstep. rewrite word_at_put_word_other by lia.
             rewrite word_at_put_word_same. reflexivity. }
    split. { repeat mstep. rewrite word_at_put_word_same, wrap32_ptr by assumption.
             reflexivity. }
    split; [intros; contradiction |].
    unfold same_bytes_except. cbn [mem_start_brk mem_brk mem_max_addr mem_bytes set_listp set_bytes].
    repeat (split; [reflexivity |]).
    intros a Ha. unfold in_word in Ha.
    rewrite !byte_at_put_word_other by lia. reflexivity.
  - destruct Hapart as [E0 | [Hinh Hd]]; [contradiction |]. in_heap_hyps.
    repeat mstep. eexists. split; [reflexivity |].
    cbn [listp set_listp set_bytes mem_bytes].
    split; [reflexivity |].
    split. { repeat mstep. rewrite !word_at_put_word_other by lia.
             rewrite word_at_put_word_same. reflexivity. }
    split. { repeat mstep. rewrite word_at_put_word_other by lia.
             rewrite word_at_put_word_same, wrap32_ptr by assumption. reflexivity. }
    split. { intros _. repeat mstep.
             rewrite word_at_put_word_same, wrap32_ptr by assumption. reflexivity. }
    unfold same_bytes_except. cbn [mem_start_brk mem_brk mem_max_addr mem_bytes set_listp set_bytes].
    repeat (split; [reflexivity |]).
    intros a Ha. unfold in_word in Ha.
    rewrite !byte_at_put_word_other by lia. reflexivity.
Qed.

Lemma seg_add_free_block_lifo (get_class : Z → Z) (st : heap_state) (bp w h : Z) :
  let c := get_class (size_of w) in
  let r := root_slot (listp st) c in
  is_ptr bp → is_ptr h →
  GET (HDRP bp) st = Ok w st →
  GET_ROOT c st = Ok h st →
  in_heap st bp 8 = true →
  (r + 4 ≤ bp ∨ bp + 8 ≤ r) →
  seg_head_apart st bp r h →
  ∃ st', seg_add_free_block get_class bp st = Ok tt st'
    ∧ listp st' = listp st
    ∧ GET_ROOT c st' = Ok bp st'
    ∧ GET_SUCC bp st' = Ok h st'
    ∧ (h ≠ NULL → GET_PRED h st' = Ok bp st')
    ∧ GET_PRED bp st' = Ok (word_at (mem_bytes st) bp) st'
    ∧ same_bytes_except st st'
        (λ a, in_word (bp + 4) a ∨ in_word r a ∨ (h ≠ NULL ∧ in_word h a)).
Proof.
  intros c r Hbp Hh Hhdr Hroot Hin Hr Hapart.
  pose proof (eq_refl : c = get_class (size_of w)) as Ec. clearbody c.
  pose proof (eq_refl : r = root_slot (listp st) c) as Er. clearbody r.
  apply GET_inv in Hhdr as (Hinh & Ew & _).
  unfold GET_ROOT in Hroot. rewrite bind_get_state, <- Er in Hroot.
  apply GET_inv in Hroot as (Hinr & Eh & _).
  unfold seg_head_apart in Hapart. in_heap_hyps.
  unfold seg_add_free_block, block_class, GET_ROOT, SET_ROOT, GET_SIZE,
    SET_PRED, SET_SUCC, GET_PRED, GET_SUCC, HDRP, WSIZE, NULL in *.
  repeat (mstep; rewrite <- ?Ew, <- ?Ec, <- ?Er, <- ?Eh).
  rewrite word_at_put_word_other by lia. rewrite <- Eh.
  destruct (Z.eqb_spec h 0) as [E0 | Hne].
  - repeat (mstep; rewrite <- ?Er). eexists. split; [reflexivity |].
    cbn [listp set_listp set_bytes mem_bytes].
    split; [reflexivity |].
    split. { repeat (mstep; rewrite <- ?Er).
             rewrite word_at_put_word_same, wrap32_ptr by assumption. reflexivity. }
    split. { repeat mstep. rewrite word_at_put_word_other by lia.
             rewrite word_at_put_word_same, wrap32_ptr by assumption. reflexivity. }
    split; [intros; contradiction |].
    split. { repeat mstep. rewrite !word_at_put_word_other by lia. reflexivity. }
    unfold same_bytes_except. cbn [mem_start_brk mem_brk mem_max_addr mem_bytes set_listp set_bytes].
    repeat (split; [reflexivity |]).
    intros a Ha. unfold in_word in Ha.
    rewrite !byte_at_put_word_other by lia. reflexivity.
  - destruct Hapart as [E0 | (Hinh' & Hd1 & Hd2)]; [contradiction |]. in_heap_hyps.
    repeat (mstep; rewrite <- ?Er).
    rewrite word_at_put_word_other by lia. rewrite <- Eh.
    repeat (mstep; rewrite <- ?Er). eexists. split; [reflexivity |].
    cbn [listp set_listp set_bytes mem_bytes].
    split; [reflexivity |].
    split. { repeat (mstep; rewrite <- ?Er).
             rewrite word_at_put_word_same, wrap32_ptr by assumption. reflexivity. }
    split. { repeat mstep. rewrite !word_at_put_word_other by lia.
             rewrite word_at_put_word_same, wrap32_ptr by assumption. reflexivity. }
    split. { intros _. repeat mstep. rewrite word_at_put_word_other by lia.
             rewrite word_at_put_word_same, wrap32_ptr by assumption. reflexivity. }
    split. { repeat mstep. rewrite !word_at_put_word_other by lia. reflexivity. }
    unfold same_bytes_except. cbn [mem_start_brk mem_brk mem_max_addr mem_bytes set_listp set_bytes].
    repeat (split; [reflexivity |]).
    intros a Ha. unfold in_word in Ha.
    rewrite !byte_at_put_word_other by lia. reflexivity.
Qed.

(** C5 (as amended): in every variant [add_free_block] stores the old
    head in [succ_link(bp)], stores [bp] in the [pred_link] of the old
    head when there is one, and makes [bp] the head of its list, touching
    no other byte.  The explicit variant also stores null in
    [pred_link(bp)]; the segregated variants leave that word as it was. *)
Theorem add_free_block_head_insertion
  (st : heap_state) (bp : Z) (get_class : Z → Z) (sst : heap_state) (sbp w h : Z) :
  (is_ptr bp → is_ptr (listp st) →
   in_heap st bp 8 = true →
   head_apart st bp (listp st) →
   ∃ st', Explicit.add_free_block bp st = Ok tt st'
     ∧ listp st' = bp
     ∧ GET_PRED bp st' = Ok NULL st'
     ∧ GET_SUCC bp st' = Ok (listp st) st'
     ∧ (listp st ≠ NULL → GET_PRED (listp st) st' = Ok bp st')
     ∧ same_bytes_except st st'
         (λ a, in_word bp a ∨ in_word (bp + 4) a
               ∨ (listp st ≠ NULL ∧ in_word (listp st) a)))
  ∧ (get_class = SegFit.get_class ∨ get_class = Buddy.get_class →
     is_ptr sbp → is_ptr h →
     GET (HDRP sbp) sst = Ok w sst →
     GET_ROOT (get_class (size_of w)) sst = Ok h sst →
     in_heap sst sbp 8 = true →
     (root_slot (listp sst) (get_class (size_of w)) + 4 ≤ sbp
      ∨ sbp + 8 ≤ root_slot (listp sst) (get_class (size_of w))) →
     seg_head_apart sst sbp (root_slot (listp sst) (get_class (size_of w))) h →
     ∃ st', seg_add_free_block get_class sbp sst = Ok tt st'
       ∧ listp st' = listp sst
       ∧ GET_ROOT (get_class (size_of w)) st' = Ok sbp st'
       ∧ GET_SUCC sbp st' = Ok h st'
       ∧ (h ≠ NULL → GET_PRED h st' = Ok sbp st')
       ∧ GET_PRED sbp st' = Ok (word_at (mem_bytes sst) sbp) st'
       ∧ same_bytes_except sst st'
           (λ a, in_word (sbp + 4) a
                 ∨ in_word (root_slot (listp sst) (get_class (size_of w))) a
                 ∨ (h ≠ NULL ∧ in_word h a))).
Proof.
  split.
  - apply explicit_add_free_block_lifo.
  - intros _. apply seg_add_free_block_lifo.
Qed.

Lemma add_free_block_head_insertion_witness :
  (∃ st', Explicit.add_free_block 4112 explicit_before_insert = Ok tt st'
          ∧ listp st' = 4112
          ∧ GET_SUCC 4112 st' = Ok 4144 st'
          ∧ GET_PRED 4144 st' = Ok 4112 st')
  ∧ (∃ st', SegFit.add_free_block 4224 segfit_before_insert = Ok tt st'
            ∧ GET_ROOT 1 st' = Ok 4224 st'
            ∧ GET_SUCC 4224 st' = Ok 4192 st'
            ∧ GET_PRED 4192 st' = Ok 4224 st').
Proof.
  pose proof (add_free_block_head_insertion
                explicit_before_insert 4112
                SegFit.get_class segfit_before_insert 4224 16 4192) as [He Hs].
  split.
  - destruct He as (st' & Hrun & Hhead & _ & Hsucc & Hpred & _).
    + by_compute.
    + by_compute.
    + by_compute.
    + right. split; [by_compute | right; by_compute].
    + exists st'. split; [exact Hrun |]. split; [exact Hhead |].
      split; [exact Hsucc |]. apply Hpred. by_compute.
  - destruct Hs as (st' & Hrun & _ & Hroot & Hsucc & Hpred & _).
    + left. reflexivity.
    + by_compute.
    + by_compute.
    + by_compute.
    + by_compute.
    + by_compute.
    + left. by_compute.
    + right. split; [by_compute |]. split; [left; by_compute | right; by_compute].
    + exists st'. split; [exact Hrun |]. split; [exact Hroot |].
      split; [exact Hsucc |]. apply Hpred. by_compute.
Defined.

(** C5 as stated fails twice.  In the segregated variants
    [add_free_block] never writes [pred_link(bp)]: a freed block becomes
    the head of its list with whatever its first payload word held.  And
    in every variant removing the head promotes its successor without
    resetting that block's [pred_link], so the new head still points back
    at the block that was removed. *)
Lemma add_free_block_counterexample :
  peek (let* a := SegFit.mm_malloc 1 in
        let* _ := SegFit.mm_malloc 1 in
        PUT a 287454020 >>
        SegFit.mm_free a >>
        let* head := GET_ROOT 1 in
        let* pred := GET_PRED head in
        ret (a, head, pred)) segfit_ready
  = Some (4192, 4192, 287454020)
  ∧ peek (let* a := Buddy.mm_malloc 1 in
          let* _ := Buddy.mm_malloc 1 in
          PUT a 287454020 >>
          Buddy.mm_free a >>
          let* head := GET_ROOT 4 in
          let* pred := GET_PRED head in
          ret (a, head, pred)) buddy_ready
    = Some (4192, 4192, 287454020)
  ∧ peek (let* a := Explicit.mm_malloc 1 in
          let* _ := Explicit.mm_malloc 1 in
          Explicit.mm_free a >>
          let* c := Explicit.mm_malloc 1 in
          let* st := get_state in
          let* pred := GET_PRED (listp st) in
          ret (a, c, listp st, pred)) explicit_ready
    = Some (4112, 4112, 4144, 4112).
Proof.
  split; [by_compute |]. split; by_compute.
Qed.


(** * Coalescing (C6) *)

Lemma table_reads (remove_free_block add_free_block : Z → M unit)
  (st : heap_state) (bp psize size nsize pflag nflag : Z) :
  neighbourhood st bp psize size nsize pflag nflag →
  coalesce_table remove_free_block add_free_block bp st = table_action remove_free_block add_free_block bp psize size nsize pflag nflag st.
Proof.
  intros [(hf & Hh1 & Hh2 & _) (Hp1 & Hp2 & Hp3) (pf & Hq1 & Hq2 & _)
            (Hn1 & Hn2 & Hn3) Hnf Hsz Hpsz Htot].
  in_heap_hyps.
  unfold coalesce_table, table_action.
  unfold PREV_BLKP, FTRP, NEXT_BLKP, GET_ALLOC, GET_SIZE, HDRP, WSIZE, DSIZE.
  repeat mstep. rewrite Hp2.
  repeat mstep. rewrite Hq2.
  replace (bp - psize + psize - 8) with (bp - 8) by lia.
  repeat mstep. rewrite Hp3, Hh2.
  repeat mstep. rewrite Hn2, Hn3.
  reflexivity.
Qed.

Lemma coalesce_action (remove_free_block add_free_block : Z → M unit)
  (st : heap_state) (bp psize size nsize pflag nflag : Z) :
  neighbourhood st bp psize size nsize pflag nflag →
  unlink_keeps_tags remove_free_block st bp psize size nsize pflag nflag →
  coalesce remove_free_block add_free_block bp st
  = table_action remove_free_block add_free_block bp psize size nsize pflag nflag st.
Proof.
  intros [(hf & Hh1 & Hh2 & _) (Hp1 & Hp2 & Hp3) (pf & Hq1 & Hq2 & _)
            (Hn1 & Hn2 & Hn3) Hnf Hsz Hpsz Htot] (K2 & K3 & K4).
  in_heap_hyps.
  assert (size mod 8 = 0) as Hm by (rewrite <- Hh2; apply size_of_mod8).
  assert (psize mod 8 = 0) as Hpm by (rewrite <- Hp2; apply size_of_mod8).
  assert (nsize mod 8 = 0) as Hnm by (rewrite <- Hn2; apply size_of_mod8).
  assert (0 ≤ size) as Hs0 by (rewrite <- Hh2; apply size_of_range).
  assert (0 ≤ psize) as Hp0 by (rewrite <- Hp2; apply size_of_range).
  assert (0 ≤ nsize) as Hn0 by (rewrite <- Hn2; apply size_of_range).
  unfold coalesce, table_action.
  unfold PREV_BLKP, FTRP, NEXT_BLKP, GET_ALLOC, GET_SIZE, HDRP, WSIZE, DSIZE.
  repeat mstep. rewrite Hp2.
  repeat mstep. rewrite Hq2.
  replace (bp - psize + psize - 8) with (bp - 8) by lia.
  repeat mstep. rewrite Hp3, Hh2.
  repeat mstep. rewrite Hn3.
  destruct (Z.eqb_spec pflag 0) as [Ep | Ep];
    destruct (Z.eqb_spec nflag 0) as [En | En]; cbn [negb andb].
  - (* both free *)
    destruct (K4 Ep En) as [K4a K4b].
    destruct (Hnf Ep En) as (nf & Hf1 & Hf2 & _). in_heap_hyps.
    specialize (Hpsz Ep).
    repeat mstep. rewrite Hp2.
    apply bind_cong. intros [] st1 E1.
    destruct (K4a st1 E1) as (Ex1 & Ex2 & F1). frame_facts.
    repeat (mstep; use_facts).
    apply bind_cong. intros [] st2 E2.
    assert (bind (remove_free_block (bp - psize))
              (λ _, remove_free_block (bp + size)) st = Ok tt st2) as E12
      by (unfold bind; rewrite E1; exact E2).
    destruct (K4b st2 E12) as (Ey1 & Ey2 & F2). frame_facts.
    unfold write_block, HDRP, WSIZE, DSIZE.
    replace (bp - psize + (psize + size + nsize) - 8) with (bp + size + nsize - 8) by lia.
    repeat (mstep; rewrite ?word_at_put_word_other by lia; use_facts; simp_vals).
    rewrite !(wrap32_small (psize + nsize)) by lia.
    rewrite !(wrap32_small (size + (psize + nsize))) by lia.
    replace (size + (psize + nsize)) with (psize + size + nsize) by lia.
    reflexivity.
  - (* previous block free *)
    specialize (Hpsz Ep).
    repeat mstep. rewrite Hp2.
    apply bind_cong. intros [] st1 E1.
    destruct (K3 Ep En st1 E1) as (Ex1 & Ex2 & F1). frame_facts.
    unfold write_block, HDRP, WSIZE, DSIZE.
    replace (bp - psize + (psize + size) - 8) with (bp + size - 8) by lia.
    repeat (mstep; rewrite ?word_at_put_word_other by lia; use_facts; simp_vals).
    replace (size + psize) with (psize + size) by lia.
    rewrite put_word_commute by lia.
    reflexivity.
  - (* next block free *)
    repeat mstep. rewrite Hh2.
    apply bind_cong. intros [] st1 E1.
    destruct (K2 Ep En st1 E1) as (Ex1 & Ex2 & F1). frame_facts.
    unfold write_block, HDRP, WSIZE, DSIZE.
    repeat (mstep; rewrite ?word_at_put_word_other by lia; use_facts; simp_vals).
    rewrite word_at_put_word_same, wrap32_small by lia.
    rewrite size_of_aligned by first [ lia | apply Z_mod_plus_mult8; assumption ].
    rewrite (bind_PUT (bp - 4)) by in_heap_solve.
    reflexivity.
  - reflexivity.
Qed.

Lemma coalesce_table_refines (remove_free_block add_free_block : Z → M unit)
  (st : heap_state) (bp psize size nsize pflag nflag : Z) :
  neighbourhood st bp psize size nsize pflag nflag →
  unlink_keeps_tags remove_free_block st bp psize size nsize pflag nflag →
  coalesce remove_free_block add_free_block bp st = coalesce_table remove_free_block add_free_block bp st.
Proof.
  intros Hn Hk. rewrite (table_reads _ _ _ _ _ _ _ _ _ Hn).
  apply coalesce_action; assumption.
Qed.

Lemma keeps_seq (c1 c2 : M unit) (st : heap_state) (ws : list Z) :
  keeps c1 st ws →
  (∀ st1, c1 st = Ok tt st1 → keeps c2 st1 ws) →
  keeps (c1 >> c2) st ws.
Proof.
  intros H1 H2 st' E. unfold bind in E. unfold keeps in H1.
  destruct (c1 st) as [[] st1 | |]; try discriminate.
  destruct (H1 st1 eq_refl) as (Ha & Hb & Hc).
  destruct (H2 st1 eq_refl st' E) as (Ha' & Hb' & Hc').
  split; [congruence |]. split; [congruence |].
  rewrite Forall_forall in *. intros a Hin.
  rewrite (Hc' a Hin). apply Hc, Hin.
Qed.

Lemma unlink_inner_keeps (st : heap_state) (x : Z) (ws : list Z) :
  links_apart st x ws → keeps (unlink_inner x) st ws.
Proof.
  intros (Hp0 & Hp4 & Hws) st' E. unfold unlink_inner in E.
  unfold apart in *.
  unfold GET_PRED, GET_SUCC, SET_PRED, SET_SUCC, WSIZE, NULL in *.
  destruct (in_heap st x 4) eqn:I0;
    [| unfold bind at 1 in E; unfold GET in E; rewrite I0 in E; discriminate].
  rewrite bind_GET in E by exact I0.
  destruct (in_heap st (x + 4) 4) eqn:I4;
    [| unfold bind at 1 in E; unfold GET in E; rewrite I4 in E; discriminate].
  rewrite bind_GET in E by exact I4.
  set (pred := word_at (mem_bytes st) x) in *.
  set (succ := word_at (mem_bytes st) (x + 4)) in *.
  destruct (in_heap st (pred + 4) 4) eqn:Ip;
    [| unfold bind at 1 in E; unfold PUT in E; rewrite Ip in E; discriminate].
  rewrite bind_PUT in E by exact Ip.
  rewrite bind_GET in E by (rewrite in_heap_set_bytes; exact I4).
  cbn [mem_bytes set_bytes] in E.
  rewrite word_at_put_word_other in E by lia. fold succ in E.
  destruct (Z.eqb_spec succ 0) as [Es | Es].
  - injection E as <-. cbn. repeat split; try reflexivity.
    rewrite Forall_forall in *. intros a Ha. destruct (Hws a Ha) as [Hd _].
    apply word_at_put_word_other. lia.
  - rewrite bind_GET in E by (rewrite in_heap_set_bytes; exact I0).
    rewrite bind_GET in E by (rewrite in_heap_set_bytes; exact I4).
    cbn [mem_bytes set_bytes] in E.
    rewrite !word_at_put_word_other in E by lia. fold succ pred in E.
    unfold PUT in E. rewrite in_heap_set_bytes in E.
    destruct (in_heap st succ 4); [| discriminate].
    injection E as <-. cbn. repeat split; try reflexivity.
    rewrite Forall_forall in *. intros a Ha. destruct (Hws a Ha) as [Hd [Hs | Hs]];
      [contradiction |].
    rewrite !word_at_put_word_other by lia. reflexivity.
Qed.

(** Unlinking [x] from the explicit list writes nothing into the heap
    when [x] is the head, and otherwise at most the successor slot of its
    predecessor and the predecessor slot of its successor. *)
Lemma explicit_remove_keeps (st : heap_state) (x : Z) (ws : list Z) :
  x = listp st ∨ links_apart st x ws →
  keeps (Explicit.remove_free_block x) st ws.
Proof.
  intros H st' E. unfold Explicit.remove_free_block in E.
  rewrite bind_get_state in E.
  destruct (Z.eqb_spec x (listp st)) as [Ex | Ex].
  - unfold GET_SUCC, bind, GET in E.
    destruct (in_heap st (x + WSIZE) 4); [| discriminate].
    injection E as <-. cbn. repeat split; try reflexivity.
    apply Forall_forall. reflexivity.
  - destruct H as [? | H]; [contradiction |].
    exact (unlink_inner_keeps st x ws H st' E).
Qed.

(** In the segregated lists the head is unlinked by a store into its
    root slot. *)
Lemma seg_remove_keeps (get_class : Z → Z) (st : heap_state) (x : Z) (ws : list Z) :
  let slot := root_slot (listp st)
                (get_class (size_of (word_at (mem_bytes st) (x - 4)))) in
  (x = word_at (mem_bytes st) slot ∧ Forall (λ a, apart a slot) ws)
  ∨ (x ≠ word_at (mem_bytes st) slot ∧ links_apart st x ws) →
  keeps (seg_remove_free_block get_class x) st ws.
Proof.
  intros slot H st' E. unfold seg_remove_free_block, block_class in E.
  unfold GET_ROOT, SET_ROOT, GET_SIZE, HDRP, WSIZE in E.
  destruct (in_heap st (x - 4) 4) eqn:Ih;
    [| rewrite !bind_assoc in E; unfold bind at 1 in E; unfold GET in E;
       rewrite Ih in E; discriminate].
  rewrite !bind_assoc, bind_GET in E by exact Ih.
  rewrite bind_ret_l, bind_ret_l, bind_assoc, bind_get_state in E.
  fold slot in E.
  destruct (in_heap st slot 4) eqn:Is;
    [| unfold bind at 1 in E; unfold GET in E; rewrite Is in E; discriminate].
  rewrite bind_GET in E by exact Is.
  destruct (Z.eqb_spec x (word_at (mem_bytes st) slot)) as [Ex | Ex].
  - destruct H as [[_ Hws] | [? _]]; [| contradiction].
    rewrite bind_assoc, bind_get_state in E. fold slot in E.
    rewrite bind_GET in E by exact Is.
    unfold GET_SUCC in E. unfold bind at 1 in E. unfold GET at 1 in E.
    destruct (in_heap st (word_at (mem_bytes st) slot + WSIZE) 4); [| discriminate].
    rewrite bind_get_state in E. fold slot in E.
    rewrite PUT_ok in E by exact Is. injection E as <-. cbn.
    repeat split; try reflexivity.
    rewrite Forall_forall in *. intros a Ha. specialize (Hws a Ha). unfold apart in Hws.
    apply word_at_put_word_other. lia.
  - destruct H as [[? _] | [_ H]]; [contradiction |].
    exact (unlink_inner_keeps st x ws H st' E).
Qed.

Lemma keeps_weaken (c : M unit) (st : heap_state) (ws ws' : list Z) :
  ws' ⊆ ws → keeps c st ws → keeps c st ws'.
Proof.
  intros Hsub H st' E. destruct (H st' E) as (Ha & Hb & Hc).
  split; [exact Ha |]. split; [exact Hb |].
  rewrite Forall_forall in *. intros a Hin. apply Hc, Hsub, Hin.
Qed.

Ltac sub_tags :=
  let a := fresh "a" in
  let Ha := fresh "Ha" in
  intros a Ha; rewrite ?list_elem_of_In in *; simpl in *; tauto.

Lemma unlink_keeps_tags_of_safe (remove_free_block : Z → M unit)
  (safe : heap_state → Z → list Z → Prop)
  (st : heap_state) (bp psize size nsize pflag nflag : Z) :
  let tags := [bp - 8; bp - 4; bp - psize - 4; bp + size - 4; bp + size + nsize - 8] in
  (∀ s x ws, safe s x ws → keeps (remove_free_block x) s ws) →
  (pflag = 0 → safe st (bp - psize) tags) →
  (pflag ≠ 0 → nflag = 0 → safe st (bp + size) tags) →
  (pflag = 0 → nflag = 0 →
   ∀ st1, remove_free_block (bp - psize) st = Ok tt st1 → safe st1 (bp + size) tags) →
  unlink_keeps_tags remove_free_block st bp psize size nsize pflag nflag.
Proof.
  intros tags Hsafe Hprev Hnext Hboth. unfold unlink_keeps_tags.
  split; [| split].
  - intros Hp Hn. apply (keeps_weaken _ _ tags); [| apply Hsafe, Hnext; assumption].
    unfold tags. sub_tags.
  - intros Hp Hn. apply (keeps_weaken _ _ tags); [| apply Hsafe, Hprev; assumption].
    unfold tags. sub_tags.
  - intros Hp Hn. split.
    + apply (keeps_weaken _ _ tags); [| apply Hsafe, Hprev; assumption].
      unfold tags. sub_tags.
    + apply keeps_seq; [apply Hsafe, Hprev; assumption |].
      intros st1 E1. apply Hsafe, (Hboth Hp Hn st1 E1).
Qed.

Lemma explicit_unlink_keeps_tags (st : heap_state) (bp psize size nsize pflag nflag : Z) :
  let tags := [bp - 8; bp - 4; bp - psize - 4; bp + size - 4; bp + size + nsize - 8] in
  (pflag = 0 → explicit_unlink_safe st (bp - psize) tags) →
  (pflag ≠ 0 → nflag = 0 → explicit_unlink_safe st (bp + size) tags) →
  (pflag = 0 → nflag = 0 →
   ∀ st1, Explicit.remove_free_block (bp - psize) st = Ok tt st1 →
          explicit_unlink_safe st1 (bp + size) tags) →
  unlink_keeps_tags Explicit.remove_free_block st bp psize size nsize pflag nflag.
Proof.
  intros tags. apply unlink_keeps_tags_of_safe.
  intros s x ws. apply explicit_remove_keeps.
Qed.

Lemma segfit_unlink_keeps_tags (st : heap_state) (bp psize size nsize pflag nflag : Z) :
  let tags := [bp - 8; bp - 4; bp - psize - 4; bp + size - 4; bp + size + nsize - 8] in
  (pflag = 0 → seg_unlink_safe SegFit.get_class st (bp - psize) tags) →
  (pflag ≠ 0 → nflag = 0 → seg_unlink_safe SegFit.get_class st (bp + size) tags) →
  (pflag = 0 → nflag = 0 →
   ∀ st1, SegFit.remove_free_block (bp - psize) st = Ok tt st1 →
          seg_unlink_safe SegFit.get_class st1 (bp + size) tags) →
  unlink_keeps_tags SegFit.remove_free_block st bp psize size nsize pflag nflag.
Proof.
  intros tags. apply unlink_keeps_tags_of_safe.
  intros s x ws. apply (seg_remove_keeps SegFit.get_class).
Qed.

(** What [write_block] leaves behind: header and footer of the merged
    block both read the combined size with the flag clear. *)
Lemma write_block_tags (st : heap_state) (b total : Z) :
  in_heap st (b - 4) 4 = true →
  in_heap st (b + total - 8) 4 = true →
  8 ≤ total < 2 ^ 32 →
  ∃ st', write_block b total st = Ok tt st'
    ∧ GET (HDRP b) st' = Ok (PACK total 0) st'
    ∧ GET (b + total - DSIZE) st' = Ok (PACK total 0) st'
    ∧ listp st' = listp st
    ∧ same_bytes_except st st' (λ a, in_word (b - 4) a ∨ in_word (b + total - 8) a).
Proof.
  intros Hh Hf Ht. in_heap_hyps.
  unfold write_block, HDRP, WSIZE, DSIZE.
  repeat mstep. eexists. split; [reflexivity |].
  split. { repeat mstep. rewrite word_at_put_word_other by lia.
           rewrite word_at_put_word_same, PACK_0, wrap32_small by lia. reflexivity. }
  split. { repeat mstep.
           rewrite word_at_put_word_same, PACK_0, wrap32_small by lia. reflexivity. }
  split; [reflexivity |].
  unfold same_bytes_except. cbn [mem_start_brk mem_brk mem_max_addr mem_bytes set_bytes].
  repeat (split; [reflexivity |]).
  intros a Ha. unfold in_word in Ha.
  rewrite !byte_at_put_word_other by lia. reflexivity.
Qed.

Lemma keeps_check_sound (c : M unit) (st : heap_state) (ws : list Z) :
  keeps_check c st ws = true → keeps c st ws.
Proof.
  unfold keeps_check, keeps. intros H st' E. rewrite E in H.
  rewrite !andb_true_iff, !Z.eqb_eq in H. destruct H as [[H1 H2] H3].
  split; [exact H1 |]. split; [exact H2 |].
  rewrite forallb_forall in H3. apply Forall_forall. intros a Ha.
  apply Z.eqb_eq, H3. apply list_elem_of_In. exact Ha.
Qed.

(** C6: on a block whose neighbourhood carries consistent boundary tags,
    [coalesce] of the explicit and of the segregated-fit variant is the
    four-case table of the specification: the flags of the footer in
    front and of the header behind select the row; the free neighbours
    are unlinked; header and footer of the merged block are written with
    the sum of the sizes; and only then is the block inserted. *)
Theorem coalesce_follows_table
  (st : heap_state) (bp psize size nsize pflag nflag : Z) :
  neighbourhood st bp psize size nsize pflag nflag →
  (unlink_keeps_tags Explicit.remove_free_block st bp psize size nsize pflag nflag →
   Explicit.coalesce bp st
   = coalesce_table Explicit.remove_free_block Explicit.add_free_block bp st)
  ∧ (unlink_keeps_tags SegFit.remove_free_block st bp psize size nsize pflag nflag →
     SegFit.coalesce bp st
     = coalesce_table SegFit.remove_free_block SegFit.add_free_block bp st).
Proof.
  intros Hn. split; intros Hk.
  - exact (coalesce_table_refines Explicit.remove_free_block Explicit.add_free_block
             st bp psize size nsize pflag nflag Hn Hk).
  - exact (coalesce_table_refines SegFit.remove_free_block SegFit.add_free_block
             st bp psize size nsize pflag nflag Hn Hk).
Qed.

Ltac tag_compute :=
  first [ eexists; unfold tag_at; split; [by_compute | split; [by_compute | reflexivity]]
        | unfold tag_at; split; [by_compute | split; by_compute] ].

Ltac keeps_compute := apply keeps_check_sound; vm_compute; reflexivity.

Lemma coalesce_follows_table_witness :
  peek (Explicit.coalesce 4224) explicit_before_merge = Some 4112
  ∧ peek (Explicit.coalesce 4224 >> GET (HDRP 4112)) explicit_before_merge
    = Some (PACK 4112 0)
  ∧ Explicit.coalesce 4224 explicit_before_merge
    = coalesce_table Explicit.remove_free_block Explicit.add_free_block 4224
        explicit_before_merge
  ∧ SegFit.coalesce 4304 segfit_before_merge
    = coalesce_table SegFit.remove_free_block SegFit.add_free_block 4304
        segfit_before_merge.
Proof.
  split; [by_compute |]. split; [by_compute |].
  split.
  - assert (neighbourhood explicit_before_merge 4224 112 112 3888 0 0) as Hn.
    { constructor;
        [ tag_compute | tag_compute | tag_compute | tag_compute
        | intros _ _; tag_compute | by_compute | intros _; by_compute | by_compute ]. }
    apply (coalesce_follows_table _ _ _ _ _ _ _ Hn).
    split; [intros H; exfalso; apply H; reflexivity |].
    split; [intros _ H; exfalso; apply H; reflexivity |].
    intros _ _. split; keeps_compute.
  - assert (neighbourhood segfit_before_merge 4304 112 112 112 0 1) as Hn.
    { constructor;
        [ tag_compute | tag_compute | tag_compute | tag_compute
        | intros _ H; discriminate H | by_compute | intros _; by_compute | by_compute ]. }
    apply (coalesce_follows_table _ _ _ _ _ _ _ Hn).
    split; [intros H; exfalso; apply H; reflexivity |].
    split; [| intros _ H; discriminate H].
    intros _ _. keeps_compute.
Defined.

(** * Facts about concrete heaps *)

(** Facts about a concrete heap are decided by evaluation, one conjunct
    and one list element at a time. *)
Ltac heap_fact :=
  cbv beta; cbn [app chain back_links spaced separate seg_chains concat];
  lazymatch goal with
  | |- True => exact I
  | |- _ ∧ _ => split; heap_fact
  | |- _ ∨ _ => first [solve [left; heap_fact] | solve [right; heap_fact]]
  | |- Forall _ [] => apply Forall_nil_2
  | |- Forall _ (_ :: _) => apply Forall_cons_2; heap_fact
  | |- Exists _ (_ :: _) =>
      first [solve [apply Exists_cons_hd; heap_fact] | apply Exists_cons_tl; heap_fact]
  | |- _ ∈ _ :: _ =>
      first [apply list_elem_of_here | apply list_elem_of_further; heap_fact]
  | |- free_blocks _ _ => unfold free_blocks; heap_fact
  | |- free_list _ _ _ => unfold free_list; heap_fact
  | |- class_lists _ _ _ => unfold class_lists; heap_fact
  | |- is_ptr _ => unfold is_ptr; heap_fact
  | |- outside _ _ _ _ => unfold outside; heap_fact
  | |- tag_at _ _ _ _ => unfold tag_at; heap_fact
  | |- neighbourhood _ _ _ _ _ _ _ => constructor; heap_fact
  | |- ∃ _, _ => eexists; heap_fact
  | |- _ → _ => let H := fresh in intro H; first [discriminate H | clear H; heap_fact]
  | |- _ => by_compute
  end.

(** The test of a conditional fact is decided by evaluation. *)
Ltac decide_if H :=
  match type of H with
  | if ?c then _ else _ =>
      let v := eval vm_compute in c in
      let E := fresh in
      assert (c = v) as E by (vm_compute; reflexivity);
      rewrite E in H; clear E
  end.

(** * Alignment and boundary tags *)

Lemma ALIGN_spec (size : Z) :
  0 ≤ size < 2 ^ 32 →
  (size ≤ 2 ^ 32 - 8 →
     ALIGN size mod 8 = 0 ∧ size ≤ ALIGN size < size + 8)
  ∧ (2 ^ 32 - 8 < size → ALIGN size = 0).
Proof.
  intros Hr. unfold ALIGN. fold (size_of (wrap32 (size + 7))).
  change (2 ^ 32) with 4294967296 in *.
  split; intros H.
  - rewrite wrap32_small by (change (2 ^ 32) with 4294967296; lia).
    split; [apply size_of_mod8 |].
    rewrite size_of_spec. change (2 ^ 29) with 536870912.
    pose proof (Z.div_mod (size + 7) 8).
    pose proof (Z.mod_pos_bound (size + 7) 8).
    rewrite Z.mod_small; [lia |].
    split; [apply Z.div_pos; lia | apply Z.div_lt_upper_bound; lia].
  - unfold wrap32. change (2 ^ 32) with 4294967296.
    replace (size + 7) with (size + 7 - 4294967296 + 1 * 4294967296) by lia.
    rewrite Z.mod_add by lia. rewrite Z.mod_small by lia.
    rewrite size_of_spec. rewrite Z.div_small by lia. reflexivity.
Qed.

(** X1: ALIGN rounds a 32-bit size up to a multiple of 8: for 0 <= size <=
    2^32 - 8 the result is the multiple of 8 in the range from size to
    size + 7. For 2^32 - 8 < size < 2^32 the addition wraps around and
    ALIGN(size) is 0. *)
Theorem ALIGN_rounds_up (size : Z) :
  0 ≤ size < 2 ^ 32 →
  (size ≤ 2 ^ 32 - 8 →
     ALIGN size mod 8 = 0 ∧ size ≤ ALIGN size < size + 8)
  ∧ (2 ^ 32 - 8 < size → ALIGN size = 0).
Proof. exact (ALIGN_spec size). Qed.

Lemma ALIGN_rounds_up_witness :
  ALIGN 13 mod 8 = 0 ∧ 13 ≤ ALIGN 13 < 13 + 8.
Proof.
  apply (ALIGN_rounds_up 13); heap_fact.
Defined.

Lemma size_of_PACK (size alloc : Z) :
  0 ≤ size < 2 ^ 32 → size mod 8 = 0 → 0 ≤ alloc ≤ 1 →
  size_of (PACK size alloc) = size ∧ flag_of (PACK size alloc) = alloc.
Proof.
  intros Hr Hm Ha.
  assert (alloc = 0 ∨ alloc = 1) as [-> | ->] by lia.
  - rewrite PACK_0. split; [apply size_of_aligned; assumption |].
    rewrite flag_of_spec. pose proof (Z.div_mod size 8).
    pose proof (Z.div_mod size 2). pose proof (Z.mod_pos_bound size 2). lia.
  - rewrite PACK_1 by assumption. split.
    + rewrite size_of_spec. pose proof (Z.div_mod size 8).
      replace (size + 1) with (1 + size / 8 * 8) by lia.
      rewrite Z.div_add by lia. change (1 / 8) with 0.
      change (2 ^ 32) with (8 * 2 ^ 29) in Hr.
      rewrite Z.mod_small; [lia |].
      split; [apply Z.add_nonneg_nonneg; [lia | apply Z.div_pos; lia]
             | simpl; apply Z.div_lt_upper_bound; lia].
    + rewrite flag_of_spec. pose proof (Z.div_mod size 8).
      replace (size + 1) with (1 + (4 * (size / 8)) * 2) by lia.
      rewrite Z.mod_add by lia. reflexivity.
Qed.

Lemma PACK_range (size alloc : Z) :
  0 ≤ size < 2 ^ 32 → size mod 8 = 0 → 0 ≤ alloc ≤ 1 →
  0 ≤ PACK size alloc < 2 ^ 32.
Proof.
  intros Hr Hm Ha.
  assert (alloc = 0 ∨ alloc = 1) as [-> | ->] by lia.
  - rewrite PACK_0. assumption.
  - rewrite PACK_1 by assumption. change (2 ^ 32) with 4294967296 in *.
    pose proof (Z.div_mod size 8). lia.
Qed.

(** X2: A boundary tag written with PUT(p, PACK(size, alloc)), for a word
    p inside the heap, a size below 2^32 that is a multiple of 8 and a
    flag 0 or 1, reads back as size under GET_SIZE(p) and as alloc under
    GET_ALLOC(p). *)
Theorem pack_put_get_round_trip (st : heap_state) (p size alloc : Z) :
  in_heap st p 4 = true →
  0 ≤ size < 2 ^ 32 → size mod 8 = 0 → 0 ≤ alloc ≤ 1 →
  (PUT p (PACK size alloc) >>
   let* s := GET_SIZE p in
   let* a := GET_ALLOC p in
   ret (s, a)) st
  = Ok (size, alloc) (set_bytes (put_word (mem_bytes st) p (PACK size alloc)) st).
Proof.
  intros Hin Hr Hm Ha.
  destruct (size_of_PACK size alloc Hr Hm Ha) as [Es Ef].
  pose proof (PACK_range size alloc Hr Hm Ha) as Hp.
  in_heap_hyps. unfold GET_SIZE, GET_ALLOC.
  repeat mstep.
  rewrite word_at_put_word_same, wrap32_small by assumption.
  rewrite Es, Ef. reflexivity.
Qed.

Lemma pack_put_get_round_trip_witness :
  ∃ st', (PUT 4108 (PACK 24 1) >>
          let* s := GET_SIZE 4108 in
          let* a := GET_ALLOC 4108 in
          ret (s, a)) explicit_ready = Ok (24, 1) st'.
Proof.
  eexists. apply (pack_put_get_round_trip explicit_ready 4108 24 1); heap_fact.
Defined.

(** * Size classes of the segregated-fit source *)

Lemma get_class_loop_lower (n : nat) (i prev size : Z) :
  i + Z.of_nat n = SEGREGATED_LIST_SIZE →
  i - 1 ≤ SegFit.get_class_loop n i prev size ≤ 19.
Proof.
  revert i prev. induction n as [| n IH]; intros i prev E; cbn [SegFit.get_class_loop];
    unfold SEGREGATED_LIST_SIZE in *.
  - lia.
  - destruct (Z.leb_spec size (wrap32 (Z.shiftl prev 1))); [lia |].
    assert (i + 1 + Z.of_nat n = 20) as E' by lia.
    specialize (IH (i + 1) (wrap32 (Z.shiftl prev 1)) E'). lia.
Qed.

Lemma get_class_loop_mono (n : nat) (i prev s s' : Z) :
  i + Z.of_nat n = SEGREGATED_LIST_SIZE →
  s ≤ s' →
  SegFit.get_class_loop n i prev s ≤ SegFit.get_class_loop n i prev s'.
Proof.
  revert i prev. induction n as [| n IH]; intros i prev E Hs; cbn [SegFit.get_class_loop].
  - lia.
  - assert (i + 1 + Z.of_nat n = SEGREGATED_LIST_SIZE) as E' by lia.
    destruct (Z.leb_spec s (wrap32 (Z.shiftl prev 1)));
      destruct (Z.leb_spec s' (wrap32 (Z.shiftl prev 1))); try lia.
    + pose proof (get_class_loop_lower n (i + 1) (wrap32 (Z.shiftl prev 1)) s' E'). lia.
    + apply IH; assumption.
Qed.

(** X3: get_class of the segregated-fit allocator is monotone: if s <= s'
    then get_class(s) <= get_class(s'), so a larger block is never filed
    under a smaller class. *)
Theorem segfit_get_class_monotone (s s' : Z) :
  s ≤ s' → SegFit.get_class s ≤ SegFit.get_class s'.
Proof.
  intros H. unfold SegFit.get_class.
  destruct (Z.ltb_spec s 16); destruct (Z.ltb_spec s' 16); try lia.
  - pose proof (get_class_loop_lower
        (Z.to_nat (SEGREGATED_LIST_SIZE - 1)) 1 16 s' eq_refl). lia.
  - apply get_class_loop_mono; [reflexivity | assumption].
Qed.

Lemma segfit_get_class_monotone_witness : SegFit.get_class 24 ≤ SegFit.get_class 100.
Proof. apply (segfit_get_class_monotone 24 100). heap_fact. Defined.

(** X4: For a size of at least 16, get_class of the segregated-fit
    allocator returns a class c between 1 and 19 with size <= 2^(c+4) when
    c < 19 and 2^(c+3) < size when c > 1: class 1 holds the sizes 16 to
    32, a class c in between the sizes above 2^(c+3) up to 2^(c+4), and
    class 19 every size above 2^22. *)
Theorem segfit_get_class_bounds (size : Z) :
  16 ≤ size →
  let c := SegFit.get_class size in
  1 ≤ c ≤ 19
  ∧ (c < 19 → size ≤ 2 ^ (c + 4))
  ∧ (1 < c → 2 ^ (c + 3) < size).
Proof.
  intros H c. pose proof (eq_refl : c = SegFit.get_class size) as E. clearbody c.
  unfold SegFit.get_class in E.
  destruct (Z.ltb_spec size 16); [lia |].
  change (Z.to_nat (SEGREGATED_LIST_SIZE - 1)) with 19%nat in E.
  cbn [SegFit.get_class_loop] in E.
  change SEGREGATED_LIST_SIZE with 20 in E.
  repeat match type of E with
    | context [wrap32 (Z.shiftl ?x 1)] =>
        is_Z_lit x;
        let v := eval vm_compute in (wrap32 (Z.shiftl x 1)) in
        change (wrap32 (Z.shiftl x 1)) with v in E
    end.
  repeat match type of E with
    | context [?a <=? ?b] => destruct (Z.leb_spec a b)
    end;
  subst c;
  (split; [vm_compute; split; discriminate |]);
  (split; intros Hc);
  repeat match goal with
    | |- context [2 ^ ?e] =>
        let v := eval vm_compute in (2 ^ e) in change (2 ^ e) with v
    end; lia.
Qed.

Lemma segfit_get_class_bounds_witness :
  2 ^ (SegFit.get_class 100 + 3) < 100 ≤ 2 ^ (SegFit.get_class 100 + 4).
Proof.
  destruct (segfit_get_class_bounds 100) as (_ & Hle & Hgt); [heap_fact |].
  split; [apply Hgt | apply Hle]; heap_fact.
Defined.

(** * Size classes and request sizes of the buddy source *)

(** X5: get_class of the buddy allocator is the base-2 logarithm of the
    size, rounded up and capped at the last class: the class c lies
    between 0 and 19, size <= 2^c when c < 19, and 2^(c-1) < size when c >
    0. *)
Theorem buddy_get_class_bounds (size : Z) :
  let c := Buddy.get_class size in
  0 ≤ c ≤ 19
  ∧ (c < 19 → size ≤ 2 ^ c)
  ∧ (0 < c → 2 ^ (c - 1) < size).
Proof.
  intros c. pose proof (eq_refl : c = Buddy.get_class size) as E. clearbody c.
  unfold Buddy.get_class in E.
  change (Z.to_nat SEGREGATED_LIST_SIZE) with 20%nat in E.
  cbn [Buddy.get_class_loop] in E.
  change SEGREGATED_LIST_SIZE with 20 in E.
  repeat match type of E with
    | context [Z.shiftl ?x 1] =>
        is_Z_lit x;
        let v := eval vm_compute in (Z.shiftl x 1) in
        change (Z.shiftl x 1) with v in E
    | context [?a + 1] =>
        is_Z_lit a;
        let v := eval vm_compute in (a + 1) in
        change (a + 1) with v in E
    | context [?a <? 20] =>
        is_Z_lit a;
        let v := eval vm_compute in (a <? 20) in
        change (a <? 20) with v in E
    end.
  rewrite ?andb_true_r, ?andb_false_r in E.
  repeat match type of E with
    | context [?a <? ?b] => destruct (Z.ltb_spec a b)
    end;
  subst c;
  (split; [vm_compute; split; discriminate |]);
  (split; intros Hc);
  repeat match goal with
    | |- context [2 ^ ?e] =>
        let v := eval vm_compute in (2 ^ e) in change (2 ^ e) with v
    end; lia.
Qed.

Lemma buddy_get_class_pow2 (k : Z) :
  0 ≤ k ≤ 19 → Buddy.get_class (2 ^ k) = k.
Proof.
  intros Hk.
  assert (k = 0 ∨ k = 1 ∨ k = 2 ∨ k = 3 ∨ k = 4 ∨ k = 5 ∨ k = 6 ∨ k = 7 ∨ k = 8 ∨ k = 9
          ∨ k = 10 ∨ k = 11 ∨ k = 12 ∨ k = 13 ∨ k = 14 ∨ k = 15 ∨ k = 16 ∨ k = 17
          ∨ k = 18 ∨ k = 19) as H by lia.
  repeat (destruct H as [-> | H]; [reflexivity |]). subst k. reflexivity.
Qed.

(** The adjusted size [mm_malloc] of the buddy source computes. *)
Lemma round_up_loop_spec (size : Z) (st : heap_state) :
  (wrap32 (size + DSIZE) ≤ 2 ^ 31 →
   ∃ k, 4 ≤ k ≤ 31
        ∧ Buddy.round_up_loop 32 16 size st = Ok (2 ^ k) st
        ∧ wrap32 (size + DSIZE) ≤ 2 ^ k
        ∧ (k = 4 ∨ 2 ^ (k - 1) < wrap32 (size + DSIZE)))
  ∧ (2 ^ 31 < wrap32 (size + DSIZE) → Buddy.round_up_loop 32 16 size st = Diverge).
Proof.
  set (n := wrap32 (size + DSIZE)).
  assert (0 ≤ n < 2 ^ 32) as Hn by (apply Z.mod_pos_bound; reflexivity).
  change (2 ^ 32) with 4294967296 in Hn. change (2 ^ 31) with 2147483648.
  cbn [Buddy.round_up_loop]. fold n.
  repeat match goal with
    | |- context [wrap32 (Z.shiftl ?x 1)] =>
        is_Z_lit x;
        let v := eval vm_compute in (wrap32 (Z.shiftl x 1)) in
        change (wrap32 (Z.shiftl x 1)) with v
    end.
  split; intros H.
  - repeat match goal with
      | |- context [?a <? n] => destruct (Z.ltb_spec a n)
      end;
    try (exfalso; lia);
    match goal with
    | |- context [ret ?v st] =>
        let k := eval vm_compute in (Z.log2 v) in
        exists k; split; [lia |]; split; [reflexivity |];
        split; [let w := eval vm_compute in (2 ^ k) in change (2 ^ k) with w; lia |];
        first [left; reflexivity
              | right; let w := eval vm_compute in (2 ^ (k - 1)) in
                       change (2 ^ (k - 1)) with w; lia]
    end.
  - repeat match goal with
      | |- context [?a <? n] => destruct (Z.ltb_spec a n); [| lia]
      end.
    reflexivity.
Qed.

(** Once [asize] has been shifted out to 0 the loop cannot leave. *)
Lemma round_up_stuck (fuel : nat) (size : Z) (st : heap_state) :
  0 < wrap32 (size + DSIZE) → Buddy.round_up_loop fuel 0 size st = Diverge.
Proof.
  intros H. induction fuel as [| fuel IH]; cbn [Buddy.round_up_loop];
    destruct (Z.ltb_spec 0 (wrap32 (size + DSIZE))); try lia.
  - reflexivity.
  - exact IH.
Qed.

Lemma round_up_never_ends (fuel : nat) (k size : Z) (st : heap_state) :
  0 ≤ k ≤ 31 → 2 ^ 31 < wrap32 (size + DSIZE) →
  Buddy.round_up_loop fuel (2 ^ k) size st = Diverge.
Proof.
  intros Hk Hn. revert k Hk. induction fuel as [| fuel IH]; intros k Hk;
    cbn [Buddy.round_up_loop];
    assert (2 ^ k ≤ 2 ^ 31) by (apply Z.pow_le_mono_r; lia);
    destruct (Z.ltb_spec (2 ^ k) (wrap32 (size + DSIZE))); try lia.
  - reflexivity.
  - rewrite Z.shiftl_mul_pow2 by lia. change (2 ^ 1) with 2.
    replace (2 ^ k * 2) with (2 ^ (k + 1)) by (rewrite Z.pow_add_r by lia; reflexivity).
    destruct (Z.eq_dec k 31) as [-> | Hne].
    + change (wrap32 (2 ^ (31 + 1))) with 0. apply round_up_stuck. lia.
    + rewrite wrap32_small.
      * apply IH. lia.
      * split; [apply Z.pow_nonneg; lia | apply Z.pow_lt_mono_r; lia].
Qed.

(** The buddy source rounds a request up to a power of two: the loop
    at the head of [mm_malloc] ends with the smallest power of two that
    is at least 16 and at least [size + 8], and the request is served
    exactly like a request for all the payload of such a block. *)
Lemma buddy_round_up_spec (size : Z) (st : heap_state) :
  0 < size ≤ 2 ^ 31 - 8 →
  ∃ k, 4 ≤ k ≤ 31
       ∧ size + 8 ≤ 2 ^ k
       ∧ (k = 4 ∨ 2 ^ (k - 1) < size + 8)
       ∧ Buddy.round_up_loop 32 16 size st = Ok (2 ^ k) st
       ∧ Buddy.mm_malloc size st = Buddy.mm_malloc (2 ^ k - 8) st.
Proof.
  intros H.
  pose proof (eq_refl : 2 ^ 31 = 2147483648) as Hpow.
  pose proof (eq_refl : 2 ^ 32 = 4294967296) as Hpow'.
  assert (wrap32 (size + DSIZE) = size + 8) as E
    by (apply wrap32_small; unfold DSIZE; lia).
  destruct (round_up_loop_spec size st) as [Hk _]. rewrite E in Hk.
  destruct (Hk ltac:(lia)) as (k & Hk4 & Erun & Hle & Hmin).
  exists k. split; [exact Hk4 |]. split; [exact Hle |]. split; [exact Hmin |].
  split; [exact Erun |].
  assert (2 ^ 4 ≤ 2 ^ k ≤ 2 ^ 31) as Hp
    by (split; apply Z.pow_le_mono_r; lia).
  change (2 ^ 4) with 16 in Hp.
  assert (wrap32 (2 ^ k - 8 + DSIZE) = 2 ^ k) as E'
    by (unfold DSIZE; replace (2 ^ k - 8 + 8) with (2 ^ k) by lia;
        apply wrap32_small; lia).
  destruct (round_up_loop_spec (2 ^ k - 8) st) as [Hk' _]. rewrite E' in Hk'.
  destruct (Hk' ltac:(lia)) as (k' & Hk4' & Erun' & Hle' & Hmin').
  assert (k' = k) as ->.
  { assert (k ≤ k') by (apply (Z.pow_le_mono_r_iff 2); lia).
    destruct Hmin' as [-> | Hlt]; [lia |].
    assert (k' - 1 < k) by (apply (Z.pow_lt_mono_r_iff 2); lia). lia. }
  unfold Buddy.mm_malloc.
  destruct (Z.eqb_spec size 0) as [E0 | _]; [lia |].
  destruct (Z.eqb_spec (2 ^ k - 8) 0) as [E0 | _]; [lia |].
  rewrite (bind_Ok _ _ _ _ _ Erun), (bind_Ok _ _ _ _ _ Erun'). reflexivity.
Qed.

(** X6: For 0 < size <= 2^31 - 8 the doubling loop at the head of
    mm_malloc of the buddy allocator ends with asize = 2^k, the smallest
    power of two that is at least 16 and at least size + 8, and
    mm_malloc(size) behaves exactly like mm_malloc(2^k - 8), a request for
    the whole payload of such a block. *)
Theorem buddy_mm_malloc_rounds_up (size : Z) (st : heap_state) :
  0 < size ≤ 2 ^ 31 - 8 →
  ∃ k, 4 ≤ k ≤ 31
       ∧ size + 8 ≤ 2 ^ k
       ∧ (k = 4 ∨ 2 ^ (k - 1) < size + 8)
       ∧ Buddy.round_up_loop 32 16 size st = Ok (2 ^ k) st
       ∧ Buddy.mm_malloc size st = Buddy.mm_malloc (2 ^ k - 8) st.
Proof. exact (buddy_round_up_spec size st). Qed.

Lemma buddy_mm_malloc_rounds_up_witness :
  ∃ k, Buddy.round_up_loop 32 16 100 buddy_ready = Ok (2 ^ k) buddy_ready.
Proof.
  destruct (buddy_mm_malloc_rounds_up 100 buddy_ready) as (k & _ & _ & _ & E & _);
    [heap_fact |].
  exists k. exact E.
Defined.

(** X7: For 2^31 - 8 < size < 2^32 - 8, mm_malloc of the buddy allocator
    never returns: no power of two below 2^32 reaches size + 8, asize is
    shifted out to 0 and stays below size + 8, so the doubling loop does
    not end however many rounds it is given. *)
Theorem buddy_mm_malloc_never_returns (size : Z) (st : heap_state) :
  2 ^ 31 - 8 < size < 2 ^ 32 - 8 →
  Buddy.mm_malloc size st = Diverge
  ∧ ∀ fuel, Buddy.round_up_loop fuel 16 size st = Diverge.
Proof.
  intros H.
  pose proof (eq_refl : 2 ^ 31 = 2147483648) as Hpow.
  pose proof (eq_refl : 2 ^ 32 = 4294967296) as Hpow'.
  assert (wrap32 (size + DSIZE) = size + 8) as E
    by (apply wrap32_small; unfold DSIZE; lia).
  assert (2 ^ 31 < wrap32 (size + DSIZE)) as Hn by lia.
  split.
  - unfold Buddy.mm_malloc.
    destruct (Z.eqb_spec size 0) as [E0 | _]; [lia |].
    unfold bind. destruct (round_up_loop_spec size st) as [_ Hd].
    rewrite (Hd Hn). reflexivity.
  - intros fuel. exact (round_up_never_ends fuel 4 size st ltac:(lia) Hn).
Qed.

Lemma buddy_mm_malloc_never_returns_witness :
  Buddy.mm_malloc (2 ^ 31) buddy_ready = Diverge.
Proof.
  destruct (buddy_mm_malloc_never_returns (2 ^ 31) buddy_ready) as [H _];
    [heap_fact | exact H].
Defined.

(** X8: For 2^32 - 8 <= size < 2^32 the sum size + 8 wraps around to less
    than 8, and mm_malloc of the buddy allocator serves the request
    exactly like mm_malloc(1). *)
Theorem buddy_mm_malloc_wraps (size : Z) (st : heap_state) :
  2 ^ 32 - 8 ≤ size < 2 ^ 32 →
  Buddy.mm_malloc size st = Buddy.mm_malloc 1 st.
Proof.
  intros H.
  pose proof (eq_refl : 2 ^ 32 = 4294967296) as Hpow.
  assert (0 ≤ wrap32 (size + DSIZE) < 8) as Hw.
  { unfold wrap32, DSIZE. rewrite Hpow.
    replace (size + 8) with (size + 8 - 4294967296 + 1 * 4294967296) by lia.
    rewrite Z.mod_add by lia. rewrite Z.mod_small by lia. lia. }
  unfold Buddy.mm_malloc.
  destruct (Z.eqb_spec size 0) as [E0 | _]; [lia |].
  change (1 =? 0) with false. cbv iota.
  unfold bind at 1. unfold bind at 3.
  cbn [Buddy.round_up_loop].
  destruct (Z.ltb_spec 16 (wrap32 (size + DSIZE))); [lia |].
  reflexivity.
Qed.

Lemma buddy_mm_malloc_wraps_witness :
  Buddy.mm_malloc (2 ^ 32 - 1) buddy_ready = Buddy.mm_malloc 1 buddy_ready.
Proof. apply (buddy_mm_malloc_wraps (2 ^ 32 - 1) buddy_ready). heap_fact. Defined.

(** * Searching the free lists *)

Lemma chain_det (st : heap_state) (l1 l2 : list Z) (p : Z) :
  chain st p l1 → chain st p l2 → l1 = l2.
Proof.
  revert p l2. induction l1 as [| b l1 IH]; intros p [| c l2]; cbn [chain].
  - reflexivity.
  - intros -> (E & Hc & _). congruence.
  - intros (E & Hb & _) ->. congruence.
  - intros (-> & _ & _ & H1) (E & _ & _ & H2). subst c.
    f_equal. exact (IH _ _ H1 H2).
Qed.

Lemma chain_suffix (st : heap_state) (l1 l2 : list Z) (p x : Z) :
  chain st p (l1 ++ x :: l2) → chain st x (x :: l2).
Proof.
  revert p. induction l1 as [| b l1 IH]; intros p; cbn [chain app].
  - intros (-> & H). split; [reflexivity | exact H].
  - intros (_ & _ & _ & H). exact (IH _ H).
Qed.

Lemma chain_NoDup (st : heap_state) (l : list Z) (p : Z) :
  chain st p l → NoDup l.
Proof.
  revert p. induction l as [| b l IH]; intros p H.
  - constructor.
  - pose proof H as (-> & Hb & Hin & Ht). constructor; [| exact (IH _ Ht)].
    intros Hmem. apply list_elem_of_split in Hmem as (l1 & l2 & ->).
    pose proof (chain_suffix _ _ _ _ _ Ht) as Hs.
    pose proof (chain_det _ _ _ _ H Hs) as E.
    apply (f_equal length) in E. cbn [length] in E.
    rewrite List.length_app in E. cbn [length] in E. lia.
Qed.

Lemma chain_in_heap (st : heap_state) (l : list Z) (p : Z) :
  chain st p l → Forall (λ b, b ≠ NULL ∧ in_heap st (HDRP b) 12 = true) l.
Proof.
  revert p. induction l as [| b l IH]; intros p H; constructor.
  - destruct H as (_ & Hb & Hin & _). split; assumption.
  - destruct H as (_ & _ & _ & Ht). exact (IH _ Ht).
Qed.

Lemma chain_length (st : heap_state) (l : list Z) (p : Z) :
  chain st p l → (length l ≤ walk_fuel st)%nat.
Proof.
  intros H. pose proof (chain_NoDup _ _ _ H) as Hnd.
  pose proof (chain_in_heap _ _ _ H) as Hin.
  unfold walk_fuel.
  rewrite <- (length_seqZ (mem_start_brk st) (mem_brk st - mem_start_brk st)).
  apply submseteq_length, NoDup_submseteq; [exact Hnd |].
  intros x Hx. rewrite Forall_forall in Hin. destruct (Hin x Hx) as [_ Hh].
  apply in_heap_spec in Hh. unfold HDRP, WSIZE in Hh.
  apply elem_of_seqZ. lia.
Qed.

(** One round of each walk. *)
Lemma walk_reads (st : heap_state) (b : Z) :
  in_heap st (HDRP b) 12 = true →
  GET (HDRP b) st = Ok (word_at (mem_bytes st) (HDRP b)) st
  ∧ GET (b + WSIZE) st = Ok (succ_of st b) st.
Proof.
  intros H. apply in_heap_spec in H. unfold HDRP, WSIZE in *.
  split; apply GET_ok; in_heap_solve.
Qed.

Lemma best_fit_loop_spec (st : heap_state) (asize : Z) (l : list Z) :
  0 < asize →
  ∀ (fuel : nat) (p best min : Z) (seen : list Z),
    chain st p l → (length l ≤ fuel)%nat →
    best_so_far st asize seen best min →
    ∃ r m, Explicit.find_fit_loop fuel asize p best min st = Ok r st
           ∧ best_so_far st asize (seen ++ l) r m.
Proof.
  intros Ha. induction l as [| b l IH]; intros fuel p best min seen Hc Hf Hinv.
  - cbn [chain] in Hc. subst p. exists best, min.
    rewrite app_nil_r. split; [| exact Hinv].
    destruct fuel; reflexivity.
  - destruct Hc as (-> & Hb & Hin & Ht).
    destruct fuel as [| fuel]; [cbn [length] in Hf; lia |].
    cbn [length] in Hf. cbn [Explicit.find_fit_loop].
    destruct (Z.eqb_spec b NULL) as [| _]; [contradiction |].
    destruct (walk_reads st b Hin) as [Eh Es].
    unfold GET_SIZE, GET_SUCC. rewrite !bind_assoc.
    rewrite (bind_Ok _ _ _ _ _ Eh), bind_ret_l, (bind_Ok _ _ _ _ _ Es).
    fold (block_size st b).
    replace (seen ++ b :: l) with ((seen ++ [b]) ++ l) by (rewrite <- app_assoc; reflexivity).
    destruct ((asize <=? block_size st b) && ((min =? 0) || (block_size st b <? min)))
      eqn:Et.
    + apply (IH fuel _ b (block_size st b) (seen ++ [b]) Ht); [lia |].
      apply andb_true_iff in Et as [Efit Emin]. apply Z.leb_le in Efit.
      right. split; [apply elem_of_app; right; apply list_elem_of_singleton; reflexivity |].
      split; [reflexivity |]. split; [exact Efit |].
      apply Forall_app. split.
      * destruct Hinv as [(_ & _ & Hno) | (_ & Em & Hle & Hall)].
        -- eapply Forall_impl; [exact Hno |]. cbv beta. intros; lia.
        -- apply orb_true_iff in Emin as [E0 | Elt].
           ++ apply Z.eqb_eq in E0. lia.
           ++ apply Z.ltb_lt in Elt. eapply Forall_impl; [exact Hall |].
              cbv beta. intros x Hx Hfx. specialize (Hx Hfx). lia.
      * apply Forall_singleton. intros; lia.
    + apply (IH fuel _ best min (seen ++ [b]) Ht); [lia |].
      apply andb_false_iff in Et.
      destruct Hinv as [(E1 & E2 & Hno) | (Hmem & Em & Hle & Hall)].
      * left. split; [exact E1 |]. split; [exact E2 |].
        apply Forall_app. split; [exact Hno |]. apply Forall_singleton.
        destruct Et as [Et | Et].
        -- apply Z.leb_gt in Et. exact Et.
        -- apply orb_false_iff in Et as [Et _]. apply Z.eqb_neq in Et. contradiction.
      * right. split; [apply elem_of_app; left; exact Hmem |].
        split; [exact Em |]. split; [exact Hle |].
        apply Forall_app. split; [exact Hall |]. apply Forall_singleton.
        intros Hfit. destruct Et as [Et | Et].
        -- apply Z.leb_gt in Et. lia.
        -- apply orb_false_iff in Et as [_ Et]. apply Z.ltb_ge in Et. exact Et.
Qed.

(** Best fit. *)
Lemma explicit_best_fit_spec (st : heap_state) (asize : Z) (l : list Z) :
  chain st (listp st) l →
  0 < asize →
  ∃ r, Explicit.find_fit asize st = Ok r st ∧ best_fit st asize l r.
Proof.
  intros Hc Ha.
  destruct (best_fit_loop_spec st asize l Ha (walk_fuel st) (listp st) NULL 0 [] Hc
              (chain_length _ _ _ Hc)) as (r & m & E & Hinv).
  { left. split; [reflexivity |]. split; [reflexivity | constructor]. }
  exists r. split; [exact E |]. cbn [app] in Hinv.
  destruct Hinv as [(E1 & _ & Hno) | (Hmem & Em & Hle & Hall)].
  - left. split; assumption.
  - right. subst m. split; [exact Hmem |]. split; assumption.
Qed.

(** X9: When the successor links from free_listp run through the blocks l
    and end at NULL, find_fit(asize) of the explicit allocator (the
    BEST_FIT body, asize > 0) returns and leaves the heap unchanged; the
    result is NULL if no block of l has a size of at least asize, and
    otherwise a block of l that fits and is no larger than any other block
    of l that fits. *)
Theorem explicit_find_fit_is_best_fit (st : heap_state) (asize : Z) (l : list Z) :
  chain st (listp st) l →
  0 < asize →
  ∃ r, Explicit.find_fit asize st = Ok r st ∧ best_fit st asize l r.
Proof. exact (explicit_best_fit_spec st asize l). Qed.

Lemma explicit_find_fit_is_best_fit_witness :
  ∃ r, Explicit.find_fit 24 explicit_two_free = Ok r explicit_two_free
       ∧ best_fit explicit_two_free 24 [4112; 4448] r.
Proof. apply (explicit_find_fit_is_best_fit explicit_two_free 24 [4112; 4448]); heap_fact. Defined.

(** The first-fit walk over one list (the text of the inner loop is the
    same in the explicit and in the buddy source). *)
Lemma first_fit_cons_miss (st : heap_state) (asize b r : Z) (l : list Z) :
  block_size st b < asize → first_fit st asize l r → first_fit st asize (b :: l) r.
Proof.
  intros Hb [(E & Hno) | (l1 & l2 & E & Hno & Hfit)].
  - left. split; [exact E |]. constructor; assumption.
  - right. exists (b :: l1), l2. subst l. split; [reflexivity |].
    split; [constructor; assumption | exact Hfit].
Qed.

Lemma explicit_first_fit_loop_spec (st : heap_state) (asize : Z) (l : list Z) :
  ∀ (fuel : nat) (p : Z),
    chain st p l → (length l ≤ fuel)%nat →
    ∃ r, ExplicitFirstFit.find_fit_loop fuel asize p st = Ok r st
         ∧ first_fit st asize l r.
Proof.
  induction l as [| b l IH]; intros fuel p Hc Hf.
  - cbn [chain] in Hc. subst p. exists NULL.
    split; [destruct fuel; reflexivity |]. left. split; [reflexivity | constructor].
  - destruct Hc as (-> & Hb & Hin & Ht).
    destruct fuel as [| fuel]; [cbn [length] in Hf; lia |].
    cbn [length] in Hf. cbn [ExplicitFirstFit.find_fit_loop].
    destruct (Z.eqb_spec b NULL) as [| _]; [contradiction |].
    destruct (walk_reads st b Hin) as [Eh Es].
    unfold GET_SIZE, GET_SUCC. rewrite !bind_assoc.
    rewrite (bind_Ok _ _ _ _ _ Eh), bind_ret_l.
    fold (block_size st b).
    destruct (Z.leb_spec asize (block_size st b)) as [Hfit | Hno].
    + exists b. split; [reflexivity |]. right. exists [], l.
      split; [reflexivity |]. split; [constructor | exact Hfit].
    + rewrite (bind_Ok _ _ _ _ _ Es).
      destruct (IH fuel _ Ht ltac:(lia)) as (r & E & Hr).
      exists r. split; [exact E |]. apply first_fit_cons_miss; assumption.
Qed.

Lemma buddy_first_fit_loop_spec (st : heap_state) (asize : Z) (l : list Z) :
  ∀ (fuel : nat) (p : Z),
    chain st p l → (length l ≤ fuel)%nat →
    ∃ r, Buddy.find_fit_list fuel asize p st = Ok r st
         ∧ first_fit st asize l r.
Proof.
  induction l as [| b l IH]; intros fuel p Hc Hf.
  - cbn [chain] in Hc. subst p. exists NULL.
    split; [destruct fuel; reflexivity |]. left. split; [reflexivity | constructor].
  - destruct Hc as (-> & Hb & Hin & Ht).
    destruct fuel as [| fuel]; [cbn [length] in Hf; lia |].
    cbn [length] in Hf. cbn [Buddy.find_fit_list].
    destruct (Z.eqb_spec b NULL) as [| _]; [contradiction |].
    destruct (walk_reads st b Hin) as [Eh Es].
    unfold GET_SIZE, GET_SUCC. rewrite !bind_assoc.
    rewrite (bind_Ok _ _ _ _ _ Eh), bind_ret_l.
    fold (block_size st b).
    destruct (Z.leb_spec asize (block_size st b)) as [Hfit | Hno].
    + exists b. split; [reflexivity |]. right. exists [], l.
      split; [reflexivity |]. split; [constructor | exact Hfit].
    + rewrite (bind_Ok _ _ _ _ _ Es).
      destruct (IH fuel _ Ht ltac:(lia)) as (r & E & Hr).
      exists r. split; [exact E |]. apply first_fit_cons_miss; assumption.
Qed.

(** X10: When the successor links from free_listp run through the blocks l
    and end at NULL, the FIRST_FIT body of find_fit of the explicit
    allocator returns the first block of l, in list order, whose size is
    at least asize, or NULL if there is none; the heap is unchanged. *)
Theorem explicit_find_fit_is_first_fit (st : heap_state) (asize : Z) (l : list Z) :
  chain st (listp st) l →
  ∃ r, ExplicitFirstFit.find_fit asize st = Ok r st ∧ first_fit st asize l r.
Proof.
  intros Hc.
  exact (explicit_first_fit_loop_spec st asize l (walk_fuel st) (listp st) Hc
           (chain_length _ _ _ Hc)).
Qed.

Lemma explicit_find_fit_is_first_fit_witness :
  ∃ r, ExplicitFirstFit.find_fit 200 explicit_two_free = Ok r explicit_two_free
       ∧ first_fit explicit_two_free 200 [4112; 4448] r.
Proof. apply (explicit_find_fit_is_first_fit explicit_two_free 200 [4112; 4448]); heap_fact. Defined.

Lemma worst_fit_loop_spec (st : heap_state) (asize : Z) (l : list Z) :
  0 < asize →
  ∀ (fuel : nat) (p worst max : Z) (seen : list Z),
    chain st p l → (length l ≤ fuel)%nat →
    worst_so_far st asize seen worst max →
    ∃ r m, ExplicitWorstFit.find_fit_loop fuel asize p worst max st = Ok r st
           ∧ worst_so_far st asize (seen ++ l) r m.
Proof.
  intros Ha. induction l as [| b l IH]; intros fuel p worst max seen Hc Hf Hinv.
  - cbn [chain] in Hc. subst p. exists worst, max.
    rewrite app_nil_r. split; [| exact Hinv].
    destruct fuel; reflexivity.
  - destruct Hc as (-> & Hb & Hin & Ht).
    destruct fuel as [| fuel]; [cbn [length] in Hf; lia |].
    cbn [length] in Hf. cbn [ExplicitWorstFit.find_fit_loop].
    destruct (Z.eqb_spec b NULL) as [| _]; [contradiction |].
    destruct (walk_reads st b Hin) as [Eh Es].
    unfold GET_SIZE, GET_SUCC. rewrite !bind_assoc.
    rewrite (bind_Ok _ _ _ _ _ Eh), bind_ret_l, (bind_Ok _ _ _ _ _ Es).
    fold (block_size st b).
    replace (seen ++ b :: l) with ((seen ++ [b]) ++ l) by (rewrite <- app_assoc; reflexivity).
    destruct ((asize <=? block_size st b) && ((max =? 0) || (max <? block_size st b)))
      eqn:Et.
    + apply (IH fuel _ b (block_size st b) (seen ++ [b]) Ht); [lia |].
      apply andb_true_iff in Et as [Efit Emax]. apply Z.leb_le in Efit.
      right. split; [apply elem_of_app; right; apply list_elem_of_singleton; reflexivity |].
      split; [reflexivity |]. split; [exact Efit |].
      apply Forall_app. split.
      * destruct Hinv as [(_ & _ & Hno) | (_ & Em & Hle & Hall)].
        -- eapply Forall_impl; [exact Hno |]. cbv beta. intros; lia.
        -- apply orb_true_iff in Emax as [E0 | Elt].
           ++ apply Z.eqb_eq in E0. lia.
           ++ apply Z.ltb_lt in Elt. eapply Forall_impl; [exact Hall |].
              cbv beta. intros x Hx. lia.
      * apply Forall_singleton. lia.
    + apply (IH fuel _ worst max (seen ++ [b]) Ht); [lia |].
      apply andb_false_iff in Et.
      destruct Hinv as [(E1 & E2 & Hno) | (Hmem & Em & Hle & Hall)].
      * left. split; [exact E1 |]. split; [exact E2 |].
        apply Forall_app. split; [exact Hno |]. apply Forall_singleton.
        destruct Et as [Et | Et].
        -- apply Z.leb_gt in Et. exact Et.
        -- apply orb_false_iff in Et as [Et _]. apply Z.eqb_neq in Et. contradiction.
      * right. split; [apply elem_of_app; left; exact Hmem |].
        split; [exact Em |]. split; [exact Hle |].
        apply Forall_app. split; [exact Hall |]. apply Forall_singleton.
        destruct Et as [Et | Et].
        -- apply Z.leb_gt in Et. lia.
        -- apply orb_false_iff in Et as [_ Et]. apply Z.ltb_ge in Et. exact Et.
Qed.

(** X11: When the successor links from free_listp run through the blocks l
    and end at NULL, the WORST_FIT body of find_fit of the explicit
    allocator (asize > 0) returns NULL if no block of l fits, and
    otherwise a fitting block that is at least as large as every block of
    l; the heap is unchanged. *)
Theorem explicit_find_fit_is_worst_fit (st : heap_state) (asize : Z) (l : list Z) :
  chain st (listp st) l →
  0 < asize →
  ∃ r, ExplicitWorstFit.find_fit asize st = Ok r st ∧ worst_fit st asize l r.
Proof.
  intros Hc Ha.
  destruct (worst_fit_loop_spec st asize l Ha (walk_fuel st) (listp st) NULL 0 [] Hc
              (chain_length _ _ _ Hc)) as (r & m & E & Hinv).
  { left. split; [reflexivity |]. split; [reflexivity | constructor]. }
  exists r. split; [exact E |]. cbn [app] in Hinv.
  destruct Hinv as [(E1 & _ & Hno) | (Hmem & Em & Hle & Hall)].
  - left. split; assumption.
  - right. subst m. split; [exact Hmem |]. split; assumption.
Qed.

Lemma explicit_find_fit_is_worst_fit_witness :
  ∃ r, ExplicitWorstFit.find_fit 24 explicit_two_free = Ok r explicit_two_free
       ∧ worst_fit explicit_two_free 24 [4112; 4448] r.
Proof. apply (explicit_find_fit_is_worst_fit explicit_two_free 24 [4112; 4448]); heap_fact. Defined.

(** * The searches of the segregated sources *)

Lemma first_fit_app_miss (st : heap_state) (asize r : Z) (l k : list Z) :
  Forall (λ b, block_size st b < asize) l →
  first_fit st asize k r → first_fit st asize (l ++ k) r.
Proof.
  induction l as [| b l IH]; intros Hl Hk; [exact Hk |].
  apply Forall_cons in Hl as [Hb Hl]. cbn [app].
  apply first_fit_cons_miss; [exact Hb | exact (IH Hl Hk)].
Qed.

Lemma first_fit_app_hit (st : heap_state) (asize r : Z) (l k : list Z) :
  r ≠ NULL → first_fit st asize l r → first_fit st asize (l ++ k) r.
Proof.
  intros Hr [(E & _) | (l1 & l2 & E & Hno & Hfit)]; [contradiction |].
  right. exists l1, (l2 ++ k). subst l. rewrite <- app_assoc.
  split; [reflexivity |]. split; assumption.
Qed.

Lemma first_fit_null (st : heap_state) (asize p : Z) (l : list Z) :
  chain st p l → first_fit st asize l NULL →
  Forall (λ b, block_size st b < asize) l.
Proof.
  intros Hc [(_ & Hno) | (l1 & l2 & -> & _ & _)]; [exact Hno |].
  pose proof (chain_in_heap _ _ _ Hc) as Hin.
  apply Forall_app in Hin as [_ Hin]. apply Forall_cons in Hin as [[Hn _] _].
  contradiction.
Qed.

Lemma buddy_find_fit_classes_spec (st : heap_state) (asize : Z) (ls : list (list Z)) :
  ∀ class, seg_chains st class ls →
    ∃ r, Buddy.find_fit_classes (length ls) asize class st = Ok r st
         ∧ first_fit st asize (concat ls) r.
Proof.
  induction ls as [| l ls IH]; intros class Hs.
  - exists NULL. split; [reflexivity |]. left. split; [reflexivity | constructor].
  - destruct Hs as (Hroot & Hc & Hrest).
    cbn [length Buddy.find_fit_classes concat].
    rewrite bind_get_state. unfold GET_ROOT. rewrite bind_assoc, bind_get_state.
    rewrite (bind_GET _ _ _ Hroot).
    destruct (buddy_first_fit_loop_spec st asize l (walk_fuel st) _ Hc
                (chain_length _ _ _ Hc)) as (r & E & Hr).
    rewrite (bind_Ok _ _ _ _ _ E).
    destruct (Z.eqb_spec r NULL) as [-> | Hne]; cbn [negb].
    + destruct (IH _ Hrest) as (r' & E' & Hr').
      exists r'. split; [exact E' |].
      apply first_fit_app_miss; [| exact Hr'].
      exact (first_fit_null _ _ _ _ Hc Hr).
    + exists r. split; [reflexivity |]. apply first_fit_app_hit; assumption.
Qed.

(** X12: When the root slots of the classes from get_class(asize) to 19
    start the chains ls, find_fit of the buddy allocator returns the first
    block, in the order of the classes and of each list, whose size is at
    least asize, or NULL if there is none; the heap is unchanged. *)
Theorem buddy_find_fit_is_first_fit (st : heap_state) (asize : Z) (ls : list (list Z)) :
  class_lists st (Buddy.get_class asize) ls →
  ∃ r, Buddy.find_fit asize st = Ok r st ∧ first_fit st asize (concat ls) r.
Proof.
  intros [Hlen Hs]. unfold Buddy.find_fit. rewrite <- Hlen.
  exact (buddy_find_fit_classes_spec st asize ls _ Hs).
Qed.

Lemma buddy_find_fit_is_first_fit_witness :
  ∃ r, Buddy.find_fit 4096 buddy_ready = Ok r buddy_ready
       ∧ first_fit buddy_ready 4096 [4192] r.
Proof.
  apply (buddy_find_fit_is_first_fit buddy_ready 4096 [[4192]; []; []; []; []; []; []; []]);
    heap_fact.
Defined.

Lemma segfit_best_fit_list_spec (st : heap_state) (asize : Z) (l : list Z) :
  0 < asize →
  ∀ (fuel : nat) (p best min : Z) (seen : list Z),
    chain st p l → (length l ≤ fuel)%nat →
    best_so_far st asize seen best min →
    ∃ r m, SegFit.find_fit_list fuel asize p best min st = Ok (r, m) st
           ∧ best_so_far st asize (seen ++ l) r m.
Proof.
  intros Ha. induction l as [| b l IH]; intros fuel p best min seen Hc Hf Hinv.
  - cbn [chain] in Hc. subst p. exists best, min.
    rewrite app_nil_r. split; [| exact Hinv].
    destruct fuel; reflexivity.
  - destruct Hc as (-> & Hb & Hin & Ht).
    destruct fuel as [| fuel]; [cbn [length] in Hf; lia |].
    cbn [length] in Hf. cbn [SegFit.find_fit_list].
    destruct (Z.eqb_spec b NULL) as [| _]; [contradiction |].
    destruct (walk_reads st b Hin) as [Eh Es].
    unfold GET_SIZE, GET_SUCC. rewrite !bind_assoc.
    rewrite (bind_Ok _ _ _ _ _ Eh), bind_ret_l, (bind_Ok _ _ _ _ _ Es).
    fold (block_size st b).
    replace (seen ++ b :: l) with ((seen ++ [b]) ++ l) by (rewrite <- app_assoc; reflexivity).
    destruct ((asize <=? block_size st b) && ((min =? 0) || (block_size st b <? min)))
      eqn:Et.
    + apply (IH fuel _ b (block_size st b) (seen ++ [b]) Ht); [lia |].
      apply andb_true_iff in Et as [Efit Emin]. apply Z.leb_le in Efit.
      right. split; [apply elem_of_app; right; apply list_elem_of_singleton; reflexivity |].
      split; [reflexivity |]. split; [exact Efit |].
      apply Forall_app. split.
      * destruct Hinv as [(_ & _ & Hno) | (_ & Em & Hle & Hall)].
        -- eapply Forall_impl; [exact Hno |]. cbv beta. intros; lia.
        -- apply orb_true_iff in Emin as [E0 | Elt].
           ++ apply Z.eqb_eq in E0. lia.
           ++ apply Z.ltb_lt in Elt. eapply Forall_impl; [exact Hall |].
              cbv beta. intros x Hx Hfx. specialize (Hx Hfx). lia.
      * apply Forall_singleton. intros; lia.
    + apply (IH fuel _ best min (seen ++ [b]) Ht); [lia |].
      apply andb_false_iff in Et.
      destruct Hinv as [(E1 & E2 & Hno) | (Hmem & Em & Hle & Hall)].
      * left. split; [exact E1 |]. split; [exact E2 |].
        apply Forall_app. split; [exact Hno |]. apply Forall_singleton.
        destruct Et as [Et | Et].
        -- apply Z.leb_gt in Et. exact Et.
        -- apply orb_false_iff in Et as [Et _]. apply Z.eqb_neq in Et. contradiction.
      * right. split; [apply elem_of_app; left; exact Hmem |].
        split; [exact Em |]. split; [exact Hle |].
        apply Forall_app. split; [exact Hall |]. apply Forall_singleton.
        intros Hfit. destruct Et as [Et | Et].
        -- apply Z.leb_gt in Et. lia.
        -- apply orb_false_iff in Et as [_ Et]. apply Z.ltb_ge in Et. exact Et.
Qed.

Lemma segfit_find_fit_classes_spec (st : heap_state) (asize : Z) (ls : list (list Z)) :
  0 < asize →
  ∀ class best min seen, seg_chains st class ls →
    best_so_far st asize seen best min →
    ∃ r m, SegFit.find_fit_classes (length ls) asize class best min st = Ok r st
           ∧ best_so_far st asize (seen ++ concat ls) r m.
Proof.
  intros Ha. induction ls as [| l ls IH]; intros class best min seen Hs Hinv.
  - exists best, min. cbn [concat]. rewrite app_nil_r. split; [reflexivity | exact Hinv].
  - destruct Hs as (Hroot & Hc & Hrest).
    cbn [length SegFit.find_fit_classes concat].
    rewrite bind_get_state. unfold GET_ROOT. rewrite bind_assoc, bind_get_state.
    rewrite (bind_GET _ _ _ Hroot).
    destruct (segfit_best_fit_list_spec st asize l Ha (walk_fuel st) _ best min seen Hc
                (chain_length _ _ _ Hc) Hinv) as (r & m & E & Hr).
    rewrite (bind_Ok _ _ _ _ _ E). cbn [fst snd].
    rewrite app_assoc. exact (IH _ r m _ Hrest Hr).
Qed.

(** X13: When the root slots of the classes from get_class(asize) to 19
    start the chains ls, find_fit of the segregated-fit allocator (the
    BEST_FIT body, asize > 0) returns a smallest fitting block among the
    blocks of all these lists, not only of the first list that has one, or
    NULL if none fits; the heap is unchanged. *)
Theorem segfit_find_fit_is_best_fit (st : heap_state) (asize : Z) (ls : list (list Z)) :
  class_lists st (SegFit.get_class asize) ls →
  0 < asize →
  ∃ r, SegFit.find_fit asize st = Ok r st ∧ best_fit st asize (concat ls) r.
Proof.
  intros [Hlen Hs] Ha. unfold SegFit.find_fit. rewrite <- Hlen.
  destruct (segfit_find_fit_classes_spec st asize ls Ha _ NULL 0 [] Hs)
    as (r & m & E & Hinv).
  { left. split; [reflexivity |]. split; [reflexivity | constructor]. }
  exists r. split; [exact E |]. cbn [app] in Hinv.
  destruct Hinv as [(E1 & _ & Hno) | (Hmem & Em & Hle & Hall)].
  - left. split; assumption.
  - right. subst m. split; [exact Hmem |]. split; assumption.
Qed.

Lemma segfit_find_fit_is_best_fit_witness :
  ∃ r, SegFit.find_fit 16 segfit_two_free = Ok r segfit_two_free
       ∧ best_fit segfit_two_free 16 [4224; 4192; 4256] r.
Proof.
  apply (segfit_find_fit_is_best_fit segfit_two_free 16
           [[4224; 4192]; []; []; []; []; []; []; [4256]; []; []; []; []; []; []; []; [];
            []; []; []]);
    heap_fact.
Defined.

(** * Insertion into and removal from a free list *)

Lemma word_at_same_bytes (m m' : gmap Z Z) (p : Z) :
  (∀ a, p ≤ a < p + 4 → byte_at m' a = byte_at m a) → word_at m' p = word_at m p.
Proof.
  intros H. unfold word_at. rewrite !H by lia. reflexivity.
Qed.

Lemma chain_frame (st st' : heap_state) (l : list Z) (p : Z) :
  mem_start_brk st' = mem_start_brk st → mem_brk st' = mem_brk st →
  (∀ b, b ∈ l → succ_of st' b = succ_of st b) →
  chain st p l → chain st' p l.
Proof.
  intros E1 E2. revert p. induction l as [| b l IH]; intros p Hs Hc; [exact Hc |].
  destruct Hc as (-> & Hb & Hin & Ht).
  split; [reflexivity |]. split; [exact Hb |].
  split; [unfold in_heap in *; rewrite E1, E2; exact Hin |].
  rewrite (Hs b) by (apply elem_of_cons; left; reflexivity).
  apply IH; [| exact Ht]. intros c Hc. apply Hs, elem_of_cons. right. exact Hc.
Qed.

Lemma back_links_frame (st st' : heap_state) (l : list Z) (prev : Z) :
  (∀ b, b ∈ l → pred_of st' b = pred_of st b) →
  back_links st prev l → back_links st' prev l.
Proof.
  revert prev. induction l as [| b l IH]; intros prev Hs Hb; [exact Hb |].
  destruct Hb as (E & Ht). split.
  - rewrite (Hs b) by (apply elem_of_cons; left; reflexivity). exact E.
  - apply IH; [| exact Ht]. intros c Hc. apply Hs, elem_of_cons. right. exact Hc.
Qed.

Lemma spaced_apart (l : list Z) (b c : Z) :
  spaced l → b ∈ l → c ∈ l → b ≠ c → b + 8 ≤ c ∨ c + 8 ≤ b.
Proof.
  induction l as [| a l IH]; intros Hs Hb Hc Hne.
  - apply elem_of_nil in Hb. contradiction.
  - destruct Hs as [Ha Hs]. rewrite Forall_forall in Ha.
    apply elem_of_cons in Hb as [-> | Hb]; apply elem_of_cons in Hc as [-> | Hc].
    + contradiction.
    + exact (Ha c Hc).
    + specialize (Ha b Hb). lia.
    + exact (IH Hs Hb Hc Hne).
Qed.

Lemma spaced_NoDup (l : list Z) : spaced l → NoDup l.
Proof.
  induction l as [| a l IH]; intros Hs; constructor.
  - destruct Hs as [Ha _]. rewrite Forall_forall in Ha. intros Hin.
    specialize (Ha a Hin). lia.
  - apply IH, Hs.
Qed.

Lemma spaced_remove (l1 l2 : list Z) (x : Z) :
  spaced (l1 ++ x :: l2) → spaced (l1 ++ l2).
Proof.
  induction l1 as [| a l1 IH]; cbn [app spaced].
  - intros [_ H]. exact H.
  - intros [Ha Hs]. split; [| exact (IH Hs)].
    rewrite Forall_app in *. destruct Ha as [H1 H2]. apply Forall_cons in H2 as [_ H2].
    split; assumption.
Qed.

Lemma chain_unlink (st st' : heap_state) (h p x : Z) (l1 l2 : list Z) :
  mem_start_brk st' = mem_start_brk st → mem_brk st' = mem_brk st →
  chain st h (l1 ++ p :: x :: l2) →
  succ_of st' p = succ_of st x →
  (∀ b, b ∈ l1 ++ l2 → succ_of st' b = succ_of st b) →
  chain st' h (l1 ++ p :: l2).
Proof.
  intros E1 E2. revert h. induction l1 as [| a l1 IH]; intros h Hc Hp Hs; cbn [app] in *.
  - destruct Hc as (-> & Hb & Hin & (Ex & _ & _ & Ht)).
    split; [reflexivity |]. split; [exact Hb |].
    split; [unfold in_heap in *; rewrite E1, E2; exact Hin |].
    rewrite Hp. apply (chain_frame st); assumption.
  - destruct Hc as (-> & Hb & Hin & Ht).
    split; [reflexivity |]. split; [exact Hb |].
    split; [unfold in_heap in *; rewrite E1, E2; exact Hin |].
    rewrite (Hs a) by (apply elem_of_cons; left; reflexivity).
    apply IH; [exact Ht | exact Hp |].
    intros c Hc. apply Hs, elem_of_cons. right. exact Hc.
Qed.

Lemma back_links_skip (st st' : heap_state) (p x : Z) (l2 : list Z) :
  back_links st p (x :: l2) →
  match l2 with [] => True | s :: _ => pred_of st' s = p end →
  (∀ b, b ∈ tail l2 → pred_of st' b = pred_of st b) →
  back_links st' p l2.
Proof.
  intros (_ & Ht) Hs Hfr. destruct l2 as [| s l2]; [exact I |].
  destruct Ht as (_ & Ht). split; [exact Hs |].
  apply (back_links_frame st); [exact Hfr | exact Ht].
Qed.

Lemma back_links_unlink (st st' : heap_state) (prev p x : Z) (l1 l2 : list Z) :
  back_links st prev (l1 ++ p :: x :: l2) →
  match l2 with [] => True | s :: _ => pred_of st' s = p end →
  (∀ b, b ∈ l1 ++ p :: tail l2 → pred_of st' b = pred_of st b) →
  back_links st' prev (l1 ++ p :: l2).
Proof.
  revert prev. induction l1 as [| a l1 IH]; intros prev Hb Hs Hfr; cbn [app] in *.
  - destruct Hb as (E & Ht). split.
    + rewrite (Hfr p) by (apply elem_of_cons; left; reflexivity). exact E.
    + apply (back_links_skip st st' p x); [exact Ht | exact Hs |].
      intros b Hb. apply Hfr, elem_of_cons. right. exact Hb.
  - destruct Hb as (E & Ht). split.
    + rewrite (Hfr a) by (apply elem_of_cons; left; reflexivity). exact E.
    + apply IH; [exact Ht | exact Hs |].
      intros b Hb. apply Hfr, elem_of_cons. right. exact Hb.
Qed.

Lemma unlink_inner_run (st : heap_state) (x p s : Z) :
  in_heap st x 8 = true → pred_of st x = p → succ_of st x = s →
  in_heap st (p + 4) 4 = true → (p + 8 ≤ x ∨ x + 8 ≤ p) →
  (s = NULL ∨ in_heap st s 4 = true) →
  unlink_inner x st
  = Ok tt (set_bytes (if s =? NULL then put_word (mem_bytes st) (p + 4) s
                      else put_word (put_word (mem_bytes st) (p + 4) s) s p) st).
Proof.
  intros Hx Ep Es Hp Hpx Hs. unfold pred_of, succ_of, WSIZE in *. in_heap_hyps.
  unfold unlink_inner, GET_PRED, GET_SUCC, SET_PRED, SET_SUCC, WSIZE.
  repeat mstep. rewrite Ep, Es.
  repeat mstep. rewrite word_at_put_word_other by lia. rewrite Es.
  destruct (Z.eqb_spec s NULL) as [E0 | Hne]; [reflexivity |].
  destruct Hs as [? | Hs]; [contradiction |]. in_heap_hyps.
  repeat mstep. rewrite !word_at_put_word_other by lia. rewrite Ep, Es.
  repeat mstep. reflexivity.
Qed.

Lemma chain_mem (st : heap_state) (l : list Z) (p b : Z) :
  chain st p l → b ∈ l → b ≠ NULL ∧ in_heap st (HDRP b) 12 = true.
Proof.
  intros Hc Hb. pose proof (chain_in_heap _ _ _ Hc) as H.
  rewrite Forall_forall in H. exact (H b Hb).
Qed.

Lemma chain_succ (st : heap_state) (l1 l2 : list Z) (p x : Z) :
  chain st p (l1 ++ x :: l2) → chain st (succ_of st x) l2.
Proof.
  intros H. apply chain_suffix in H. destruct H as (_ & _ & _ & H). exact H.
Qed.

Lemma chain_head (st : heap_state) (l : list Z) (p : Z) :
  chain st p l → p = match l with [] => NULL | b :: _ => b end.
Proof. destruct l; cbn [chain]; [tauto | intros (E & _); exact E]. Qed.

Lemma back_links_pred (st : heap_state) (prev p x : Z) (l1 l2 : list Z) :
  back_links st prev (l1 ++ p :: x :: l2) → pred_of st x = p.
Proof.
  revert prev. induction l1 as [| a l1 IH]; intros prev; cbn [app back_links].
  - intros (_ & E & _). exact E.
  - intros (_ & H). exact (IH _ H).
Qed.

Ltac mem_solve :=
  repeat (progress (rewrite ?elem_of_app, ?elem_of_cons, ?elem_of_nil in *));
  first [tauto | intuition congruence].

Lemma NoDup_around (l1 l2 : list Z) (p x : Z) :
  NoDup (l1 ++ p :: x :: l2) →
  p ≠ x ∧ (p ∉ l1) ∧ (x ∉ l1) ∧ (p ∉ l2) ∧ (x ∉ l2) ∧ (∀ b, b ∈ l1 → b ∉ l2) ∧ NoDup l2.
Proof.
  intros H. apply NoDup_app in H as (_ & H1 & H2).
  apply NoDup_cons in H2 as [Hp H2]. apply NoDup_cons in H2 as [Hx H2].
  split; [intros ->; apply Hp; mem_solve |].
  split; [intros Hin; apply (H1 p Hin); mem_solve |].
  split; [intros Hin; apply (H1 x Hin); mem_solve |].
  split; [intros Hin; apply Hp; mem_solve |].
  split; [exact Hx |].
  split; [intros b Hb Hb'; apply (H1 b Hb); mem_solve | exact H2].
Qed.

(** The blocks of a free list after the unlinking of an inner block [x]
    whose predecessor is [p]. *)
Lemma unlink_inner_list (st : heap_state) (head p x : Z) (l1 l2 : list Z) :
  free_list st head (l1 ++ p :: x :: l2) →
  ∃ st', unlink_inner x st = Ok tt st'
    ∧ listp st' = listp st
    ∧ free_list st' head (l1 ++ p :: l2)
    ∧ same_bytes_except st st' (link_words (l1 ++ p :: l2)).
Proof.
  intros (Hc & Hb & Hsp & Hptr).
  set (L := l1 ++ p :: x :: l2) in *.
  assert (p ∈ L) as Hp by (unfold L; mem_solve).
  assert (x ∈ L) as Hx by (unfold L; mem_solve).
  destruct (NoDup_around _ _ _ _ (spaced_NoDup _ Hsp))
    as (Hpx & Dp1 & Dx1 & Dp2 & Dx2 & D12 & Nd2).
  pose proof (spaced_apart _ _ _ Hsp Hp Hx Hpx) as Apx.
  destruct (chain_mem _ _ _ _ Hc Hp) as [Hp0 Hpin].
  destruct (chain_mem _ _ _ _ Hc Hx) as [Hx0 Hxin].
  set (s := succ_of st x).
  assert (chain st s l2) as Hs2.
  { unfold L in Hc. replace (l1 ++ p :: x :: l2) with ((l1 ++ [p]) ++ x :: l2) in Hc
      by (rewrite <- app_assoc; reflexivity).
    exact (chain_succ _ _ _ _ _ Hc). }
  assert (pred_of st x = p) as Epred.
  { destruct l1 as [| a l1]; cbn [app] in Hb.
    - destruct Hb as (E & _). exact E.
    - exact (back_links_pred _ _ _ _ _ _ Hb). }
  assert (is_ptr p) as Pp by (rewrite Forall_forall in Hptr; exact (Hptr p Hp)).
  assert ((s = NULL ∧ l2 = []) ∨ (s ≠ NULL ∧ s ∈ L ∧ l2 = s :: tail l2)) as Hs.
  { destruct l2 as [| s' l2']; [left; split; [exact Hs2 | reflexivity] | right].
    destruct Hs2 as (E & Hn & _). rewrite <- E.
    split; [rewrite E; exact Hn |]. split; [unfold L; mem_solve | reflexivity]. }
  assert (∀ b, b ∈ l1 ++ p :: tail l2 → b ∈ L ∧ b ≠ s ∧ b ≠ x) as Hrest.
  { intros b Hb'. destruct Hs as [[E0 El2] | (Hne & HsL & El2)].
    - rewrite El2 in Hb'. cbn [tail] in Hb'.
      assert (b ∈ L) as HbL by (unfold L; mem_solve).
      split; [exact HbL |].
      split; [rewrite E0; exact (proj1 (chain_mem _ _ _ _ Hc HbL)) |].
      intros ->. apply elem_of_app in Hb' as [Hb' | Hb']; [contradiction |].
      apply elem_of_cons in Hb' as [E | Hb']; [congruence |].
      apply elem_of_nil in Hb'. exact Hb'.
    - rewrite El2 in Nd2, D12, Dp2, Dx2. apply NoDup_cons in Nd2 as [Ns _].
      assert (b ∈ L) as HbL by (unfold L; rewrite El2; mem_solve).
      split; [exact HbL |]. split.
      + intros ->. apply elem_of_app in Hb' as [Hb' | Hb'].
        * apply (D12 s Hb'). mem_solve.
        * apply elem_of_cons in Hb' as [E | Hb']; [apply Dp2; mem_solve | contradiction].
      + intros ->. apply elem_of_app in Hb' as [Hb' | Hb']; [contradiction |].
        apply elem_of_cons in Hb' as [E | Hb']; [congruence |].
        apply Dx2. mem_solve. }
  assert (is_ptr s) as Ps.
  { destruct Hs as [[-> _] | (_ & HsL & _)]; [unfold is_ptr, NULL; lia |].
    rewrite Forall_forall in Hptr. exact (Hptr s HsL). }
  assert (s = NULL ∨ in_heap st s 4 = true) as Hsin.
  { destruct Hs as [[-> _] | (_ & HsL & _)]; [left; reflexivity | right].
    destruct (chain_mem _ _ _ _ Hc HsL) as [_ H]. apply in_heap_spec in H.
    apply in_heap_spec. unfold HDRP, WSIZE in H. lia. }
  assert (s ≠ NULL → s ≠ p ∧ s ≠ x ∧ s ∈ L) as Hsd.
  { intros Hne. destruct Hs as [[? _] | (_ & HsL & El2)]; [contradiction |].
    rewrite El2 in Dp2, Dx2.
    split; [intros E; apply Dp2; mem_solve |].
    split; [intros E; apply Dx2; mem_solve | exact HsL]. }
  pose proof Hpin as Hpin'. pose proof Hxin as Hxin'.
  apply in_heap_spec in Hpin', Hxin'. unfold HDRP, WSIZE in Hpin', Hxin'.
  eexists. split.
  { apply (unlink_inner_run st x p s); [in_heap_solve | exact Epred | reflexivity
                                        | in_heap_solve | exact Apx | exact Hsin]. }
  cbn [listp set_bytes]. split; [reflexivity |].
  set (m' := if s =? NULL then put_word (mem_bytes st) (p + 4) s
             else put_word (put_word (mem_bytes st) (p + 4) s) s p).
  (* what the two stores leave behind *)
  assert (∀ b, b ∈ L → b ≠ p → word_at m' (b + 4) = word_at (mem_bytes st) (b + 4)) as Fsucc.
  { intros b HbL Hbp. pose proof (spaced_apart _ _ _ Hsp HbL Hp Hbp) as A.
    unfold m'. destruct (Z.eqb_spec s NULL) as [E0 | Hne].
    - apply word_at_put_word_other. lia.
    - destruct (Hsd Hne) as (Hsp' & Hsx & HsL).
      destruct (Z.eq_dec b s) as [-> | Hbs].
      + rewrite !word_at_put_word_other by lia. reflexivity.
      + pose proof (spaced_apart _ _ _ Hsp HbL HsL Hbs).
        rewrite !word_at_put_word_other by lia. reflexivity. }
  assert (∀ b, b ∈ L → b ≠ s → word_at m' b = word_at (mem_bytes st) b) as Fpred.
  { intros b HbL Hbs. unfold m'. destruct (Z.eqb_spec s NULL) as [E0 | Hne].
    - destruct (Z.eq_dec b p) as [-> | Hbp]; [apply word_at_put_word_other; lia |].
      pose proof (spaced_apart _ _ _ Hsp HbL Hp Hbp).
      apply word_at_put_word_other. lia.
    - destruct (Hsd Hne) as (Hsp' & Hsx & HsL).
      pose proof (spaced_apart _ _ _ Hsp HbL HsL Hbs).
      destruct (Z.eq_dec b p) as [-> | Hbp];
        [rewrite !word_at_put_word_other by lia; reflexivity |].
      pose proof (spaced_apart _ _ _ Hsp HbL Hp Hbp).
      rewrite !word_at_put_word_other by lia. reflexivity. }
  assert (word_at m' (p + 4) = s) as Esucc.
  { unfold m'. destruct (Z.eqb_spec s NULL) as [E0 | Hne].
    - rewrite word_at_put_word_same. apply wrap32_ptr, Ps.
    - destruct (Hsd Hne) as (Hsp' & Hsx & HsL).
      pose proof (spaced_apart _ _ _ Hsp HsL Hp Hsp').
      rewrite word_at_put_word_other by lia.
      rewrite word_at_put_word_same. apply wrap32_ptr, Ps. }
  assert (s ≠ NULL → word_at m' s = p) as Eback.
  { intros Hne. unfold m'. destruct (Z.eqb_spec s NULL) as [E0 | _]; [contradiction |].
    rewrite word_at_put_word_same. apply wrap32_ptr, Pp. }
  assert (match l2 with [] => True | s0 :: _ => pred_of (set_bytes m' st) s0 = p end) as Hhead.
  { destruct Hs as [[_ ->] | (Hne & _ & El2)]; [exact I |].
    rewrite El2. unfold pred_of. cbn [mem_bytes set_bytes]. exact (Eback Hne). }
  assert (∀ b, b ∈ l1 ++ p :: tail l2 →
               pred_of (set_bytes m' st) b = pred_of st b) as Hfr.
  { intros b Hb'. destruct (Hrest b Hb') as (HbL & Hbs & _).
    unfold pred_of. cbn [mem_bytes set_bytes]. exact (Fpred b HbL Hbs). }
  split; [split; [| split; [| split]] |].
  - (* the successor links *)
    apply (chain_unlink st _ head p x); [reflexivity | reflexivity | exact Hc | exact Esucc |].
    intros b Hb'. unfold succ_of, WSIZE. cbn [mem_bytes set_bytes]. apply Fsucc.
    + unfold L. mem_solve.
    + intros ->. apply elem_of_app in Hb' as [Hb' | Hb']; contradiction.
  - (* the predecessor links *)
    destruct l1 as [| a l1]; cbn [app] in *.
    + apply (back_links_skip st _ p x); [exact Hb | exact Hhead |].
      intros b Hb'. apply Hfr. mem_solve.
    + apply (back_links_unlink st _ a p x); [exact Hb | exact Hhead |].
      intros b Hb'. apply Hfr. mem_solve.
  - replace (l1 ++ p :: l2) with ((l1 ++ [p]) ++ l2) by (rewrite <- app_assoc; reflexivity).
    apply (spaced_remove _ _ x). rewrite <- app_assoc. exact Hsp.
  - unfold L in Hptr. rewrite Forall_app in *. destruct Hptr as [H1 H2].
    split; [exact H1 |]. apply Forall_cons in H2 as [H2 H3].
    apply Forall_cons in H3 as [_ H3]. apply Forall_cons. split; assumption.
  - unfold same_bytes_except. cbn [mem_start_brk mem_brk mem_max_addr mem_bytes set_bytes].
    repeat (split; [reflexivity |]).
    intros a Ha. unfold link_words in Ha. fold m'.
    assert (¬ (p ≤ a < p + 8)) as Hap.
    { intros H. apply Ha. exists p. split; [mem_solve | exact H]. }
    unfold m'. destruct (Z.eqb_spec s NULL) as [E0 | Hne].
    + apply byte_at_put_word_other. lia.
    + destruct Hs as [[? _] | (_ & HsL & El2)]; [contradiction |].
      assert (¬ (s ≤ a < s + 8)) as Has.
      { intros H. apply Ha. exists s. split; [rewrite El2; mem_solve | exact H]. }
      rewrite !byte_at_put_word_other by lia. reflexivity.
Qed.

Lemma free_list_head (st : heap_state) (head : Z) (l : list Z) :
  free_list st head l → head = match l with [] => NULL | b :: _ => b end ∧ is_ptr head.
Proof.
  intros (Hc & _ & _ & Hptr). pose proof (chain_head _ _ _ Hc) as E.
  split; [exact E |]. destruct l as [| b l].
  - subst head. unfold is_ptr, NULL. lia.
  - subst head. apply Forall_cons in Hptr as [H _]. exact H.
Qed.

Lemma free_list_tail (st st' : heap_state) (x : Z) (l : list Z) :
  mem_start_brk st' = mem_start_brk st → mem_brk st' = mem_brk st →
  mem_bytes st' = mem_bytes st →
  free_list st x (x :: l) → free_list st' (succ_of st x) l.
Proof.
  intros E1 E2 E3 ((_ & _ & _ & Hc) & Hb & (_ & Hsp) & Hptr).
  apply Forall_cons in Hptr as [_ Hptr].
  split; [| split; [| split; assumption]].
  - apply (chain_frame st); [exact E1 | exact E2 | | exact Hc].
    intros b _. unfold succ_of. rewrite E3. reflexivity.
  - destruct l as [| s l]; [exact I |]. destruct Hb as (_ & Hb).
    apply (back_links_frame st); [| exact Hb].
    intros b _. unfold pred_of. rewrite E3. reflexivity.
Qed.

(** [remove_free_block] of the explicit source takes exactly the
    block [x] out of the free list and writes nothing but link words of
    the blocks that stay in the list. *)
Lemma explicit_remove_spec (st : heap_state) (x : Z) (l1 l2 : list Z) :
  free_list st (listp st) (l1 ++ x :: l2) →
  ∃ st', Explicit.remove_free_block x st = Ok tt st'
    ∧ free_list st' (listp st') (l1 ++ l2)
    ∧ same_bytes_except st st' (link_words (l1 ++ l2)).
Proof.
  intros Hfl. destruct l1 as [| a l1 _] using rev_ind.
  - (* [x] is the head *)
    cbn [app] in *. destruct (free_list_head _ _ _ Hfl) as [Eh _].
    pose proof Hfl as ((_ & _ & Hin & _) & _).
    apply in_heap_spec in Hin. unfold HDRP, WSIZE in Hin.
    unfold Explicit.remove_free_block. rewrite bind_get_state.
    destruct (Z.eqb_spec x (listp st)) as [_ | Hne]; [| congruence].
    unfold GET_SUCC, WSIZE. rewrite bind_GET by in_heap_solve.
    eexists. split; [reflexivity |]. cbn [listp set_listp].
    split.
    + rewrite Eh in Hfl.
      exact (free_list_tail st (set_listp _ st) x l2 eq_refl eq_refl eq_refl Hfl).
    + unfold same_bytes_except. cbn. repeat (split; [reflexivity |]). reflexivity.
  - (* [x] has a predecessor *)
    rewrite <- app_assoc in Hfl. cbn [app] in Hfl.
    destruct (free_list_head _ _ _ Hfl) as [Eh _].
    pose proof Hfl as (_ & _ & Hsp & _).
    destruct (NoDup_around _ _ _ _ (spaced_NoDup _ Hsp)) as (Hax & _ & Dx1 & _).
    assert (x ≠ listp st) as Hne.
    { rewrite Eh. destruct l1 as [| b l1]; cbn [app].
      - congruence.
      - intros ->. apply Dx1. apply elem_of_cons. left. reflexivity. }
    destruct (unlink_inner_list st (listp st) a x l1 l2 Hfl) as (st' & E & El & Hfl' & Hfr).
    exists st'. split.
    + unfold Explicit.remove_free_block. rewrite bind_get_state.
      destruct (Z.eqb_spec x (listp st)) as [| _]; [contradiction |]. exact E.
    + rewrite El, <- app_assoc. cbn [app]. split; [exact Hfl' | exact Hfr].
Qed.

(** X14: If the free list of the explicit allocator is the well-formed
    doubly linked list l1 ++ x :: l2, remove_free_block(x) succeeds and
    leaves the well-formed list l1 ++ l2; it changes no byte of the heap
    other than link words of blocks that stay in the list. *)
Theorem explicit_remove_free_block_unlinks (st : heap_state) (x : Z) (l1 l2 : list Z) :
  free_list st (listp st) (l1 ++ x :: l2) →
  ∃ st', Explicit.remove_free_block x st = Ok tt st'
    ∧ free_list st' (listp st') (l1 ++ l2)
    ∧ same_bytes_except st st' (link_words (l1 ++ l2)).
Proof. exact (explicit_remove_spec st x l1 l2). Qed.

Lemma explicit_remove_free_block_unlinks_witness :
  ∃ st', Explicit.remove_free_block 4448 explicit_two_free = Ok tt st'
    ∧ free_list st' (listp st') [4112].
Proof.
  destruct (explicit_remove_free_block_unlinks explicit_two_free 4448 [4112] [])
    as (st' & E & Hfl & _); [heap_fact |].
  exists st'. split; [exact E | exact Hfl].
Defined.

(** [add_free_block] of the explicit source puts [bp] in front of the
    free list. *)
Lemma explicit_add_spec (st : heap_state) (bp : Z) (l : list Z) :
  free_list st (listp st) l →
  is_ptr bp → bp ≠ NULL →
  in_heap st (HDRP bp) 12 = true →
  Forall (λ c, bp + 8 ≤ c ∨ c + 8 ≤ bp) l →
  ∃ st', Explicit.add_free_block bp st = Ok tt st'
    ∧ listp st' = bp
    ∧ free_list st' bp (bp :: l)
    ∧ same_bytes_except st st' (link_words (bp :: l)).
Proof.
  intros Hfl Pbp Hbp Hin Hapart.
  destruct (free_list_head _ _ _ Hfl) as [Eh Ph].
  pose proof Hfl as (Hc & Hb & Hsp & Hptr).
  pose proof Hin as Hin'. apply in_heap_spec in Hin'. unfold HDRP, WSIZE in Hin'.
  assert (head_apart st bp (listp st)) as Hha.
  { destruct l as [| h l]; [left; exact Eh | right]. subst h.
    apply Forall_cons in Hapart as [A _].
    destruct Hc as (_ & _ & Hh & _). apply in_heap_spec in Hh. unfold HDRP, WSIZE in Hh.
    split; [in_heap_solve | lia]. }
  destruct (explicit_add_free_block_lifo st bp Pbp Ph ltac:(in_heap_solve) Hha)
    as (st' & E & El & Epred & Esucc & Eback & (X1 & X2 & X3 & Hsame)).
  exists st'. split; [exact E |]. split; [exact El |].
  assert (∀ b, b ∈ l → succ_of st' b = succ_of st b) as Fsucc.
  { intros b Hb'. unfold succ_of, WSIZE. apply word_at_same_bytes. intros a Ha.
    apply Hsame. unfold in_word. rewrite Forall_forall in Hapart.
    specialize (Hapart b Hb'). intros [H | [H | [Hn H]]]; [lia | lia |].
    rewrite Eh in H. destruct l as [| h l]; [contradiction |].
    apply elem_of_cons in Hb' as [-> | Hb']; [lia |].
    destruct Hsp as [A _]. rewrite Forall_forall in A. specialize (A b Hb'). lia. }
  assert (∀ b, b ∈ tail l → pred_of st' b = pred_of st b) as Fpred.
  { intros b Hb'. unfold pred_of. apply word_at_same_bytes. intros a Ha.
    apply Hsame. unfold in_word. destruct l as [| h l]; [apply elem_of_nil in Hb'; contradiction |].
    cbn [tail] in Hb'. rewrite Forall_forall in Hapart.
    specialize (Hapart b ltac:(apply elem_of_cons; right; exact Hb')).
    intros [H | [H | [Hn H]]]; [lia | lia |].
    rewrite Eh in H. destruct Hsp as [A _]. rewrite Forall_forall in A.
    specialize (A b Hb'). lia. }
  apply GET_inv in Esucc as (_ & Esucc & _).
  split; [split; [| split; [| split]] |].
  - split; [reflexivity |]. split; [exact Hbp |].
    split; [unfold in_heap in *; rewrite X1, X2; exact Hin |].
    unfold succ_of. unfold GET_SUCC in Esucc. rewrite <- Esucc.
    apply (chain_frame st); assumption.
  - destruct l as [| h l]; [exact I |]. rewrite Eh in Eback.
    assert (h ≠ NULL) as Hh by (destruct Hc as (_ & H & _); exact H).
    specialize (Eback Hh). apply GET_inv in Eback as (_ & Eback & _).
    split; [unfold pred_of; symmetry; exact Eback |].
    apply (back_links_frame st); [exact Fpred | exact Hb].
  - split; assumption.
  - apply Forall_cons. split; assumption.
  - unfold same_bytes_except. repeat (split; [assumption |]).
    intros a Ha. apply Hsame. unfold link_words, in_word in *.
    intros [H | [H | [Hn H]]].
    + apply Ha. exists bp. split; [apply elem_of_cons; left; reflexivity | lia].
    + apply Ha. exists bp. split; [apply elem_of_cons; left; reflexivity | lia].
    + apply Ha. exists (listp st). split; [| lia]. rewrite Eh in *.
      destruct l as [| h l]; [contradiction |].
      apply elem_of_cons. right. apply elem_of_cons. left. reflexivity.
Qed.

(** X15: If the free list of the explicit allocator is the well-formed
    list l and bp is a non-null block whose header and link words lie in
    the heap and whose link words overlap those of no block of l,
    add_free_block(bp) makes bp the head: the list is bp :: l, well
    formed, and no byte outside the link words of bp and of the blocks of
    l has changed. *)
Theorem explicit_add_free_block_pushes (st : heap_state) (bp : Z) (l : list Z) :
  free_list st (listp st) l →
  is_ptr bp → bp ≠ NULL →
  in_heap st (HDRP bp) 12 = true →
  Forall (λ c, bp + 8 ≤ c ∨ c + 8 ≤ bp) l →
  ∃ st', Explicit.add_free_block bp st = Ok tt st'
    ∧ listp st' = bp
    ∧ free_list st' bp (bp :: l)
    ∧ same_bytes_except st st' (link_words (bp :: l)).
Proof. exact (explicit_add_spec st bp l). Qed.

Lemma explicit_add_free_block_pushes_witness :
  ∃ st', Explicit.add_free_block 4112 explicit_before_insert = Ok tt st'
    ∧ free_list st' 4112 [4112; 4144].
Proof.
  destruct (explicit_add_free_block_pushes explicit_before_insert 4112 [4144])
    as (st' & E & _ & Hfl & _); [heap_fact ..|].
  exists st'. split; [exact E | exact Hfl].
Defined.

(** X16: In the explicit allocator add_free_block(bp) followed by
    remove_free_block(bp) is a round trip on the free list: for a
    well-formed list l and a block bp as add_free_block needs it, the list
    is l again with the head it had, and only link words of bp and of
    blocks of l have been written. *)
Theorem explicit_add_then_remove (st : heap_state) (bp : Z) (l : list Z) :
  free_list st (listp st) l →
  is_ptr bp → bp ≠ NULL →
  in_heap st (HDRP bp) 12 = true →
  Forall (λ c, bp + 8 ≤ c ∨ c + 8 ≤ bp) l →
  ∃ st', (Explicit.add_free_block bp >> Explicit.remove_free_block bp) st = Ok tt st'
    ∧ listp st' = listp st
    ∧ free_list st' (listp st') l
    ∧ same_bytes_except st st' (link_words (bp :: l)).
Proof.
  intros Hfl Pbp Hbp Hin Hapart.
  destruct (free_list_head _ _ _ Hfl) as [Eh _].
  destruct (explicit_add_spec st bp l Hfl Pbp Hbp Hin Hapart)
    as (st1 & E1 & El1 & Hfl1 & (X1 & X2 & X3 & S1)).
  rewrite <- El1 in Hfl1 at 1.
  destruct (explicit_remove_spec st1 bp [] l Hfl1)
    as (st2 & E2 & Hfl2 & (Y1 & Y2 & Y3 & S2)).
  cbn [app] in *.
  exists st2. split; [unfold bind; rewrite E1; exact E2 |].
  destruct (free_list_head _ _ _ Hfl2) as [Eh2 _].
  split; [congruence |]. split; [exact Hfl2 |].
  unfold same_bytes_except. repeat (split; [congruence |]).
  intros a Ha. rewrite S2, S1; [reflexivity | exact Ha |].
  intros (b & Hb & Hr). apply Ha. exists b. split; [apply elem_of_cons; right; exact Hb | exact Hr].
Qed.

Lemma explicit_add_then_remove_witness :
  ∃ st', (Explicit.add_free_block 4112 >> Explicit.remove_free_block 4112)
           explicit_before_insert = Ok tt st'
    ∧ free_list st' (listp st') [4144].
Proof.
  destruct (explicit_add_then_remove explicit_before_insert 4112 [4144])
    as (st' & E & _ & Hfl & _); [heap_fact ..|].
  exists st'. split; [exact E | exact Hfl].
Defined.

(** * The lists of the segregated sources *)

Lemma free_list_frame (st st' : heap_state) (head : Z) (l : list Z) :
  mem_start_brk st' = mem_start_brk st → mem_brk st' = mem_brk st →
  (∀ a, link_words l a → byte_at (mem_bytes st') a = byte_at (mem_bytes st) a) →
  free_list st head l → free_list st' head l.
Proof.
  intros E1 E2 Hsame (Hc & Hb & Hsp & Hptr).
  assert (∀ b, b ∈ l → succ_of st' b = succ_of st b ∧ pred_of st' b = pred_of st b) as F.
  { intros b Hb'. unfold succ_of, pred_of, WSIZE.
    split; apply word_at_same_bytes; intros a Ha; apply Hsame; exists b;
      (split; [exact Hb' | lia]). }
  split; [| split; [| split; assumption]].
  - apply (chain_frame st); [assumption | assumption | | exact Hc].
    intros b Hb'. exact (proj1 (F b Hb')).
  - destruct l as [| h l]; [exact I |].
    apply (back_links_frame st); [| exact Hb].
    intros b Hb'. apply (F b). apply elem_of_cons. right. exact Hb'.
Qed.

Lemma seg_remove_spec (get_class : Z → Z) (st : heap_state) (x : Z)
  (l1 l2 : list Z) :
  let slot := root_slot (listp st) (get_class (block_size st x)) in
  in_heap st slot 4 = true →
  free_list st (word_at (mem_bytes st) slot) (l1 ++ x :: l2) →
  Forall (λ c, slot + 4 ≤ c ∨ c + 8 ≤ slot) (l1 ++ x :: l2) →
  ∃ st', seg_remove_free_block get_class x st = Ok tt st'
    ∧ listp st' = listp st
    ∧ free_list st' (word_at (mem_bytes st') slot) (l1 ++ l2)
    ∧ same_bytes_except st st' (λ a, in_word slot a ∨ link_words (l1 ++ l2) a).
Proof.
  intros slot Hslot Hfl Hroot.
  pose proof (eq_refl : slot = root_slot (listp st) (get_class (block_size st x))) as Eslot.
  clearbody slot.
  assert (x ∈ l1 ++ x :: l2) as HxL by (apply elem_of_app; right; apply elem_of_cons; left; reflexivity).
  pose proof Hfl as (Hc & _ & Hsp & Hptr).
  destruct (chain_mem _ _ _ _ Hc HxL) as [Hx0 Hxin].
  pose proof Hxin as Hxin'. apply in_heap_spec in Hxin'. unfold HDRP, WSIZE in Hxin'.
  pose proof Hslot as Hslot'. apply in_heap_spec in Hslot'.
  assert (∀ k, (seg_remove_free_block get_class x st
                = (let* root := GET_ROOT (get_class (block_size st x)) in k root) st)
               → seg_remove_free_block get_class x st
                 = k (word_at (mem_bytes st) slot) st) as Hstart.
  { intros k ->. unfold GET_ROOT. rewrite bind_assoc, bind_get_state, <- Eslot.
    rewrite bind_GET by exact Hslot. reflexivity. }
  unfold seg_remove_free_block, block_class, GET_SIZE.
  rewrite !bind_assoc, (bind_GET (HDRP x)) by (unfold HDRP, WSIZE; in_heap_solve).
  rewrite bind_ret_l, bind_ret_l. fold (block_size st x).
  unfold GET_ROOT at 1. rewrite bind_assoc, bind_get_state, <- Eslot.
  rewrite bind_GET by exact Hslot.
  destruct l1 as [| a l1 _] using rev_ind.
  - (* [x] is the head of its list *)
    cbn [app] in *. destruct (free_list_head _ _ _ Hfl) as [Eh _].
    rewrite Eh. rewrite Z.eqb_refl.
    unfold GET_ROOT, SET_ROOT, GET_SUCC, WSIZE.
    rewrite bind_assoc, bind_get_state, <- Eslot, (bind_GET slot) by exact Hslot.
    rewrite Eh. rewrite bind_GET by in_heap_solve.
    rewrite bind_get_state, <- Eslot, PUT_ok by exact Hslot.
    eexists. split; [reflexivity |]. cbn [listp set_bytes mem_bytes].
    split; [reflexivity |].
    rewrite Eh in Hfl.
    pose proof (free_list_tail st st x l2 eq_refl eq_refl eq_refl Hfl) as Hfl2.
    destruct (free_list_head _ _ _ Hfl2) as [_ Ps].
    unfold succ_of, WSIZE in *.
    rewrite word_at_put_word_same, wrap32_ptr by exact Ps.
    apply Forall_cons in Hroot as [_ Hroot]. rewrite Forall_forall in Hroot.
    split.
    + apply (free_list_frame st); [reflexivity | reflexivity | | exact Hfl2].
      intros a (b & Hb & Ha). cbn [mem_bytes set_bytes].
      specialize (Hroot b Hb). apply byte_at_put_word_other. lia.
    + unfold same_bytes_except. cbn [mem_start_brk mem_brk mem_max_addr mem_bytes set_bytes].
      repeat (split; [reflexivity |]).
      intros a Ha. unfold in_word in Ha. apply byte_at_put_word_other. lia.
  - (* [x] has a predecessor *)
    rewrite <- app_assoc in *. cbn [app] in *.
    destruct (free_list_head _ _ _ Hfl) as [Eh _].
    destruct (NoDup_around _ _ _ _ (spaced_NoDup _ Hsp)) as (Hax & _ & Dx1 & _).
    assert (x ≠ word_at (mem_bytes st) slot) as Hne.
    { rewrite Eh. destruct l1 as [| b l1]; cbn [app].
      - congruence.
      - intros ->. apply Dx1. apply elem_of_cons. left. reflexivity. }
    destruct (Z.eqb_spec x (word_at (mem_bytes st) slot)) as [| _]; [contradiction |].
    destruct (unlink_inner_list st _ a x l1 l2 Hfl)
      as (st' & E & El & Hfl' & (X1 & X2 & X3 & Hsame)).
    exists st'. split; [exact E |]. split; [exact El |].
    assert (word_at (mem_bytes st') slot = word_at (mem_bytes st) slot) as Er.
    { apply word_at_same_bytes. intros b Hb. apply Hsame.
      intros (c & Hc' & Hr). rewrite Forall_forall in Hroot.
      assert (c ∈ l1 ++ a :: x :: l2) as HcL by mem_solve.
      specialize (Hroot c HcL). lia. }
    rewrite Er. split; [exact Hfl' |].
    unfold same_bytes_except. repeat (split; [assumption |]).
    intros b Hb. apply Hsame. tauto.
Qed.

(** X17: In the segregated allocators, if the root slot of the class of x
    lies in the heap and starts the well-formed list l1 ++ x :: l2, none
    of whose link words overlap the slot, remove_free_block(x) leaves the
    list l1 ++ l2 in that slot, keeps heap_listp, and writes nothing but
    the slot and link words of the blocks that stay. *)
Theorem seg_remove_free_block_unlinks (get_class : Z → Z) (st : heap_state) (x : Z)
  (l1 l2 : list Z) :
  let slot := root_slot (listp st) (get_class (block_size st x)) in
  in_heap st slot 4 = true →
  free_list st (word_at (mem_bytes st) slot) (l1 ++ x :: l2) →
  Forall (λ c, slot + 4 ≤ c ∨ c + 8 ≤ slot) (l1 ++ x :: l2) →
  ∃ st', seg_remove_free_block get_class x st = Ok tt st'
    ∧ listp st' = listp st
    ∧ free_list st' (word_at (mem_bytes st') slot) (l1 ++ l2)
    ∧ same_bytes_except st st' (λ a, in_word slot a ∨ link_words (l1 ++ l2) a).
Proof. exact (seg_remove_spec get_class st x l1 l2). Qed.

Lemma seg_remove_free_block_unlinks_witness :
  ∃ st', SegFit.remove_free_block 4192 segfit_two_free = Ok tt st'
    ∧ free_list st' (word_at (mem_bytes st') (root_slot (listp segfit_two_free) 1)) [4224].
Proof.
  destruct (seg_remove_free_block_unlinks SegFit.get_class segfit_two_free 4192 [4224] [])
    as (st' & E & _ & Hfl & _); [heap_fact ..|].
  exists st'. split; [exact E | exact Hfl].
Defined.

Lemma seg_add_spec (get_class : Z → Z) (st : heap_state) (bp : Z)
  (l : list Z) :
  let slot := root_slot (listp st) (get_class (block_size st bp)) in
  in_heap st slot 4 = true →
  free_list st (word_at (mem_bytes st) slot) l →
  is_ptr bp → bp ≠ NULL →
  in_heap st (HDRP bp) 12 = true →
  Forall (λ c, bp + 8 ≤ c ∨ c + 8 ≤ bp) l →
  Forall (λ c, slot + 4 ≤ c ∨ c + 8 ≤ slot) (bp :: l) →
  ∃ st', seg_add_free_block get_class bp st = Ok tt st'
    ∧ listp st' = listp st
    ∧ word_at (mem_bytes st') slot = bp
    ∧ free_list st' bp (bp :: l)
    ∧ same_bytes_except st st' (λ a, in_word slot a ∨ link_words (bp :: l) a).
Proof.
  intros slot Hslot Hfl Pbp Hbp Hin Hapart Hroot.
  destruct (free_list_head _ _ _ Hfl) as [Eh Ph].
  pose proof Hfl as (Hc & Hb & Hsp & Hptr).
  pose proof Hin as Hin'. apply in_heap_spec in Hin'. unfold HDRP, WSIZE in Hin'.
  pose proof Hslot as Hslot'. apply in_heap_spec in Hslot'.
  pose proof Hroot as Hroot'. apply Forall_cons in Hroot' as [Rbp Rl].
  set (h := word_at (mem_bytes st) slot) in *.
  assert (seg_head_apart st bp slot h) as Hha.
  { destruct l as [| h' l]; [left; exact Eh | right]. rewrite Eh.
    apply Forall_cons in Hapart as [A _]. apply Forall_cons in Rl as [B _].
    destruct Hc as (_ & _ & Hh & _). apply in_heap_spec in Hh. unfold HDRP, WSIZE in Hh.
    split; [in_heap_solve |]. split; lia. }
  destruct (seg_add_free_block_lifo get_class st bp (word_at (mem_bytes st) (HDRP bp)) h
              Pbp Ph)
    as (st' & E & El & Eroot & Esucc & Eback & _ & (X1 & X2 & X3 & Hsame)).
  { apply GET_ok. unfold HDRP, WSIZE. in_heap_solve. }
  { unfold GET_ROOT. rewrite bind_get_state. apply GET_ok. exact Hslot. }
  { in_heap_solve. }
  { fold (block_size st bp). fold slot. lia. }
  { exact Hha. }
  fold (block_size st bp) in *. fold slot in Hsame.
  exists st'. split; [exact E |]. split; [exact El |].
  unfold GET_ROOT in Eroot. rewrite bind_get_state, El in Eroot. fold slot in Eroot.
  apply GET_inv in Eroot as (_ & Eroot & _).
  split; [symmetry; exact Eroot |].
  assert (∀ b, b ∈ l → succ_of st' b = succ_of st b) as Fsucc.
  { intros b Hb'. unfold succ_of, WSIZE. apply word_at_same_bytes. intros a Ha.
    apply Hsame. unfold in_word. rewrite Forall_forall in Hapart, Rl.
    specialize (Hapart b Hb'). specialize (Rl b Hb').
    intros [H | [H | [Hn H]]]; [lia | lia |].
    rewrite Eh in H. destruct l as [| h' l]; [contradiction |].
    apply elem_of_cons in Hb' as [-> | Hb']; [lia |].
    destruct Hsp as [A _]. rewrite Forall_forall in A. specialize (A b Hb'). lia. }
  assert (∀ b, b ∈ tail l → pred_of st' b = pred_of st b) as Fpred.
  { intros b Hb'. unfold pred_of. apply word_at_same_bytes. intros a Ha.
    apply Hsame. unfold in_word. destruct l as [| h' l]; [apply elem_of_nil in Hb'; contradiction |].
    cbn [tail] in Hb'. rewrite Forall_forall in Hapart, Rl.
    specialize (Hapart b ltac:(apply elem_of_cons; right; exact Hb')).
    specialize (Rl b ltac:(apply elem_of_cons; right; exact Hb')).
    intros [H | [H | [Hn H]]]; [lia | lia |].
    rewrite Eh in H. destruct Hsp as [A _]. rewrite Forall_forall in A.
    specialize (A b Hb'). lia. }
  apply GET_inv in Esucc as (_ & Esucc & _).
  split; [split; [| split; [| split]] |].
  - split; [reflexivity |]. split; [exact Hbp |].
    split; [unfold in_heap in *; rewrite X1, X2; exact Hin |].
    unfold succ_of. unfold GET_SUCC in Esucc. rewrite <- Esucc.
    apply (chain_frame st); assumption.
  - destruct l as [| h' l]; [exact I |].
    assert (h ≠ NULL) as Hh by (rewrite Eh; destruct Hc as (_ & H & _); exact H).
    specialize (Eback Hh). apply GET_inv in Eback as (_ & Eback & _).
    rewrite Eh in Eback.
    split; [unfold pred_of; symmetry; exact Eback |].
    apply (back_links_frame st); [exact Fpred | exact Hb].
  - split; assumption.
  - apply Forall_cons. split; assumption.
  - unfold same_bytes_except. repeat (split; [assumption |]).
    intros a Ha. apply Hsame. unfold link_words, in_word in *.
    intros [H | [H | [Hn H]]].
    + apply Ha. right. exists bp. split; [apply elem_of_cons; left; reflexivity | lia].
    + apply Ha. left. exact H.
    + apply Ha. right. exists h. split; [| lia]. rewrite Eh in *.
      destruct l as [| h' l]; [contradiction |].
      apply elem_of_cons. right. apply elem_of_cons. left. reflexivity.
Qed.

(** X18: In the segregated allocators, if the root slot of the class of bp
    lies in the heap and starts the well-formed list l, and the link words
    of bp lie in the heap and overlap neither the slot nor link words of
    l, add_free_block(bp) stores bp in the slot and the list of the class
    is bp :: l, well formed; only the slot and link words of bp and of l
    are written. *)
Theorem seg_add_free_block_pushes (get_class : Z → Z) (st : heap_state) (bp : Z)
  (l : list Z) :
  let slot := root_slot (listp st) (get_class (block_size st bp)) in
  in_heap st slot 4 = true →
  free_list st (word_at (mem_bytes st) slot) l →
  is_ptr bp → bp ≠ NULL →
  in_heap st (HDRP bp) 12 = true →
  Forall (λ c, bp + 8 ≤ c ∨ c + 8 ≤ bp) l →
  Forall (λ c, slot + 4 ≤ c ∨ c + 8 ≤ slot) (bp :: l) →
  ∃ st', seg_add_free_block get_class bp st = Ok tt st'
    ∧ listp st' = listp st
    ∧ word_at (mem_bytes st') slot = bp
    ∧ free_list st' bp (bp :: l)
    ∧ same_bytes_except st st' (λ a, in_word slot a ∨ link_words (bp :: l) a).
Proof. exact (seg_add_spec get_class st bp l). Qed.

Lemma seg_add_free_block_pushes_witness :
  ∃ st', SegFit.add_free_block 4224 segfit_before_insert = Ok tt st'
    ∧ free_list st' 4224 [4224; 4192].
Proof.
  destruct (seg_add_free_block_pushes SegFit.get_class segfit_before_insert 4224 [4192])
    as (st' & E & _ & _ & Hfl & _); [heap_fact ..|].
  exists st'. split; [exact E | exact Hfl].
Defined.

(** * Allocation from the free list of the explicit source *)

Lemma tag_at_frame (st st' : heap_state) (a size flag : Z) :
  mem_start_brk st' = mem_start_brk st → mem_brk st' = mem_brk st →
  (∀ b, a ≤ b < a + 4 → byte_at (mem_bytes st') b = byte_at (mem_bytes st) b) →
  tag_at st a size flag → tag_at st' a size flag.
Proof.
  intros E1 E2 Hs (Hin & Hsz & Hfl). unfold tag_at.
  rewrite (word_at_same_bytes _ _ _ Hs).
  split; [unfold in_heap in *; rewrite E1, E2; exact Hin |]. split; assumption.
Qed.

Lemma tag_at_put (st : heap_state) (a size flag : Z) :
  in_heap st a 4 = true →
  0 ≤ size < 2 ^ 32 → size mod 8 = 0 → 0 ≤ flag ≤ 1 →
  tag_at (set_bytes (put_word (mem_bytes st) a (PACK size flag)) st) a size flag.
Proof.
  intros Hin Hr Hm Hf. unfold tag_at. cbn [mem_bytes set_bytes].
  rewrite in_heap_set_bytes, word_at_put_word_same.
  rewrite wrap32_small by (apply PACK_range; assumption).
  split; [exact Hin |]. apply size_of_PACK; assumption.
Qed.

Lemma same_bytes_trans (st st1 st2 : heap_state) (P Q R : Z → Prop) :
  same_bytes_except st st1 P → same_bytes_except st1 st2 Q →
  (∀ a, P a → R a) → (∀ a, Q a → R a) →
  same_bytes_except st st2 R.
Proof.
  intros (A1 & A2 & A3 & A4) (B1 & B2 & B3 & B4) HP HQ.
  unfold same_bytes_except. repeat (split; [congruence |]).
  intros a Ha. rewrite B4, A4; [reflexivity | |]; intros H; apply Ha; auto.
Qed.

Lemma same_bytes_put (st : heap_state) (p v : Z) :
  same_bytes_except st (set_bytes (put_word (mem_bytes st) p v) st) (in_word p).
Proof.
  unfold same_bytes_except. cbn [mem_start_brk mem_brk mem_max_addr mem_bytes set_bytes].
  repeat (split; [reflexivity |]). intros a Ha. unfold in_word in Ha.
  apply byte_at_put_word_other. lia.
Qed.

Lemma same_bytes_weaken (st st' : heap_state) (P Q : Z → Prop) :
  same_bytes_except st st' P → (∀ a, P a → Q a) → same_bytes_except st st' Q.
Proof.
  intros (A1 & A2 & A3 & A4) H. unfold same_bytes_except.
  repeat (split; [assumption |]). intros a Ha. apply A4. intros HP. apply Ha, H, HP.
Qed.

Lemma same_bytes_refl (st : heap_state) (P : Z → Prop) : same_bytes_except st st P.
Proof. unfold same_bytes_except. repeat (split; [reflexivity |]). reflexivity. Qed.

Lemma free_list_listp (st st' : heap_state) (head : Z) (l : list Z) :
  mem_start_brk st' = mem_start_brk st → mem_brk st' = mem_brk st →
  mem_bytes st' = mem_bytes st →
  free_list st head l → free_list st' head l.
Proof.
  intros E1 E2 E3. apply free_list_frame; [assumption | assumption |].
  intros a _. rewrite E3. reflexivity.
Qed.

Lemma clear_of_disjoint (r c : Z) (l : list Z) (a : Z) :
  Forall (clear_of r c) l → block_bytes r c a → ¬ link_words l a.
Proof.
  intros Hcl Ha (b & Hb & Hr). rewrite Forall_forall in Hcl.
  specialize (Hcl b Hb). unfold clear_of, block_bytes in *. lia.
Qed.

Lemma size_of_PACK_eq (size alloc : Z) :
  0 ≤ size < 2 ^ 32 → size mod 8 = 0 → 0 ≤ alloc ≤ 1 → size_of (PACK size alloc) = size.
Proof. intros. apply size_of_PACK; assumption. Qed.

Lemma flag_of_PACK_eq (size alloc : Z) :
  0 ≤ size < 2 ^ 32 → size mod 8 = 0 → 0 ≤ alloc ≤ 1 → flag_of (PACK size alloc) = alloc.
Proof. intros. apply size_of_PACK; assumption. Qed.

Ltac side := first [lia | assumption].

(** One step of a run over a heap of which only facts are known. *)
Ltac pstep :=
  first
    [ mstep
    | rd
    | rewrite wrap32_small by (first [apply PACK_range; side | lia])
    | rewrite size_of_PACK_eq by side
    | rewrite flag_of_PACK_eq by side ].

(** [place] of the explicit source. *)
Lemma explicit_place_splits (st : heap_state) (r asize c : Z) (l1 l2 : list Z) :
  free_list st (listp st) (l1 ++ r :: l2) →
  block_size st r = c →
  16 ≤ asize → asize mod 8 = 0 → asize ≤ c →
  r + c - 4 ≤ mem_brk st → mem_brk st ≤ 2 ^ 32 →
  Forall (clear_of r c) (l1 ++ l2) →
  ∃ st', Explicit.place r asize st = Ok tt st'
    ∧ same_bytes_except st st' (λ a, block_bytes r c a ∨ link_words (l1 ++ l2) a)
    ∧ if 16 <=? c - asize then
        tag_at st' (r - 4) asize 1 ∧ tag_at st' (r + asize - 8) asize 1
        ∧ tag_at st' (r + asize - 4) (c - asize) 0 ∧ tag_at st' (r + c - 8) (c - asize) 0
        ∧ free_list st' (listp st') ((r + asize) :: l1 ++ l2)
      else
        tag_at st' (r - 4) c 1 ∧ tag_at st' (r + c - 8) c 1
        ∧ free_list st' (listp st') (l1 ++ l2).
Proof.
  intros Hfl Hc Ha Ham Hac Hbrk H32 Hclear.
  assert (r ∈ l1 ++ r :: l2) as HrL by mem_solve.
  pose proof Hfl as (Hch & _ & _ & Hptr).
  destruct (chain_mem _ _ _ _ Hch HrL) as [Hr0 Hrin].
  assert (is_ptr r) as Pr by (rewrite Forall_forall in Hptr; exact (Hptr r HrL)).
  apply in_heap_spec in Hrin. unfold HDRP, WSIZE in Hrin.
  assert (c mod 8 = 0) as Hcm by (rewrite <- Hc; apply size_of_mod8).
  unfold block_size, HDRP, WSIZE in Hc.
  pose proof (eq_refl : 2 ^ 32 = 4294967296) as Hpow. unfold is_ptr in Pr.
  pose proof (size_of_range (word_at (mem_bytes st) (r - 4))) as Hcr. rewrite Hc in Hcr.
  destruct (explicit_remove_spec st r l1 l2 Hfl)
    as (st1 & E1 & Hfl1 & (X1 & X2 & X3 & S1)).
  assert (∀ a, block_bytes r c a → byte_at (mem_bytes st1) a = byte_at (mem_bytes st) a) as Hblk.
  { intros a Hb. apply S1. exact (clear_of_disjoint _ _ _ _ Hclear Hb). }
  assert (size_of (word_at (mem_bytes st1) (r - 4)) = c) as Hc1.
  { rewrite <- Hc. f_equal. apply word_at_same_bytes. intros a Hr. apply Hblk.
    unfold block_bytes. lia. }
  unfold Explicit.place, place. rewrite (bind_Ok _ _ _ _ _ E1).
  unfold FTRP, NEXT_BLKP, GET_SIZE, HDRP, WSIZE, DSIZE.
  repeat mstep. rewrite Hc1.
  change (2 * 8) with 16. rewrite (wrap32_small (c - asize)) by lia.
  destruct (Z.leb_spec 16 (c - asize)) as [Hsplit | Hwhole].
  - (* split *)
    assert ((c - asize) mod 8 = 0) as Hrm.
    { rewrite Zminus_mod, Hcm, Ham. reflexivity. }
    repeat pstep.
    replace (r + asize + (c - asize) - 8) with (r + c - 8) by lia.
    repeat pstep.
    set (m2 := put_word _ (r + c - 8) _).
    set (st2 := set_bytes m2 st1).
    assert (same_bytes_except st1 st2 (block_bytes r c)) as S2.
    { unfold same_bytes_except, st2. cbn [mem_start_brk mem_brk mem_max_addr mem_bytes set_bytes].
      repeat (split; [reflexivity |]). intros a Hna. unfold block_bytes in Hna.
      unfold m2. rewrite !byte_at_put_word_other by lia. reflexivity. }
    assert (free_list st2 (listp st2) (l1 ++ l2)) as Hfl2.
    { apply (free_list_frame st1); [reflexivity | reflexivity | | exact Hfl1].
      intros a Hl. destruct S2 as (_ & _ & _ & S2). apply S2.
      intros Hb. exact (clear_of_disjoint _ _ _ _ Hclear Hb Hl). }
    destruct (explicit_add_spec st2 (r + asize) (l1 ++ l2) Hfl2)
      as (st3 & E3 & El3 & Hfl3 & S3).
    { unfold is_ptr. lia. }
    { unfold NULL. lia. }
    { unfold HDRP, WSIZE. apply in_heap_spec. unfold st2.
      cbn [mem_start_brk mem_brk set_bytes]. lia. }
    { eapply Forall_impl; [exact Hclear |]. cbv beta. unfold clear_of. intros; lia. }
    exists st3. split; [exact E3 |].
    assert (∀ a, r - 4 ≤ a < r + asize ∨ r + c - 8 ≤ a < r + c - 4 →
                 byte_at (mem_bytes st3) a = byte_at m2 a) as Hkeep.
    { intros a Hr. destruct S3 as (_ & _ & _ & S3). apply S3.
      intros (b & Hb & Hbr). apply elem_of_cons in Hb as [-> | Hb]; [lia |].
      rewrite Forall_forall in Hclear. specialize (Hclear b Hb). unfold clear_of in Hclear. lia. }
    split.
    { apply (same_bytes_trans st st1 st3 (link_words (l1 ++ l2))
               (λ a, block_bytes r c a ∨ link_words (l1 ++ l2) a)).
      - unfold same_bytes_except. repeat (split; [assumption |]). exact S1.
      - apply (same_bytes_trans st1 st2 st3 (block_bytes r c)
                 (link_words ((r + asize) :: l1 ++ l2))); [exact S2 | exact S3 | tauto |].
        intros a (b & Hb & Hbr). apply elem_of_cons in Hb as [-> | Hb].
        + left. unfold block_bytes. lia.
        + right. exists b. split; assumption.
      - tauto.
      - tauto. }
    destruct S3 as (Y1 & Y2 & _ & _).
    assert (∀ a size flag, (r - 4 ≤ a ∧ a + 4 ≤ r + asize ∨ a = r + c - 8) →
              tag_at st2 a size flag → tag_at st3 a size flag) as Htag.
    { intros a size flag Hr. apply tag_at_frame; [exact Y1 | exact Y2 |].
      intros b Hb. apply Hkeep. lia. }
    rewrite El3.
    split; [| split; [| split; [| split; [| exact Hfl3]]]]; apply Htag; try lia;
      unfold tag_at, st2; cbn [mem_bytes set_bytes]; rewrite in_heap_set_bytes;
      (split; [in_heap_solve |]); unfold m2.
    + rewrite !word_at_put_word_other by lia.
      rewrite word_at_put_word_same, wrap32_small by (apply PACK_range; lia).
      apply size_of_PACK; lia.
    + rewrite !word_at_put_word_other by lia.
      rewrite word_at_put_word_same, wrap32_small by (apply PACK_range; lia).
      apply size_of_PACK; lia.
    + rewrite !word_at_put_word_other by lia.
      rewrite word_at_put_word_same, wrap32_small by (apply PACK_range; lia).
      apply size_of_PACK; lia.
    + rewrite word_at_put_word_same, wrap32_small by (apply PACK_range; lia).
      apply size_of_PACK; lia.
  - (* the whole block *)
    repeat pstep.
    eexists. split; [reflexivity |].
    set (m2 := put_word _ (r + c - 8) _).
    set (st2 := set_bytes m2 st1).
    assert (same_bytes_except st1 st2 (block_bytes r c)) as S2.
    { unfold same_bytes_except, st2. cbn [mem_start_brk mem_brk mem_max_addr mem_bytes set_bytes].
      repeat (split; [reflexivity |]). intros a Hna. unfold block_bytes in Hna.
      unfold m2. rewrite !byte_at_put_word_other by lia. reflexivity. }
    split.
    { apply (same_bytes_trans st st1 st2 (link_words (l1 ++ l2)) (block_bytes r c));
        [| exact S2 | tauto | tauto].
      unfold same_bytes_except. repeat (split; [assumption |]). exact S1. }
    split; [| split].
    + unfold tag_at, st2; cbn [mem_bytes set_bytes]; rewrite in_heap_set_bytes;
      (split; [in_heap_solve |]); unfold m2.
      rewrite !word_at_put_word_other by lia.
      rewrite word_at_put_word_same, wrap32_small by (apply PACK_range; lia).
      apply size_of_PACK; lia.
    + unfold tag_at, st2; cbn [mem_bytes set_bytes]; rewrite in_heap_set_bytes;
      (split; [in_heap_solve |]); unfold m2.
      rewrite word_at_put_word_same, wrap32_small by (apply PACK_range; lia).
      apply size_of_PACK; lia.
    + apply (free_list_frame st1); [reflexivity | reflexivity | | exact Hfl1].
      intros a Hl. destruct S2 as (_ & _ & _ & S2). apply S2.
      intros Hb. exact (clear_of_disjoint _ _ _ _ Hclear Hb Hl).
Qed.



Lemma separate_apart (st : heap_state) (l : list Z) (b c : Z) :
  separate st l → b ∈ l → c ∈ l → b ≠ c →
  b + block_size st b ≤ c ∨ c + block_size st c ≤ b.
Proof.
  induction l as [| a l IH]; intros Hs Hb Hc Hne.
  - apply elem_of_nil in Hb. contradiction.
  - destruct Hs as [Ha Hs]. rewrite Forall_forall in Ha.
    apply elem_of_cons in Hb as [-> | Hb]; apply elem_of_cons in Hc as [-> | Hc].
    + contradiction.
    + exact (Ha c Hc).
    + specialize (Ha b Hb). lia.
    + exact (IH Hs Hb Hc Hne).
Qed.

Lemma free_blocks_clear (st : heap_state) (l1 l2 : list Z) (r : Z) :
  free_blocks st (l1 ++ r :: l2) →
  Forall (clear_of r (block_size st r)) (l1 ++ l2).
Proof.
  intros ((_ & _ & Hsp & _) & Hsz & Hsep).
  destruct (proj1 (NoDup_app _ _) (spaced_NoDup _ Hsp)) as (_ & D1 & D2).
  apply NoDup_cons in D2 as [D2 _].
  apply Forall_forall. intros b Hb.
  assert (b ∈ l1 ++ r :: l2 ∧ b ≠ r) as [HbL Hne].
  { apply elem_of_app in Hb as [Hb | Hb].
    - split; [mem_solve |]. intros ->. apply (D1 r Hb). mem_solve.
    - split; [mem_solve |]. intros ->. contradiction. }
  assert (r ∈ l1 ++ r :: l2) as HrL by mem_solve.
  rewrite Forall_forall in Hsz. destruct (Hsz b HbL) as [Hb16 _].
  destruct (separate_apart _ _ _ _ Hsep HbL HrL Hne); unfold clear_of; lia.
Qed.

Lemma free_blocks_sizes (st : heap_state) (l : list Z) (b : Z) :
  free_blocks st l → b ∈ l →
  16 ≤ block_size st b ∧ b + block_size st b - 4 ≤ mem_brk st
  ∧ b ≠ NULL ∧ in_heap st (HDRP b) 12 = true ∧ is_ptr b.
Proof.
  intros ((Hch & _ & _ & Hptr) & Hsz & _) Hb.
  rewrite Forall_forall in Hsz, Hptr. destruct (Hsz b Hb) as [H1 H2].
  destruct (chain_mem _ _ _ _ Hch Hb) as [H3 H4].
  split; [exact H1 |]. split; [exact H2 |]. split; [exact H3 |].
  split; [exact H4 | exact (Hptr b Hb)].
Qed.

(** Headers of the blocks of a list survive every store into another
    block and into the link words of the list. *)
Lemma headers_kept (st st' : heap_state) (l : list Z) (r c : Z) :
  Forall (λ b, 16 ≤ block_size st b) l → separate st l →
  Forall (λ b, b + block_size st b ≤ r ∨ r + c ≤ b) l →
  same_bytes_except st st' (λ a, block_bytes r c a ∨ link_words l a) →
  ∀ b, b ∈ l → block_size st' b = block_size st b.
Proof.
  intros Hsz Hsep Hout (_ & _ & _ & Hsame) b Hb.
  unfold block_size, HDRP, WSIZE. f_equal. apply word_at_same_bytes.
  intros a Ha. apply Hsame. rewrite Forall_forall in Hsz, Hout.
  pose proof (Hsz b Hb) as Hb16. pose proof (Hout b Hb) as Hbo.
  intros [Hblk | (b' & Hb' & Hr)].
  - unfold block_bytes in Hblk. lia.
  - destruct (Z.eq_dec b b') as [<- | Hne]; [lia |].
    pose proof (Hsz b' Hb').
    destruct (separate_apart _ _ _ _ Hsep Hb Hb' Hne); lia.
Qed.

Lemma separate_frame (st st' : heap_state) (l : list Z) :
  (∀ b, b ∈ l → block_size st' b = block_size st b) →
  separate st l → separate st' l.
Proof.
  induction l as [| a l IH]; intros Hs Hsep; [exact I |].
  destruct Hsep as [Ha Hsep]. split.
  - rewrite Forall_forall in *. intros c Hc.
    rewrite (Hs a) by (apply elem_of_cons; left; reflexivity).
    rewrite (Hs c) by (apply elem_of_cons; right; exact Hc). exact (Ha c Hc).
  - apply IH; [| exact Hsep]. intros b Hb. apply Hs, elem_of_cons. right. exact Hb.
Qed.

Lemma separate_remove (st : heap_state) (l1 l2 : list Z) (x : Z) :
  separate st (l1 ++ x :: l2) → separate st (l1 ++ l2).
Proof.
  induction l1 as [| a l1 IH]; cbn [app separate].
  - intros [_ H]. exact H.
  - intros [Ha Hs]. split; [| exact (IH Hs)].
    rewrite Forall_app in *. destruct Ha as [H1 H2]. apply Forall_cons in H2 as [_ H2].
    split; assumption.
Qed.

(** The invariant after a change that keeps the headers of the list. *)
Lemma free_blocks_frame (st st' : heap_state) (l : list Z) :
  mem_brk st' = mem_brk st →
  free_list st' (listp st') l →
  (∀ b, b ∈ l → block_size st' b = block_size st b) →
  Forall (λ b, 16 ≤ block_size st b ∧ b + block_size st b - 4 ≤ mem_brk st) l →
  separate st l →
  free_blocks st' l.
Proof.
  intros E Hfl Hs Hsz Hsep. split; [exact Hfl |]. split.
  - rewrite Forall_forall in *. intros b Hb. rewrite (Hs b Hb), E. exact (Hsz b Hb).
  - apply (separate_frame st); assumption.
Qed.

Lemma free_blocks_remove_sizes (st : heap_state) (l1 l2 : list Z) (x : Z) :
  free_blocks st (l1 ++ x :: l2) →
  Forall (λ b, 16 ≤ block_size st b ∧ b + block_size st b - 4 ≤ mem_brk st) (l1 ++ l2)
  ∧ separate st (l1 ++ l2)
  ∧ Forall (λ b, b + block_size st b ≤ x ∨ x + block_size st x ≤ b) (l1 ++ l2).
Proof.
  intros Hfb. pose proof Hfb as ((_ & _ & Hsp & _) & Hsz & Hsep).
  split; [| split].
  - rewrite Forall_app in *. destruct Hsz as [H1 H2]. apply Forall_cons in H2 as [_ H2].
    split; assumption.
  - exact (separate_remove _ _ _ _ Hsep).
  - destruct (proj1 (NoDup_app _ _) (spaced_NoDup _ Hsp)) as (_ & D1 & D2).
    apply NoDup_cons in D2 as [D2 _].
    apply Forall_forall. intros b Hb.
    assert (b ∈ l1 ++ x :: l2 ∧ b ≠ x) as [HbL Hne].
    { apply elem_of_app in Hb as [Hb | Hb].
      - split; [mem_solve |]. intros ->. apply (D1 x Hb). mem_solve.
      - split; [mem_solve |]. intros ->. contradiction. }
    assert (x ∈ l1 ++ x :: l2) as HxL by mem_solve.
    exact (separate_apart _ _ _ _ Hsep HbL HxL Hne).
Qed.

(** [mm_malloc] of the explicit source when the free list holds a
    block that fits. *)
Lemma explicit_mm_malloc_reuse_spec (st : heap_state) (size : Z) (l : list Z) :
  free_blocks st l →
  mem_brk st ≤ 2 ^ 32 →
  0 < size ≤ 2 ^ 32 - 16 →
  let asize := if size <=? DSIZE then 2 * DSIZE else ALIGN (wrap32 (size + DSIZE)) in
  Exists (λ b, asize ≤ block_size st b) l →
  ∃ r st' l1 l2,
    Explicit.mm_malloc size st = Ok r st'
    ∧ l = l1 ++ r :: l2
    ∧ best_fit st asize l r
    ∧ size + 8 ≤ asize ≤ block_size st r
    ∧ (if 16 <=? block_size st r - asize then
         tag_at st' (r - 4) asize 1
         ∧ tag_at st' (r + asize - 4) (block_size st r - asize) 0
         ∧ free_blocks st' ((r + asize) :: l1 ++ l2)
       else
         tag_at st' (r - 4) (block_size st r) 1
         ∧ free_blocks st' (l1 ++ l2))
    ∧ same_bytes_except st st'
        (λ a, block_bytes r (block_size st r) a ∨ link_words (l1 ++ l2) a).
Proof.
  intros Hfb H32 Hsz asize Hex.
  pose proof (eq_refl : 2 ^ 32 = 4294967296) as Hpow.
  assert (16 ≤ asize ∧ asize mod 8 = 0 ∧ size + 8 ≤ asize) as (Ha16 & Ham & Hge).
  { unfold asize, DSIZE. destruct (Z.leb_spec size 8).
    - split; [lia |]. split; [reflexivity | lia].
    - rewrite wrap32_small by lia.
      destruct (ALIGN_spec (size + 8) ltac:(lia)) as [Hal _].
      destruct (Hal ltac:(lia)) as [Hm Hr]. split; [lia |]. split; [exact Hm | lia]. }
  pose proof (eq_refl : asize = if size <=? DSIZE then 2 * DSIZE
                               else ALIGN (wrap32 (size + DSIZE))) as Easize.
  clearbody asize.
  pose proof Hfb as (Hfl & Hsizes & Hsep). pose proof Hfl as (Hch & _).
  destruct (explicit_best_fit_spec st asize l Hch ltac:(lia)) as (r & Ef & Hbest).
  assert (r ∈ l ∧ asize ≤ block_size st r) as [HrL Hfit].
  { destruct Hbest as [(_ & Hno) | (Hr & Hf & _)]; [| split; assumption].
    exfalso. apply Exists_exists in Hex as (b & Hb & Hbf).
    rewrite Forall_forall in Hno. specialize (Hno b Hb). lia. }
  destruct (list_elem_of_split _ _ HrL) as (l1 & l2 & El). subst l.
  destruct (free_blocks_sizes _ _ _ Hfb HrL) as (_ & Hend & Hr0 & Hrin & Pr).
  destruct (explicit_place_splits st r asize (block_size st r) l1 l2 Hfl eq_refl
              Ha16 Ham Hfit Hend H32 (free_blocks_clear _ _ _ _ Hfb))
    as (st' & Ep & Hsame & Hres).
  exists r, st', l1, l2.
  split.
  { unfold Explicit.mm_malloc, mm_malloc.
    destruct (Z.eqb_spec size 0); [lia |].
    cbv zeta. rewrite <- Easize. rewrite (bind_Ok _ _ _ _ _ Ef).
    destruct (Z.eqb_spec r NULL); [contradiction |]. cbn [negb].
    unfold Explicit.place in Ep. rewrite (bind_Ok _ _ _ _ _ Ep). reflexivity. }
  split; [reflexivity |]. split; [exact Hbest |]. split; [lia |].
  split; [| exact Hsame].
  destruct (free_blocks_remove_sizes _ _ _ _ Hfb) as (Hsz' & Hsep' & Hout).
  assert (∀ b, b ∈ l1 ++ l2 → block_size st' b = block_size st b) as Hkept.
  { apply (headers_kept st st' _ r (block_size st r)); [| exact Hsep' | exact Hout | exact Hsame].
    eapply Forall_impl; [exact Hsz' |]. cbv beta. tauto. }
  pose proof Hsame as (X1 & X2 & _ & _).
  destruct (Z.leb_spec 16 (block_size st r - asize)) as [Hsplit | Hwhole].
  - destruct Hres as (T1 & _ & T3 & _ & Hl). split; [exact T1 |]. split; [exact T3 |].
    destruct T3 as (_ & T3 & _).
    replace (r + asize - 4) with (HDRP (r + asize)) in T3 by (unfold HDRP, WSIZE; lia).
    fold (block_size st' (r + asize)) in T3.
    split; [exact Hl |]. split.
    + apply Forall_cons. split; [rewrite T3, X2; lia |].
      rewrite Forall_forall in *. intros b Hb. rewrite (Hkept b Hb), X2. exact (Hsz' b Hb).
    + split; [| apply (separate_frame st); assumption].
      rewrite Forall_forall in *. intros b Hb. rewrite T3, (Hkept b Hb).
      specialize (Hout b Hb). lia.
  - destruct Hres as (T1 & _ & Hl). split; [exact T1 |].
    apply (free_blocks_frame st); assumption.
Qed.

(** X19: If the free list of the explicit allocator is well formed (blocks
    of at least 16 bytes inside the heap that do not overlap) and holds a
    block that fits a request 0 < size <= 2^32 - 16, mm_malloc(size)
    returns a best-fitting block r of the list, with size + 8 <= asize <=
    size of r. If at least 16 bytes remain, r gets the header (asize,
    allocated) and the remainder gets the header (rest, free) and becomes
    the head of the list in place of r; otherwise r keeps its size and is
    marked allocated and leaves the list. The list stays well formed and
    no byte outside block r and the link words of the listed blocks
    changes. *)
Theorem explicit_mm_malloc_reuses (st : heap_state) (size : Z) (l : list Z) :
  free_blocks st l →
  mem_brk st ≤ 2 ^ 32 →
  0 < size ≤ 2 ^ 32 - 16 →
  let asize := if size <=? DSIZE then 2 * DSIZE else ALIGN (wrap32 (size + DSIZE)) in
  Exists (λ b, asize ≤ block_size st b) l →
  ∃ r st' l1 l2,
    Explicit.mm_malloc size st = Ok r st'
    ∧ l = l1 ++ r :: l2
    ∧ best_fit st asize l r
    ∧ size + 8 ≤ asize ≤ block_size st r
    ∧ (if 16 <=? block_size st r - asize then
         tag_at st' (r - 4) asize 1
         ∧ tag_at st' (r + asize - 4) (block_size st r - asize) 0
         ∧ free_blocks st' ((r + asize) :: l1 ++ l2)
       else
         tag_at st' (r - 4) (block_size st r) 1
         ∧ free_blocks st' (l1 ++ l2))
    ∧ same_bytes_except st st'
        (λ a, block_bytes r (block_size st r) a ∨ link_words (l1 ++ l2) a).
Proof. exact (explicit_mm_malloc_reuse_spec st size l). Qed.

Lemma explicit_mm_malloc_reuses_witness :
  ∃ r st', Explicit.mm_malloc 10 explicit_two_free = Ok r st'
    ∧ best_fit explicit_two_free 24 [4112; 4448] r.
Proof.
  destruct (explicit_mm_malloc_reuses explicit_two_free 10 [4112; 4448])
    as (r & st' & l1 & l2 & E & _ & Hb & _); [heap_fact ..|].
  exists r, st'. split; [exact E | exact Hb].
Defined.

(** * Freeing and coalescing in the explicit source *)

Lemma drop_block_split (x : Z) (l1 l2 : list Z) :
  x ∉ l1 → drop_block x (l1 ++ x :: l2) = l1 ++ l2.
Proof.
  induction l1 as [| a l1 IH]; intros Hn; cbn [app drop_block].
  - rewrite Z.eqb_refl. reflexivity.
  - destruct (Z.eqb_spec a x) as [-> | _].
    + exfalso. apply Hn. apply elem_of_cons. left. reflexivity.
    + rewrite IH; [reflexivity |]. intros H. apply Hn. apply elem_of_cons. right. exact H.
Qed.

Lemma drop_block_of (x : Z) (l : list Z) :
  NoDup l → x ∈ l → ∃ l1 l2, l = l1 ++ x :: l2 ∧ drop_block x l = l1 ++ l2.
Proof.
  intros Hnd Hx. destruct (list_elem_of_split _ _ Hx) as (l1 & l2 & ->).
  exists l1, l2. split; [reflexivity |]. apply drop_block_split.
  apply NoDup_app in Hnd as (_ & H & _). intros Hin. apply (H x Hin).
  apply elem_of_cons. left. reflexivity.
Qed.

Lemma off_links_not (l : list Z) (w a : Z) :
  off_links l w → in_word w a → ¬ link_words l a.
Proof.
  intros Ho Hw (b & Hb & Hr). unfold off_links in Ho. rewrite Forall_forall in Ho.
  specialize (Ho b Hb). unfold in_word in Hw. lia.
Qed.

Lemma off_links_word (st st' : heap_state) (l : list Z) (w : Z) :
  same_bytes_except st st' (link_words l) → off_links l w →
  word_at (mem_bytes st') w = word_at (mem_bytes st) w.
Proof.
  intros (_ & _ & _ & Hs) Ho. apply word_at_same_bytes. intros a Ha.
  apply Hs. apply (off_links_not l w); [exact Ho | exact Ha].
Qed.

Lemma remove_keeps_list (st : heap_state) (x : Z) (l1 l2 : list Z) (ws : list Z) :
  free_list st (listp st) (l1 ++ x :: l2) →
  Forall (off_links (l1 ++ l2)) ws →
  keeps (Explicit.remove_free_block x) st ws.
Proof.
  intros Hfl Hws st' E.
  destruct (explicit_remove_spec st x l1 l2 Hfl) as (st1 & E1 & _ & Hs).
  rewrite E1 in E. injection E as <-.
  pose proof Hs as (X1 & X2 & _ & _).
  split; [exact X1 |]. split; [exact X2 |].
  eapply Forall_impl; [exact Hws |]. cbv beta. intros w Hw.
  exact (off_links_word st st1 _ w Hs Hw).
Qed.

Lemma off_links_sub (l l' : list Z) (w : Z) :
  (∀ b, b ∈ l' → b ∈ l) → off_links l w → off_links l' w.
Proof.
  intros Hsub Ho. unfold off_links in *. rewrite Forall_forall in *.
  intros b Hb. apply Ho, Hsub, Hb.
Qed.

(** Putting the merged block [m] of [T] bytes in front of the list. *)
Lemma push_merged (st : heap_state) (m T : Z) (rest : list Z) :
  free_list st (listp st) rest →
  tag_at st (m - 4) T 0 → tag_at st (m + T - 8) T 0 →
  16 ≤ T → 0 < m → mem_brk st ≤ 2 ^ 32 →
  Forall (clear_of m T) rest →
  ∃ st', Explicit.add_free_block m st = Ok tt st'
    ∧ listp st' = m
    ∧ free_list st' m (m :: rest)
    ∧ tag_at st' (m - 4) T 0 ∧ tag_at st' (m + T - 8) T 0
    ∧ same_bytes_except st st' (link_words (m :: rest)).
Proof.
  intros Hfl Th Tf HT Hm H32 Hcl.
  pose proof (eq_refl : 2 ^ 32 = 4294967296) as Hpow.
  pose proof Th as (Hh & _). pose proof Tf as (Hf & _). in_heap_hyps.
  destruct (explicit_add_spec st m rest Hfl) as (st' & E & El & Hfl' & Hs).
  { unfold is_ptr. lia. }
  { unfold NULL. lia. }
  { unfold HDRP, WSIZE. in_heap_solve. }
  { eapply Forall_impl; [exact Hcl |]. cbv beta. unfold clear_of. intros; lia. }
  exists st'. split; [exact E |]. split; [exact El |]. split; [exact Hfl' |].
  pose proof Hs as (X1 & X2 & _ & Hsame).
  assert (∀ a, in_word (m - 4) a ∨ in_word (m + T - 8) a → ¬ link_words (m :: rest) a) as Hno.
  { intros a Ha (b & Hb & Hr). unfold in_word in Ha.
    apply elem_of_cons in Hb as [-> | Hb]; [lia |].
    rewrite Forall_forall in Hcl. specialize (Hcl b Hb). unfold clear_of in Hcl. lia. }
  split; [| split; [| exact Hs]].
  - apply (tag_at_frame st); [exact X1 | exact X2 | | exact Th].
    intros b Hb. apply Hsame, Hno. left. exact Hb.
  - apply (tag_at_frame st); [exact X1 | exact X2 | | exact Tf].
    intros b Hb. apply Hsame, Hno. right. exact Hb.
Qed.

(** The last part of every case of [coalesce]: the merged block is in
    place in [sW], its neighbours are unlinked, and it is pushed on the
    list. *)
Lemma merge_finish (st sW : heap_state) (m T : Z) (rest : list Z) :
  same_bytes_except st sW (λ a, block_bytes m T a ∨ link_words rest a) →
  free_list sW (listp sW) rest →
  tag_at sW (m - 4) T 0 → tag_at sW (m + T - 8) T 0 →
  16 ≤ T → 0 < m → mem_brk st ≤ 2 ^ 32 →
  Forall (λ b, 16 ≤ block_size st b ∧ b + block_size st b - 4 ≤ mem_brk st) rest →
  separate st rest →
  Forall (outside st m T) rest →
  ∃ st', Explicit.add_free_block m sW = Ok tt st'
    ∧ tag_at st' (m - 4) T 0 ∧ tag_at st' (m + T - 8) T 0
    ∧ free_blocks st' (m :: rest)
    ∧ same_bytes_except st st' (λ a, block_bytes m T a ∨ link_words rest a).
Proof.
  intros Hs Hfl Th Tf HT Hm H32 Hsz Hsep Hout.
  pose proof Hs as (X1 & X2 & _ & _).
  assert (Forall (clear_of m T) rest) as Hcl.
  { rewrite Forall_forall in *. intros b Hb. specialize (Hout b Hb).
    destruct (Hsz b Hb) as [Hb16 _]. unfold outside in Hout. unfold clear_of. lia. }
  destruct (push_merged sW m T rest Hfl Th Tf HT Hm ltac:(lia) Hcl)
    as (st' & E & El & Hfl' & Th' & Tf' & Hs').
  exists st'. split; [exact E |]. split; [exact Th' |]. split; [exact Tf' |].
  assert (same_bytes_except st st' (λ a, block_bytes m T a ∨ link_words rest a)) as Hall.
  { apply (same_bytes_trans st sW st' _ _ _ Hs Hs'); [tauto |].
    intros a (b & Hb & Hr). apply elem_of_cons in Hb as [-> | Hb].
    - left. unfold block_bytes. lia.
    - right. exists b. split; assumption. }
  split; [| exact Hall].
  assert (∀ b, b ∈ rest → block_size st' b = block_size st b) as Hkept.
  { apply (headers_kept st st' rest m T); [| exact Hsep | exact Hout | exact Hall].
    eapply Forall_impl; [exact Hsz |]. cbv beta. tauto. }
  pose proof Hall as (Y1 & Y2 & _ & _).
  pose proof Th' as (_ & Th'' & _). pose proof Tf' as (Hfin & _). in_heap_hyps.
  replace (m - 4) with (HDRP m) in Th'' by (unfold HDRP, WSIZE; lia).
  fold (block_size st' m) in Th''.
  split; [rewrite El; exact Hfl' |]. split.
  - apply Forall_cons. split; [rewrite Th''; lia |].
    rewrite Forall_forall in *. intros b Hb. rewrite (Hkept b Hb), Y2. exact (Hsz b Hb).
  - split; [| apply (separate_frame st); assumption].
    rewrite Forall_forall in *. intros b Hb. rewrite Th'', (Hkept b Hb).
    specialize (Hout b Hb). unfold outside in Hout. lia.
Qed.

Lemma drop_block_sub (x : Z) (l : list Z) (b : Z) : b ∈ drop_block x l → b ∈ l.
Proof.
  induction l as [| a l IH]; cbn [drop_block]; [tauto |].
  destruct (a =? x); intros H.
  - apply elem_of_cons. right. exact H.
  - apply elem_of_cons in H as [-> | H]; apply elem_of_cons; [left; reflexivity | right; auto].
Qed.

(** What [free_blocks] says about the list without one of its blocks. *)
Lemma free_blocks_without (st : heap_state) (l1 l2 : list Z) (x : Z) :
  free_blocks st (l1 ++ x :: l2) →
  (x ∉ l1 ++ l2)
  ∧ NoDup (l1 ++ l2)
  ∧ Forall (λ b, 16 ≤ block_size st b ∧ b + block_size st b - 4 ≤ mem_brk st) (l1 ++ l2)
  ∧ separate st (l1 ++ l2)
  ∧ Forall (outside st x (block_size st x)) (l1 ++ l2).
Proof.
  intros Hfb. pose proof Hfb as ((_ & _ & Hsp & _) & _).
  destruct (free_blocks_remove_sizes _ _ _ _ Hfb) as (H1 & H2 & H3).
  pose proof (spaced_NoDup _ Hsp) as Hnd.
  split; [| split; [| split; [exact H1 | split; [exact H2 | exact H3]]]].
  - apply NoDup_app in Hnd as (_ & D1 & D2). apply NoDup_cons in D2 as [D2 _].
    intros H. apply elem_of_app in H as [H | H]; [| contradiction].
    apply (D1 x H). apply elem_of_cons. left. reflexivity.
  - apply NoDup_app in Hnd as (N1 & D1 & D2). apply NoDup_cons in D2 as [_ N2].
    apply NoDup_app. split; [exact N1 |]. split; [| exact N2].
    intros b Hb Hb'. apply (D1 b Hb). apply elem_of_cons. right. exact Hb'.
Qed.

Lemma write_block_tag_at (st : heap_state) (b total : Z) :
  in_heap st (b - 4) 4 = true →
  in_heap st (b + total - 8) 4 = true →
  8 ≤ total < 2 ^ 32 → total mod 8 = 0 →
  ∃ st', write_block b total st = Ok tt st'
    ∧ tag_at st' (b - 4) total 0 ∧ tag_at st' (b + total - 8) total 0
    ∧ listp st' = listp st
    ∧ same_bytes_except st st' (λ a, in_word (b - 4) a ∨ in_word (b + total - 8) a).
Proof.
  intros Hh Hf Ht Hm.
  destruct (write_block_tags st b total Hh Hf Ht) as (st' & E & G1 & G2 & El & Hs).
  exists st'. split; [exact E |].
  apply GET_inv in G1 as (I1 & W1 & _). apply GET_inv in G2 as (I2 & W2 & _).
  unfold HDRP, WSIZE, DSIZE in *.
  destruct (size_of_PACK total 0 ltac:(lia) Hm ltac:(lia)) as [Es Ef].
  split; [unfold tag_at; rewrite <- W1; auto |].
  split; [unfold tag_at; rewrite <- W2; auto |].
  split; [exact El | exact Hs].
Qed.

(** The tail of the three merging cases of [coalesce]: the merged block
    gets its header and footer and is pushed on the list. *)
Lemma write_and_push (st sR : heap_state) (m T : Z) (rest : list Z) :
  same_bytes_except st sR (λ a, block_bytes m T a ∨ link_words rest a) →
  free_list sR (listp sR) rest →
  in_heap st (m - 4) 4 = true → in_heap st (m + T - 8) 4 = true →
  off_links rest (m - 4) → off_links rest (m + T - 8) →
  16 ≤ T < 2 ^ 32 → T mod 8 = 0 → 0 < m → mem_brk st ≤ 2 ^ 32 →
  Forall (λ b, 16 ≤ block_size st b ∧ b + block_size st b - 4 ≤ mem_brk st) rest →
  separate st rest →
  Forall (outside st m T) rest →
  ∃ st', (write_block m T >> Explicit.add_free_block m >> ret m) sR = Ok m st'
    ∧ tag_at st' (m - 4) T 0 ∧ tag_at st' (m + T - 8) T 0
    ∧ free_blocks st' (m :: rest)
    ∧ same_bytes_except st st' (λ a, block_bytes m T a ∨ link_words rest a).
Proof.
  intros Hs Hfl Ih If Oh Of HT HTm Hm H32 Hsz Hsep Hout.
  pose proof Hs as (X1 & X2 & _ & _).
  destruct (write_block_tag_at sR m T) as (sW & E & Th & Tf & El & Hw).
  { unfold in_heap in *. rewrite X1, X2. exact Ih. }
  { unfold in_heap in *. rewrite X1, X2. exact If. }
  { lia. }
  { exact HTm. }
  assert (same_bytes_except st sW (λ a, block_bytes m T a ∨ link_words rest a)) as Hs'.
  { apply (same_bytes_trans st sR sW _ _ _ Hs Hw); [tauto |].
    intros a Ha. left. unfold block_bytes, in_word in *. lia. }
  assert (free_list sW (listp sW) rest) as Hfl'.
  { rewrite El. pose proof Hw as (Y1 & Y2 & _ & Hsame).
    apply (free_list_frame sR); [exact Y1 | exact Y2 | | exact Hfl].
    intros a Hl. apply Hsame. intros [H | H].
    - exact (off_links_not _ _ _ Oh H Hl).
    - exact (off_links_not _ _ _ Of H Hl). }
  destruct (merge_finish st sW m T rest Hs' Hfl' Th Tf ltac:(lia) Hm H32 Hsz Hsep Hout)
    as (st' & E' & R).
  exists st'. split; [| exact R].
  rewrite (bind_Ok _ _ _ _ _ E), (bind_Ok _ _ _ _ _ E'). reflexivity.
Qed.

Lemma outside_off_links (st : heap_state) (l : list Z) (r c w : Z) :
  Forall (λ b, 16 ≤ block_size st b) l →
  Forall (outside st r c) l →
  r - 4 ≤ w → w + 4 ≤ r + c - 4 + 4 → w + 4 ≤ r + c →
  off_links l w.
Proof.
  intros Hsz Hout H1 H2 H3. unfold off_links. rewrite Forall_forall in *.
  intros b Hb. specialize (Hsz b Hb). specialize (Hout b Hb).
  unfold outside in Hout. lia.
Qed.

(** A tag inside a block of the list is off the link words of the list
    when it is the header of the block or lies behind its link words. *)
Lemma member_off_links (st : heap_state) (l : list Z) (x w : Z) :
  free_blocks st l → x ∈ l →
  (w = x - 4 ∨ (x + 8 ≤ w ∧ w + 4 ≤ x + block_size st x - 4)) →
  off_links l w.
Proof.
  intros Hfb Hx Hw. pose proof Hfb as (_ & Hsz & Hsep).
  unfold off_links. rewrite Forall_forall in *. intros b Hb.
  destruct (Hsz b Hb) as [Hb16 _]. destruct (Hsz x Hx) as [Hx16 _].
  destruct (Z.eq_dec b x) as [-> | Hne]; [lia |].
  destruct (separate_apart _ _ _ _ Hsep Hb Hx Hne); lia.
Qed.

Lemma facts_without (st : heap_state) (l1 l2 : list Z) (x : Z) :
  NoDup (l1 ++ x :: l2) →
  Forall (λ b, 16 ≤ block_size st b ∧ b + block_size st b - 4 ≤ mem_brk st) (l1 ++ x :: l2) →
  separate st (l1 ++ x :: l2) →
  (x ∉ l1 ++ l2)
  ∧ NoDup (l1 ++ l2)
  ∧ Forall (λ b, 16 ≤ block_size st b ∧ b + block_size st b - 4 ≤ mem_brk st) (l1 ++ l2)
  ∧ separate st (l1 ++ l2)
  ∧ Forall (outside st x (block_size st x)) (l1 ++ l2).
Proof.
  intros Hnd Hsz Hsep.
  pose proof Hnd as Hnd'. apply NoDup_app in Hnd' as (N1 & D1 & D2).
  apply NoDup_cons in D2 as [D2 N2].
  assert (x ∉ l1 ++ l2) as Hx.
  { intros H. apply elem_of_app in H as [H | H]; [| contradiction].
    apply (D1 x H). apply elem_of_cons. left. reflexivity. }
  split; [exact Hx |]. split.
  { apply NoDup_app. split; [exact N1 |]. split; [| exact N2].
    intros b Hb Hb'. apply (D1 b Hb). apply elem_of_cons. right. exact Hb'. }
  split.
  { rewrite Forall_app in *. destruct Hsz as [H1 H2]. apply Forall_cons in H2 as [_ H2].
    split; assumption. }
  split; [exact (separate_remove _ _ _ _ Hsep) |].
  apply Forall_forall. intros b Hb.
  assert (b ∈ l1 ++ x :: l2) as HbL by mem_solve.
  assert (x ∈ l1 ++ x :: l2) as HxL by mem_solve.
  assert (b ≠ x) as Hne by (intros ->; contradiction).
  exact (separate_apart _ _ _ _ Hsep HbL HxL Hne).
Qed.

Lemma explicit_coalesce_merges
  (st : heap_state) (bp psize size nsize pflag nflag : Z) (l : list Z) :
  neighbourhood st bp psize size nsize pflag nflag →
  tag_at st (bp - 4) size 0 → tag_at st (bp + size - 8) size 0 →
  16 ≤ size →
  free_blocks st l →
  Forall (outside st bp size) l →
  (pflag = 0 → bp - psize ∈ l) →
  (nflag = 0 → bp + size ∈ l) →
  0 ≤ mem_start_brk st → mem_brk st ≤ 2 ^ 32 →
  let m := if pflag =? 0 then bp - psize else bp in
  let T := (if pflag =? 0 then psize else 0) + size + (if nflag =? 0 then nsize else 0) in
  let rest := (if nflag =? 0 then drop_block (bp + size) else id)
                ((if pflag =? 0 then drop_block (bp - psize) else id) l) in
  ∃ st', Explicit.coalesce bp st = Ok m st'
    ∧ tag_at st' (m - 4) T 0 ∧ tag_at st' (m + T - 8) T 0
    ∧ free_blocks st' (m :: rest)
    ∧ same_bytes_except st st' (λ a, block_bytes m T a ∨ link_words rest a).
Proof.
  intros Hnb Th Tf H16 Hfb Hout Hpin Hnin Hstart H32 m T rest.
  pose proof Hnb as [(hf & Hh1 & Hh2 & _) (Hp1 & Hp2 & Hp3) (pf & Hq1 & Hq2 & _)
                       (Hn1 & Hn2 & Hn3) Hnf Hsz Hpsz Htot].
  pose proof (eq_refl : 2 ^ 32 = 4294967296) as Hpow.
  pose proof Hfb as (Hfl & Hsizes & Hsep).
  pose proof Hfl as (_ & _ & Hsp & _). pose proof (spaced_NoDup _ Hsp) as Hnd.
  assert (Forall (λ b, 16 ≤ block_size st b) l) as Hsz16.
  { eapply Forall_impl; [exact Hsizes |]. cbv beta. tauto. }
  assert (size mod 8 = 0) as Hm8 by (rewrite <- Hh2; apply size_of_mod8).
  assert (psize mod 8 = 0) as Hpm8 by (rewrite <- Hp2; apply size_of_mod8).
  assert (nsize mod 8 = 0) as Hnm8 by (rewrite <- Hn2; apply size_of_mod8).
  assert (0 ≤ psize) as Hp0 by (rewrite <- Hp2; apply size_of_range).
  assert (0 ≤ nsize) as Hn0 by (rewrite <- Hn2; apply size_of_range).
  assert (pflag = 0 → block_size st (bp - psize) = psize ∧ 16 ≤ psize) as Hpf.
  { intros E. assert (block_size st (bp - psize) = psize) as Eb.
    { unfold block_size, HDRP, WSIZE. exact Hq2. }
    split; [exact Eb |]. rewrite <- Eb.
    exact (proj1 (free_blocks_sizes _ _ _ Hfb (Hpin E))). }
  assert (nflag = 0 → block_size st (bp + size) = nsize ∧ 16 ≤ nsize) as Hnf'.
  { intros E. assert (block_size st (bp + size) = nsize) as Eb.
    { unfold block_size, HDRP, WSIZE. exact Hn2. }
    split; [exact Eb |]. rewrite <- Eb.
    exact (proj1 (free_blocks_sizes _ _ _ Hfb (Hnin E))). }
  (* the boundary tags are off the link words of the list *)
  assert (off_links l (bp - 4)) as O1
    by (apply (outside_off_links st l bp size); [assumption | assumption | lia..]).
  assert (off_links l (bp + size - 8)) as O2
    by (apply (outside_off_links st l bp size); [assumption | assumption | lia..]).
  assert (pflag = 0 → off_links l (bp - 8) ∧ off_links l (bp - psize - 4)) as Op.
  { intros E. destruct (Hpf E) as [Eb Hp16].
    split; apply (member_off_links st l (bp - psize) _ Hfb (Hpin E)); rewrite ?Eb; lia. }
  assert (nflag = 0 → off_links l (bp + size - 4) ∧ off_links l (bp + size + nsize - 8)) as On.
  { intros E. destruct (Hnf' E) as [Eb Hn16].
    split; apply (member_off_links st l (bp + size) _ Hfb (Hnin E)); rewrite ?Eb; lia. }
  in_heap_hyps.
  assert (0 < bp) as Hbp0 by lia.
  (* unlinking keeps the tags *)
  assert (unlink_keeps_tags Explicit.remove_free_block st bp psize size nsize pflag nflag) as Hk.
  { split; [| split].
    - intros Ep En. destruct (drop_block_of _ _ Hnd (Hnin En)) as (l1 & l2 & El & _).
      rewrite El in Hfl. apply (remove_keeps_list st _ l1 l2 _ Hfl).
      destruct (On En) as [A B].
      repeat (apply Forall_cons; split); [| | constructor];
        (eapply off_links_sub; [| eassumption]); intros b Hb; rewrite El; mem_solve.
    - intros Ep En. destruct (drop_block_of _ _ Hnd (Hpin Ep)) as (l1 & l2 & El & _).
      rewrite El in Hfl. apply (remove_keeps_list st _ l1 l2 _ Hfl).
      destruct (Op Ep) as [A B].
      repeat (apply Forall_cons; split); [| | | constructor];
        (eapply off_links_sub; [| eassumption]); intros b Hb; rewrite El; mem_solve.
    - intros Ep En. destruct (drop_block_of _ _ Hnd (Hpin Ep)) as (l1 & l2 & El & _).
      destruct (Op Ep) as [A B]. destruct (On En) as [C D].
      pose proof Hfl as Hfl0. rewrite El in Hfl0.
      assert (∀ b, b ∈ l1 ++ l2 → b ∈ l) as Hsub by (intros b Hb; rewrite El; mem_solve).
      split.
      + apply (remove_keeps_list st _ l1 l2 _ Hfl0).
        repeat (apply Forall_cons; split); [| constructor].
        exact (off_links_sub _ _ _ Hsub O1).
      + apply keeps_seq.
        * apply (remove_keeps_list st _ l1 l2 _ Hfl0).
          repeat (apply Forall_cons; split); [| | | | | constructor];
            (eapply off_links_sub; [exact Hsub | eassumption]).
        * intros st1 E1.
          destruct (explicit_remove_spec st _ l1 l2 Hfl0)
            as (st1' & E1' & Hfl1 & _).
          rewrite E1' in E1. injection E1 as <-.
          assert (bp + size ∈ l1 ++ l2) as Hn'.
          { pose proof (Hnin En) as H. rewrite El in H.
            assert (bp + size ≠ bp - psize) by (destruct (Hpf Ep); lia). mem_solve. }
          destruct (list_elem_of_split _ _ Hn') as (k1 & k2 & Ek).
          rewrite Ek in Hfl1. apply (remove_keeps_list st1' _ k1 k2 _ Hfl1).
          assert (∀ b, b ∈ k1 ++ k2 → b ∈ l) as Hsub'.
          { intros b Hb. apply Hsub. rewrite Ek. mem_solve. }
          repeat (apply Forall_cons; split); [| | | | | constructor];
            (eapply off_links_sub; [exact Hsub' | eassumption]). }
  unfold Explicit.coalesce.
  rewrite (coalesce_action Explicit.remove_free_block Explicit.add_free_block
             st bp psize size nsize pflag nflag Hnb Hk).
  unfold table_action, m, T, rest.
  destruct (Z.eqb_spec pflag 0) as [Ep | Ep]; destruct (Z.eqb_spec nflag 0) as [En | En].
  - (* both neighbours are free *)
    destruct (Hpf Ep) as [Ebp Hp16]. destruct (Hnf' En) as [Ebn Hn16].
    destruct (Op Ep) as [A B]. destruct (On En) as [C D].
    destruct (Hnf Ep En) as (nf & Hf1 & _). in_heap_hyps.
    destruct (drop_block_of _ _ Hnd (Hpin Ep)) as (l1 & l2 & El & ->).
    pose proof Hfl as Hfl0. rewrite El in Hfl0, Hnd, Hsizes, Hsep.
    destruct (facts_without st l1 l2 _ Hnd Hsizes Hsep) as (Np & Nd1 & Sz1 & Sep1 & Out1).
    assert (bp + size ∈ l1 ++ l2) as Hn'.
    { pose proof (Hnin En) as H. rewrite El in H.
      assert (bp + size ≠ bp - psize) by lia. mem_solve. }
    destruct (drop_block_of _ _ Nd1 Hn') as (k1 & k2 & Ek & ->).
    rewrite Ek in Nd1, Sz1, Sep1.
    destruct (facts_without st k1 k2 _ Nd1 Sz1 Sep1) as (Nn & Nd2 & Sz2 & Sep2 & Out2).
    destruct (explicit_remove_spec st _ l1 l2 Hfl0) as (st1 & E1 & Hfl1 & S1).
    rewrite Ek in Hfl1.
    destruct (explicit_remove_spec st1 _ k1 k2 Hfl1) as (st2 & E2 & Hfl2 & S2).
    rewrite (bind_Ok _ _ _ _ _ E1), (bind_Ok _ _ _ _ _ E2).
    assert (∀ b, b ∈ k1 ++ k2 → b ∈ l) as Hsub.
    { intros b Hb. rewrite El. assert (b ∈ l1 ++ l2) by (rewrite Ek; mem_solve). mem_solve. }
    apply (write_and_push st st2 (bp - psize) (psize + size + nsize) (k1 ++ k2)).
    + apply (same_bytes_trans st st1 st2 _ _ _ S1 S2); [| tauto].
      intros a (b & Hb & Hr). rewrite Ek in Hb.
      assert (b = bp + size ∨ b ∈ k1 ++ k2) as [-> | Hb'] by mem_solve.
      * left. unfold block_bytes. lia.
      * right. exists b. split; assumption.
    + exact Hfl2.
    + in_heap_solve.
    + replace (bp - psize + (psize + size + nsize) - 8) with (bp + size + nsize - 8) by lia.
      in_heap_solve.
    + exact (off_links_sub _ _ _ Hsub B).
    + replace (bp - psize + (psize + size + nsize) - 8) with (bp + size + nsize - 8) by lia.
      exact (off_links_sub _ _ _ Hsub D).
    + lia.
    + apply Z_mod_plus_mult8; [apply Z_mod_plus_mult8 |]; assumption.
    + lia.
    + exact H32.
    + exact Sz2.
    + exact Sep2.
    + rewrite Forall_forall in *. intros b Hb.
      assert (b ∈ l1 ++ l2) as Hb1 by (rewrite Ek; mem_solve).
      pose proof (Out1 b Hb1) as F1. pose proof (Out2 b Hb) as F2.
      pose proof (Hout b (Hsub b Hb)) as F3. destruct (Sz2 b Hb) as [Hb16 _].
      unfold outside in *. rewrite Ebp in F1. rewrite Ebn in F2. lia.
  - (* only the previous block is free *)
    destruct (Hpf Ep) as [Ebp Hp16]. destruct (Op Ep) as [A B].
    destruct (drop_block_of _ _ Hnd (Hpin Ep)) as (l1 & l2 & El & ->).
    pose proof Hfl as Hfl0. rewrite El in Hfl0, Hnd, Hsizes, Hsep.
    destruct (facts_without st l1 l2 _ Hnd Hsizes Hsep) as (Np & Nd1 & Sz1 & Sep1 & Out1).
    destruct (explicit_remove_spec st _ l1 l2 Hfl0) as (st1 & E1 & Hfl1 & S1).
    rewrite (bind_Ok _ _ _ _ _ E1). cbn [id].
    assert (∀ b, b ∈ l1 ++ l2 → b ∈ l) as Hsub by (intros b Hb; rewrite El; mem_solve).
    replace (psize + size + 0) with (psize + size) by lia.
    apply (write_and_push st st1 (bp - psize) (psize + size) (l1 ++ l2)).
    + apply (same_bytes_weaken _ _ _ _ S1). tauto.
    + exact Hfl1.
    + in_heap_solve.
    + replace (bp - psize + (psize + size) - 8) with (bp + size - 8) by lia.
      destruct Tf as (I & _). exact I.
    + exact (off_links_sub _ _ _ Hsub B).
    + replace (bp - psize + (psize + size) - 8) with (bp + size - 8) by lia.
      exact (off_links_sub _ _ _ Hsub O2).
    + lia.
    + apply Z_mod_plus_mult8; assumption.
    + lia.
    + exact H32.
    + exact Sz1.
    + exact Sep1.
    + rewrite Forall_forall in *. intros b Hb.
      pose proof (Out1 b Hb) as F1. pose proof (Hout b (Hsub b Hb)) as F3.
      destruct (Sz1 b Hb) as [Hb16 _].
      unfold outside in *. rewrite Ebp in F1. lia.
  - (* only the next block is free *)
    destruct (Hnf' En) as [Ebn Hn16]. destruct (On En) as [C D].
    cbn [id].
    destruct (drop_block_of _ _ Hnd (Hnin En)) as (l1 & l2 & El & ->).
    pose proof Hfl as Hfl0. rewrite El in Hfl0, Hnd, Hsizes, Hsep.
    destruct (facts_without st l1 l2 _ Hnd Hsizes Hsep) as (Np & Nd1 & Sz1 & Sep1 & Out1).
    destruct (explicit_remove_spec st _ l1 l2 Hfl0) as (st1 & E1 & Hfl1 & S1).
    rewrite (bind_Ok _ _ _ _ _ E1).
    assert (∀ b, b ∈ l1 ++ l2 → b ∈ l) as Hsub by (intros b Hb; rewrite El; mem_solve).
    replace (0 + size + nsize) with (size + nsize) by lia.
    assert (in_heap st (bp + size + nsize - 8) 4 = true) as Iend.
    { destruct (free_blocks_sizes _ _ _ Hfb (Hnin En)) as (_ & Hend & _).
      rewrite Ebn in Hend. in_heap_solve. }
    apply (write_and_push st st1 bp (size + nsize) (l1 ++ l2)).
    + apply (same_bytes_weaken _ _ _ _ S1). tauto.
    + exact Hfl1.
    + in_heap_solve.
    + replace (bp + (size + nsize) - 8) with (bp + size + nsize - 8) by lia. exact Iend.
    + exact (off_links_sub _ _ _ Hsub O1).
    + replace (bp + (size + nsize) - 8) with (bp + size + nsize - 8) by lia.
      exact (off_links_sub _ _ _ Hsub D).
    + lia.
    + apply Z_mod_plus_mult8; assumption.
    + lia.
    + exact H32.
    + exact Sz1.
    + exact Sep1.
    + rewrite Forall_forall in *. intros b Hb.
      pose proof (Out1 b Hb) as F1. pose proof (Hout b (Hsub b Hb)) as F3.
      destruct (Sz1 b Hb) as [Hb16 _].
      unfold outside in *. rewrite Ebn in F1. lia.
  - (* both neighbours are allocated *)
    cbn [id]. replace (0 + size + 0) with size by lia.
    destruct (merge_finish st st bp size l) as (st' & E & R);
      [apply same_bytes_refl | exact Hfl | exact Th | exact Tf | lia | lia | exact H32
      | exact Hsizes | exact Hsep | exact Hout |].
    exists st'. split; [| exact R]. rewrite (bind_Ok _ _ _ _ _ E). reflexivity.
Qed.

(** [mm_free] of the explicit source. *)
Lemma explicit_mm_free_spec
  (st : heap_state) (bp psize size nsize pflag nflag : Z) (l : list Z) :
  neighbourhood st bp psize size nsize pflag nflag →
  16 ≤ size →
  free_blocks st l →
  Forall (outside st bp size) l →
  (pflag = 0 → bp - psize ∈ l) →
  (nflag = 0 → bp + size ∈ l) →
  0 ≤ mem_start_brk st → mem_brk st ≤ 2 ^ 32 →
  let m := if pflag =? 0 then bp - psize else bp in
  let T := (if pflag =? 0 then psize else 0) + size + (if nflag =? 0 then nsize else 0) in
  let rest := (if nflag =? 0 then drop_block (bp + size) else id)
                ((if pflag =? 0 then drop_block (bp - psize) else id) l) in
  ∃ st', Explicit.mm_free bp st = Ok tt st'
    ∧ tag_at st' (m - 4) T 0 ∧ tag_at st' (m + T - 8) T 0
    ∧ free_blocks st' (m :: rest)
    ∧ same_bytes_except st st' (λ a, block_bytes m T a ∨ link_words rest a).
Proof.
  intros Hnb H16 Hfb Hout Hpin Hnin Hstart H32 m T rest.
  pose proof Hnb as [(hf & Hh1 & Hh2 & Hh3) (Hp1 & Hp2 & Hp3) (pf & Hq1 & Hq2 & Hq3)
                       (Hn1 & Hn2 & Hn3) Hnf Hsz Hpsz Htot].
  pose proof (eq_refl : 2 ^ 32 = 4294967296) as Hpow.
  pose proof Hfb as (Hfl & Hsizes & Hsep).
  assert (Forall (λ b, 16 ≤ block_size st b) l) as Hsz16.
  { eapply Forall_impl; [exact Hsizes |]. cbv beta. tauto. }
  assert (size mod 8 = 0) as Hm8 by (rewrite <- Hh2; apply size_of_mod8).
  assert (psize mod 8 = 0) as Hpm8 by (rewrite <- Hp2; apply size_of_mod8).
  assert (0 ≤ psize) as Hp0 by (rewrite <- Hp2; apply size_of_range).
  assert (0 ≤ nsize) as Hn0 by (rewrite <- Hn2; apply size_of_range).
  assert (psize ≠ 0) as Hpne.
  { intros E. rewrite E in Hq2. replace (bp - 0 - 4) with (bp - 4) in Hq2 by lia. lia. }
  assert (8 ≤ psize) as Hp8.
  { pose proof (Z.div_mod psize 8 ltac:(lia)). lia. }
  assert (nflag = 0 → 16 ≤ nsize) as Hn16.
  { intros E. assert (block_size st (bp + size) = nsize) as Eb.
    { unfold block_size, HDRP, WSIZE. exact Hn2. }
    rewrite <- Eb. exact (proj1 (free_blocks_sizes _ _ _ Hfb (Hnin E))). }
  assert (off_links l (bp - 4)) as O1
    by (apply (outside_off_links st l bp size); [assumption | assumption | lia..]).
  assert (off_links l (bp + size - 8)) as O2
    by (apply (outside_off_links st l bp size); [assumption | assumption | lia..]).
  in_heap_hyps.
  (* the two stores of [mm_free] *)
  set (st0 := set_bytes (put_word (put_word (mem_bytes st) (bp - 4) (PACK size 0))
                           (bp + size - 8) (PACK size 0)) st).
  assert (Explicit.mm_free bp st = (let* _ := Explicit.coalesce bp in ret tt) st0) as Erun.
  { unfold Explicit.mm_free, mm_free, FTRP, GET_SIZE, HDRP, WSIZE, DSIZE.
    repeat pstep. rewrite Hh2. repeat pstep. reflexivity. }
  assert (same_bytes_except st st0 (λ a, in_word (bp - 4) a ∨ in_word (bp + size - 8) a)) as S0.
  { unfold same_bytes_except, st0. cbn [mem_start_brk mem_brk mem_max_addr mem_bytes set_bytes].
    repeat (split; [reflexivity |]). intros a Ha. unfold in_word in Ha.
    rewrite !byte_at_put_word_other by lia. reflexivity. }
  assert (∀ a sz fl, a + 4 ≤ bp - 4 ∨ (bp ≤ a ∧ a + 4 ≤ bp + size - 8) ∨ bp + size - 4 ≤ a →
            tag_at st a sz fl → tag_at st0 a sz fl) as Hkeep.
  { intros a sz fl Ha. apply tag_at_frame; [reflexivity | reflexivity |].
    intros b Hb. destruct S0 as (_ & _ & _ & S0). apply S0. unfold in_word. lia. }
  assert (tag_at st0 (bp - 4) size 0) as Th.
  { unfold tag_at, st0. cbn [mem_bytes set_bytes]. rewrite in_heap_set_bytes.
    split; [in_heap_solve |]. repeat pstep. split; reflexivity. }
  assert (tag_at st0 (bp + size - 8) size 0) as Tf.
  { unfold tag_at, st0. cbn [mem_bytes set_bytes]. rewrite in_heap_set_bytes.
    split; [in_heap_solve |]. repeat pstep. split; reflexivity. }
  assert (neighbourhood st0 bp psize size nsize pflag nflag) as Hnb0.
  { constructor.
    - exists 0. exact Th.
    - apply Hkeep; [lia |]. split; [in_heap_solve | split; assumption].
    - exists pf. apply Hkeep; [lia |]. split; [in_heap_solve | split; assumption].
    - apply Hkeep; [lia |]. split; [in_heap_solve | split; assumption].
    - intros Ep En. destruct (Hnf Ep En) as (nf & Hf). exists nf.
      specialize (Hn16 En). apply Hkeep; [lia | exact Hf].
    - exact Hsz.
    - exact Hpsz.
    - exact Htot. }
  assert (∀ b, b ∈ l → block_size st0 b = block_size st b) as Hkept.
  { apply (headers_kept st st0 l bp size Hsz16 Hsep Hout).
    apply (same_bytes_weaken _ _ _ _ S0). intros a Ha. left.
    unfold in_word, block_bytes in *. lia. }
  assert (free_blocks st0 l) as Hfb0.
  { apply (free_blocks_frame st); [reflexivity | | exact Hkept | exact Hsizes | exact Hsep].
    apply (free_list_frame st); [reflexivity | reflexivity | | exact Hfl].
    intros a Hl. destruct S0 as (_ & _ & _ & S0). apply S0. intros [H | H].
    - exact (off_links_not _ _ _ O1 H Hl).
    - exact (off_links_not _ _ _ O2 H Hl). }
  assert (Forall (outside st0 bp size) l) as Hout0.
  { rewrite Forall_forall in *. intros b Hb. unfold outside.
    rewrite (Hkept b Hb). exact (Hout b Hb). }
  destruct (explicit_coalesce_merges st0 bp psize size nsize pflag nflag l
              Hnb0 Th Tf H16 Hfb0 Hout0 Hpin Hnin Hstart H32)
    as (st' & E & T1 & T2 & Hfb' & S1).
  exists st'. split; [rewrite Erun, (bind_Ok _ _ _ _ _ E); reflexivity |].
  split; [exact T1 |]. split; [exact T2 |]. split; [exact Hfb' |].
  apply (same_bytes_trans st st0 st' _ _ _ S0 S1); [| tauto].
  intros a Ha. left. unfold m, T, in_word, block_bytes in *.
  destruct (pflag =? 0); destruct (nflag =? 0); lia.
Qed.

(** X20: mm_free of the explicit allocator on a block bp of at least 16
    bytes that overlaps no block of the well-formed free list l and whose
    neighbours are in l when their tags say free: the block is merged with
    the previous block when its footer says free and with the next block
    when its header says free; the merged block gets header and footer
    (total size, free) and becomes the head of the list, the absorbed
    neighbours leave the list, the list stays well formed, and no byte
    outside the merged block and the link words of the remaining list
    changes. *)
Theorem explicit_mm_free_merges
  (st : heap_state) (bp psize size nsize pflag nflag : Z) (l : list Z) :
  neighbourhood st bp psize size nsize pflag nflag →
  16 ≤ size →
  free_blocks st l →
  Forall (outside st bp size) l →
  (pflag = 0 → bp - psize ∈ l) →
  (nflag = 0 → bp + size ∈ l) →
  0 ≤ mem_start_brk st → mem_brk st ≤ 2 ^ 32 →
  let m := if pflag =? 0 then bp - psize else bp in
  let T := (if pflag =? 0 then psize else 0) + size + (if nflag =? 0 then nsize else 0) in
  let rest := (if nflag =? 0 then drop_block (bp + size) else id)
                ((if pflag =? 0 then drop_block (bp - psize) else id) l) in
  ∃ st', Explicit.mm_free bp st = Ok tt st'
    ∧ tag_at st' (m - 4) T 0 ∧ tag_at st' (m + T - 8) T 0
    ∧ free_blocks st' (m :: rest)
    ∧ same_bytes_except st st' (λ a, block_bytes m T a ∨ link_words rest a).
Proof. exact (explicit_mm_free_spec st bp psize size nsize pflag nflag l). Qed.

Lemma explicit_mm_free_merges_witness :
  ∃ st', Explicit.mm_free 4224 explicit_three_free = Ok tt st'
    ∧ tag_at st' 4108 4112 0
    ∧ free_blocks st' [4112].
Proof.
  destruct (explicit_mm_free_merges explicit_three_free 4224 112 112 3888 0 0 [4336; 4112])
    as (st' & E & H1 & _ & H3 & _); [heap_fact ..|].
  exists st'. split; [exact E |]. split; [exact H1 | exact H3].
Defined.

(** * Growing a block in place *)

(** X21: mm_realloc of the explicit allocator grows a block in place when
    the block behind it is free and large enough: for a block bp of c
    bytes followed by a free block of nsize bytes of the well-formed free
    list, and c < n + 8 <= c + nsize, mm_realloc(bp, n) returns bp,
    absorbs the whole next block (header and footer become (c + nsize,
    allocated), nothing is split off), takes the next block out of the
    list, and writes nothing but these two tags and link words of the
    remaining list. *)
Theorem explicit_realloc_absorbs_next
  (st : heap_state) (bp n c nsize : Z) (l : list Z) :
  (∃ f, tag_at st (bp - 4) c f) →
  tag_at st (bp + c - 4) nsize 0 →
  16 ≤ c →
  free_blocks st l →
  bp + c ∈ l →
  Forall (outside st bp c) l →
  0 ≤ n < 2 ^ 32 - 8 →
  c < n + 8 ≤ c + nsize →
  c + nsize < 2 ^ 32 →
  ∃ st', Explicit.mm_realloc bp n st = Ok bp st'
    ∧ tag_at st' (bp - 4) (c + nsize) 1
    ∧ tag_at st' (bp + c + nsize - 8) (c + nsize) 1
    ∧ free_blocks st' (drop_block (bp + c) l)
    ∧ same_bytes_except st st'
        (λ a, in_word (bp - 4) a ∨ in_word (bp + c + nsize - 8) a
              ∨ link_words (drop_block (bp + c) l) a).
Proof.
  intros (hf & Hh1 & Hh2 & _) (Hn1 & Hn2 & Hn3) H16 Hfb Hin Hout Hn Hfit Htot.
  pose proof (eq_refl : 2 ^ 32 = 4294967296) as Hpow.
  pose proof Hfb as (Hfl & Hsizes & Hsep).
  pose proof Hfl as (_ & _ & Hsp & _). pose proof (spaced_NoDup _ Hsp) as Hnd.
  assert (block_size st (bp + c) = nsize) as Ebn.
  { unfold block_size, HDRP, WSIZE. exact Hn2. }
  destruct (free_blocks_sizes _ _ _ Hfb Hin) as (Hn16 & Hend & _).
  rewrite Ebn in Hn16, Hend.
  assert (c mod 8 = 0) as Hcm by (rewrite <- Hh2; apply size_of_mod8).
  assert (nsize mod 8 = 0) as Hnm by (rewrite <- Hn2; apply size_of_mod8).
  assert ((c + nsize) mod 8 = 0) as Htm by (apply Z_mod_plus_mult8; assumption).
  destruct (drop_block_of _ _ Hnd Hin) as (l1 & l2 & El & ->).
  rewrite El in Hfl, Hnd, Hsizes, Hsep.
  destruct (facts_without st l1 l2 _ Hnd Hsizes Hsep) as (Np & Nd1 & Sz1 & Sep1 & Out1).
  destruct (explicit_remove_spec st _ l1 l2 Hfl) as (st1 & E1 & Hfl1 & S1).
  pose proof S1 as (X1 & X2 & _ & _).
  assert (∀ b, b ∈ l1 ++ l2 → b ∈ l) as Hsub by (intros b Hb; rewrite El; mem_solve).
  assert (Forall (outside st bp (c + nsize)) (l1 ++ l2)) as Hout'.
  { rewrite Forall_forall in *. intros b Hb.
    pose proof (Out1 b Hb) as F1. pose proof (Hout b (Hsub b Hb)) as F3.
    destruct (Sz1 b Hb) as [Hb16 _]. unfold outside in *. rewrite Ebn in F1. lia. }
  assert (Forall (λ b, 16 ≤ block_size st b) (l1 ++ l2)) as Hsz16.
  { eapply Forall_impl; [exact Sz1 |]. cbv beta. tauto. }
  assert (off_links (l1 ++ l2) (bp - 4)) as O1
    by (apply (outside_off_links st _ bp (c + nsize)); [assumption | assumption | lia..]).
  assert (off_links (l1 ++ l2) (bp + c + nsize - 8)) as O2
    by (apply (outside_off_links st _ bp (c + nsize)); [assumption | assumption | lia..]).
  in_heap_hyps.
  set (st2 := set_bytes (put_word (put_word (mem_bytes st1) (bp - 4) (PACK (c + nsize) 1))
                           (bp + c + nsize - 8) (PACK (c + nsize) 1)) st1).
  assert (Explicit.mm_realloc bp n st = Ok bp st2) as Erun.
  { unfold Explicit.mm_realloc, realloc_tail, NEXT_BLKP, FTRP, GET_SIZE, GET_ALLOC,
      HDRP, WSIZE, DSIZE.
    repeat (pstep; rewrite ?Hh2).
    destruct (Z.leb_spec (n + 8) c); [lia |].
    repeat (pstep; rewrite ?Hh2, ?Hn2, ?Hn3).
    destruct (Z.leb_spec (n + 8) (c + nsize)); [| lia].
    change (0 =? 0) with true. cbn [andb].
    repeat (pstep; rewrite ?Hh2, ?Hn2, ?Hn3). rewrite (bind_Ok _ _ _ _ _ E1).
    repeat pstep.
    replace (bp + (c + nsize) - 8) with (bp + c + nsize - 8) by lia.
    repeat pstep. reflexivity. }
  assert (same_bytes_except st1 st2
            (λ a, in_word (bp - 4) a ∨ in_word (bp + c + nsize - 8) a)) as S2.
  { unfold same_bytes_except, st2. cbn [mem_start_brk mem_brk mem_max_addr mem_bytes set_bytes].
    repeat (split; [reflexivity |]). intros a Ha. unfold in_word in Ha.
    rewrite !byte_at_put_word_other by lia. reflexivity. }
  assert (same_bytes_except st st2
            (λ a, in_word (bp - 4) a ∨ in_word (bp + c + nsize - 8) a
                  ∨ link_words (l1 ++ l2) a)) as S.
  { apply (same_bytes_trans st st1 st2 _ _ _ S1 S2); tauto. }
  exists st2. split; [exact Erun |].
  split; [| split; [| split; [| exact S]]].
  - unfold tag_at, st2. cbn [mem_bytes set_bytes]. rewrite in_heap_set_bytes.
    split; [in_heap_solve |]. repeat pstep. split; reflexivity.
  - unfold tag_at, st2. cbn [mem_bytes set_bytes]. rewrite in_heap_set_bytes.
    split; [in_heap_solve |]. repeat pstep. split; reflexivity.
  - apply (free_blocks_frame st); [exact (proj1 (proj2 S)) | | | exact Sz1 | exact Sep1].
    + apply (free_list_frame st1); [reflexivity | reflexivity | | exact Hfl1].
      intros a Hl. destruct S2 as (_ & _ & _ & S2). apply S2. intros [H | H].
      * exact (off_links_not _ _ _ O1 H Hl).
      * exact (off_links_not _ _ _ O2 H Hl).
    + apply (headers_kept st st2 _ bp (c + nsize) Hsz16 Sep1 Hout').
      apply (same_bytes_weaken _ _ _ _ S). intros a [H | [H | H]];
        [left | left | right; exact H]; unfold in_word, block_bytes in *; lia.
Qed.

Lemma explicit_realloc_absorbs_next_witness :
  ∃ st', Explicit.mm_realloc 4112 200 explicit_one_block = Ok 4112 st'
    ∧ tag_at st' 4108 4112 1
    ∧ free_blocks st' [].
Proof.
  destruct (explicit_realloc_absorbs_next explicit_one_block 4112 200 112 4000 [4224])
    as (st' & E & H1 & _ & H3 & _); [heap_fact ..|].
  exists st'. split; [exact E |]. split; [exact H1 | exact H3].
Defined.

(** * Growing the heap *)

Lemma chain_grow (st : heap_state) (b : Z) (l : list Z) (p : Z) :
  mem_brk st ≤ b → chain st p l → chain (set_brk b st) p l.
Proof.
  intros Hb. revert p. induction l as [| a l IH]; intros p Hc; [exact Hc |].
  destruct Hc as (-> & Ha & Hin & Ht).
  split; [reflexivity |]. split; [exact Ha |]. split.
  - apply in_heap_spec in Hin. apply in_heap_spec. cbn [mem_start_brk mem_brk set_brk]. lia.
  - exact (IH _ Ht).
Qed.

Lemma free_blocks_grow (st : heap_state) (b : Z) (l : list Z) :
  mem_brk st ≤ b → free_blocks st l → free_blocks (set_brk b st) l.
Proof.
  intros Hb ((Hc & Hbl & Hsp & Hptr) & Hsz & Hsep).
  split; [split; [| split; [| split]] | split].
  - exact (chain_grow _ _ _ _ Hb Hc).
  - destruct l as [| a l]; [exact I |].
    apply (back_links_frame st); [intros; reflexivity | exact Hbl].
  - exact Hsp.
  - exact Hptr.
  - eapply Forall_impl; [exact Hsz |]. cbv beta. intros a [H1 H2].
    split; [exact H1 |]. cbn [mem_brk set_brk].
    change (block_size (set_brk b st) a) with (block_size st a). lia.
  - apply (separate_frame st); [intros; reflexivity | exact Hsep].
Qed.

Lemma tag_at_grow (st : heap_state) (b a size flag : Z) :
  mem_brk st ≤ b → tag_at st a size flag → tag_at (set_brk b st) a size flag.
Proof.
  intros Hb (Hin & Hs & Hf). split; [| split; assumption].
  apply in_heap_spec in Hin. apply in_heap_spec. cbn [mem_start_brk mem_brk set_brk]. lia.
Qed.

(** [extend_heap] of the explicit source. *)
Lemma explicit_extend_heap_spec
  (st : heap_state) (words psize pflag : Z) (l : list Z) :
  let size := if words mod 2 =? 1 then (words + 1) * WSIZE else words * WSIZE in
  let brk := mem_brk st in
  16 ≤ size < 2 ^ 31 →
  brk + size ≤ mem_max_addr st → mem_max_addr st ≤ 2 ^ 32 →
  0 ≤ mem_start_brk st →
  tag_at st (brk - 8) psize pflag →
  (∃ f, tag_at st (brk - psize - 4) psize f) →
  psize ≠ 0 →
  free_blocks st l →
  Forall (outside st brk size) l →
  (pflag = 0 → brk - psize ∈ l) →
  let m := if pflag =? 0 then brk - psize else brk in
  let T := (if pflag =? 0 then psize else 0) + size in
  let rest := if pflag =? 0 then drop_block (brk - psize) l else l in
  ∃ st', Explicit.extend_heap words st = Ok m st'
    ∧ mem_start_brk st' = mem_start_brk st
    ∧ mem_brk st' = brk + size
    ∧ tag_at st' (m - 4) T 0 ∧ tag_at st' (m + T - 8) T 0
    ∧ tag_at st' (mem_brk st' - 4) 0 1
    ∧ free_blocks st' (m :: rest)
    ∧ ∀ a, ¬ (m - 4 ≤ a < m + T ∨ link_words rest a) →
           byte_at (mem_bytes st') a = byte_at (mem_bytes st) a.
Proof.
  intros size brk Hsize Hcap Hmax Hstart Tpf (pf & Tph) Hpne Hfb Hout Hpin m T rest.
  pose proof (eq_refl : 2 ^ 32 = 4294967296) as Hpow.
  pose proof (eq_refl : 2 ^ 31 = 2147483648) as Hpow'.
  pose proof (eq_refl : size = if words mod 2 =? 1 then (words + 1) * WSIZE
                               else words * WSIZE) as Esize.
  pose proof (eq_refl : brk = mem_brk st) as Ebrk.
  clearbody size brk.
  pose proof Hfb as (Hfl & Hsizes & Hsep).
  assert (Forall (λ b, 16 ≤ block_size st b) l) as Hsz16.
  { eapply Forall_impl; [exact Hsizes |]. cbv beta. tauto. }
  pose proof Tpf as (Ipf & Epf & Fpf). pose proof Tph as (Iph & Eph & _).
  assert (psize mod 8 = 0) as Hpm8 by (rewrite <- Epf; apply size_of_mod8).
  assert (0 ≤ psize) as Hp0 by (rewrite <- Epf; apply size_of_range).
  assert (size mod 8 = 0) as Hm8.
  { rewrite Esize. unfold WSIZE. destruct (Z.eqb_spec (words mod 2) 1) as [E | E].
    - pose proof (Z.div_mod words 2 ltac:(lia)).
      replace ((words + 1) * 4) with ((words / 2 + 1) * 8) by lia. apply Z.mod_mul. lia.
    - pose proof (Z.div_mod words 2 ltac:(lia)). pose proof (Z.mod_pos_bound words 2 ltac:(lia)).
      replace (words * 4) with (words / 2 * 8) by lia. apply Z.mod_mul. lia. }
  in_heap_hyps.
  set (sB := set_brk (brk + size) st).
  set (s2 := set_bytes
               (put_word (put_word (put_word (mem_bytes st) (brk - 4) (PACK size 0))
                            (brk + size - 8) (PACK size 0))
                  (brk + size - 4) (PACK 0 1)) sB).
  assert (Explicit.extend_heap words st = Explicit.coalesce brk s2) as Erun.
  { unfold Explicit.extend_heap, extend_heap. cbv zeta.
    assert ((if words mod 2 =? 1 then wrap32 ((words + 1) * WSIZE)
             else wrap32 (words * WSIZE)) = size) as ->.
    { rewrite Esize in Hsize |- *. destruct (words mod 2 =? 1); apply wrap32_small; lia. }
    rewrite bind_mem_sbrk by lia. rewrite <- Ebrk. fold sB.
    unfold FTRP, NEXT_BLKP, GET_SIZE, HDRP, WSIZE, DSIZE.
    assert (mem_brk sB = brk + size) as EB by reflexivity.
    assert (mem_start_brk sB = mem_start_brk st) as ES by reflexivity.
    repeat pstep. reflexivity. }
  assert (same_bytes_except sB s2 (block_bytes brk (size + 4))) as S2.
  { unfold same_bytes_except, s2. cbn [mem_start_brk mem_brk mem_max_addr mem_bytes set_bytes].
    repeat (split; [reflexivity |]). intros a Ha. unfold block_bytes in Ha.
    rewrite !byte_at_put_word_other by lia. reflexivity. }
  assert (free_blocks sB l) as HfbB by (apply free_blocks_grow; [lia | exact Hfb]).
  assert (Forall (outside sB brk (size + 4)) l) as HoutB.
  { rewrite Forall_forall in *. intros b Hb. unfold outside.
    change (block_size sB b) with (block_size st b).
    destruct (Hsizes b Hb). specialize (Hout b Hb). unfold outside in Hout. lia. }
  assert (∀ b, b ∈ l → block_size s2 b = block_size st b) as Hkept.
  { intros b Hb. change (block_size st b) with (block_size sB b).
    apply (headers_kept sB s2 l brk (size + 4)); try assumption.
    - exact (proj2 (proj2 HfbB)).
    - apply (same_bytes_weaken _ _ _ _ S2). tauto. }
  assert (free_blocks s2 l) as Hfb2.
  { destruct HfbB as (HflB & HszB & HsepB).
    apply (free_blocks_frame sB); [reflexivity | | exact Hkept | exact HszB | exact HsepB].
    apply (free_list_frame sB); [reflexivity | reflexivity | | exact HflB].
    intros a (b & Hb & Hr). destruct S2 as (_ & _ & _ & S2). apply S2.
    rewrite Forall_forall in Hout, Hsz16. specialize (Hout b Hb). specialize (Hsz16 b Hb).
    unfold outside in Hout. unfold block_bytes. lia. }
  assert (Forall (outside s2 brk size) l) as Hout2.
  { rewrite Forall_forall in *. intros b Hb. unfold outside. rewrite (Hkept b Hb).
    exact (Hout b Hb). }
  assert (∀ a sz fl, a + 4 ≤ brk - 4 → tag_at st a sz fl → tag_at s2 a sz fl) as Hkeep.
  { intros a sz fl Ha Ht. apply (tag_at_frame sB); [reflexivity | reflexivity | |].
    - intros b Hb. destruct S2 as (_ & _ & _ & S2). apply S2. unfold block_bytes. lia.
    - apply tag_at_grow; [lia | exact Ht]. }
  assert (psize ≠ 0 → 8 ≤ psize) as Hp8.
  { intros Hne. pose proof (Z.div_mod psize 8 ltac:(lia)). lia. }
  assert (tag_at s2 (brk - 4) size 0) as Th.
  { unfold tag_at, s2. cbn [mem_bytes set_bytes]. rewrite in_heap_set_bytes.
    split; [apply in_heap_spec; cbn; lia |]. repeat pstep. split; reflexivity. }
  assert (tag_at s2 (brk + size - 8) size 0) as Tf.
  { unfold tag_at, s2. cbn [mem_bytes set_bytes]. rewrite in_heap_set_bytes.
    split; [apply in_heap_spec; cbn; lia |]. repeat pstep. split; reflexivity. }
  assert (tag_at s2 (brk + size - 4) 0 1) as Te.
  { unfold tag_at, s2. cbn [mem_bytes set_bytes]. rewrite in_heap_set_bytes.
    split; [apply in_heap_spec; cbn; lia |]. repeat pstep. split; reflexivity. }
  assert (pflag = 0 → 16 ≤ psize ∧ block_size st (brk - psize) = psize) as Hpf.
  { intros E. assert (block_size st (brk - psize) = psize) as Eb.
    { unfold block_size, HDRP, WSIZE. exact Eph. }
    split; [| exact Eb]. rewrite <- Eb.
    exact (proj1 (free_blocks_sizes _ _ _ Hfb (Hpin E))). }
  specialize (Hp8 Hpne).
  assert (neighbourhood s2 brk psize size 0 pflag 1) as Hnb.
  { constructor.
    - exists 0. exact Th.
    - apply Hkeep; [lia | exact Tpf].
    - exists pf. apply Hkeep; [lia | exact Tph].
    - exact Te.
    - intros _ H. discriminate H.
    - lia.
    - intros E. destruct (Hpf E). lia.
    - lia. }
  destruct (explicit_coalesce_merges s2 brk psize size 0 pflag 1 l
              Hnb Th Tf ltac:(lia) Hfb2 Hout2 Hpin ltac:(intros H; discriminate H)
              Hstart ltac:(cbn; lia))
    as (st' & E & T1 & T2 & Hfb' & S1).
  change (1 =? 0) with false in *. cbn [id] in *.
  replace ((if pflag =? 0 then psize else 0) + size + 0)
    with ((if pflag =? 0 then psize else 0) + size) in * by lia.
  fold m T in E, T1, T2, Hfb', S1.
  assert ((if pflag =? 0 then drop_block (brk - psize) else id) l = rest) as Er
    by (unfold rest; destruct (pflag =? 0); reflexivity).
  rewrite Er in Hfb', S1.
  pose proof S1 as (Y1 & Y2 & _ & Y4).
  exists st'. split; [rewrite Erun; exact E |].
  split; [rewrite Y1; reflexivity |]. split; [rewrite Y2; reflexivity |].
  split; [exact T1 |]. split; [exact T2 |].
  assert (m + T = brk + size ∧ m ≤ brk) as [EmT Hmle].
  { unfold m, T. destruct (pflag =? 0); lia. }
  assert (∀ b, b ∈ rest → b ∈ l) as Hsub.
  { intros b Hb. unfold rest in Hb. destruct (pflag =? 0); [| exact Hb].
    exact (drop_block_sub _ _ _ Hb). }
  split; [| split; [exact Hfb' |]].
  - rewrite Y2. change (mem_brk s2) with (brk + size).
    apply (tag_at_frame s2); [exact Y1 | exact Y2 | | exact Te].
    intros b Hb. apply Y4. intros [H | (c & Hc & Hr)].
    + unfold block_bytes in H. lia.
    + rewrite Forall_forall in Hout, Hsz16. specialize (Hout c (Hsub c Hc)).
      specialize (Hsz16 c (Hsub c Hc)). unfold outside in Hout. lia.
  - intros a Ha. rewrite Y4.
    + destruct S2 as (_ & _ & _ & S2). rewrite S2; [reflexivity |].
      unfold block_bytes. intros H. apply Ha. left. lia.
    + intros [H | H]; apply Ha; [left | right; exact H].
      unfold block_bytes in H. lia.
Qed.

(** X22: extend_heap of the explicit allocator, when the heap can grow by
    size bytes (the even number of words times 4, at least 16): the break
    moves up by size, a new epilogue header (0, allocated) is the last
    word, and the new block, merged with the last block of the heap when
    that one is free, gets header and footer (total, free) and becomes the
    head of the free list, which stays well formed; the function returns
    the merged block and changes no byte below its header other than link
    words of the list. *)
Theorem explicit_extend_heap_grows
  (st : heap_state) (words psize pflag : Z) (l : list Z) :
  let size := if words mod 2 =? 1 then (words + 1) * WSIZE else words * WSIZE in
  let brk := mem_brk st in
  16 ≤ size < 2 ^ 31 →
  brk + size ≤ mem_max_addr st → mem_max_addr st ≤ 2 ^ 32 →
  0 ≤ mem_start_brk st →
  tag_at st (brk - 8) psize pflag →
  (∃ f, tag_at st (brk - psize - 4) psize f) →
  psize ≠ 0 →
  free_blocks st l →
  Forall (outside st brk size) l →
  (pflag = 0 → brk - psize ∈ l) →
  let m := if pflag =? 0 then brk - psize else brk in
  let T := (if pflag =? 0 then psize else 0) + size in
  let rest := if pflag =? 0 then drop_block (brk - psize) l else l in
  ∃ st', Explicit.extend_heap words st = Ok m st'
    ∧ mem_start_brk st' = mem_start_brk st
    ∧ mem_brk st' = brk + size
    ∧ tag_at st' (m - 4) T 0 ∧ tag_at st' (m + T - 8) T 0
    ∧ tag_at st' (mem_brk st' - 4) 0 1
    ∧ free_blocks st' (m :: rest)
    ∧ ∀ a, ¬ (m - 4 ≤ a < m + T ∨ link_words rest a) →
           byte_at (mem_bytes st') a = byte_at (mem_bytes st) a.
Proof. exact (explicit_extend_heap_spec st words psize pflag l). Qed.

Lemma explicit_extend_heap_grows_witness :
  ∃ st', Explicit.extend_heap 1024 explicit_ready = Ok 4112 st'
    ∧ tag_at st' 4108 8208 0
    ∧ free_blocks st' [4112].
Proof.
  destruct (explicit_extend_heap_grows explicit_ready 1024 4112 0 [4112])
    as (st' & E & _ & _ & H1 & _ & _ & H3 & _); [heap_fact ..|].
  exists st'. split; [exact E |]. split; [exact H1 | exact H3].
Defined.

(** * Placing a block; allocation at the end of the heap *)

(** [place] of the explicit source keeps the free list well formed. *)
Lemma explicit_place_spec
  (st : heap_state) (r asize : Z) (l1 l2 : list Z) :
  free_blocks st (l1 ++ r :: l2) →
  16 ≤ asize → asize mod 8 = 0 → asize ≤ block_size st r →
  mem_brk st ≤ 2 ^ 32 →
  ∃ st', Explicit.place r asize st = Ok tt st'
    ∧ (if 16 <=? block_size st r - asize then
         tag_at st' (r - 4) asize 1 ∧ tag_at st' (r + asize - 8) asize 1
         ∧ tag_at st' (r + asize - 4) (block_size st r - asize) 0
         ∧ tag_at st' (r + block_size st r - 8) (block_size st r - asize) 0
         ∧ free_blocks st' ((r + asize) :: l1 ++ l2)
       else
         tag_at st' (r - 4) (block_size st r) 1
         ∧ tag_at st' (r + block_size st r - 8) (block_size st r) 1
         ∧ free_blocks st' (l1 ++ l2))
    ∧ same_bytes_except st st'
        (λ a, block_bytes r (block_size st r) a ∨ link_words (l1 ++ l2) a).
Proof.
  intros Hfb Ha16 Ham Hfit H32.
  pose proof (eq_refl : 2 ^ 32 = 4294967296) as Hpow.
  pose proof Hfb as (Hfl & Hsizes & Hsep).
  assert (r ∈ l1 ++ r :: l2) as HrL by mem_solve.
  destruct (free_blocks_sizes _ _ _ Hfb HrL) as (_ & Hend & Hr0 & Hrin & Pr).
  destruct (explicit_place_splits st r asize (block_size st r) l1 l2 Hfl eq_refl
              Ha16 Ham Hfit Hend H32 (free_blocks_clear _ _ _ _ Hfb))
    as (st' & Ep & Hsame & Hres).
  exists st'. split; [exact Ep |]. split; [| exact Hsame].
  destruct (free_blocks_remove_sizes _ _ _ _ Hfb) as (Hsz' & Hsep' & Hout).
  assert (∀ b, b ∈ l1 ++ l2 → block_size st' b = block_size st b) as Hkept.
  { apply (headers_kept st st' _ r (block_size st r)); [| exact Hsep' | exact Hout | exact Hsame].
    eapply Forall_impl; [exact Hsz' |]. cbv beta. tauto. }
  pose proof Hsame as (X1 & X2 & _ & _).
  destruct (Z.leb_spec 16 (block_size st r - asize)) as [Hsplit | Hwhole].
  - destruct Hres as (T1 & T2 & T3 & T4 & Hl).
    split; [exact T1 |]. split; [exact T2 |]. split; [exact T3 |]. split; [exact T4 |].
    destruct T3 as (_ & T3 & _).
    replace (r + asize - 4) with (HDRP (r + asize)) in T3 by (unfold HDRP, WSIZE; lia).
    fold (block_size st' (r + asize)) in T3.
    split; [exact Hl |]. split.
    + apply Forall_cons. split; [rewrite T3, X2; lia |].
      rewrite Forall_forall in *. intros b Hb. rewrite (Hkept b Hb), X2. exact (Hsz' b Hb).
    + split; [| apply (separate_frame st); assumption].
      rewrite Forall_forall in *. intros b Hb. rewrite T3, (Hkept b Hb).
      specialize (Hout b Hb). lia.
  - destruct Hres as (T1 & T2 & Hl). split; [exact T1 |]. split; [exact T2 |].
    apply (free_blocks_frame st); assumption.
Qed.

(** X23: place of the explicit allocator on a block r of a well-formed
    free list and a size asize (a multiple of 8, at least 16, at most the
    size of r): if at least 16 bytes remain, r gets header and footer
    (asize, allocated), the remainder gets header and footer (rest, free)
    and becomes the head of the list; otherwise r keeps its size and gets
    header and footer marked allocated. In both cases r leaves the list,
    the list stays well formed, and no byte outside block r and the link
    words of the listed blocks changes. *)
Theorem explicit_place_keeps_free_blocks
  (st : heap_state) (r asize : Z) (l1 l2 : list Z) :
  free_blocks st (l1 ++ r :: l2) →
  16 ≤ asize → asize mod 8 = 0 → asize ≤ block_size st r →
  mem_brk st ≤ 2 ^ 32 →
  ∃ st', Explicit.place r asize st = Ok tt st'
    ∧ (if 16 <=? block_size st r - asize then
         tag_at st' (r - 4) asize 1 ∧ tag_at st' (r + asize - 8) asize 1
         ∧ tag_at st' (r + asize - 4) (block_size st r - asize) 0
         ∧ tag_at st' (r + block_size st r - 8) (block_size st r - asize) 0
         ∧ free_blocks st' ((r + asize) :: l1 ++ l2)
       else
         tag_at st' (r - 4) (block_size st r) 1
         ∧ tag_at st' (r + block_size st r - 8) (block_size st r) 1
         ∧ free_blocks st' (l1 ++ l2))
    ∧ same_bytes_except st st'
        (λ a, block_bytes r (block_size st r) a ∨ link_words (l1 ++ l2) a).
Proof. exact (explicit_place_spec st r asize l1 l2). Qed.

Lemma explicit_place_keeps_free_blocks_witness :
  ∃ st', Explicit.place 4448 24 explicit_two_free = Ok tt st'
    ∧ tag_at st' 4444 24 1
    ∧ free_blocks st' [4472; 4112].
Proof.
  destruct (explicit_place_keeps_free_blocks explicit_two_free 4448 24 [4112] [])
    as (st' & E & H & _); [heap_fact ..|].
  exists st'. split; [exact E |]. decide_if H.
  destruct H as (H1 & _ & _ & _ & H5). split; [exact H1 | exact H5].
Defined.

(** The adjusted request of [mm_malloc]. *)
Lemma adjusted_size (size : Z) :
  0 < size ≤ 2 ^ 32 - 16 →
  let asize := if size <=? DSIZE then 2 * DSIZE else ALIGN (wrap32 (size + DSIZE)) in
  16 ≤ asize ∧ asize mod 8 = 0 ∧ size + 8 ≤ asize < size + 16.
Proof.
  intros Hsz asize. pose proof (eq_refl : 2 ^ 32 = 4294967296) as Hpow.
  unfold asize, DSIZE. destruct (Z.leb_spec size 8).
  - split; [lia |]. split; [reflexivity | lia].
  - rewrite wrap32_small by lia.
    destruct (ALIGN_spec (size + 8) ltac:(lia)) as [Hal _].
    destruct (Hal ltac:(lia)) as [Hm Hr]. split; [lia |]. split; [exact Hm | lia].
Qed.

(** X24: If no block of the free list of the explicit allocator fits the
    request (0 < size <= 2^32 - 16) and the heap cannot grow by max(asize,
    CHUNKSIZE) bytes, mm_malloc(size) returns NULL and leaves the heap
    exactly as it was. *)
Theorem explicit_mm_malloc_out_of_memory (st : heap_state) (size : Z) (l : list Z) :
  chain st (listp st) l →
  0 < size ≤ 2 ^ 32 - 16 →
  let asize := if size <=? DSIZE then 2 * DSIZE else ALIGN (wrap32 (size + DSIZE)) in
  Forall (λ b, block_size st b < asize) l →
  mem_max_addr st < mem_brk st + MAX asize CHUNKSIZE →
  Explicit.mm_malloc size st = Ok NULL st.
Proof.
  intros Hch Hsz asize Hno Hcap.
  destruct (adjusted_size size Hsz) as (Ha16 & Ham & Hge). fold asize in Ha16, Ham, Hge.
  pose proof (eq_refl : 2 ^ 32 = 4294967296) as Hpow.
  pose proof (eq_refl : 2 ^ 31 = 2147483648) as Hpow'.
  pose proof (eq_refl : asize = if size <=? DSIZE then 2 * DSIZE
                               else ALIGN (wrap32 (size + DSIZE))) as Easize.
  clearbody asize.
  destruct (explicit_best_fit_spec st asize l Hch ltac:(lia)) as (r & Ef & Hbest).
  assert (r = NULL) as ->.
  { destruct Hbest as [(E & _) | (Hr & Hf & _)]; [exact E |].
    rewrite Forall_forall in Hno. specialize (Hno r Hr). lia. }
  unfold Explicit.mm_malloc, mm_malloc.
  destruct (Z.eqb_spec size 0); [lia |].
  cbv zeta. rewrite <- Easize. rewrite (bind_Ok _ _ _ _ _ Ef).
  change (negb (NULL =? NULL)) with false. cbv iota.
  set (ext := MAX asize CHUNKSIZE) in *.
  assert (ext mod 8 = 0 ∧ 4096 ≤ ext < 2 ^ 32) as [Hem Her].
  { unfold ext, MAX, CHUNKSIZE. change (2 ^ 12) with 4096.
    destruct (Z.ltb_spec 4096 asize); [split; [exact Ham | lia] | split; [reflexivity | lia]]. }
  assert (ext / WSIZE * WSIZE = ext ∧ (ext / WSIZE) mod 2 = 0) as [Ew Heven].
  { unfold WSIZE. pose proof (Z.div_mod ext 8 ltac:(lia)).
    replace ext with (ext / 8 * 2 * 4) at 1 3 by lia.
    rewrite Z.div_mul by lia. split; [lia |]. apply Z.mod_mul. lia. }
  unfold extend_heap. cbv zeta. rewrite Heven. change (0 =? 1) with false. cbv iota. rewrite Ew.
  rewrite (wrap32_small ext) by lia.
  assert (mem_sbrk ext st = Ok None st) as Es.
  { unfold mem_sbrk, to_int32. rewrite (wrap32_small ext) by lia.
    destruct (Z.ltb_spec ext (2 ^ 31)).
    - destruct (Z.ltb_spec ext 0); [lia |].
      destruct (Z.ltb_spec (mem_max_addr st) (mem_brk st + ext)); [reflexivity | lia].
    - destruct (Z.ltb_spec (ext - 2 ^ 32) 0); [reflexivity | lia]. }
  rewrite bind_assoc, (bind_Ok _ _ _ _ _ Es). rewrite bind_ret_l. reflexivity.
Qed.

Lemma explicit_mm_malloc_out_of_memory_witness :
  Explicit.mm_malloc 1 explicit_full = Ok NULL explicit_full.
Proof.
  apply (explicit_mm_malloc_out_of_memory explicit_full 1 []); heap_fact.
Defined.

(** X25: If no block of the well-formed free list of the explicit
    allocator fits the request and the heap can grow by ext = max(asize,
    CHUNKSIZE) bytes, mm_malloc(size) moves the break up by ext, merges
    the new block with the last block of the heap when that one is free,
    and returns the merged block: it gets the header (asize, allocated),
    and the remainder, when at least 16 bytes, gets the header (rest,
    free) and becomes the head of the list. The list stays well formed, a
    new epilogue header ends the heap, and no byte below the header of the
    returned block changes other than link words of the list. *)
Theorem explicit_mm_malloc_extends
  (st : heap_state) (size psize pflag : Z) (l : list Z) :
  0 < size < 2 ^ 31 - 16 →
  let asize := if size <=? DSIZE then 2 * DSIZE else ALIGN (wrap32 (size + DSIZE)) in
  let ext := MAX asize CHUNKSIZE in
  let brk := mem_brk st in
  Forall (λ b, block_size st b < asize) l →
  brk + ext ≤ mem_max_addr st → mem_max_addr st ≤ 2 ^ 32 →
  0 ≤ mem_start_brk st →
  tag_at st (brk - 8) psize pflag →
  (∃ f, tag_at st (brk - psize - 4) psize f) →
  psize ≠ 0 →
  free_blocks st l →
  Forall (outside st brk ext) l →
  (pflag = 0 → brk - psize ∈ l) →
  let m := if pflag =? 0 then brk - psize else brk in
  let T := (if pflag =? 0 then psize else 0) + ext in
  let rest := if pflag =? 0 then drop_block (brk - psize) l else l in
  ∃ st', Explicit.mm_malloc size st = Ok m st'
    ∧ mem_brk st' = brk + ext
    ∧ tag_at st' (mem_brk st' - 4) 0 1
    ∧ (if 16 <=? T - asize then
         tag_at st' (m - 4) asize 1
         ∧ tag_at st' (m + asize - 4) (T - asize) 0
         ∧ free_blocks st' ((m + asize) :: rest)
       else
         tag_at st' (m - 4) T 1 ∧ free_blocks st' rest)
    ∧ ∀ a, ¬ (m - 4 ≤ a < m + T ∨ link_words rest a) →
           byte_at (mem_bytes st') a = byte_at (mem_bytes st) a.
Proof.
  intros Hsz asize ext brk Hno Hcap Hmax Hstart Tpf Tph Hpne Hfb Hout Hpin m T rest.
  pose proof (eq_refl : 2 ^ 32 = 4294967296) as Hpow.
  pose proof (eq_refl : 2 ^ 31 = 2147483648) as Hpow'.
  destruct (adjusted_size size ltac:(lia)) as (Ha16 & Ham & Hge). fold asize in Ha16, Ham, Hge.
  pose proof (eq_refl : asize = if size <=? DSIZE then 2 * DSIZE
                               else ALIGN (wrap32 (size + DSIZE))) as Easize.
  clearbody asize.
  pose proof Hfb as ((Hch & _) & _).
  destruct (explicit_best_fit_spec st asize l Hch ltac:(lia)) as (r & Ef & Hbest).
  assert (r = NULL) as ->.
  { destruct Hbest as [(E & _) | (Hr & Hf & _)]; [exact E |].
    rewrite Forall_forall in Hno. specialize (Hno r Hr). lia. }
  assert (ext mod 8 = 0 ∧ 4096 ≤ ext < 2 ^ 31 ∧ asize ≤ ext) as (Hem & Her & Hae).
  { unfold ext, MAX, CHUNKSIZE. change (2 ^ 12) with 4096.
    destruct (Z.ltb_spec 4096 asize); [split; [exact Ham | lia] | split; [reflexivity | lia]]. }
  assert (ext / WSIZE * WSIZE = ext ∧ (ext / WSIZE) mod 2 = 0) as [Ew Heven].
  { unfold WSIZE. pose proof (Z.div_mod ext 8 ltac:(lia)).
    replace ext with (ext / 8 * 2 * 4) at 1 3 by lia.
    rewrite Z.div_mul by lia. split; [lia |]. apply Z.mod_mul. lia. }
  pose proof (explicit_extend_heap_spec st (ext / WSIZE) psize pflag l) as Hext.
  cbv zeta in Hext. rewrite Heven in Hext. change (0 =? 1) with false in Hext.
  cbv iota in Hext. rewrite Ew in Hext. fold brk in Hext.
  destruct (Hext ltac:(lia) Hcap Hmax Hstart Tpf Tph Hpne Hfb Hout Hpin)
    as (st1 & E1 & X1 & X2 & T1 & T2 & Te & Hfb1 & Hfr1).
  fold m T rest in E1, T1, T2, Hfb1, Hfr1.
  assert (0 ≤ psize) as Hp0.
  { destruct Tpf as (_ & <- & _). apply size_of_range. }
  assert (block_size st1 m = T) as Ebm.
  { destruct T1 as (_ & H & _). unfold block_size, HDRP, WSIZE. exact H. }
  assert (asize ≤ T) as HaT by (unfold T; destruct (pflag =? 0); lia).
  destruct (explicit_place_spec st1 m asize [] rest Hfb1 Ha16 Ham
              ltac:(rewrite Ebm; exact HaT) ltac:(rewrite X2; lia))
    as (st2 & E2 & Hres & S2).
  rewrite Ebm in Hres, S2. cbn [app] in Hres, S2.
  pose proof S2 as (Y1 & Y2 & _ & Y4).
  exists st2. split.
  { unfold Explicit.mm_malloc, mm_malloc.
    destruct (Z.eqb_spec size 0); [lia |].
    cbv zeta. rewrite <- Easize. rewrite (bind_Ok _ _ _ _ _ Ef).
    change (negb (NULL =? NULL)) with false. cbv iota.
    fold ext. unfold Explicit.extend_heap in E1. rewrite (bind_Ok _ _ _ _ _ E1).
    assert (m ≠ NULL) as Hm0.
    { destruct T1 as (I & _). apply in_heap_spec in I. unfold NULL. lia. }
    destruct (Z.eqb_spec m NULL); [contradiction |].
    unfold Explicit.place in E2. rewrite (bind_Ok _ _ _ _ _ E2). reflexivity. }
  split; [rewrite Y2; exact X2 |].
  assert (m + T = brk + ext ∧ m ≤ brk) as [EmT Hmle].
  { unfold m, T. destruct (pflag =? 0); lia. }
  assert (∀ b, b ∈ rest → b + 8 ≤ brk) as Hlow.
  { intros b Hb.
    assert (b ∈ l) as HbL.
    { unfold rest in Hb. destruct (pflag =? 0); [exact (drop_block_sub _ _ _ Hb) | exact Hb]. }
    destruct (free_blocks_sizes _ _ _ Hfb HbL) as (H16 & Hend & _). fold brk in Hend. lia. }
  split.
  { rewrite Y2. apply (tag_at_frame st1); [exact Y1 | exact Y2 | | exact Te].
    rewrite X2. intros b Hb. apply Y4. intros [H | (c & Hc & Hr)].
    - unfold block_bytes in H. lia.
    - specialize (Hlow c Hc). lia. }
  split.
  { destruct (16 <=? T - asize).
    - destruct Hres as (R1 & _ & R3 & _ & R5). split; [exact R1 |]. split; assumption.
    - destruct Hres as (R1 & _ & R3). split; assumption. }
  intros a Ha. rewrite Y4, Hfr1; [reflexivity | exact Ha |].
  intros [H | H]; apply Ha; [left | right; exact H].
  unfold block_bytes in H. lia.
Qed.

Lemma explicit_mm_malloc_extends_witness :
  ∃ st', Explicit.mm_malloc 5000 explicit_ready = Ok 4112 st'
    ∧ mem_brk st' = 8224 + 5008.
Proof.
  destruct (explicit_mm_malloc_extends explicit_ready 5000 4112 0 [4112])
    as (st' & E & Hbrk & _); [heap_fact ..|].
  exists st'. split; [exact E | exact Hbrk].
Defined.

(** * The bump allocator *)

Lemma copy_fold_other (old m : gmap Z Z) (dst src a : Z) (l : list Z) :
  (∀ i, i ∈ l → dst + i ≠ a) →
  byte_at (foldl (λ acc i, <[dst + i := byte_at old (src + i)]> acc) m l) a = byte_at m a.
Proof.
  revert m. induction l as [| j l IH]; intros m H; [reflexivity |].
  cbn [foldl]. rewrite IH.
  - apply byte_at_insert_ne. apply H. apply elem_of_cons. left. reflexivity.
  - intros i Hi. apply H. apply elem_of_cons. right. exact Hi.
Qed.

Lemma copy_fold_hit (old m : gmap Z Z) (dst src i : Z) (l : list Z) :
  i ∈ l →
  byte_at (foldl (λ acc i, <[dst + i := byte_at old (src + i)]> acc) m l) (dst + i)
  = byte_at old (src + i).
Proof.
  revert m. induction l as [| j l IH]; intros m H.
  - apply elem_of_nil in H. contradiction.
  - cbn [foldl]. destruct (decide (i ∈ l)) as [Hin | Hnin]; [apply IH, Hin |].
    apply elem_of_cons in H as [-> | H]; [| contradiction].
    rewrite copy_fold_other; [apply byte_at_insert_eq |].
    intros k Hk E. apply Hnin. replace j with k by lia. exact Hk.
Qed.

(** What [memcpy] leaves in memory. *)
Lemma copy_bytes_inside (old m : gmap Z Z) (dst src n i : Z) :
  0 ≤ i < n → byte_at (copy_bytes old dst src n m) (dst + i) = byte_at old (src + i).
Proof.
  intros H. unfold copy_bytes. apply copy_fold_hit. apply elem_of_seqZ. lia.
Qed.

Lemma copy_bytes_outside (old m : gmap Z Z) (dst src n a : Z) :
  a < dst ∨ dst + n ≤ a → byte_at (copy_bytes old dst src n m) a = byte_at m a.
Proof.
  intros H. unfold copy_bytes. apply copy_fold_other.
  intros i Hi. apply elem_of_seqZ in Hi. lia.
Qed.

Lemma naive_size_t_size : Naive.SIZE_T_SIZE = 8.
Proof. reflexivity. Qed.

(** [mm_malloc] of the bump allocator. *)
Lemma naive_mm_malloc_spec (st : heap_state) (size : Z) :
  0 ≤ size ≤ 2 ^ 31 - 16 →
  0 ≤ mem_start_brk st ≤ mem_brk st →
  let newsize := ALIGN (size + 8) in
  (mem_brk st + newsize ≤ mem_max_addr st →
   ∃ st', Naive.mm_malloc size st = Ok (mem_brk st + 8) st'
     ∧ mem_start_brk st' = mem_start_brk st
     ∧ mem_brk st' = mem_brk st + newsize
     ∧ mem_brk st + 8 + size ≤ mem_brk st'
     ∧ word_at (mem_bytes st') (mem_brk st) = size
     ∧ ∀ a, a < mem_brk st ∨ mem_brk st + 4 ≤ a →
            byte_at (mem_bytes st') a = byte_at (mem_bytes st) a)
  ∧ (mem_max_addr st < mem_brk st + newsize → Naive.mm_malloc size st = Ok NULL st).
Proof.
  intros Hsz Hst newsize.
  pose proof (eq_refl : 2 ^ 32 = 4294967296) as Hpow.
  pose proof (eq_refl : 2 ^ 31 = 2147483648) as Hpow'.
  destruct (ALIGN_spec (size + 8) ltac:(lia)) as [Hal _].
  destruct (Hal ltac:(lia)) as [Hm Hr]. fold newsize in Hm, Hr.
  unfold Naive.mm_malloc. rewrite naive_size_t_size.
  rewrite (wrap32_small (size + 8)) by lia. fold newsize. clearbody newsize.
  cbv zeta. split; intros Hcap.
  - rewrite bind_mem_sbrk by lia.
    rewrite bind_PUT by (apply in_heap_spec; cbn; lia).
    eexists. split; [reflexivity |].
    cbn [mem_start_brk mem_brk mem_bytes set_bytes set_brk].
    split; [reflexivity |]. split; [reflexivity |]. split; [lia |].
    split; [rewrite word_at_put_word_same; apply wrap32_small; lia |].
    intros a Ha. apply byte_at_put_word_other. lia.
  - unfold bind, mem_sbrk, to_int32. rewrite (wrap32_small newsize) by lia.
    destruct (Z.ltb_spec newsize (2 ^ 31)); [| lia].
    destruct (Z.ltb_spec newsize 0); [lia |].
    destruct (Z.ltb_spec (mem_max_addr st) (mem_brk st + newsize)); [reflexivity | lia].
Qed.

(** X26: mm_malloc of the bump allocator (mm.c), for 0 <= size <= 2^31 -
    16: when ALIGN(size + 8) bytes fit below the limit, it returns the old
    break plus 8, moves the break up by ALIGN(size + 8) (so the payload of
    size bytes lies inside the heap), stores size in the word at the old
    break and changes no other byte; when they do not fit, it returns NULL
    and leaves the heap unchanged. *)
Theorem naive_mm_malloc_bumps (st : heap_state) (size : Z) :
  0 ≤ size ≤ 2 ^ 31 - 16 →
  0 ≤ mem_start_brk st ≤ mem_brk st →
  let newsize := ALIGN (size + 8) in
  (mem_brk st + newsize ≤ mem_max_addr st →
   ∃ st', Naive.mm_malloc size st = Ok (mem_brk st + 8) st'
     ∧ mem_start_brk st' = mem_start_brk st
     ∧ mem_brk st' = mem_brk st + newsize
     ∧ mem_brk st + 8 + size ≤ mem_brk st'
     ∧ word_at (mem_bytes st') (mem_brk st) = size
     ∧ ∀ a, a < mem_brk st ∨ mem_brk st + 4 ≤ a →
            byte_at (mem_bytes st') a = byte_at (mem_bytes st) a)
  ∧ (mem_max_addr st < mem_brk st + newsize → Naive.mm_malloc size st = Ok NULL st).
Proof. exact (naive_mm_malloc_spec st size). Qed.

Lemma naive_mm_malloc_bumps_witness :
  ∃ st', Naive.mm_malloc 10 fresh = Ok 4104 st' ∧ mem_brk st' = 4096 + 24.
Proof.
  destruct (naive_mm_malloc_bumps fresh 10) as [H _]; [heap_fact ..|].
  destruct H as (st' & E & _ & Hb & _); [heap_fact |].
  exists st'. split; [exact E | exact Hb].
Defined.

(** [mm_malloc] of the bump allocator leaves the limit of the memory
    library where it is. *)
Lemma naive_mm_malloc_max (st st' : heap_state) (size r : Z) :
  Naive.mm_malloc size st = Ok r st' → mem_max_addr st' = mem_max_addr st.
Proof.
  unfold Naive.mm_malloc, bind, mem_sbrk, PUT, ret. cbv zeta.
  destruct (_ || _).
  - intros E. injection E as _ <-. reflexivity.
  - destruct (in_heap _ _ _); [| discriminate].
    intros E. injection E as _ <-. reflexivity.
Qed.

(** X27: mm_realloc of the bump allocator (mm.c), for a block ptr whose
    size word and bytes to copy lie in the heap and a size 0 < size <=
    2^31 - 16 whose new block fits below the limit: it returns a fresh
    block at the old break plus 8 whose first min(size, old) bytes are the
    first bytes of the old payload, where old is the size stored in front
    of ptr; the break moves up by ALIGN(size + 8), and no byte below the
    old break changes: the old block is neither freed nor overwritten. *)
Theorem naive_mm_realloc_copies (st : heap_state) (ptr size old : Z) :
  0 < size ≤ 2 ^ 31 - 16 →
  0 ≤ mem_start_brk st →
  mem_start_brk st ≤ ptr - 8 →
  word_at (mem_bytes st) (ptr - 8) = old → 0 ≤ old →
  ptr + Z.min size old ≤ mem_brk st →
  mem_brk st + ALIGN (size + 8) ≤ mem_max_addr st →
  ∃ st', Naive.mm_realloc ptr size st = Ok (mem_brk st + 8) st'
    ∧ mem_brk st' = mem_brk st + ALIGN (size + 8)
    ∧ (∀ i, 0 ≤ i < Z.min size old →
            byte_at (mem_bytes st') (mem_brk st + 8 + i) = byte_at (mem_bytes st) (ptr + i))
    ∧ (∀ a, a < mem_brk st → byte_at (mem_bytes st') a = byte_at (mem_bytes st) a).
Proof.
  intros Hsz Hstart Hptr Eold Hold Hpay Hcap.
  pose proof (eq_refl : 2 ^ 32 = 4294967296) as Hpow.
  destruct (naive_mm_malloc_spec st size ltac:(lia) ltac:(lia)) as [Hok _].
  destruct (Hok Hcap) as (st1 & E1 & X1 & X2 & X3 & X4 & X5).
  set (n := Z.min size old) in *.
  assert (0 ≤ n ≤ size) as Hn by (unfold n; lia).
  unfold Naive.mm_realloc. rewrite (bind_Ok _ _ _ _ _ E1).
  destruct (Z.eqb_spec (mem_brk st + 8) NULL) as [E | _]; [unfold NULL in E; lia |].
  rewrite naive_size_t_size.
  rewrite bind_GET by (apply in_heap_spec; lia).
  assert (word_at (mem_bytes st1) (ptr - 8) = old) as Eold1.
  { rewrite <- Eold. apply word_at_same_bytes. intros a Ha. apply X5. lia. }
  rewrite Eold1.
  replace (if size <? old then size else old) with n
    by (unfold n; destruct (Z.ltb_spec size old); lia).
  unfold bind at 1. unfold memcpy.
  pose proof (naive_mm_malloc_max _ _ _ _ E1) as Xm.
  assert (in_arena st1 ptr n = true) as I1 by (apply in_arena_spec; lia).
  assert (in_arena st1 (mem_brk st + 8) n = true) as I2 by (apply in_arena_spec; lia).
  rewrite I1, I2. cbn [andb]. unfold Naive.mm_free. rewrite bind_ret_l.
  eexists. split; [reflexivity |]. cbn [mem_brk mem_bytes set_bytes].
  split; [exact X2 |]. split.
  - intros i Hi. rewrite copy_bytes_inside by exact Hi. apply X5. lia.
  - intros a Ha. rewrite copy_bytes_outside by lia. apply X5. lia.
Qed.

Lemma naive_mm_realloc_copies_witness :
  ∃ st', Naive.mm_realloc 4104 20 naive_one_block = Ok 4128 st'.
Proof.
  destruct (naive_mm_realloc_copies naive_one_block 4104 20 10)
    as (st' & E & _); [heap_fact ..|].
  exists st'. exact E.
Defined.

(** * Initialisation of the explicit source *)

Lemma tag_at_moved (st st' : heap_state) (a size flag : Z) :
  mem_start_brk st' = mem_start_brk st → mem_brk st ≤ mem_brk st' →
  (∀ b, a ≤ b < a + 4 → byte_at (mem_bytes st') b = byte_at (mem_bytes st) b) →
  tag_at st a size flag → tag_at st' a size flag.
Proof.
  intros E1 E2 Hs (Hin & Hsz & Hfl). unfold tag_at.
  rewrite (word_at_same_bytes _ _ _ Hs).
  split; [| split; assumption].
  apply in_heap_spec in Hin. apply in_heap_spec. lia.
Qed.

(** [mm_init] of the explicit source. *)
Lemma explicit_mm_init_spec (st : heap_state) :
  let p := mem_brk st in
  0 ≤ mem_start_brk st ≤ p → mem_max_addr st ≤ 2 ^ 32 →
  (p + 4128 ≤ mem_max_addr st →
   ∃ st', Explicit.mm_init st = Ok 0 st'
     ∧ mem_start_brk st' = mem_start_brk st
     ∧ mem_brk st' = p + 4128
     ∧ tag_at st' (p + 4) 8 1 ∧ tag_at st' (p + 8) 8 1
     ∧ tag_at st' (p + 12) 4112 0 ∧ tag_at st' (p + 4120) 4112 0
     ∧ tag_at st' (p + 4124) 0 1
     ∧ free_blocks st' [p + 16])
  ∧ (mem_max_addr st < p + 4128 → ∃ st', Explicit.mm_init st = Ok (-1) st').
Proof.
  intros p Hst Hmax.
  pose proof (eq_refl : 2 ^ 32 = 4294967296) as Hpow.
  pose proof (eq_refl : 2 ^ 31 = 2147483648) as Hpow'.
  pose proof (eq_refl : p = mem_brk st) as Ep. clearbody p.
  split; intros Hcap.
  - unfold Explicit.mm_init, WSIZE, DSIZE, CHUNKSIZE, NULL.
    rewrite bind_mem_sbrk by lia. rewrite <- Ep.
    rewrite bind_set_listp.
    repeat (first [mstep | rewrite bind_set_listp];
            cbn [mem_start_brk mem_brk mem_max_addr set_brk set_bytes set_listp]).
    match goal with |- context [bind _ _ ?s] => set (st1 := s) end.
    assert (mem_start_brk st1 = mem_start_brk st) as A1 by reflexivity.
    assert (mem_brk st1 = p + 32) as A2 by (cbn; lia).
    assert (mem_max_addr st1 = mem_max_addr st) as A3 by reflexivity.
    assert (listp st1 = p + 16) as A4 by (cbn; lia).
    assert (∀ a v, word_at (mem_bytes st1) a = v →
                   mem_start_brk st ≤ a → a + 4 ≤ p + 32 →
                   tag_at st1 a (size_of v) (flag_of v)) as Htag.
    { intros a v E Ha1 Ha2. unfold tag_at. rewrite E.
      split; [apply in_heap_spec; rewrite A1, A2; lia |]. split; reflexivity. }
    assert (word_at (mem_bytes st1) (p + 4) = 9) as W1
      by (subst st1; cbn [mem_bytes set_listp set_bytes]; repeat rd; reflexivity).
    assert (word_at (mem_bytes st1) (p + 8) = 9) as W2
      by (subst st1; cbn [mem_bytes set_listp set_bytes]; repeat rd; reflexivity).
    assert (word_at (mem_bytes st1) (p + 12) = 16) as W3
      by (subst st1; cbn [mem_bytes set_listp set_bytes]; repeat rd; reflexivity).
    assert (word_at (mem_bytes st1) (p + 16) = 0) as W4
      by (subst st1; cbn [mem_bytes set_listp set_bytes]; repeat rd; reflexivity).
    assert (word_at (mem_bytes st1) (p + 20) = 0) as W5
      by (subst st1; cbn [mem_bytes set_listp set_bytes]; repeat rd; reflexivity).
    assert (word_at (mem_bytes st1) (p + 24) = 16) as W6
      by (subst st1; cbn [mem_bytes set_listp set_bytes]; repeat rd; reflexivity).
    clearbody st1.
    assert (block_size st1 (p + 16) = 16) as B1.
    { unfold block_size, HDRP, WSIZE. replace (p + 16 - 4) with (p + 12) by lia.
      rewrite W3. reflexivity. }
    assert (free_blocks st1 [p + 16]) as Hfb.
    { unfold free_blocks, free_list. cbn [chain back_links spaced separate].
      rewrite A4. unfold succ_of, WSIZE, NULL.
      replace (p + 16 + 4) with (p + 20) by lia. rewrite W5.
      repeat split; try lia.
      - apply in_heap_spec. unfold HDRP, WSIZE. rewrite A1, A2. lia.
      - constructor.
      - repeat constructor; unfold is_ptr; lia.
      - repeat constructor; rewrite B1, ?A2; lia.
      - constructor. }
    pose proof (explicit_extend_heap_spec st1 (2 ^ 12 / 4) 16 0 [p + 16]) as Hext.
    cbv zeta in Hext.
    change ((2 ^ 12 / 4) mod 2 =? 1) with false in Hext.
    change (0 =? 0) with true in Hext. cbv iota in Hext.
    change (2 ^ 12 / 4 * WSIZE) with 4096 in Hext. rewrite A2 in Hext.
    replace (p + 32 - 16) with (p + 16) in Hext by lia.
    replace (p + 32 - 8) with (p + 24) in Hext by lia.
    replace (p + 16 - 4) with (p + 12) in Hext by lia.
    change (16 + 4096) with 4112 in Hext.
    replace (p + 16 + 4112 - 8) with (p + 4120) in Hext by lia.
    destruct Hext as (st' & E & X1 & X2 & X3 & X4 & X5 & X6 & X7).
    + lia.
    + lia.
    + lia.
    + lia.
    + exact (Htag _ _ W6 ltac:(lia) ltac:(lia)).
    + exists 0. exact (Htag _ _ W3 ltac:(lia) ltac:(lia)).
    + lia.
    + exact Hfb.
    + repeat constructor. unfold outside. rewrite B1. lia.
    + intros _. apply list_elem_of_singleton. reflexivity.
    + exists st'. rewrite (bind_Ok _ _ _ _ _ E).
      destruct (Z.eqb_spec (p + 16) 0) as [E0 | _]; [lia |].
      split; [reflexivity |]. split; [congruence |]. split; [lia |].
      cbn [drop_block] in X6, X7. rewrite Z.eqb_refl in X6, X7.
      assert (∀ a, a < p + 12 → byte_at (mem_bytes st') a = byte_at (mem_bytes st1) a) as Hfr.
      { intros a Ha. apply X7. intros [H | (b & Hb & _)]; [lia |].
        apply elem_of_nil in Hb. exact Hb. }
      split.
      { apply (tag_at_moved st1); [exact X1 | lia | intros; apply Hfr; lia |].
        exact (Htag _ _ W1 ltac:(lia) ltac:(lia)). }
      split.
      { apply (tag_at_moved st1); [exact X1 | lia | intros; apply Hfr; lia |].
        exact (Htag _ _ W2 ltac:(lia) ltac:(lia)). }
      split; [exact X3 |]. split; [exact X4 |].
      split; [rewrite X2 in X5; replace (p + 32 + 4096 - 4) with (p + 4124) in X5 by lia;
              exact X5 |].
      exact X6.
  - destruct (Z.lt_ge_cases (mem_max_addr st) (p + 32)) as [Hlow | Hhigh].
    + exists (set_listp (wrap32 (-1)) st).
      unfold Explicit.mm_init, bind, mem_sbrk. change (to_int32 (8 * WSIZE)) with 32.
      rewrite <- Ep. change (32 <? 0) with false.
      destruct (Z.ltb_spec (mem_max_addr st) (p + 32)); [reflexivity | lia].
    + unfold Explicit.mm_init, WSIZE, DSIZE, CHUNKSIZE, NULL.
      rewrite bind_mem_sbrk by lia. rewrite <- Ep.
      rewrite bind_set_listp.
      repeat (first [mstep | rewrite bind_set_listp];
              cbn [mem_start_brk mem_brk mem_max_addr set_brk set_bytes set_listp]).
      match goal with |- context [bind _ _ ?s] => set (st1 := s) end.
      assert (mem_brk st1 = p + 32) as A2 by (cbn; lia).
      assert (mem_max_addr st1 = mem_max_addr st) as A3 by reflexivity.
      clearbody st1. exists st1.
      unfold Explicit.extend_heap, extend_heap. cbv zeta.
      change ((2 ^ 12 / 4) mod 2 =? 1) with false. cbv iota.
      change (wrap32 (2 ^ 12 / 4 * WSIZE)) with 4096.
      assert (mem_sbrk 4096 st1 = Ok None st1) as Es.
      { unfold mem_sbrk. change (to_int32 4096) with 4096. change (4096 <? 0) with false.
        destruct (Z.ltb_spec (mem_max_addr st1) (mem_brk st1 + 4096)); [reflexivity | lia]. }
      rewrite bind_assoc, (bind_Ok _ _ _ _ _ Es). reflexivity.
Qed.

(** X28: mm_init of the explicit allocator on a heap whose break is p: if
    4128 bytes fit below the limit it returns 0, the break is p + 4128,
    prologue header and footer (8, allocated) are at p + 4 and p + 8, the
    epilogue header (0, allocated) is the last word, and the free list is
    the single block at p + 16 of 4112 bytes (the 16-byte block laid out
    by mm_init merged with the first chunk), well formed; if they do not
    fit it returns -1. *)
Theorem explicit_mm_init_establishes (st : heap_state) :
  let p := mem_brk st in
  0 ≤ mem_start_brk st ≤ p → mem_max_addr st ≤ 2 ^ 32 →
  (p + 4128 ≤ mem_max_addr st →
   ∃ st', Explicit.mm_init st = Ok 0 st'
     ∧ mem_start_brk st' = mem_start_brk st
     ∧ mem_brk st' = p + 4128
     ∧ tag_at st' (p + 4) 8 1 ∧ tag_at st' (p + 8) 8 1
     ∧ tag_at st' (p + 12) 4112 0 ∧ tag_at st' (p + 4120) 4112 0
     ∧ tag_at st' (p + 4124) 0 1
     ∧ free_blocks st' [p + 16])
  ∧ (mem_max_addr st < p + 4128 → ∃ st', Explicit.mm_init st = Ok (-1) st').
Proof. exact (explicit_mm_init_spec st). Qed.

Lemma explicit_mm_init_establishes_witness :
  ∃ st', Explicit.mm_init fresh = Ok 0 st' ∧ free_blocks st' [4112].
Proof.
  destruct (explicit_mm_init_establishes fresh) as [H _]; [heap_fact ..|].
  destruct H as (st' & E & H); [heap_fact |].
  exists st'. split; [exact E |]. apply H.
Defined.

(** X29: On a heap at any address with room for 4128 bytes above its break
    b, the explicit allocator run through mm_init, mm_malloc(size) with 0
    < size <= 4088 and mm_free of the result returns b + 16 from mm_malloc
    and ends with the free list it had after mm_init: the single block at
    b + 16 of 4112 bytes with header and footer (4112, free), well formed,
    and the same break. *)
Theorem explicit_init_malloc_free_round_trip (st : heap_state) (size : Z) :
  let p := mem_brk st in
  0 ≤ mem_start_brk st ≤ p → mem_max_addr st ≤ 2 ^ 32 →
  p + 4128 ≤ mem_max_addr st →
  0 < size ≤ 4088 →
  ∃ st1 st2 st3,
    Explicit.mm_init st = Ok 0 st1
    ∧ Explicit.mm_malloc size st1 = Ok (p + 16) st2
    ∧ Explicit.mm_free (p + 16) st2 = Ok tt st3
    ∧ free_blocks st1 [p + 16] ∧ block_size st1 (p + 16) = 4112
    ∧ free_blocks st3 [p + 16] ∧ block_size st3 (p + 16) = 4112
    ∧ tag_at st3 (p + 4120) 4112 0
    ∧ mem_brk st3 = mem_brk st1.
Proof.
  intros p Hst Hmax Hcap Hsz.
  pose proof (eq_refl : 2 ^ 32 = 4294967296) as Hpow.
  pose proof (eq_refl : p = mem_brk st) as Ep. clearbody p.
  destruct (explicit_mm_init_spec st) as [Hinit _]; [lia | lia |].
  cbv zeta in Hinit. rewrite <- Ep in Hinit.
  destruct (Hinit Hcap) as (st1 & E1 & S1 & B1 & Tph & Tpf & Th & Tf & Te & Hfb1).
  assert (block_size st1 (p + 16) = 4112) as Bs1.
  { unfold block_size, HDRP, WSIZE. replace (p + 16 - 4) with (p + 12) by lia.
    apply Th. }
  pose proof (explicit_mm_malloc_reuse_spec st1 size [p + 16] Hfb1 ltac:(lia) ltac:(lia))
    as Hm.
  destruct (adjusted_size size ltac:(lia)) as (Ha16 & Ham & Hge).
  cbv zeta in Hm, Ha16, Ham, Hge.
  set (asize := if size <=? DSIZE then 2 * DSIZE else ALIGN (wrap32 (size + DSIZE))) in *.
  clearbody asize.
  assert (asize ≤ 4096) as Hup by (pose proof (Z.div_mod asize 8 ltac:(lia)); lia).
  destruct Hm as (r & st2 & l1 & l2 & E2 & El & _ & _ & Hres & Hs2).
  { apply Exists_cons_hd. lia. }
  assert (l1 = [] ∧ r = p + 16 ∧ l2 = []) as (-> & -> & ->).
  { destruct l1 as [| a [| a' l1]]; cbn [app] in El; [| discriminate El ..].
    injection El as <- <-. repeat split. }
  cbn [app] in Hres, Hs2. rewrite Bs1 in Hres, Hs2.
  destruct (Z.leb_spec 16 (4112 - asize)) as [_ | Hbad]; [| lia].
  destruct Hres as (Ta & Tn & Hfb2).
  destruct Hs2 as (S2 & B2 & M2 & Hfr2).
  assert (∀ a, a < p + 12 → byte_at (mem_bytes st2) a = byte_at (mem_bytes st1) a) as Hlow.
  { intros a Ha. apply Hfr2. intros [Hb | (b & Hb & _)].
    - unfold block_bytes in Hb. lia.
    - apply elem_of_nil in Hb. exact Hb. }
  assert (neighbourhood st2 (p + 16) 8 asize (4112 - asize) 1 0) as Hnb.
  { constructor.
    - exists 1. replace (p + 16 - 4) with (p + 12) in Ta |- * by lia. exact Ta.
    - replace (p + 16 - 8) with (p + 8) by lia.
      apply (tag_at_frame st1); [exact S2 | exact B2 | intros; apply Hlow; lia | exact Tpf].
    - exists 1. replace (p + 16 - 8 - 4) with (p + 4) by lia.
      apply (tag_at_frame st1); [exact S2 | exact B2 | intros; apply Hlow; lia | exact Tph].
    - exact Tn.
    - intros H; discriminate H.
    - lia.
    - intros H; discriminate H.
    - lia. }
  destruct (explicit_mm_free_spec st2 (p + 16) 8 asize (4112 - asize) 1 0
              [p + 16 + asize] Hnb Ha16 Hfb2)
    as (st3 & E3 & T1 & T2 & Hfb3 & Hs3).
  { apply Forall_cons_2; [| apply Forall_nil_2]. unfold outside. lia. }
  { intros H; discriminate H. }
  { intros _. apply list_elem_of_here. }
  { lia. }
  { lia. }
  change (1 =? 0) with false in T1, T2, Hfb3, Hs3.
  change (0 =? 0) with true in T1, T2, Hfb3, Hs3. cbv iota in T1, T2, Hfb3, Hs3.
  unfold id in Hfb3, Hs3. cbn [drop_block] in Hfb3, Hs3.
  rewrite Z.eqb_refl in Hfb3, Hs3.
  replace (0 + asize + (4112 - asize)) with 4112 in T1, T2 by lia.
  exists st1, st2, st3.
  split; [exact E1 |]. split; [exact E2 |]. split; [exact E3 |].
  split; [exact Hfb1 |]. split; [exact Bs1 |]. split; [exact Hfb3 |].
  split; [unfold block_size, HDRP, WSIZE; apply T1 |].
  split; [replace (p + 4120) with (p + 16 + 4112 - 8) by lia; exact T2 |].
  destruct Hs3 as (_ & B3 & _). congruence.
Qed.

Lemma explicit_init_malloc_free_round_trip_witness :
  ∃ st1 st2 st3,
    Explicit.mm_init fresh = Ok 0 st1
    ∧ Explicit.mm_malloc 100 st1 = Ok 4112 st2
    ∧ Explicit.mm_free 4112 st2 = Ok tt st3
    ∧ free_blocks st3 [4112].
Proof.
  destruct (explicit_init_malloc_free_round_trip fresh 100)
    as (st1 & st2 & st3 & E1 & E2 & E3 & _ & _ & H & _); [heap_fact ..|].
  exists st1, st2, st3. split; [exact E1 |]. split; [exact E2 |].
  split; [exact E3 | exact H].
Defined.

(** * Allocation and release in the buddy source *)

(** X30: On the buddy heap right after mm_init (a 1 MiB region at address
    4096), for every request 0 < n <= 4088: mm_malloc(n) returns the first
    block, 4192, with the header (2^k, allocated), 2^k being the smallest
    power of two that is at least 16 and at least n + 8; mm_free of it
    merges the buddies back, so that the header at 4188 is (4096, free)
    again and the lists are those after mm_init: class 12 holds the block
    4192 alone and every other class is empty. *)
Theorem buddy_malloc_free_round_trip (n : Z) :
  0 < n ≤ 4088 →
  ∃ k st1 st2,
    4 ≤ k ≤ 12 ∧ n + 8 ≤ 2 ^ k ∧ (k = 4 ∨ 2 ^ (k - 1) < n + 8)
    ∧ Buddy.mm_malloc n buddy_ready = Ok 4192 st1
    ∧ tag_at st1 4188 (2 ^ k) 1
    ∧ Buddy.mm_free 4192 st1 = Ok tt st2
    ∧ tag_at st2 4188 4096 0
    ∧ class_lists st2 0 (replicate 12 [] ++ [[4192]] ++ replicate 7 []).
Proof.
  intros Hn.
  destruct (buddy_round_up_spec n buddy_ready) as (k & Hk & Hle & Hmin & _ & Eq).
  { change (2 ^ 31) with 2147483648. lia. }
  assert (k ≤ 12) as Hk12.
  { destruct Hmin as [-> | Hlt]; [lia |].
    assert (k - 1 < 12); [| lia].
    apply (Z.pow_lt_mono_r_iff 2); [lia | lia |]. change (2 ^ 12) with 4096. lia. }
  exists k, (after (Buddy.mm_malloc (2 ^ k - 8)) buddy_ready),
    (after (Buddy.mm_malloc (2 ^ k - 8) >> Buddy.mm_free 4192) buddy_ready).
  split; [lia |]. split; [exact Hle |]. split; [exact Hmin |].
  rewrite Eq. clear Eq Hle Hmin Hn.
  assert (k = 4 ∨ k = 5 ∨ k = 6 ∨ k = 7 ∨ k = 8 ∨ k = 9 ∨ k = 10 ∨ k = 11 ∨ k = 12)
    as Hcases by lia.
  cbn [replicate app].
  repeat (destruct Hcases as [-> | Hcases]; [heap_fact |]).
  subst k. heap_fact.
Qed.

Lemma buddy_malloc_free_round_trip_witness :
  ∃ k st1 st2,
    Buddy.mm_malloc 100 buddy_ready = Ok 4192 st1
    ∧ tag_at st1 4188 (2 ^ k) 1
    ∧ Buddy.mm_free 4192 st1 = Ok tt st2
    ∧ tag_at st2 4188 4096 0.
Proof.
  destruct (buddy_malloc_free_round_trip 100)
    as (k & st1 & st2 & _ & _ & _ & E1 & T1 & E2 & T2 & _); [heap_fact |].
  exists k, st1, st2. split; [exact E1 |]. split; [exact T1 |].
  split; [exact E2 | exact T2].
Defined.

(** * The blocks of the segregated-fit heap *)

Lemma tiles_app (st : heap_state) (B1 B2 : list (Z * Z * Z)) (p q : Z) :
  tiles st p (B1 ++ B2) q ↔ ∃ m, tiles st p B1 m ∧ tiles st m B2 q.
Proof.
  revert p. induction B1 as [| [[b s] f] B1 IH]; intros p; cbn [app tiles].
  - split.
    + intros H. exists p. split; [reflexivity | exact H].
    + intros (m & -> & H). exact H.
  - split.
    + intros (Hb & Hs & Hf & T1 & T2 & Ht). apply IH in Ht as (m & H1 & H2).
      exists m. split; [| exact H2].
      split; [exact Hb |]. split; [exact Hs |]. split; [exact Hf |].
      split; [exact T1 |]. split; [exact T2 | exact H1].
    + intros (m & (Hb & Hs & Hf & T1 & T2 & Ht) & H2).
      split; [exact Hb |]. split; [exact Hs |]. split; [exact Hf |].
      split; [exact T1 |]. split; [exact T2 |].
      apply IH. exists m. split; assumption.
Qed.

Lemma tiles_le (st : heap_state) (bs : list (Z * Z * Z)) (p q : Z) :
  tiles st p bs q → p ≤ q.
Proof.
  revert p. induction bs as [| [[b s] f] bs IH]; intros p; cbn [tiles].
  - lia.
  - intros (-> & Hs & _ & _ & _ & Ht). apply IH in Ht. lia.
Qed.

Lemma tiles_member (st : heap_state) (bs : list (Z * Z * Z)) (p q b s f : Z) :
  tiles st p bs q → (b, s, f) ∈ bs →
  16 ≤ s ∧ (f = 0 ∨ f = 1) ∧ tag_at st (b - 4) s f ∧ tag_at st (b + s - 8) s f
  ∧ p ≤ b ∧ b + s ≤ q.
Proof.
  revert p. induction bs as [| [[b' s'] f'] bs IH]; intros p Ht Hin.
  - apply elem_of_nil in Hin. destruct Hin.
  - cbn [tiles] in Ht. destruct Ht as (-> & Hs & Hf & T1 & T2 & Ht).
    pose proof (tiles_le _ _ _ _ Ht) as Hle.
    apply elem_of_cons in Hin as [E | Hin].
    + injection E as -> -> ->.
      split; [exact Hs |]. split; [exact Hf |]. split; [exact T1 |].
      split; [exact T2 |]. lia.
    + destruct (IH _ Ht Hin) as (H1 & H2 & H3 & H4 & H5 & H6).
      split; [exact H1 |]. split; [exact H2 |]. split; [exact H3 |].
      split; [exact H4 |]. lia.
Qed.

(** Two blocks of the sequence are the same block or do not overlap. *)
Lemma tiles_sep (st : heap_state) (bs : list (Z * Z * Z)) (p q b s f b' s' f' : Z) :
  tiles st p bs q → (b, s, f) ∈ bs → (b', s', f') ∈ bs →
  (b, s, f) = (b', s', f') ∨ b + s ≤ b' ∨ b' + s' ≤ b.
Proof.
  revert p. induction bs as [| [[b0 s0] f0] bs IH]; intros p Ht H1 H2.
  - apply elem_of_nil in H1. destruct H1.
  - cbn [tiles] in Ht. destruct Ht as (-> & Hs & Hf & T1 & T2 & Ht).
    apply elem_of_cons in H1 as [E1 | H1]; apply elem_of_cons in H2 as [E2 | H2].
    + left. congruence.
    + injection E1 as -> -> ->. right. left.
      destruct (tiles_member _ _ _ _ _ _ _ Ht H2) as (_ & _ & _ & _ & H5 & _). lia.
    + injection E2 as -> -> ->. right. right.
      destruct (tiles_member _ _ _ _ _ _ _ Ht H1) as (_ & _ & _ & _ & H5 & _). lia.
    + exact (IH _ Ht H1 H2).
Qed.

Lemma tiles_same_addr (st : heap_state) (bs : list (Z * Z * Z)) (p q b s f s' f' : Z) :
  tiles st p bs q → (b, s, f) ∈ bs → (b, s', f') ∈ bs → s = s' ∧ f = f'.
Proof.
  intros Ht H1 H2.
  destruct (tiles_member _ _ _ _ _ _ _ Ht H1) as (Hs & _).
  destruct (tiles_member _ _ _ _ _ _ _ Ht H2) as (Hs' & _).
  destruct (tiles_sep _ _ _ _ _ _ _ _ _ _ Ht H1 H2) as [E | [H | H]]; [| lia | lia].
  injection E as -> ->. split; reflexivity.
Qed.

(** The sequence stays what it is when the tags of its blocks do. *)
Lemma tiles_frame (st st' : heap_state) (bs : list (Z * Z * Z)) (p q : Z) :
  mem_start_brk st' = mem_start_brk st → mem_brk st ≤ mem_brk st' →
  (∀ b s f a, (b, s, f) ∈ bs → in_word (b - 4) a ∨ in_word (b + s - 8) a →
              byte_at (mem_bytes st') a = byte_at (mem_bytes st) a) →
  tiles st p bs q → tiles st' p bs q.
Proof.
  intros E1 E2. revert p. induction bs as [| [[b s] f] bs IH]; intros p Hs Ht.
  - exact Ht.
  - cbn [tiles] in *. destruct Ht as (-> & Hsz & Hf & T1 & T2 & Ht).
    split; [reflexivity |]. split; [exact Hsz |]. split; [exact Hf |].
    split; [| split].
    + apply (tag_at_moved st); [exact E1 | exact E2 | | exact T1].
      intros a Ha. apply (Hs p s f); [apply list_elem_of_here |]. left. exact Ha.
    + apply (tag_at_moved st); [exact E1 | exact E2 | | exact T2].
      intros a Ha. apply (Hs p s f); [apply list_elem_of_here |]. right. exact Ha.
    + apply IH; [| exact Ht]. intros b' s' f' a Hin Ha.
      apply (Hs b' s' f'); [apply list_elem_of_further; exact Hin | exact Ha].
Qed.

(** * The list operations on a well-formed segregated-fit heap *)

Lemma seg_block_facts (st : heap_state) (bs : list (Z * Z * Z)) (L : Z → list Z)
  (b s f : Z) :
  seg_heap st bs L → (b, s, f) ∈ bs →
  16 ≤ s ∧ (f = 0 ∨ f = 1) ∧ tag_at st (b - 4) s f ∧ tag_at st (b + s - 8) s f
  ∧ listp st + 88 ≤ b ∧ b + s ≤ mem_brk st ∧ block_size st b = s ∧ s mod 8 = 0.
Proof.
  intros H Hin.
  destruct (tiles_member _ _ _ _ _ _ _ (sh_tiles _ _ _ H) Hin)
    as (H1 & H2 & H3 & H4 & H5 & H6).
  split; [exact H1 |]. split; [exact H2 |]. split; [exact H3 |]. split; [exact H4 |].
  split; [exact H5 |]. split; [exact H6 |].
  destruct H3 as (_ & Hs & _). split.
  - unfold block_size, HDRP, WSIZE. exact Hs.
  - rewrite <- Hs. apply size_of_mod8.
Qed.

Lemma seg_member_facts (st : heap_state) (bs : list (Z * Z * Z)) (L : Z → list Z)
  (c b : Z) :
  seg_heap st bs L → 0 ≤ c < 20 → b ∈ L c →
  ∃ s, (b, s, 0) ∈ bs ∧ SegFit.get_class s = c ∧ 16 ≤ s
       ∧ listp st + 88 ≤ b ∧ b + s ≤ mem_brk st ∧ block_size st b = s.
Proof.
  intros H Hc Hb. destruct (sh_members _ _ _ H c b Hc Hb) as (s & Hin & Hcl).
  destruct (seg_block_facts _ _ _ _ _ _ H Hin) as (H1 & _ & _ & _ & H5 & H6 & H7 & _).
  exists s. repeat (split; [assumption |]). assumption.
Qed.

(** A block is in the list of its class only. *)
Lemma seg_member_class (st : heap_state) (bs : list (Z * Z * Z)) (L : Z → list Z)
  (c b s f : Z) :
  seg_heap st bs L → 0 ≤ c < 20 → b ∈ L c → (b, s, f) ∈ bs →
  f = 0 ∧ SegFit.get_class s = c.
Proof.
  intros H Hc Hb Hin. destruct (sh_members _ _ _ H c b Hc Hb) as (s' & Hin' & Hcl).
  destruct (tiles_same_addr _ _ _ _ _ _ _ _ _ (sh_tiles _ _ _ H) Hin Hin') as [-> ->].
  split; [reflexivity | exact Hcl].
Qed.

(** The words the list operations write hold no boundary tag. *)
Lemma list_words_off_tags (st : heap_state) (bs : list (Z * Z * Z)) (L : Z → list Z)
  (b s f a : Z) :
  seg_heap st bs L → (b, s, f) ∈ bs →
  in_word (b - 4) a ∨ in_word (b + s - 8) a → ¬ list_words st bs a.
Proof.
  intros H Hin Ha [Hr | (b' & s' & Hin' & Hl)].
  - destruct (seg_block_facts _ _ _ _ _ _ H Hin) as (H1 & _ & _ & _ & H5 & _).
    unfold in_word in Ha. lia.
  - destruct (seg_block_facts _ _ _ _ _ _ H Hin) as (H1 & _).
    destruct (seg_block_facts _ _ _ _ _ _ H Hin') as (H1' & _).
    unfold in_word in Ha.
    destruct (tiles_sep _ _ _ _ _ _ _ _ _ _ (sh_tiles _ _ _ H) Hin Hin')
      as [E | [Hsep | Hsep]]; [injection E as -> -> _ | |]; lia.
Qed.

(** A heap stays well formed over writes into list words, when the
    lists are well formed afterwards. *)
Lemma seg_heap_list_frame (st st' : heap_state) (bs : list (Z * Z * Z))
  (L L' : Z → list Z) :
  seg_heap st bs L →
  same_bytes_except st st' (list_words st bs) → listp st' = listp st →
  (∀ c, 0 ≤ c < 20 → free_list st' (seg_root st' c) (L' c)) →
  (∀ c b, 0 ≤ c < 20 → b ∈ L' c → ∃ s, (b, s, 0) ∈ bs ∧ SegFit.get_class s = c) →
  seg_heap st' bs L'.
Proof.
  intros H (E1 & E2 & E3 & Hs) El Hl Hm.
  pose proof (sh_base _ _ _ H) as Hbase. pose proof (sh_listp _ _ _ H) as Hlp.
  pose proof (sh_limit _ _ _ H) as Hlim.
  pose proof (tiles_le _ _ _ _ (sh_tiles _ _ _ H)) as Hle.
  assert (∀ a, listp st - 4 ≤ a < listp st ∨ listp st + 80 ≤ a < listp st + 84
               ∨ mem_brk st - 4 ≤ a < mem_brk st →
               byte_at (mem_bytes st') a = byte_at (mem_bytes st) a) as Hfix.
  { intros a Ha. apply Hs. intros [Hr | (b & s & Hin & Hw)]; [lia |].
    destruct (seg_block_facts _ _ _ _ _ _ H Hin) as (H1 & _ & _ & _ & H5 & H6 & _). lia. }
  constructor.
  - lia.
  - rewrite El, E1. exact Hlp.
  - rewrite E2, E3. exact Hlim.
  - rewrite El. rewrite <- (sh_prologue_hdr _ _ _ H).
    apply word_at_same_bytes. intros a Ha. apply Hfix. lia.
  - rewrite El. apply (tag_at_moved st); [exact E1 | lia | | exact (sh_prologue_ftr _ _ _ H)].
    intros a Ha. apply Hfix. lia.
  - rewrite El, E2. apply (tiles_frame st); [exact E1 | lia | | exact (sh_tiles _ _ _ H)].
    intros b s f a Hin Ha. apply Hs. exact (list_words_off_tags _ _ _ _ _ _ _ H Hin Ha).
  - rewrite E2. apply (tag_at_moved st); [exact E1 | lia | | exact (sh_epilogue _ _ _ H)].
    intros a Ha. apply Hfix. lia.
  - exact Hl.
  - exact Hm.
Qed.

(** The link words of the blocks of a list are list words, and so is its
    root slot. *)
Lemma link_words_list_words (st : heap_state) (bs : list (Z * Z * Z)) (L : Z → list Z)
  (c : Z) (l : list Z) (a : Z) :
  seg_heap st bs L → 0 ≤ c < 20 → (∀ b, b ∈ l → b ∈ L c) →
  in_word (root_slot (listp st) c) a ∨ link_words l a → list_words st bs a.
Proof.
  intros H Hc Hsub [Hr | (b & Hb & Ha)].
  - left. unfold in_word, root_slot, WSIZE in Hr. lia.
  - right. destruct (sh_members _ _ _ H c b Hc (Hsub b Hb)) as (s & Hin & _).
    exists b, s. split; [exact Hin | exact Ha].
Qed.

(** The list of another class does not notice writes into the slot and
    the list of class [c]. *)
Lemma seg_other_list (st st' : heap_state) (bs : list (Z * Z * Z)) (L : Z → list Z)
  (c c' : Z) (l : list Z) :
  seg_heap st bs L → 0 ≤ c < 20 → 0 ≤ c' < 20 → c' ≠ c →
  (∀ b, b ∈ l → b ∈ L c ∨ ∃ s, (b, s, 0) ∈ bs ∧ SegFit.get_class s = c) →
  same_bytes_except st st'
    (λ a, in_word (root_slot (listp st) c) a ∨ link_words l a) →
  listp st' = listp st →
  free_list st' (seg_root st' c') (L c').
Proof.
  intros H Hc Hc' Hne Hsub (E1 & E2 & E3 & Hs) El.
  assert (seg_root st' c' = seg_root st c') as ->.
  { unfold seg_root. rewrite El. apply word_at_same_bytes. intros a Ha. apply Hs.
    intros [Hr | (b & Hb & Hw)].
    - unfold in_word, root_slot, WSIZE in *. lia.
    - assert (∃ s, (b, s, 0) ∈ bs) as (s & Hin).
      { destruct (Hsub b Hb) as [Hl | (s & Hin & _)]; [| exists s; exact Hin].
        destruct (sh_members _ _ _ H c b Hc Hl) as (s & Hin & _). exists s. exact Hin. }
      destruct (seg_block_facts _ _ _ _ _ _ H Hin) as (_ & _ & _ & _ & H5 & _).
      unfold root_slot, WSIZE in Ha. lia. }
  apply (free_list_frame st); [exact E1 | exact E2 | | exact (sh_lists _ _ _ H c' Hc')].
  intros a (b' & Hb' & Ha). apply Hs. intros [Hr | (b & Hb & Hw)].
  - destruct (seg_member_facts _ _ _ _ _ H Hc' Hb') as (s' & _ & _ & _ & H5 & _).
    unfold in_word, root_slot, WSIZE in Hr. lia.
  - destruct (seg_member_facts _ _ _ _ _ H Hc' Hb') as (s' & Hin' & Hcl' & H16' & _).
    assert (∃ s, (b, s, 0) ∈ bs ∧ SegFit.get_class s = c) as (s & Hin & Hcl).
    { destruct (Hsub b Hb) as [Hl | Hx]; [| exact Hx].
      exact (sh_members _ _ _ H c b Hc Hl). }
    destruct (seg_block_facts _ _ _ _ _ _ H Hin) as (H16 & _).
    destruct (tiles_sep _ _ _ _ _ _ _ _ _ _ (sh_tiles _ _ _ H) Hin Hin')
      as [E | [Hsep | Hsep]]; [| lia | lia].
    injection E as _ Es. subst s'. congruence.
Qed.

Lemma set_list_same (L : Z → list Z) (c : Z) (l : list Z) : set_list L c l c = l.
Proof. unfold set_list. rewrite Z.eqb_refl. reflexivity. Qed.

Lemma set_list_other (L : Z → list Z) (c c' : Z) (l : list Z) :
  c' ≠ c → set_list L c l c' = L c'.
Proof. intros H. unfold set_list. destruct (Z.eqb_spec c' c); [contradiction | reflexivity]. Qed.

(** [remove_free_block] on a block of a list. *)
Lemma seg_heap_remove (st : heap_state) (bs : list (Z * Z * Z)) (L : Z → list Z)
  (x s : Z) :
  seg_heap st bs L → (x, s, 0) ∈ bs → x ∈ L (SegFit.get_class s) →
  ∃ st' l1 l2,
    L (SegFit.get_class s) = l1 ++ x :: l2
    ∧ SegFit.remove_free_block x st = Ok tt st'
    ∧ seg_heap st' bs (set_list L (SegFit.get_class s) (l1 ++ l2))
    ∧ unlisted (set_list L (SegFit.get_class s) (l1 ++ l2)) x
    ∧ same_bytes_except st st' (list_words st bs)
    ∧ listp st' = listp st.
Proof.
  intros H Hin Hx.
  destruct (seg_block_facts _ _ _ _ _ _ H Hin) as (H16 & _ & _ & _ & Hlo & Hhi & Hbs & _).
  pose proof (get_class_range s H16) as Hc.
  set (c := SegFit.get_class s) in *.
  assert (0 ≤ c < 20) as Hc' by lia.
  pose proof (sh_base _ _ _ H) as Hbase. pose proof (sh_listp _ _ _ H) as Hlp.
  destruct (list_elem_of_split _ _ Hx) as (l1 & l2 & El).
  pose proof (sh_lists _ _ _ H c Hc') as Hfl. rewrite El in Hfl.
  destruct (seg_remove_spec SegFit.get_class st x l1 l2) as (st' & E & Elp & Hfl' & Hs).
  - rewrite Hbs. fold c. apply in_heap_spec. unfold root_slot, WSIZE. lia.
  - rewrite Hbs. fold c. exact Hfl.
  - rewrite Hbs. fold c. apply Forall_forall. intros b Hb.
    assert (b ∈ L c) as Hb' by (rewrite El; exact Hb).
    destruct (seg_member_facts _ _ _ _ _ H Hc' Hb') as (s' & _ & _ & _ & H5 & _).
    unfold root_slot, WSIZE. lia.
  - rewrite Hbs in Hfl', Hs. fold c in Hfl', Hs.
    assert (∀ b, b ∈ l1 ++ l2 → b ∈ L c) as Hsub.
    { intros b Hb. rewrite El. mem_solve. }
    assert (same_bytes_except st st' (list_words st bs)) as Hs'.
    { eapply same_bytes_weaken; [exact Hs |]. intros a Ha.
      exact (link_words_list_words _ _ _ c _ _ H Hc' Hsub Ha). }
    exists st', l1, l2. split; [exact El |]. split; [exact E |].
    split; [| split; [| split; [exact Hs' | exact Elp]]].
    + apply (seg_heap_list_frame st st' bs L); [exact H | exact Hs' | exact Elp | |].
      * intros c0 Hc0. destruct (Z.eq_dec c0 c) as [-> | Hne].
        -- rewrite set_list_same. unfold seg_root. rewrite Elp. exact Hfl'.
        -- rewrite set_list_other by exact Hne.
           apply (seg_other_list st st' bs L c c0 (l1 ++ l2) H Hc' Hc0 Hne); [| exact Hs | exact Elp].
           intros b Hb. left. exact (Hsub b Hb).
      * intros c0 b Hc0 Hb. destruct (Z.eq_dec c0 c) as [-> | Hne].
        -- rewrite set_list_same in Hb. exact (sh_members _ _ _ H c b Hc' (Hsub b Hb)).
        -- rewrite set_list_other in Hb by exact Hne. exact (sh_members _ _ _ H c0 b Hc0 Hb).
    + intros c0 Hc0 Hm. destruct (Z.eq_dec c0 c) as [-> | Hne].
      * rewrite set_list_same in Hm.
        destruct Hfl as (_ & _ & Hsp & _). pose proof (spaced_NoDup _ Hsp) as Hnd.
        apply NoDup_app in Hnd as (N1 & N2 & N3). apply NoDup_cons in N3 as [N3 _].
        apply elem_of_app in Hm as [Hm | Hm]; [| contradiction].
        apply (N2 x Hm). apply list_elem_of_here.
      * rewrite set_list_other in Hm by exact Hne.
        destruct (seg_member_class _ _ _ _ _ _ _ H Hc0 Hm Hin) as [_ Hcl]. fold c in Hcl.
        congruence.
Qed.

(** [add_free_block] on a block marked free that is in no list. *)
Lemma seg_heap_add (st : heap_state) (bs : list (Z * Z * Z)) (L : Z → list Z)
  (x s : Z) :
  seg_heap st bs L → (x, s, 0) ∈ bs → unlisted L x →
  ∃ st',
    SegFit.add_free_block x st = Ok tt st'
    ∧ seg_heap st' bs (set_list L (SegFit.get_class s) (x :: L (SegFit.get_class s)))
    ∧ same_bytes_except st st' (list_words st bs)
    ∧ listp st' = listp st.
Proof.
  intros H Hin Hx.
  destruct (seg_block_facts _ _ _ _ _ _ H Hin) as (H16 & _ & _ & _ & Hlo & Hhi & Hbs & _).
  pose proof (get_class_range s H16) as Hc.
  set (c := SegFit.get_class s) in *.
  assert (0 ≤ c < 20) as Hc' by lia.
  pose proof (sh_base _ _ _ H) as Hbase. pose proof (sh_listp _ _ _ H) as Hlp.
  pose proof (sh_limit _ _ _ H) as Hlim.
  pose proof (eq_refl : 2 ^ 32 = 4294967296) as Hpow.
  pose proof (sh_lists _ _ _ H c Hc') as Hfl.
  destruct (seg_add_spec SegFit.get_class st x (L c)) as (st' & E & Elp & Er & Hfl' & Hs).
  - rewrite Hbs. fold c. apply in_heap_spec. unfold root_slot, WSIZE. lia.
  - rewrite Hbs. fold c. exact Hfl.
  - unfold is_ptr. lia.
  - unfold NULL. lia.
  - apply in_heap_spec. unfold HDRP, WSIZE. lia.
  - apply Forall_forall. intros b Hb.
    destruct (seg_member_facts _ _ _ _ _ H Hc' Hb) as (s' & Hin' & _ & H16' & _).
    destruct (tiles_sep _ _ _ _ _ _ _ _ _ _ (sh_tiles _ _ _ H) Hin Hin')
      as [E | [Hsep | Hsep]]; [| lia | lia].
    injection E as -> _. exfalso. exact (Hx c Hc' Hb).
  - rewrite Hbs. fold c. apply Forall_forall. intros b Hb.
    assert (listp st + 88 ≤ b) as Hb'.
    { apply elem_of_cons in Hb as [-> | Hb]; [exact Hlo |].
      destruct (seg_member_facts _ _ _ _ _ H Hc' Hb) as (s' & _ & _ & _ & H5 & _).
      exact H5. }
    unfold root_slot, WSIZE. lia.
  - rewrite Hbs in Er, Hs. fold c in Er, Hs.
    assert (∀ b, b ∈ x :: L c → b ∈ L c ∨ ∃ s0, (b, s0, 0) ∈ bs ∧ SegFit.get_class s0 = c)
      as Hsub.
    { intros b Hb. apply elem_of_cons in Hb as [-> | Hb]; [right | left; exact Hb].
      exists s. split; [exact Hin | reflexivity]. }
    assert (same_bytes_except st st' (list_words st bs)) as Hs'.
    { eapply same_bytes_weaken; [exact Hs |]. intros a [Hr | (b & Hb & Ha)].
      - left. unfold in_word, root_slot, WSIZE in Hr. lia.
      - right. destruct (Hsub b Hb) as [Hl | (s0 & Hin0 & _)].
        + destruct (sh_members _ _ _ H c b Hc' Hl) as (s0 & Hin0 & _).
          exists b, s0. split; [exact Hin0 | exact Ha].
        + exists b, s0. split; [exact Hin0 | exact Ha]. }
    exists st'. split; [exact E |]. split; [| split; [exact Hs' | exact Elp]].
    apply (seg_heap_list_frame st st' bs L); [exact H | exact Hs' | exact Elp | |].
    + intros c0 Hc0. destruct (Z.eq_dec c0 c) as [-> | Hne].
      * rewrite set_list_same. unfold seg_root. rewrite Elp, Er. exact Hfl'.
      * rewrite set_list_other by exact Hne.
        exact (seg_other_list st st' bs L c c0 (x :: L c) H Hc' Hc0 Hne Hsub Hs Elp).
    + intros c0 b Hc0 Hb. destruct (Z.eq_dec c0 c) as [-> | Hne].
      * rewrite set_list_same in Hb. destruct (Hsub b Hb) as [Hl | Hr]; [| exact Hr].
        exact (sh_members _ _ _ H c b Hc' Hl).
      * rewrite set_list_other in Hb by exact Hne. exact (sh_members _ _ _ H c0 b Hc0 Hb).
Qed.

Lemma tiles_end_unique (st : heap_state) (bs : list (Z * Z * Z)) (p q q' : Z) :
  tiles st p bs q → tiles st p bs q' → q = q'.
Proof.
  revert p. induction bs as [| [[b s] f] bs IH]; intros p H1 H2; cbn [tiles] in *.
  - congruence.
  - destruct H1 as (_ & _ & _ & _ & _ & H1). destruct H2 as (_ & _ & _ & _ & _ & H2).
    exact (IH _ H1 H2).
Qed.

(** Rewriting the tags of a run [mid] of blocks none of which is in a
    list: the heap stays well formed when the bytes of the run hold a run
    [mid'] of blocks afterwards. *)
Lemma seg_heap_retag (st st' : heap_state) (B1 mid mid' B2 : list (Z * Z * Z))
  (L : Z → list Z) (m1 m2 : Z) :
  seg_heap st (B1 ++ mid ++ B2) L →
  tiles st (listp st + 88) B1 m1 → tiles st m1 mid m2 →
  (∀ c b, 0 ≤ c < 20 → b ∈ L c → ¬ (m1 ≤ b < m2)) →
  mem_start_brk st' = mem_start_brk st → mem_brk st' = mem_brk st →
  mem_max_addr st' = mem_max_addr st → listp st' = listp st →
  (∀ a, ¬ (m1 - 4 ≤ a < m2 - 4) → byte_at (mem_bytes st') a = byte_at (mem_bytes st) a) →
  tiles st' m1 mid' m2 →
  seg_heap st' (B1 ++ mid' ++ B2) L.
Proof.
  intros H T1 Tm Hout E1 E2 E3 El Hs Tm'.
  pose proof (sh_base _ _ _ H) as Hbase. pose proof (sh_listp _ _ _ H) as Hlp.
  pose proof (sh_limit _ _ _ H) as Hlim.
  pose proof (sh_tiles _ _ _ H) as Ht.
  apply tiles_app in Ht as (m1' & T1' & Ht).
  pose proof (tiles_end_unique _ _ _ _ _ T1 T1'). subst m1'.
  apply tiles_app in Ht as (m2' & Tm0 & T2).
  pose proof (tiles_end_unique _ _ _ _ _ Tm Tm0). subst m2'.
  pose proof (tiles_le _ _ _ _ T1) as L1. pose proof (tiles_le _ _ _ _ Tm) as L2.
  pose proof (tiles_le _ _ _ _ T2) as L3.
  constructor.
  - lia.
  - rewrite El, E1. exact Hlp.
  - rewrite E2, E3. exact Hlim.
  - rewrite El. rewrite <- (sh_prologue_hdr _ _ _ H).
    apply word_at_same_bytes. intros a Ha. apply Hs. lia.
  - rewrite El. apply (tag_at_moved st); [exact E1 | lia | | exact (sh_prologue_ftr _ _ _ H)].
    intros a Ha. apply Hs. lia.
  - rewrite El, E2. apply tiles_app. exists m1. split.
    + apply (tiles_frame st); [exact E1 | lia | | exact T1].
      intros b s f a Hin Ha. apply Hs.
      destruct (tiles_member _ _ _ _ _ _ _ T1 Hin) as (H16 & _ & _ & _ & H5 & H6).
      unfold in_word in Ha. lia.
    + apply tiles_app. exists m2. split; [exact Tm' |].
      apply (tiles_frame st); [exact E1 | lia | | exact T2].
      intros b s f a Hin Ha. apply Hs.
      destruct (tiles_member _ _ _ _ _ _ _ T2 Hin) as (H16 & _ & _ & _ & H5 & H6).
      unfold in_word in Ha. lia.
  - rewrite E2. apply (tag_at_moved st); [exact E1 | lia | | exact (sh_epilogue _ _ _ H)].
    intros a Ha. apply Hs. lia.
  - intros c Hc.
    assert (seg_root st' c = seg_root st c) as ->.
    { unfold seg_root. rewrite El. apply word_at_same_bytes. intros a Ha. apply Hs.
      unfold root_slot, WSIZE in Ha. lia. }
    apply (free_list_frame st); [exact E1 | exact E2 | | exact (sh_lists _ _ _ H c Hc)].
    intros a (b & Hb & Ha). apply Hs.
    destruct (seg_member_facts _ _ _ _ _ H Hc Hb) as (s & Hin & _ & H16 & _).
    specialize (Hout c b Hc Hb).
    apply elem_of_app in Hin as [Hin | Hin].
    + destruct (tiles_member _ _ _ _ _ _ _ T1 Hin) as (_ & _ & _ & _ & H5 & H6). lia.
    + apply elem_of_app in Hin as [Hin | Hin].
      * destruct (tiles_member _ _ _ _ _ _ _ Tm Hin) as (_ & _ & _ & _ & H5 & H6). lia.
      * destruct (tiles_member _ _ _ _ _ _ _ T2 Hin) as (_ & _ & _ & _ & H5 & H6). lia.
  - intros c b Hc Hb.
    destruct (seg_member_facts _ _ _ _ _ H Hc Hb) as (s & Hin & Hcl & H16 & _).
    specialize (Hout c b Hc Hb). exists s. split; [| exact Hcl].
    apply elem_of_app in Hin as [Hin | Hin]; [apply elem_of_app; left; exact Hin |].
    apply elem_of_app in Hin as [Hin | Hin].
    + destruct (tiles_member _ _ _ _ _ _ _ Tm Hin) as (_ & _ & _ & _ & H5 & H6). lia.
    + apply elem_of_app. right. apply elem_of_app. right. exact Hin.
Qed.

(** * The search on a well-formed segregated-fit heap *)

Lemma seg_heap_chains (st : heap_state) (bs : list (Z * Z * Z)) (L : Z → list Z)
  (n : nat) (c : Z) :
  seg_heap st bs L → 0 ≤ c → c + Z.of_nat n ≤ 20 →
  seg_chains st c (map L (seqZ c (Z.of_nat n))).
Proof.
  intros H. revert c. induction n as [| n IH]; intros c Hc Hn.
  - exact I.
  - rewrite seqZ_cons by lia. cbn [map seg_chains].
    pose proof (sh_base _ _ _ H) as Hbase. pose proof (sh_listp _ _ _ H) as Hlp.
    pose proof (tiles_le _ _ _ _ (sh_tiles _ _ _ H)) as Hle.
    split; [apply in_heap_spec; unfold root_slot, WSIZE; lia |].
    split; [exact (proj1 (sh_lists _ _ _ H c ltac:(lia))) |].
    replace (Z.pred (Z.of_nat (S n))) with (Z.of_nat n) by lia.
    apply IH; lia.
Qed.

(** [find_fit] for a size of at least 16: the null pointer, or a block of
    a list that is large enough.  The heap is not changed. *)
Lemma seg_find_fit (st : heap_state) (bs : list (Z * Z * Z)) (L : Z → list Z)
  (asize : Z) :
  seg_heap st bs L → 16 ≤ asize →
  ∃ r, SegFit.find_fit asize st = Ok r st
       ∧ (r = NULL ∨ ∃ s, (r, s, 0) ∈ bs ∧ asize ≤ s ∧ r ∈ L (SegFit.get_class s)).
Proof.
  intros H Ha. pose proof (get_class_range asize Ha) as Hc.
  set (c := SegFit.get_class asize) in *.
  set (n := Z.to_nat (SEGREGATED_LIST_SIZE - c)).
  assert (Z.of_nat n = 20 - c) as En by (unfold n, SEGREGATED_LIST_SIZE; lia).
  pose proof (seg_heap_chains st bs L n c H ltac:(lia) ltac:(lia)) as Hch.
  destruct (segfit_find_fit_classes_spec st asize (map L (seqZ c (Z.of_nat n)))
              ltac:(lia) c NULL 0 [] Hch) as (r & m & E & Hinv).
  { left. split; [reflexivity |]. split; [reflexivity | constructor]. }
  rewrite length_map, length_seqZ, Nat2Z.id in E.
  exists r. split; [exact E |]. cbn [app] in Hinv.
  destruct Hinv as [(E1 & _) | (Hmem & Em & Hle & _)]; [left; exact E1 | right].
  apply list_elem_of_In, in_concat in Hmem as (l & Hl & Hr).
  apply in_map_iff in Hl as (c' & <- & Hc').
  apply list_elem_of_In in Hr. apply list_elem_of_In, elem_of_seqZ in Hc'.
  assert (0 ≤ c' < 20) as Hc'' by lia.
  destruct (seg_member_facts _ _ _ _ _ H Hc'' Hr) as (s & Hin & Hcl & _ & _ & _ & Hbs).
  exists s. split; [exact Hin |]. split; [lia |]. rewrite Hcl. exact Hr.
Qed.

(** [find_fit] for a size below 16 takes the prologue header for the head
    of a list and reads the header of a block at address 89. *)
Lemma seg_find_fit_small (st : heap_state) (bs : list (Z * Z * Z)) (L : Z → list Z)
  (asize : Z) :
  seg_heap st bs L → asize < 16 → SegFit.find_fit asize st = Fault.
Proof.
  intros H Ha.
  pose proof (sh_base _ _ _ H) as Hbase. pose proof (sh_listp _ _ _ H) as Hlp.
  pose proof (tiles_le _ _ _ _ (sh_tiles _ _ _ H)) as Hle.
  unfold SegFit.find_fit, SegFit.get_class.
  destruct (Z.ltb_spec asize 16) as [_ | Hge]; [| lia].
  change (Z.to_nat (SEGREGATED_LIST_SIZE - -1)) with 21%nat.
  cbn [SegFit.find_fit_classes].
  rewrite bind_get_state. unfold GET_ROOT. rewrite bind_assoc, bind_get_state.
  rewrite bind_GET by (apply in_heap_spec; unfold root_slot, WSIZE; lia).
  replace (root_slot (listp st) (-1)) with (listp st - 4) by (unfold root_slot, WSIZE; lia).
  rewrite (sh_prologue_hdr _ _ _ H). change (PACK 88 1) with 89.
  assert (∃ k, walk_fuel st = S k) as (k & ->).
  { unfold walk_fuel. exists (Z.to_nat (mem_brk st - mem_start_brk st - 1)). lia. }
  cbn [SegFit.find_fit_list]. change (89 =? NULL) with false. cbv iota.
  unfold bind at 1. unfold bind at 1. unfold GET_SIZE, bind, GET, HDRP, WSIZE.
  assert (in_heap st (89 - 4) 4 = false) as ->.
  { unfold in_heap. destruct (Z.leb_spec (mem_start_brk st) (89 - 4)); [lia | reflexivity]. }
  reflexivity.
Qed.

(** * Placing a block in the segregated-fit heap *)

Lemma floor_ops_segfit : floor_ops SegFit.remove_free_block SegFit.add_free_block.
Proof. split; intros bp st _; reflexivity. Qed.

Lemma complete_remove (bs : list (Z * Z * Z)) (L : Z → list Z) (X : list Z)
  (c x : Z) (l1 l2 : list Z) :
  complete bs L X → L c = l1 ++ x :: l2 →
  complete bs (set_list L c (l1 ++ l2)) (x :: X).
Proof.
  intros Hc El b s Hin Hx.
  assert (b ≠ x ∧ b ∉ X) as [Hne HX].
  { split; intros Hb; apply Hx; [subst b; apply list_elem_of_here |].
    apply list_elem_of_further. exact Hb. }
  specialize (Hc b s Hin HX). unfold set_list.
  destruct (Z.eqb_spec (SegFit.get_class s) c) as [E | _]; [| exact Hc].
  rewrite E, El in Hc. mem_solve.
Qed.

Lemma complete_add (st : heap_state) (bs : list (Z * Z * Z)) (L : Z → list Z)
  (X : list Z) (p q x s : Z) :
  tiles st p bs q → complete bs L (x :: X) → (x, s, 0) ∈ bs →
  complete bs (set_list L (SegFit.get_class s) (x :: L (SegFit.get_class s))) X.
Proof.
  intros Ht Hc Hx b s' Hin HX. unfold set_list.
  destruct (Z.eq_dec b x) as [-> | Hne].
  - destruct (tiles_same_addr _ _ _ _ _ _ _ _ _ Ht Hin Hx) as [-> _].
    rewrite Z.eqb_refl. apply list_elem_of_here.
  - assert (b ∉ x :: X) as HX' by (intros Hb; apply elem_of_cons in Hb as [E | Hb]; tauto).
    specialize (Hc b s' Hin HX').
    destruct (Z.eqb_spec (SegFit.get_class s') (SegFit.get_class s)) as [E | _]; [| exact Hc].
    rewrite E in Hc. apply list_elem_of_further. exact Hc.
Qed.

(** No block of a list lies inside a block that is in no list. *)
Lemma unlisted_outside (st : heap_state) (bs : list (Z * Z * Z)) (L : Z → list Z)
  (r s f : Z) :
  seg_heap st bs L → (r, s, f) ∈ bs → unlisted L r →
  ∀ c b, 0 ≤ c < 20 → b ∈ L c → ¬ (r ≤ b < r + s).
Proof.
  intros H Hin Hu c b Hc Hb Hr.
  destruct (seg_member_facts _ _ _ _ _ H Hc Hb) as (s' & Hin' & _ & H16 & _).
  destruct (seg_block_facts _ _ _ _ _ _ H Hin) as (H16' & _).
  destruct (tiles_sep _ _ _ _ _ _ _ _ _ _ (sh_tiles _ _ _ H) Hin Hin')
    as [E | [Hsep | Hsep]]; [| lia | lia].
  injection E as -> _ _. exact (Hu c Hc Hb).
Qed.

Lemma tag_at_PACK (st : heap_state) (m : gmap Z Z) (a size flag : Z) :
  in_heap st a 4 = true →
  word_at m a = PACK size flag →
  0 ≤ size < 2 ^ 32 → size mod 8 = 0 → 0 ≤ flag ≤ 1 →
  tag_at (set_bytes m st) a size flag.
Proof.
  intros Hin E Hr Hm Hf. unfold tag_at. cbn [mem_bytes set_bytes].
  rewrite in_heap_set_bytes, E. split; [exact Hin |]. apply size_of_PACK; assumption.
Qed.

(** The stores of [place] when it splits the block. *)
Lemma place_split_run (st st1 : heap_state) (r s asize : Z) :
  0 ≤ mem_start_brk st1 → mem_start_brk st1 ≤ r - 4 → r + s ≤ mem_brk st1 →
  mem_brk st1 ≤ 2 ^ 32 →
  block_size st1 r = s → 16 ≤ asize → asize mod 8 = 0 → 16 ≤ s - asize →
  ∃ st2,
    tiles st2 r [(r, asize, 1); (r + asize, s - asize, 0)] (r + s)
    ∧ mem_start_brk st2 = mem_start_brk st1 ∧ mem_brk st2 = mem_brk st1
    ∧ mem_max_addr st2 = mem_max_addr st1 ∧ listp st2 = listp st1
    ∧ (∀ a, ¬ (r - 4 ≤ a < r + s - 4) →
            byte_at (mem_bytes st2) a = byte_at (mem_bytes st1) a)
    ∧ ∀ R A, R r st = Ok tt st1 → place R A r asize st = A (r + asize) st2.
Proof.
  intros Hs0 Hlo Hhi H32 Hbs Ha Ham Hsplit.
  pose proof (eq_refl : 2 ^ 32 = 4294967296) as Hpow.
  assert (s mod 8 = 0) as Hsm by (rewrite <- Hbs; apply size_of_mod8).
  assert ((s - asize) mod 8 = 0) as Hrm by (rewrite Zminus_mod, Hsm, Ham; reflexivity).
  unfold block_size, HDRP, WSIZE in Hbs.
  eexists. split; [| split; [| split; [| split; [| split; [| split]]]]]; cycle 6.
  - intros R A ER. unfold place. rewrite (bind_Ok _ _ _ _ _ ER).
    unfold FTRP, NEXT_BLKP, GET_SIZE, HDRP, WSIZE, DSIZE.
    repeat mstep. rewrite Hbs.
    change (2 * 8) with 16. rewrite (wrap32_small (s - asize)) by lia.
    destruct (Z.leb_spec 16 (s - asize)) as [_ | Hbad]; [| lia].
    repeat pstep.
    replace (r + asize + (s - asize) - 8) with (r + s - 8) by lia.
    repeat pstep. reflexivity.
  - cbn [tiles]. split; [reflexivity |]. split; [lia |]. split; [right; reflexivity |].
    split; [| split; [| split; [reflexivity |]]].
    + apply tag_at_PACK; [in_heap_solve | | lia | exact Ham | lia].
      rewrite !word_at_put_word_other by lia.
      rewrite word_at_put_word_same. apply wrap32_small, PACK_range; lia.
    + apply tag_at_PACK; [in_heap_solve | | lia | exact Ham | lia].
      rewrite !word_at_put_word_other by lia.
      rewrite word_at_put_word_same. apply wrap32_small, PACK_range; lia.
    + split; [lia |]. split; [left; reflexivity |].
      replace (r + asize + (s - asize) - 8) with (r + s - 8) by lia.
      replace (r + asize + (s - asize)) with (r + s) by lia.
      split; [| split; [| reflexivity]].
      * apply tag_at_PACK; [in_heap_solve | | lia | exact Hrm | lia].
        rewrite !word_at_put_word_other by lia.
        rewrite word_at_put_word_same. apply wrap32_small, PACK_range; lia.
      * apply tag_at_PACK; [in_heap_solve | | lia | exact Hrm | lia].
        rewrite word_at_put_word_same. apply wrap32_small, PACK_range; lia.
  - reflexivity.
  - reflexivity.
  - reflexivity.
  - reflexivity.
  - intros a Hna. cbn [mem_bytes set_bytes].
    rewrite !byte_at_put_word_other by lia. reflexivity.
Qed.

(** The stores of [place] when it hands out the whole block. *)
Lemma place_whole_run (st st1 : heap_state) (r s asize : Z) :
  0 ≤ mem_start_brk st1 → mem_start_brk st1 ≤ r - 4 → r + s ≤ mem_brk st1 →
  mem_brk st1 ≤ 2 ^ 32 →
  block_size st1 r = s → 16 ≤ asize ≤ s → s - asize < 16 →
  ∃ st2,
    tiles st2 r [(r, s, 1)] (r + s)
    ∧ mem_start_brk st2 = mem_start_brk st1 ∧ mem_brk st2 = mem_brk st1
    ∧ mem_max_addr st2 = mem_max_addr st1 ∧ listp st2 = listp st1
    ∧ (∀ a, ¬ (r - 4 ≤ a < r + s - 4) →
            byte_at (mem_bytes st2) a = byte_at (mem_bytes st1) a)
    ∧ ∀ R A, R r st = Ok tt st1 → place R A r asize st = Ok tt st2.
Proof.
  intros Hs0 Hlo Hhi H32 Hbs Ha Hwhole.
  pose proof (eq_refl : 2 ^ 32 = 4294967296) as Hpow.
  assert (s mod 8 = 0) as Hsm by (rewrite <- Hbs; apply size_of_mod8).
  unfold block_size, HDRP, WSIZE in Hbs.
  eexists. split; [| split; [| split; [| split; [| split; [| split]]]]]; cycle 6.
  - intros R A ER. unfold place. rewrite (bind_Ok _ _ _ _ _ ER).
    unfold FTRP, NEXT_BLKP, GET_SIZE, HDRP, WSIZE, DSIZE.
    repeat mstep. rewrite Hbs.
    change (2 * 8) with 16. rewrite (wrap32_small (s - asize)) by lia.
    destruct (Z.leb_spec 16 (s - asize)) as [Hbad | _]; [lia |].
    repeat pstep. reflexivity.
  - cbn [tiles]. split; [reflexivity |]. split; [lia |]. split; [right; reflexivity |].
    split; [| split; [| reflexivity]].
    + apply tag_at_PACK; [in_heap_solve | | lia | exact Hsm | lia].
      rewrite !word_at_put_word_other by lia.
      rewrite word_at_put_word_same. apply wrap32_small, PACK_range; lia.
    + apply tag_at_PACK; [in_heap_solve | | lia | exact Hsm | lia].
      rewrite word_at_put_word_same. apply wrap32_small, PACK_range; lia.
  - reflexivity.
  - reflexivity.
  - reflexivity.
  - reflexivity.
  - intros a Hna. cbn [mem_bytes set_bytes].
    rewrite !byte_at_put_word_other by lia. reflexivity.
Qed.

(** The parts of a heap in front of and behind one of its blocks. *)
Lemma seg_heap_at (st : heap_state) (bs : list (Z * Z * Z)) (L : Z → list Z)
  (r s f : Z) :
  seg_heap st bs L → (r, s, f) ∈ bs →
  ∃ B1 B2, bs = B1 ++ [(r, s, f)] ++ B2
    ∧ tiles st (listp st + 88) B1 r
    ∧ tiles st r [(r, s, f)] (r + s)
    ∧ tiles st (r + s) B2 (mem_brk st).
Proof.
  intros H Hin. destruct (list_elem_of_split _ _ Hin) as (B1 & B2 & E).
  exists B1, B2. split; [exact E |].
  pose proof (sh_tiles _ _ _ H) as Ht. rewrite E in Ht.
  apply tiles_app in Ht as (m & T1 & Tm). cbn [tiles] in Tm.
  destruct Tm as (-> & Hs & Hf & G1 & G2 & T2).
  split; [exact T1 |]. split; [| exact T2].
  cbn [tiles]. repeat (split; [first [reflexivity | assumption] |]). reflexivity.
Qed.

Lemma tiles_part_sides (st : heap_state) (B1 B2 : list (Z * Z * Z)) (p m1 m2 q b s f : Z) :
  tiles st p B1 m1 → tiles st m2 B2 q → (b, s, f) ∈ B1 ++ B2 →
  16 ≤ s ∧ (b + s ≤ m1 ∨ m2 ≤ b).
Proof.
  intros T1 T2 Hin. apply elem_of_app in Hin as [Hin | Hin].
  - destruct (tiles_member _ _ _ _ _ _ _ T1 Hin) as (H1 & _ & _ & _ & _ & H6). lia.
  - destruct (tiles_member _ _ _ _ _ _ _ T2 Hin) as (H1 & _ & _ & _ & H5 & _). lia.
Qed.

(** [place] on a free block of the heap and a size that fits. *)
Lemma seg_place (st : heap_state) (bs : list (Z * Z * Z)) (L : Z → list Z)
  (r s asize : Z) :
  seg_heap st bs L → complete bs L [] → (r, s, 0) ∈ bs →
  16 ≤ asize ≤ s → asize mod 8 = 0 →
  ∃ st' bs' L' s',
    seg_heap st' bs' L' ∧ complete bs' L' []
    ∧ (r, s', 1) ∈ bs' ∧ asize ≤ s'
    ∧ (∀ b s1, (b, s1, 1) ∈ bs → (b, s1, 1) ∈ bs')
    ∧ ∀ R A, floor_ops R A → place R A r asize st = Ok tt st'.
Proof.
  intros H Hc Hin Ha Ham.
  assert (r ∈ L (SegFit.get_class s)) as Hr by (apply Hc; [exact Hin | apply not_elem_of_nil]).
  destruct (seg_block_facts _ _ _ _ _ _ H Hin) as (H16 & _ & _ & _ & _ & _ & Hbs & _).
  destruct (seg_heap_remove _ _ _ _ _ H Hin Hr) as (st1 & l1 & l2 & El & E1 & H1 & Hu1 & _ & _).
  pose proof (complete_remove _ _ _ _ _ _ _ Hc El) as C1.
  set (L1 := set_list L (SegFit.get_class s) (l1 ++ l2)) in *.
  destruct (seg_block_facts _ _ _ _ _ _ H1 Hin) as (_ & _ & _ & _ & Hlo & Hhi & Hbs1 & _).
  pose proof (sh_base _ _ _ H1) as Hbase. pose proof (sh_listp _ _ _ H1) as Hlp.
  pose proof (sh_limit _ _ _ H1) as Hlim.
  destruct (seg_heap_at _ _ _ _ _ _ H1 Hin) as (B1 & B2 & Ebs & T1 & Tm & T2).
  pose proof (unlisted_outside _ _ _ _ _ _ H1 Hin Hu1) as Hout.
  assert (∀ b s1 f1, (b, s1, f1) ∈ B1 ++ B2 → (b, s1, f1) ∈ bs ∧ b ≠ r) as Hside.
  { intros b s1 f1 Hb. split; [rewrite Ebs; mem_solve |].
    destruct (tiles_part_sides _ _ _ _ _ _ _ _ _ _ T1 T2 Hb) as [Hs1 Hd]. lia. }
  assert (R1 : ∀ R A, floor_ops R A → R r st = Ok tt st1).
  { intros R A [HR _]. rewrite HR; [exact E1 |]. rewrite Hbs. unfold DSIZE. lia. }
  rewrite Ebs in H1.
  destruct (Z_lt_le_dec (s - asize) 16) as [Hwhole | Hsplit].
  - destruct (place_whole_run st st1 r s asize) as (st2 & T' & X1 & X2 & X3 & X4 & Hfr & Run);
      try lia; try assumption.
    pose proof (seg_heap_retag st1 st2 B1 _ _ B2 L1 r (r + s) H1 T1 Tm Hout X1 X2 X3 X4 Hfr T')
      as H2.
    exists st2, (B1 ++ [(r, s, 1)] ++ B2), L1, s.
    split; [exact H2 |]. split; [| split; [mem_solve | split; [lia | split]]].
    + intros b s1 Hb _.
      assert ((b, s1, 0) ∈ B1 ++ B2) as Hb' by mem_solve.
      destruct (Hside _ _ _ Hb') as [Hb0 Hne]. apply C1; [exact Hb0 |].
      intros Hx. apply list_elem_of_singleton in Hx. contradiction.
    + intros b s1 Hb. rewrite Ebs in Hb. mem_solve.
    + intros R A HF. exact (Run R A (R1 R A HF)).
  - destruct (place_split_run st st1 r s asize) as (st2 & T' & X1 & X2 & X3 & X4 & Hfr & Run);
      try lia; try assumption.
    pose proof (seg_heap_retag st1 st2 B1 _ _ B2 L1 r (r + s) H1 T1 Tm Hout X1 X2 X3 X4 Hfr T')
      as H2.
    set (bs2 := B1 ++ [(r, asize, 1); (r + asize, s - asize, 0)] ++ B2) in *.
    assert ((r + asize, s - asize, 0) ∈ bs2) as Hin2 by (unfold bs2; mem_solve).
    assert (unlisted L1 (r + asize)) as Hu2.
    { intros c Hc0 Hb. apply (Hout c _ Hc0 Hb). lia. }
    destruct (seg_heap_add _ _ _ _ _ H2 Hin2 Hu2) as (st3 & E3 & H3 & _ & _).
    destruct (seg_block_facts _ _ _ _ _ _ H2 Hin2) as (_ & _ & _ & _ & _ & _ & Hbs2 & _).
    exists st3, bs2,
      (set_list L1 (SegFit.get_class (s - asize))
         (r + asize :: L1 (SegFit.get_class (s - asize)))), asize.
    split; [exact H3 |]. split; [| split; [unfold bs2; mem_solve | split; [lia | split]]].
    + apply (complete_add st2 bs2 L1 [] _ _ _ _ (sh_tiles _ _ _ H2)); [| exact Hin2].
      intros b s1 Hb Hx.
      assert ((b, s1, 0) ∈ B1 ++ B2) as Hb'.
      { unfold bs2 in Hb.
        repeat (progress (rewrite ?elem_of_app, ?elem_of_cons, ?elem_of_nil in Hb)).
        destruct Hb as [Hb | [[Hb | [Hb | []]] | Hb]]; [mem_solve | discriminate Hb | | mem_solve].
        injection Hb as -> _. exfalso. apply Hx. apply list_elem_of_here. }
      destruct (Hside _ _ _ Hb') as [Hb0 Hne]. apply C1; [exact Hb0 |].
      intros Hx'. apply list_elem_of_singleton in Hx'. contradiction.
    + intros b s1 Hb. rewrite Ebs in Hb. unfold bs2. mem_solve.
    + intros R A HF. rewrite (Run R A (R1 R A HF)).
      destruct HF as [_ HA]. rewrite HA; [exact E3 |]. rewrite Hbs2. unfold DSIZE. lia.
Qed.

(** * Coalescing in the segregated-fit heap *)

Lemma tiles_span_mod8 (st : heap_state) (bs : list (Z * Z * Z)) (p q : Z) :
  tiles st p bs q → (q - p) mod 8 = 0.
Proof.
  revert p. induction bs as [| [[b s] f] bs IH]; intros p; cbn [tiles].
  - intros ->. rewrite Z.sub_diag. reflexivity.
  - intros (-> & _ & _ & (_ & Hs & _) & _ & Ht). apply IH in Ht.
    assert (s mod 8 = 0) as Hm by (rewrite <- Hs; apply size_of_mod8).
    replace (q - p) with ((q - (p + s)) + s) by lia.
    rewrite Z.add_mod by lia. rewrite Ht, Hm. reflexivity.
Qed.

(** The three parts of a heap around a run of its blocks. *)
Lemma seg_heap_parts (st : heap_state) (B1 mid B2 : list (Z * Z * Z)) (L : Z → list Z) :
  seg_heap st (B1 ++ mid ++ B2) L →
  ∃ m1 m2, tiles st (listp st + 88) B1 m1 ∧ tiles st m1 mid m2
    ∧ tiles st m2 B2 (mem_brk st).
Proof.
  intros H. pose proof (sh_tiles _ _ _ H) as Ht.
  apply tiles_app in Ht as (m1 & T1 & Ht). apply tiles_app in Ht as (m2 & Tm & T2).
  exists m1, m2. split; [exact T1 |]. split; [exact Tm | exact T2].
Qed.

Lemma unlisted_set_list (L : Z → list Z) (c x y : Z) (l1 l2 : list Z) :
  L c = l1 ++ x :: l2 → unlisted L y → unlisted (set_list L c (l1 ++ l2)) y.
Proof.
  intros El Hu c0 Hc0 Hy. apply (Hu c0 Hc0). unfold set_list in Hy.
  destruct (Z.eqb_spec c0 c) as [-> | _]; [| exact Hy]. rewrite El. mem_solve.
Qed.

(** [remove_free_block] on a free block of a heap whose free blocks are
    all listed, for every operation that is the source's from 16 bytes
    on. *)
Lemma seg_floor_remove (st : heap_state) (bs : list (Z * Z * Z)) (L : Z → list Z)
  (X : list Z) (x s : Z) :
  seg_heap st bs L → complete bs L X → (x, s, 0) ∈ bs → x ∉ X →
  ∃ st1 L1,
    seg_heap st1 bs L1 ∧ complete bs L1 (x :: X) ∧ unlisted L1 x
    ∧ (∀ y, unlisted L y → unlisted L1 y)
    ∧ same_bytes_except st st1 (list_words st bs)
    ∧ ∀ R, same_above_floor R SegFit.remove_free_block → R x st = Ok tt st1.
Proof.
  intros H Hc Hin Hx.
  assert (x ∈ L (SegFit.get_class s)) as Hr by (apply Hc; assumption).
  destruct (seg_block_facts _ _ _ _ _ _ H Hin) as (H16 & _ & _ & _ & _ & _ & Hbs & _).
  destruct (seg_heap_remove _ _ _ _ _ H Hin Hr) as (st1 & l1 & l2 & El & E1 & H1 & Hu1 & Hs & _).
  exists st1, (set_list L (SegFit.get_class s) (l1 ++ l2)).
  split; [exact H1 |]. split; [exact (complete_remove _ _ _ _ _ _ _ Hc El) |].
  split; [exact Hu1 |]. split; [| split; [exact Hs |]].
  - intros y. exact (unlisted_set_list _ _ _ _ _ _ El).
  - intros R HR. rewrite HR; [exact E1 |]. rewrite Hbs. unfold DSIZE. lia.
Qed.

(** A run that writes list words only keeps every boundary tag. *)
Lemma list_run_keeps (c : M unit) (st st1 : heap_state) (bs : list (Z * Z * Z))
  (L : Z → list Z) (ws : list Z) :
  seg_heap st bs L → c st = Ok tt st1 →
  same_bytes_except st st1 (list_words st bs) →
  Forall (λ a, ∃ b s f, (b, s, f) ∈ bs ∧ (a = b - 4 ∨ a = b + s - 8)) ws →
  keeps c st ws.
Proof.
  intros H E (E1 & E2 & _ & Hs) Hws st' E'. rewrite E in E'. injection E' as <-.
  split; [exact E1 |]. split; [exact E2 |].
  apply Forall_forall. intros a Ha. rewrite Forall_forall in Hws.
  destruct (Hws a Ha) as (b & s & f & Hin & Hab).
  apply word_at_same_bytes. intros a' Ha'. apply Hs.
  apply (list_words_off_tags st bs L b s f a' H Hin).
  unfold in_word. destruct Hab as [-> | ->]; [left | right]; lia.
Qed.

(** Writing the tags of a merged block over a run of unlisted blocks
    and pushing the merged block on its list. *)
Lemma seg_merge (st1 : heap_state) (B1 mid B2 : list (Z * Z * Z)) (L1 : Z → list Z)
  (m T : Z) :
  seg_heap st1 (B1 ++ mid ++ B2) L1 →
  tiles st1 (listp st1 + 88) B1 m → tiles st1 m mid (m + T) → 16 ≤ T →
  (∀ c b, 0 ≤ c < 20 → b ∈ L1 c → ¬ (m ≤ b < m + T)) →
  (∀ b s, (b, s, 0) ∈ B1 ++ B2 → b ∈ L1 (SegFit.get_class s)) →
  ∃ st3 L3,
    seg_heap st3 (B1 ++ [(m, T, 0)] ++ B2) L3
    ∧ complete (B1 ++ [(m, T, 0)] ++ B2) L3 []
    ∧ mem_brk st3 = mem_brk st1
    ∧ ∀ A, same_above_floor A SegFit.add_free_block →
        (write_block m T >> A m >> ret m) st1 = Ok m st3.
Proof.
  intros H T1 Tm HT Hout Hlisted.
  pose proof (sh_base _ _ _ H) as Hbase. pose proof (sh_listp _ _ _ H) as Hlp.
  pose proof (sh_limit _ _ _ H) as Hlim.
  pose proof (eq_refl : 2 ^ 32 = 4294967296) as Hpow.
  destruct (seg_heap_parts _ _ _ _ _ H) as (m1 & m2 & T1' & Tm' & T2).
  pose proof (tiles_end_unique _ _ _ _ _ T1 T1'). subst m1.
  pose proof (tiles_end_unique _ _ _ _ _ Tm Tm'). subst m2.
  pose proof (tiles_le _ _ _ _ T1) as Hlo. pose proof (tiles_le _ _ _ _ T2) as Hhi.
  pose proof (tiles_span_mod8 _ _ _ _ Tm) as HTm.
  replace (m + T - m) with T in HTm by lia.
  destruct (write_block_tag_at st1 m T) as (st2 & E2 & Th & Tf & El & Hw);
    [apply in_heap_spec; lia | apply in_heap_spec; lia | lia | exact HTm |].
  pose proof Hw as (X1 & X2 & X3 & X4).
  assert (tiles st2 m [(m, T, 0)] (m + T)) as Tm2.
  { cbn [tiles]. split; [reflexivity |]. split; [exact HT |]. split; [left; reflexivity |].
    split; [exact Th |]. split; [exact Tf | reflexivity]. }
  assert (seg_heap st2 (B1 ++ [(m, T, 0)] ++ B2) L1) as H2.
  { apply (seg_heap_retag st1 st2 B1 mid _ B2 L1 m (m + T) H T1 Tm Hout X1 X2 X3 El);
      [| exact Tm2].
    intros a Ha. apply X4. unfold in_word. lia. }
  set (bs2 := B1 ++ [(m, T, 0)] ++ B2) in *.
  assert ((m, T, 0) ∈ bs2) as Hin2 by (unfold bs2; mem_solve).
  assert (unlisted L1 m) as Hu.
  { intros c Hc Hb. apply (Hout c m Hc Hb). lia. }
  destruct (seg_heap_add _ _ _ _ _ H2 Hin2 Hu) as (st3 & E3 & H3 & (Y1 & Y2 & _) & _).
  destruct (seg_block_facts _ _ _ _ _ _ H2 Hin2) as (_ & _ & _ & _ & _ & _ & Hbs2 & _).
  exists st3, (set_list L1 (SegFit.get_class T) (m :: L1 (SegFit.get_class T))).
  split; [exact H3 |]. split; [| split; [congruence |]].
  - apply (complete_add st2 bs2 L1 [] _ _ _ _ (sh_tiles _ _ _ H2)); [| exact Hin2].
    intros b s Hb Hx. apply Hlisted.
    unfold bs2 in Hb.
    repeat (progress (rewrite ?elem_of_app, ?elem_of_cons, ?elem_of_nil in Hb)).
    destruct Hb as [Hb | [[Hb | []] | Hb]]; [mem_solve | | mem_solve].
    injection Hb as -> _. exfalso. apply Hx. apply list_elem_of_here.
  - intros A HA. rewrite (bind_Ok _ _ _ _ _ E2). cbv beta.
    assert (A m st2 = Ok tt st3) as EA.
    { rewrite HA; [exact E3 |]. rewrite Hbs2. unfold DSIZE. lia. }
    rewrite (bind_Ok _ _ _ _ _ EA). reflexivity.
Qed.

(** The neighbours of a block of the heap as [coalesce] reads them. *)
Lemma seg_neighbourhood (st : heap_state) (B1 B2 : list (Z * Z * Z)) (L : Z → list Z)
  (bp s f : Z) :
  seg_heap st (B1 ++ [(bp, s, f)] ++ B2) L →
  ∃ psize pflag nsize nflag,
    neighbourhood st bp psize s nsize pflag nflag
    ∧ (pflag = 0 ∨ pflag = 1) ∧ (nflag = 0 ∨ nflag = 1)
    ∧ (pflag = 0 → ∃ B1', B1 = B1' ++ [(bp - psize, psize, 0)])
    ∧ (nflag = 0 → ∃ B2', B2 = (bp + s, nsize, 0) :: B2').
Proof.
  intros H.
  pose proof (sh_base _ _ _ H) as Hbase. pose proof (sh_listp _ _ _ H) as Hlp.
  pose proof (sh_limit _ _ _ H) as Hlim.
  pose proof (eq_refl : 2 ^ 32 = 4294967296) as Hpow.
  destruct (seg_heap_parts _ _ _ _ _ H) as (m1 & m2 & T1 & Tm & T2).
  cbn [tiles] in Tm. destruct Tm as (Em & Hs & Hf & Gh & Gf & <-). subst m1.
  pose proof (tiles_le _ _ _ _ T1) as Hlo. pose proof (tiles_le _ _ _ _ T2) as Hhi.
  assert (∃ psize pflag, tag_at st (bp - 8) psize pflag
            ∧ (∃ f', tag_at st (bp - psize - 4) psize f')
            ∧ 16 ≤ psize ∧ listp st ≤ bp - psize ∧ (pflag = 0 ∨ pflag = 1)
            ∧ (pflag = 0 → ∃ B1', B1 = B1' ++ [(bp - psize, psize, 0)])) as HP.
  { induction B1 as [| [[pb ps] pf] B1' _] using rev_ind.
    - cbn [tiles] in T1. exists 88, 1.
      split; [replace (bp - 8) with (listp st + 80) by lia; exact (sh_prologue_ftr _ _ _ H) |].
      split; [| split; [lia | split; [lia | split; [right; reflexivity | discriminate]]]].
      exists 1. replace (bp - 88 - 4) with (listp st - 4) by lia.
      unfold tag_at. rewrite (sh_prologue_hdr _ _ _ H).
      split; [apply in_heap_spec; lia |]. split; vm_compute; reflexivity.
    - apply tiles_app in T1 as (m & T1 & Tp). cbn [tiles] in Tp.
      destruct Tp as (-> & Hps & Hpf & Ph & Pf & Hend).
      pose proof (tiles_le _ _ _ _ T1) as Hlo'.
      exists ps, pf. replace (bp - 8) with (m + ps - 8) by lia.
      replace (bp - ps - 4) with (m - 4) by lia.
      split; [exact Pf |]. split; [exists pf; exact Ph |].
      split; [exact Hps |]. split; [lia |]. split; [exact Hpf |].
      intros ->. exists B1'. replace (bp - ps) with m by lia. reflexivity. }
  assert (∃ nsize nflag, tag_at st (bp + s - 4) nsize nflag
            ∧ 0 ≤ nsize ∧ bp + s + nsize ≤ mem_brk st ∧ (nflag = 0 ∨ nflag = 1)
            ∧ (nflag = 0 → (∃ f', tag_at st (bp + s + nsize - 8) nsize f')
                           ∧ ∃ B2', B2 = (bp + s, nsize, 0) :: B2')) as HN.
  { destruct B2 as [| [[nb ns] nf] B2'].
    - cbn [tiles] in T2. exists 0, 1.
      split; [replace (bp + s - 4) with (mem_brk st - 4) by lia; exact (sh_epilogue _ _ _ H) |].
      split; [lia |]. split; [lia |]. split; [right; reflexivity | discriminate].
    - cbn [tiles] in T2. destruct T2 as (-> & Hns & Hnf & Nh & Nf & T2).
      pose proof (tiles_le _ _ _ _ T2) as Hhi'.
      exists ns, nf. split; [exact Nh |]. split; [lia |]. split; [lia |].
      split; [exact Hnf |]. intros ->. split; [exists 0; exact Nf |].
      exists B2'. reflexivity. }
  destruct HP as (psize & pflag & P1 & P2 & P3 & P4 & P5 & P6).
  destruct HN as (nsize & nflag & N1 & N2 & N3 & N4 & N5).
  exists psize, pflag, nsize, nflag.
  split; [| split; [exact P5 | split; [exact N4 | split; [exact P6 |]]]].
  - split.
    + exists f. exact Gh.
    + exact P1.
    + exact P2.
    + exact N1.
    + intros _ Hn. exact (proj1 (N5 Hn)).
    + lia.
    + intros _. lia.
    + lia.
  - intros Hn. exact (proj2 (N5 Hn)).
Qed.

Lemma tiles_cons_inv (st : heap_state) (bs : list (Z * Z * Z)) (p q b s f : Z) :
  tiles st p ((b, s, f) :: bs) q → p = b ∧ tiles st (b + s) bs q.
Proof. cbn [tiles]. intros (-> & _ & _ & _ & _ & Ht). split; [reflexivity | exact Ht]. Qed.

Ltac tag_of_block :=
  match goal with
  | Hb : (?b, ?s, ?f) ∈ _ |- _ => exists b, s, f; split; [exact Hb | lia]
  end.

Ltac block_tags :=
  repeat (apply Forall_cons_2; [tag_of_block |]); apply Forall_nil_2.

Ltac not_among := rewrite ?elem_of_cons, ?elem_of_nil; lia.

(** [coalesce] on a block marked free that is in no list yet. *)
Lemma seg_coalesce (st : heap_state) (bs : list (Z * Z * Z)) (L : Z → list Z)
  (bp s : Z) :
  seg_heap st bs L → (bp, s, 0) ∈ bs → unlisted L bp → complete bs L [bp] →
  ∃ st' bs' L' m T,
    seg_heap st' bs' L' ∧ complete bs' L' []
    ∧ (m, T, 0) ∈ bs' ∧ s ≤ T
    ∧ (∀ b s1, (b, s1, 1) ∈ bs → (b, s1, 1) ∈ bs')
    ∧ mem_brk st' = mem_brk st
    ∧ ∀ R A, floor_ops R A → coalesce R A bp st = Ok m st'.
Proof.
  intros H Hin Hu Hc.
  destruct (seg_heap_at _ _ _ _ _ _ H Hin) as (B1 & B2 & Ebs & _).
  pose proof H as H0. rewrite Ebs in H0.
  destruct (seg_neighbourhood _ _ _ _ _ _ _ H0)
    as (psize & pflag & nsize & nflag & Hnb & Hpf & Hnf & HP & HN).
  clear H0.
  destruct (seg_block_facts _ _ _ _ _ _ H Hin) as (H16 & _).
  destruct Hpf as [-> | ->]; destruct Hnf as [-> | ->].
  - (* both neighbours free *)
    destruct (HP eq_refl) as (B1' & EB1). destruct (HN eq_refl) as (B2' & EB2).
    assert (bs = B1' ++ [(bp - psize, psize, 0); (bp, s, 0); (bp + s, nsize, 0)] ++ B2')
      as Hbs' by (rewrite Ebs, EB1, EB2, <- app_assoc; reflexivity).
    assert ((bp - psize, psize, 0) ∈ bs) as Hprev by (rewrite Hbs'; mem_solve).
    assert ((bp + s, nsize, 0) ∈ bs) as Hnext by (rewrite Hbs'; mem_solve).
    destruct (seg_block_facts _ _ _ _ _ _ H Hprev) as (Hp16 & _).
    destruct (seg_block_facts _ _ _ _ _ _ H Hnext) as (Hn16 & _).
    destruct (seg_floor_remove st bs L [bp] (bp - psize) psize H Hc Hprev)
      as (st1 & L1 & H1 & C1 & U1 & Usub1 & S1 & ER1); [not_among |].
    destruct (seg_floor_remove st1 bs L1 _ (bp + s) nsize H1 C1 Hnext)
      as (st2 & L2 & H2 & C2 & U2 & Usub2 & S2 & ER2); [not_among |].
    pose proof H2 as H2'. rewrite Hbs' in H2'.
    destruct (seg_heap_parts _ _ _ _ _ H2') as (m1 & m2 & T1 & Tm & T2).
    pose proof Tm as Tm0.
    apply tiles_cons_inv in Tm0 as [-> Tm0]. apply tiles_cons_inv in Tm0 as [_ Tm0].
    apply tiles_cons_inv in Tm0 as [_ Tm0]. cbn [tiles] in Tm0.
    assert (m2 = bp - psize + (psize + s + nsize)) as -> by lia. clear Tm0.
    pose proof (unlisted_outside _ _ _ _ _ _ H2 Hprev (Usub2 _ U1)) as O1.
    pose proof (unlisted_outside _ _ _ _ _ _ H2 Hin (Usub2 _ (Usub1 _ Hu))) as O2.
    pose proof (unlisted_outside _ _ _ _ _ _ H2 Hnext U2) as O3.
    destruct (seg_merge st2 B1' _ B2' L2 (bp - psize) (psize + s + nsize) H2' T1 Tm)
      as (st3 & L3 & H3 & C3 & Eb & Run); [lia | | |].
    { intros c b Hc0 Hb. specialize (O1 c b Hc0 Hb). specialize (O2 c b Hc0 Hb).
      specialize (O3 c b Hc0 Hb). lia. }
    { intros b s' Hb.
      destruct (tiles_part_sides _ _ _ _ _ _ _ _ _ _ T1 T2 Hb) as [Hs' Hd].
      apply C2; [rewrite Hbs'; mem_solve | not_among]. }
    exists st3, (B1' ++ [(bp - psize, psize + s + nsize, 0)] ++ B2'), L3,
      (bp - psize), (psize + s + nsize).
    split; [exact H3 |]. split; [exact C3 |]. split; [mem_solve |]. split; [lia |].
    split; [intros b s1 Hb; rewrite Hbs' in Hb; mem_solve |].
    pose proof S1 as (_ & Eb1 & _). pose proof S2 as (_ & Eb2 & _).
    split; [congruence |].
    intros R A [HR HA].
    rewrite (coalesce_action R A st bp psize s nsize 0 0 Hnb).
    + unfold table_action. cbn [Z.eqb].
      rewrite (bind_Ok _ _ _ _ _ (ER1 R HR)). cbv beta.
      rewrite (bind_Ok _ _ _ _ _ (ER2 R HR)). cbv beta.
      exact (Run A HA).
    + split; [intros; lia |]. split; [intros; lia |]. intros _ _. split.
      * apply (list_run_keeps _ st st1 bs L); [exact H | exact (ER1 R HR) | exact S1 |].
        block_tags.
      * apply keeps_seq.
        -- apply (list_run_keeps _ st st1 bs L); [exact H | exact (ER1 R HR) | exact S1 |].
           block_tags.
        -- intros st1' E'. rewrite (ER1 R HR) in E'. injection E' as <-.
           apply (list_run_keeps _ st1 st2 bs L1); [exact H1 | exact (ER2 R HR) | exact S2 |].
           block_tags.
  - (* the previous block is free *)
    destruct (HP eq_refl) as (B1' & EB1).
    assert (bs = B1' ++ [(bp - psize, psize, 0); (bp, s, 0)] ++ B2)
      as Hbs' by (rewrite Ebs, EB1, <- app_assoc; reflexivity).
    assert ((bp - psize, psize, 0) ∈ bs) as Hprev by (rewrite Hbs'; mem_solve).
    destruct (seg_block_facts _ _ _ _ _ _ H Hprev) as (Hp16 & _).
    destruct (seg_floor_remove st bs L [bp] (bp - psize) psize H Hc Hprev)
      as (st1 & L1 & H1 & C1 & U1 & Usub1 & S1 & ER1); [not_among |].
    pose proof H1 as H1'. rewrite Hbs' in H1'.
    destruct (seg_heap_parts _ _ _ _ _ H1') as (m1 & m2 & T1 & Tm & T2).
    pose proof Tm as Tm0.
    apply tiles_cons_inv in Tm0 as [-> Tm0]. apply tiles_cons_inv in Tm0 as [_ Tm0].
    cbn [tiles] in Tm0.
    assert (m2 = bp - psize + (psize + s)) as -> by lia. clear Tm0.
    pose proof (unlisted_outside _ _ _ _ _ _ H1 Hprev U1) as O1.
    pose proof (unlisted_outside _ _ _ _ _ _ H1 Hin (Usub1 _ Hu)) as O2.
    destruct (seg_merge st1 B1' _ B2 L1 (bp - psize) (psize + s) H1' T1 Tm)
      as (st3 & L3 & H3 & C3 & Eb & Run); [lia | | |].
    { intros c b Hc0 Hb. specialize (O1 c b Hc0 Hb). specialize (O2 c b Hc0 Hb). lia. }
    { intros b s' Hb.
      destruct (tiles_part_sides _ _ _ _ _ _ _ _ _ _ T1 T2 Hb) as [Hs' Hd].
      apply C1; [rewrite Hbs'; mem_solve | not_among]. }
    exists st3, (B1' ++ [(bp - psize, psize + s, 0)] ++ B2), L3, (bp - psize), (psize + s).
    split; [exact H3 |]. split; [exact C3 |]. split; [mem_solve |]. split; [lia |].
    split; [intros b s1 Hb; rewrite Hbs' in Hb; mem_solve |].
    pose proof S1 as (_ & Eb1 & _).
    split; [congruence |].
    intros R A [HR HA].
    rewrite (coalesce_action R A st bp psize s nsize 0 1 Hnb).
    + unfold table_action. cbn [Z.eqb].
      rewrite (bind_Ok _ _ _ _ _ (ER1 R HR)). cbv beta.
      exact (Run A HA).
    + split; [intros; lia |]. split; [| intros; lia]. intros _ _.
      apply (list_run_keeps _ st st1 bs L); [exact H | exact (ER1 R HR) | exact S1 |].
      block_tags.
  - (* the next block is free *)
    destruct (HN eq_refl) as (B2' & EB2).
    assert (bs = B1 ++ [(bp, s, 0); (bp + s, nsize, 0)] ++ B2')
      as Hbs' by (rewrite Ebs, EB2; reflexivity).
    assert ((bp + s, nsize, 0) ∈ bs) as Hnext by (rewrite Hbs'; mem_solve).
    destruct (seg_block_facts _ _ _ _ _ _ H Hnext) as (Hn16 & _).
    destruct (seg_floor_remove st bs L [bp] (bp + s) nsize H Hc Hnext)
      as (st1 & L1 & H1 & C1 & U1 & Usub1 & S1 & ER1); [not_among |].
    pose proof H1 as H1'. rewrite Hbs' in H1'.
    destruct (seg_heap_parts _ _ _ _ _ H1') as (m1 & m2 & T1 & Tm & T2).
    pose proof Tm as Tm0.
    apply tiles_cons_inv in Tm0 as [-> Tm0]. apply tiles_cons_inv in Tm0 as [_ Tm0].
    cbn [tiles] in Tm0.
    assert (m2 = bp + (s + nsize)) as -> by lia. clear Tm0.
    pose proof (unlisted_outside _ _ _ _ _ _ H1 Hin (Usub1 _ Hu)) as O1.
    pose proof (unlisted_outside _ _ _ _ _ _ H1 Hnext U1) as O2.
    destruct (seg_merge st1 B1 _ B2' L1 bp (s + nsize) H1' T1 Tm)
      as (st3 & L3 & H3 & C3 & Eb & Run); [lia | | |].
    { intros c b Hc0 Hb. specialize (O1 c b Hc0 Hb). specialize (O2 c b Hc0 Hb). lia. }
    { intros b s' Hb.
      destruct (tiles_part_sides _ _ _ _ _ _ _ _ _ _ T1 T2 Hb) as [Hs' Hd].
      apply C1; [rewrite Hbs'; mem_solve | not_among]. }
    exists st3, (B1 ++ [(bp, s + nsize, 0)] ++ B2'), L3, bp, (s + nsize).
    split; [exact H3 |]. split; [exact C3 |]. split; [mem_solve |]. split; [lia |].
    split; [intros b s1 Hb; rewrite Hbs' in Hb; mem_solve |].
    pose proof S1 as (_ & Eb1 & _).
    split; [congruence |].
    intros R A [HR HA].
    rewrite (coalesce_action R A st bp psize s nsize 1 0 Hnb).
    + unfold table_action. cbn [Z.eqb].
      rewrite (bind_Ok _ _ _ _ _ (ER1 R HR)). cbv beta.
      exact (Run A HA).
    + split; [| split; intros; lia]. intros _ _.
      apply (list_run_keeps _ st st1 bs L); [exact H | exact (ER1 R HR) | exact S1 |].
      block_tags.
  - (* both neighbours allocated *)
    destruct (seg_heap_add _ _ _ _ _ H Hin Hu) as (st1 & E1 & H1 & (_ & Eb1 & _) & _).
    destruct (seg_block_facts _ _ _ _ _ _ H Hin) as (_ & _ & _ & _ & _ & _ & Hbsz & _).
    exists st1, bs, (set_list L (SegFit.get_class s) (bp :: L (SegFit.get_class s))), bp, s.
    split; [exact H1 |].
    split; [exact (complete_add st bs L [] _ _ _ _ (sh_tiles _ _ _ H) Hc Hin) |].
    split; [exact Hin |]. split; [lia |]. split; [auto |]. split; [exact Eb1 |].
    intros R A [HR HA].
    rewrite (coalesce_action R A st bp psize s nsize 1 1 Hnb).
    + unfold table_action. cbn [Z.eqb].
      assert (A bp st = Ok tt st1) as EA.
      { rewrite HA; [exact E1 |]. rewrite Hbsz. unfold DSIZE. lia. }
      rewrite (bind_Ok _ _ _ _ _ EA). reflexivity.
    + split; [| split]; intros; lia.
Qed.

(** * Growing the segregated-fit heap *)

Lemma chain_moved (st st' : heap_state) (l : list Z) (p : Z) :
  mem_start_brk st' = mem_start_brk st → mem_brk st ≤ mem_brk st' →
  (∀ b, b ∈ l → succ_of st' b = succ_of st b) →
  chain st p l → chain st' p l.
Proof.
  intros E1 E2. revert p. induction l as [| b l IH]; intros p Hs Hc; [exact Hc |].
  destruct Hc as (-> & Hb & Hin & Ht).
  split; [reflexivity |]. split; [exact Hb |].
  split; [apply in_heap_spec in Hin; apply in_heap_spec; lia |].
  rewrite (Hs b) by (apply elem_of_cons; left; reflexivity).
  apply IH; [| exact Ht]. intros c Hc. apply Hs, elem_of_cons. right. exact Hc.
Qed.

Lemma free_list_moved (st st' : heap_state) (head : Z) (l : list Z) :
  mem_start_brk st' = mem_start_brk st → mem_brk st ≤ mem_brk st' →
  (∀ a, link_words l a → byte_at (mem_bytes st') a = byte_at (mem_bytes st) a) →
  free_list st head l → free_list st' head l.
Proof.
  intros E1 E2 Hsame (Hc & Hb & Hsp & Hptr).
  assert (∀ b, b ∈ l → succ_of st' b = succ_of st b ∧ pred_of st' b = pred_of st b) as F.
  { intros b Hb'. unfold succ_of, pred_of, WSIZE.
    split; apply word_at_same_bytes; intros a Ha; apply Hsame; exists b;
      (split; [exact Hb' | lia]). }
  split; [| split; [| split; assumption]].
  - apply (chain_moved st); [assumption | assumption | | exact Hc].
    intros b Hb'. exact (proj1 (F b Hb')).
  - destruct l as [| h l]; [exact I |].
    apply (back_links_frame st); [| exact Hb].
    intros b Hb'. apply (F b). apply elem_of_cons. right. exact Hb'.
Qed.

(** A new free block behind the last block of the heap, with the
    epilogue header behind it. *)
Lemma seg_heap_grow (st st' : heap_state) (bs : list (Z * Z * Z)) (L : Z → list Z)
  (size : Z) :
  seg_heap st bs L →
  mem_start_brk st' = mem_start_brk st → mem_brk st' = mem_brk st + size →
  mem_max_addr st' = mem_max_addr st → listp st' = listp st →
  mem_brk st' ≤ mem_max_addr st' →
  (∀ a, a < mem_brk st - 4 → byte_at (mem_bytes st') a = byte_at (mem_bytes st) a) →
  tiles st' (mem_brk st) [(mem_brk st, size, 0)] (mem_brk st') →
  tag_at st' (mem_brk st' - 4) 0 1 →
  seg_heap st' (bs ++ [(mem_brk st, size, 0)]) L.
Proof.
  intros H E1 E2 E3 El Hcap Hs Tn Tep.
  pose proof (sh_base _ _ _ H) as Hbase. pose proof (sh_listp _ _ _ H) as Hlp.
  pose proof (sh_limit _ _ _ H) as Hlim.
  pose proof (tiles_le _ _ _ _ (sh_tiles _ _ _ H)) as Hle.
  pose proof (tiles_le _ _ _ _ Tn) as Hle'.
  constructor.
  - lia.
  - rewrite El, E1. exact Hlp.
  - split; [exact Hcap | rewrite E3; lia].
  - rewrite El. rewrite <- (sh_prologue_hdr _ _ _ H).
    apply word_at_same_bytes. intros a Ha. apply Hs. lia.
  - rewrite El. apply (tag_at_moved st); [exact E1 | lia | | exact (sh_prologue_ftr _ _ _ H)].
    intros a Ha. apply Hs. lia.
  - rewrite El. apply tiles_app. exists (mem_brk st). split; [| exact Tn].
    apply (tiles_frame st); [exact E1 | lia | | exact (sh_tiles _ _ _ H)].
    intros b s f a Hin Ha. apply Hs.
    destruct (seg_block_facts _ _ _ _ _ _ H Hin) as (H16 & _ & _ & _ & H5 & H6 & _).
    unfold in_word in Ha. lia.
  - exact Tep.
  - intros c Hc.
    assert (seg_root st' c = seg_root st c) as ->.
    { unfold seg_root. rewrite El. apply word_at_same_bytes. intros a Ha. apply Hs.
      unfold root_slot, WSIZE in Ha. lia. }
    apply (free_list_moved st); [exact E1 | lia | | exact (sh_lists _ _ _ H c Hc)].
    intros a (b & Hb & Ha). apply Hs.
    destruct (seg_member_facts _ _ _ _ _ H Hc Hb) as (s & _ & _ & H16 & _ & H6 & _). lia.
  - intros c b Hc Hb. destruct (sh_members _ _ _ H c b Hc Hb) as (s & Hin & Hcl).
    exists s. split; [apply elem_of_app; left; exact Hin | exact Hcl].
Qed.

(** [extend_heap] on a well-formed heap. *)
Lemma seg_extend_heap (st : heap_state) (bs : list (Z * Z * Z)) (L : Z → list Z)
  (words : Z) :
  seg_heap st bs L → complete bs L [] →
  words mod 2 = 0 → 16 ≤ words * WSIZE < 2 ^ 32 →
  (2 ^ 31 ≤ words * WSIZE ∨ mem_max_addr st < mem_brk st + words * WSIZE →
   ∀ R A, extend_heap R A words st = Ok NULL st)
  ∧ (words * WSIZE < 2 ^ 31 → mem_brk st + words * WSIZE ≤ mem_max_addr st →
     ∃ st' bs' L' m T,
       seg_heap st' bs' L' ∧ complete bs' L' []
       ∧ (m, T, 0) ∈ bs' ∧ words * WSIZE ≤ T
       ∧ (∀ b s1, (b, s1, 1) ∈ bs → (b, s1, 1) ∈ bs')
       ∧ ∀ R A, floor_ops R A → extend_heap R A words st = Ok m st').
Proof.
  intros H Hc Heven Hsize.
  pose proof (eq_refl : 2 ^ 32 = 4294967296) as Hpow.
  pose proof (eq_refl : 2 ^ 31 = 2147483648) as Hpow'.
  pose proof (sh_base _ _ _ H) as Hbase. pose proof (sh_listp _ _ _ H) as Hlp.
  pose proof (sh_limit _ _ _ H) as Hlim.
  pose proof (tiles_le _ _ _ _ (sh_tiles _ _ _ H)) as Hle.
  set (size := words * WSIZE) in *.
  assert (size mod 8 = 0) as Hm8.
  { unfold size, WSIZE. pose proof (Z.div_mod words 2 ltac:(lia)).
    replace (words * 4) with (words / 2 * 8) by lia. apply Z.mod_mul. lia. }
  assert (∀ R A, extend_heap R A words st
                 = (let* r := mem_sbrk size in
                    match r with
                    | None => ret NULL
                    | Some bp =>
                        PUT (HDRP bp) (PACK size 0) >>
                        let* ftr := FTRP bp in
                        PUT ftr (PACK size 0) >>
                        let* next := NEXT_BLKP bp in
                        PUT (HDRP next) (PACK 0 1) >>
                        coalesce R A bp
                    end) st) as Eext.
  { intros R A. unfold extend_heap. cbv zeta. rewrite Heven.
    change (0 =? 1) with false. cbv iota. fold size.
    rewrite (wrap32_small size) by lia. reflexivity. }
  split.
  - intros Hfail R A. rewrite Eext.
    assert (mem_sbrk size st = Ok None st) as Es.
    { unfold mem_sbrk, to_int32. rewrite (wrap32_small size) by lia.
      destruct (Z.ltb_spec size (2 ^ 31)).
      - destruct (Z.ltb_spec size 0); [lia |].
        destruct (Z.ltb_spec (mem_max_addr st) (mem_brk st + size)); [reflexivity | lia].
      - destruct (Z.ltb_spec (size - 2 ^ 32) 0); [reflexivity | lia]. }
    rewrite (bind_Ok _ _ _ _ _ Es). reflexivity.
  - intros Hlt Hcap.
    set (brk := mem_brk st) in *.
    set (sB := set_brk (brk + size) st).
    set (s2 := set_bytes
                 (put_word (put_word (put_word (mem_bytes st) (brk - 4) (PACK size 0))
                              (brk + size - 8) (PACK size 0))
                    (brk + size - 4) (PACK 0 1)) sB).
    assert (∀ R A, extend_heap R A words st = coalesce R A brk s2) as Erun.
    { intros R A. rewrite Eext. rewrite bind_mem_sbrk by lia. fold brk. fold sB.
      unfold FTRP, NEXT_BLKP, GET_SIZE, HDRP, WSIZE, DSIZE.
      assert (mem_brk sB = brk + size) as EB by reflexivity.
      assert (mem_start_brk sB = mem_start_brk st) as ES by reflexivity.
      repeat pstep. reflexivity. }
    assert (in_heap s2 (brk - 4) 4 = true) as I1 by (apply in_heap_spec; cbn; lia).
    assert (in_heap s2 (brk + size - 8) 4 = true) as I2 by (apply in_heap_spec; cbn; lia).
    assert (in_heap s2 (brk + size - 4) 4 = true) as I3 by (apply in_heap_spec; cbn; lia).
    assert (seg_heap s2 (bs ++ [(brk, size, 0)]) L) as H2.
    { apply (seg_heap_grow st s2 bs L size H); try reflexivity.
      - cbn. fold brk. lia.
      - intros a Ha. cbn [s2 sB mem_bytes set_bytes set_brk]. fold brk in Ha.
        rewrite !byte_at_put_word_other by lia. reflexivity.
      - fold brk. cbn [tiles]. split; [reflexivity |]. split; [lia |].
        split; [left; reflexivity |]. split; [| split; [| reflexivity]].
        + apply tag_at_PACK; [exact I1 | | lia | exact Hm8 | lia].
          cbn [s2 mem_bytes set_bytes].
          rewrite !word_at_put_word_other by lia.
          rewrite word_at_put_word_same. apply wrap32_small, PACK_range; lia.
        + apply tag_at_PACK; [exact I2 | | lia | exact Hm8 | lia].
          cbn [s2 mem_bytes set_bytes].
          rewrite !word_at_put_word_other by lia.
          rewrite word_at_put_word_same. apply wrap32_small, PACK_range; lia.
      - apply tag_at_PACK; [exact I3 | | lia | reflexivity | lia].
        cbn [s2 mem_bytes set_bytes].
        rewrite word_at_put_word_same. vm_compute. reflexivity. }
    assert ((brk, size, 0) ∈ bs ++ [(brk, size, 0)]) as Hin2 by mem_solve.
    assert (unlisted L brk) as Hu.
    { intros c Hc0 Hb.
      destruct (seg_member_facts _ _ _ _ _ H Hc0 Hb) as (s & _ & _ & H16 & _ & H6 & _).
      fold brk in H6. lia. }
    assert (complete (bs ++ [(brk, size, 0)]) L [brk]) as C2.
    { intros b s Hb Hx. apply Hc; [| apply not_elem_of_nil].
      apply elem_of_app in Hb as [Hb | Hb]; [exact Hb |].
      apply list_elem_of_singleton in Hb. injection Hb as -> _.
      exfalso. apply Hx. apply list_elem_of_here. }
    destruct (seg_coalesce _ _ _ _ _ H2 Hin2 Hu C2)
      as (st' & bs' & L' & m & T & H' & C' & Hm & HT & Hal & _ & Run).
    exists st', bs', L', m, T.
    split; [exact H' |]. split; [exact C' |]. split; [exact Hm |]. split; [exact HT |].
    split.
    + intros b s1 Hb. apply Hal. apply elem_of_app. left. exact Hb.
    + intros R A HF. rewrite Erun. exact (Run R A HF).
Qed.

(** * [mm_malloc] and [mm_free] on a well-formed segregated-fit heap *)

(** The adjusted size of a request: at least 16 bytes, unless the
    request is so large that the 32-bit sum wraps around. *)
Lemma adjusted_size_cases (size : Z) :
  0 < size < 2 ^ 32 →
  let asize := if size <=? DSIZE then 2 * DSIZE else ALIGN (wrap32 (size + DSIZE)) in
  (size ≤ 2 ^ 32 - 16 ∧ 16 ≤ asize ∧ asize mod 8 = 0 ∧ size + 8 ≤ asize < size + 16)
  ∨ (2 ^ 32 - 16 < size ∧ asize < 16).
Proof.
  intros Hsz asize. pose proof (eq_refl : 2 ^ 32 = 4294967296) as Hpow.
  destruct (Z_le_gt_dec size (2 ^ 32 - 16)) as [Hle | Hgt].
  - left. split; [exact Hle |]. apply adjusted_size. lia.
  - right. split; [lia |]. unfold asize, DSIZE.
    destruct (Z.leb_spec size 8); [lia |].
    destruct (Z_lt_le_dec (size + 8) (2 ^ 32)) as [Hno | Hwrap].
    + rewrite wrap32_small by lia.
      destruct (ALIGN_spec (size + 8) ltac:(lia)) as [_ Hz]. rewrite Hz by lia. lia.
    + assert (wrap32 (size + 8) = size + 8 - 2 ^ 32) as ->.
      { unfold wrap32. rewrite Hpow.
        replace (size + 8) with (size + 8 - 4294967296 + 1 * 4294967296) by lia.
        rewrite Z.mod_add by lia. rewrite Z.mod_small by lia. lia. }
      destruct (ALIGN_spec (size + 8 - 2 ^ 32) ltac:(lia)) as [Hal _].
      destruct (Hal ltac:(lia)) as [Hm Hr]. lia.
Qed.

(** An allocated block is in no list. *)
Lemma allocated_unlisted (st : heap_state) (bs : list (Z * Z * Z)) (L : Z → list Z)
  (b s : Z) :
  seg_heap st bs L → (b, s, 1) ∈ bs → unlisted L b.
Proof.
  intros H Hin c Hc Hb.
  destruct (seg_member_class _ _ _ _ _ _ _ H Hc Hb Hin) as [Hf _]. discriminate Hf.
Qed.

(** Header and footer of a block after they are written. *)
Lemma retag_block (st : heap_state) (b s f : Z) :
  0 ≤ mem_start_brk st → mem_start_brk st ≤ b - 4 → b + s ≤ mem_brk st →
  mem_brk st ≤ 2 ^ 32 → 16 ≤ s → s mod 8 = 0 → f = 0 ∨ f = 1 →
  let st' := set_bytes (put_word (put_word (mem_bytes st) (b - 4) (PACK s f))
                          (b + s - 8) (PACK s f)) st in
  tiles st' b [(b, s, f)] (b + s)
  ∧ ∀ a, ¬ (b - 4 ≤ a < b + s - 4) → byte_at (mem_bytes st') a = byte_at (mem_bytes st) a.
Proof.
  intros Hs0 Hlo Hhi H32 Hs Hm Hf st'.
  pose proof (eq_refl : 2 ^ 32 = 4294967296) as Hpow.
  split.
  - cbn [tiles]. split; [reflexivity |]. split; [exact Hs |]. split; [exact Hf |].
    split; [| split; [| reflexivity]].
    + apply tag_at_PACK; [in_heap_solve | | lia | exact Hm | lia].
      rewrite !word_at_put_word_other by lia.
      rewrite word_at_put_word_same. apply wrap32_small, PACK_range; lia.
    + apply tag_at_PACK; [in_heap_solve | | lia | exact Hm | lia].
      rewrite word_at_put_word_same. apply wrap32_small, PACK_range; lia.
  - intros a Ha. cbn [st' mem_bytes set_bytes].
    rewrite !byte_at_put_word_other by lia. reflexivity.
Qed.

(** [mm_free] on an allocated block of the heap. *)
Lemma seg_mm_free (st : heap_state) (bs : list (Z * Z * Z)) (L : Z → list Z)
  (bp s : Z) :
  seg_heap st bs L → complete bs L [] → (bp, s, 1) ∈ bs →
  ∃ st' bs' L',
    seg_heap st' bs' L' ∧ complete bs' L' []
    ∧ (∀ b s1, (b, s1, 1) ∈ bs → b ≠ bp → (b, s1, 1) ∈ bs')
    ∧ ∀ R A, floor_ops R A → mm_free R A bp st = Ok tt st'.
Proof.
  intros H Hc Hin.
  pose proof (eq_refl : 2 ^ 32 = 4294967296) as Hpow.
  pose proof (sh_base _ _ _ H) as Hbase. pose proof (sh_listp _ _ _ H) as Hlp.
  pose proof (sh_limit _ _ _ H) as Hlim.
  destruct (seg_block_facts _ _ _ _ _ _ H Hin) as (H16 & _ & _ & _ & Hlo & Hhi & Hbs & Hm8).
  destruct (seg_heap_at _ _ _ _ _ _ H Hin) as (B1 & B2 & Ebs & T1 & Tm & T2).
  set (st1 := set_bytes (put_word (put_word (mem_bytes st) (bp - 4) (PACK s 0))
                           (bp + s - 8) (PACK s 0)) st).
  destruct (retag_block st bp s 0) as [Tm1 Hfr]; try lia. fold st1 in Tm1, Hfr.
  assert (∀ R A, mm_free R A bp st = (let* _ := coalesce R A bp in ret tt) st1) as Erun.
  { intros R A. unfold mm_free, FTRP, GET_SIZE, HDRP, WSIZE, DSIZE.
    unfold block_size, HDRP, WSIZE in Hbs.
    repeat mstep. rewrite Hbs. repeat pstep. reflexivity. }
  pose proof (unlisted_outside _ _ _ _ _ _ H Hin (allocated_unlisted _ _ _ _ _ H Hin)) as Hout.
  pose proof H as H0. rewrite Ebs in H0.
  pose proof (seg_heap_retag st st1 B1 _ _ B2 L bp (bp + s) H0 T1 Tm Hout
                eq_refl eq_refl eq_refl eq_refl Hfr Tm1) as H1.
  set (bs1 := B1 ++ [(bp, s, 0)] ++ B2) in *.
  assert ((bp, s, 0) ∈ bs1) as Hin1 by (unfold bs1; mem_solve).
  assert (unlisted L bp) as Hu by exact (allocated_unlisted _ _ _ _ _ H Hin).
  assert (complete bs1 L [bp]) as C1.
  { intros b s' Hb Hx. apply Hc; [| apply not_elem_of_nil]. rewrite Ebs.
    unfold bs1 in Hb.
    repeat (progress (rewrite ?elem_of_app, ?elem_of_cons, ?elem_of_nil in Hb)).
    destruct Hb as [Hb | [[Hb | []] | Hb]]; [mem_solve | | mem_solve].
    injection Hb as -> _. exfalso. apply Hx. apply list_elem_of_here. }
  destruct (seg_coalesce _ _ _ _ _ H1 Hin1 Hu C1)
    as (st' & bs' & L' & m & T & H' & C' & _ & _ & Hal & _ & Run).
  exists st', bs', L'. split; [exact H' |]. split; [exact C' |]. split.
  - intros b s1 Hb Hne. apply Hal. rewrite Ebs in Hb. unfold bs1.
    repeat (progress (rewrite ?elem_of_app, ?elem_of_cons, ?elem_of_nil in Hb)).
    destruct Hb as [Hb | [[Hb | []] | Hb]]; [mem_solve | | mem_solve].
    injection Hb as -> _. contradiction.
  - intros R A HF. rewrite Erun. rewrite (bind_Ok _ _ _ _ _ (Run R A HF)). reflexivity.
Qed.

(** [mm_malloc] on a well-formed heap: a request that wraps around
    faults in [find_fit], before any list operation; every other request
    returns a block of the heap or the null pointer. *)
Lemma seg_mm_malloc (st : heap_state) (bs : list (Z * Z * Z)) (L : Z → list Z)
  (size : Z) :
  seg_heap st bs L → complete bs L [] → 0 ≤ size < 2 ^ 32 →
  (2 ^ 32 - 16 < size ∧ ∀ R A, mm_malloc R A SegFit.find_fit size st = Fault)
  ∨ (∀ R A, mm_malloc R A SegFit.find_fit size st = Ok NULL st)
  ∨ (∃ st' bs' L' r s',
       seg_heap st' bs' L' ∧ complete bs' L' []
       ∧ (r, s', 1) ∈ bs' ∧ size + 8 ≤ s'
       ∧ (∀ b s1, (b, s1, 1) ∈ bs → (b, s1, 1) ∈ bs')
       ∧ (∀ s1, (r, s1, 1) ∉ bs)
       ∧ ∀ R A, floor_ops R A → mm_malloc R A SegFit.find_fit size st = Ok r st').
Proof.
  intros H Hc Hsize.
  pose proof (eq_refl : 2 ^ 32 = 4294967296) as Hpow.
  pose proof (eq_refl : 2 ^ 31 = 2147483648) as Hpow'.
  destruct (Z.eq_dec size 0) as [-> | Hne].
  { right. left. intros R A. reflexivity. }
  pose proof (adjusted_size_cases size ltac:(lia)) as Hadj. cbv zeta in Hadj.
  assert (∀ R A, mm_malloc R A SegFit.find_fit size st
                 = (let asize := if size <=? DSIZE then 2 * DSIZE
                                 else ALIGN (wrap32 (size + DSIZE)) in
                    let* bp := SegFit.find_fit asize in
                    if negb (bp =? NULL) then place R A bp asize >> ret bp
                    else
                      let extendsize := MAX asize CHUNKSIZE in
                      let* bp := extend_heap R A (extendsize / WSIZE) in
                      if bp =? NULL then ret NULL
                      else place R A bp asize >> ret bp) st) as Em.
  { intros R A. unfold mm_malloc. destruct (Z.eqb_spec size 0); [contradiction | reflexivity]. }
  cbv zeta in Em.
  set (asize := if size <=? DSIZE then 2 * DSIZE else ALIGN (wrap32 (size + DSIZE))) in *.
  destruct Hadj as [(Hle & Ha16 & Ham & Hab) | (Hbig & Hsmall)].
  2: { left. split; [exact Hbig |]. intros R A. rewrite Em.
       unfold bind. rewrite (seg_find_fit_small st bs L asize H Hsmall). reflexivity. }
  right.
  destruct (seg_find_fit st bs L asize H Ha16) as (r & Ef & Hr).
  destruct Hr as [-> | (s & Hin & Hfit & _)].
  - (* no block fits: the heap grows *)
    set (ext := MAX asize CHUNKSIZE) in *.
    assert (ext mod 8 = 0 ∧ 4096 ≤ ext < 2 ^ 32 ∧ asize ≤ ext) as (Hem & Her & Hae).
    { unfold ext, MAX, CHUNKSIZE. change (2 ^ 12) with 4096.
      destruct (Z.ltb_spec 4096 asize); [split; [exact Ham | lia] | split; [reflexivity | lia]]. }
    assert (ext / WSIZE * WSIZE = ext ∧ (ext / WSIZE) mod 2 = 0) as [Ew Heven].
    { unfold WSIZE. pose proof (Z.div_mod ext 8 ltac:(lia)).
      replace ext with (ext / 8 * 2 * 4) at 1 3 by lia.
      rewrite Z.div_mul by lia. split; [lia |]. apply Z.mod_mul. lia. }
    destruct (seg_extend_heap st bs L (ext / WSIZE) H Hc Heven ltac:(rewrite Ew; lia))
      as [Hfail Hgrow].
    rewrite Ew in Hfail, Hgrow.
    destruct (Z_lt_le_dec ext (2 ^ 31)) as [Hlt | Hge];
      [destruct (Z_le_gt_dec (mem_brk st + ext) (mem_max_addr st)) as [Hcap | Hnocap] |].
    + destruct (Hgrow Hlt Hcap) as (st1 & bs1 & L1 & m & T & H1 & C1 & Hm & HT & Hal1 & Run1).
      destruct (seg_block_facts _ _ _ _ _ _ H1 Hm) as (_ & _ & _ & _ & Hmlo & _).
      pose proof (sh_base _ _ _ H1) as Hbase1. pose proof (sh_listp _ _ _ H1) as Hlp1.
      destruct (seg_place st1 bs1 L1 m T asize H1 C1 Hm ltac:(lia) Ham)
        as (st' & bs' & L' & s' & H' & C' & Hr' & Hs' & Hal' & Run').
      right. exists st', bs', L', m, s'.
      split; [exact H' |]. split; [exact C' |]. split; [exact Hr' |]. split; [lia |].
      split; [intros b s1 Hb; apply Hal', Hal1, Hb |].
      split.
      { intros s1 Hb.
        destruct (tiles_same_addr _ _ _ _ _ _ _ _ _ (sh_tiles _ _ _ H1) Hm (Hal1 _ _ Hb))
          as [_ Hf]. discriminate Hf. }
      intros R A HF. rewrite Em. rewrite (bind_Ok _ _ _ _ _ Ef).
      change (negb (NULL =? NULL)) with false. cbv iota.
      rewrite (bind_Ok _ _ _ _ _ (Run1 R A HF)).
      destruct (Z.eqb_spec m NULL) as [E0 | _]; [unfold NULL in E0; lia |].
      rewrite (bind_Ok _ _ _ _ _ (Run' R A HF)). reflexivity.
    + left. intros R A. rewrite Em. rewrite (bind_Ok _ _ _ _ _ Ef).
      change (negb (NULL =? NULL)) with false. cbv iota.
      rewrite (bind_Ok _ _ _ _ _ (Hfail ltac:(lia) R A)). reflexivity.
    + left. intros R A. rewrite Em. rewrite (bind_Ok _ _ _ _ _ Ef).
      change (negb (NULL =? NULL)) with false. cbv iota.
      rewrite (bind_Ok _ _ _ _ _ (Hfail ltac:(lia) R A)). reflexivity.
  - (* a block of a list fits *)
    destruct (seg_block_facts _ _ _ _ _ _ H Hin) as (_ & _ & _ & _ & Hrlo & _).
    pose proof (sh_base _ _ _ H) as Hbase. pose proof (sh_listp _ _ _ H) as Hlp.
    destruct (seg_place st bs L r s asize H Hc Hin ltac:(lia) Ham)
      as (st' & bs' & L' & s' & H' & C' & Hr' & Hs' & Hal' & Run').
    right. exists st', bs', L', r, s'.
    split; [exact H' |]. split; [exact C' |]. split; [exact Hr' |]. split; [lia |].
    split; [exact Hal' |].
    split.
    { intros s1 Hb.
      destruct (tiles_same_addr _ _ _ _ _ _ _ _ _ (sh_tiles _ _ _ H) Hin Hb) as [_ Hf].
      discriminate Hf. }
    intros R A HF. rewrite Em. rewrite (bind_Ok _ _ _ _ _ Ef).
    destruct (Z.eqb_spec r NULL) as [E0 | _]; [unfold NULL in E0; lia |].
    cbn [negb]. rewrite (bind_Ok _ _ _ _ _ (Run' R A HF)). reflexivity.
Qed.

(** * [mm_realloc] and [mm_init] on a well-formed segregated-fit heap *)

Lemma segfit_over_own :
  SegFitOver.mm_init SegFit.remove_free_block SegFit.add_free_block = SegFit.mm_init
  ∧ SegFitOver.mm_malloc SegFit.remove_free_block SegFit.add_free_block = SegFit.mm_malloc
  ∧ SegFitOver.mm_free SegFit.remove_free_block SegFit.add_free_block = SegFit.mm_free
  ∧ SegFitOver.mm_realloc SegFit.remove_free_block SegFit.add_free_block = SegFit.mm_realloc.
Proof. repeat split; reflexivity. Qed.

Lemma floor_checked_ops :
  floor_ops (floor_checked SegFit.remove_free_block) (floor_checked SegFit.add_free_block).
Proof.
  split; intros bp st Hb; unfold floor_checked;
    (destruct (Z.ltb_spec (block_size st bp) (2 * DSIZE)); [lia | reflexivity]).
Qed.

(** The payload of an allocated block may be overwritten. *)
Lemma seg_heap_payload (st st' : heap_state) (bs : list (Z * Z * Z)) (L : Z → list Z)
  (r s : Z) :
  seg_heap st bs L → (r, s, 1) ∈ bs →
  mem_start_brk st' = mem_start_brk st → mem_brk st' = mem_brk st →
  mem_max_addr st' = mem_max_addr st → listp st' = listp st →
  (∀ a, ¬ (r ≤ a < r + s - 8) → byte_at (mem_bytes st') a = byte_at (mem_bytes st) a) →
  seg_heap st' bs L.
Proof.
  intros H Hin E1 E2 E3 El Hs.
  destruct (seg_heap_at _ _ _ _ _ _ H Hin) as (B1 & B2 & Ebs & T1 & Tm & T2).
  pose proof (unlisted_outside _ _ _ _ _ _ H Hin (allocated_unlisted _ _ _ _ _ H Hin)) as Hout.
  rewrite Ebs in H |- *.
  apply (seg_heap_retag st st' B1 [(r, s, 1)] [(r, s, 1)] B2 L r (r + s) H T1 Tm Hout
           E1 E2 E3 El).
  - intros a Ha. apply Hs. lia.
  - apply (tiles_frame st); [exact E1 | lia | | exact Tm].
    intros b s0 f a Hb Ha. apply list_elem_of_singleton in Hb. injection Hb as -> -> ->.
    apply Hs. unfold in_word in Ha. lia.
Qed.

Lemma bind_Fault {A B} (c : M A) (k : A → M B) (s : heap_state) :
  c s = Fault → bind c k s = Fault.
Proof. intros E. unfold bind. rewrite E. reflexivity. Qed.

(** [mm_realloc] on an allocated block of the heap. *)
Lemma seg_mm_realloc (st : heap_state) (bs : list (Z * Z * Z)) (L : Z → list Z)
  (ptr s size : Z) :
  seg_heap st bs L → complete bs L [] → (ptr, s, 1) ∈ bs → 0 ≤ size < 2 ^ 32 →
  (∀ R A, floor_ops R A → SegFitOver.mm_realloc R A ptr size st = Fault)
  ∨ (∃ r st' bs' L',
       seg_heap st' bs' L' ∧ complete bs' L' []
       ∧ (∀ b s1, (b, s1, 1) ∈ bs → b ≠ ptr → (b, s1, 1) ∈ bs')
       ∧ ((r = NULL ∧ (ptr, s, 1) ∈ bs')
          ∨ ∃ s', (r, s', 1) ∈ bs' ∧ wrap32 (size + DSIZE) ≤ s')
       ∧ ∀ R A, floor_ops R A → SegFitOver.mm_realloc R A ptr size st = Ok r st').
Proof.
  intros H Hc Hin Hsize.
  pose proof (eq_refl : 2 ^ 32 = 4294967296) as Hpow.
  pose proof (sh_base _ _ _ H) as Hbase. pose proof (sh_listp _ _ _ H) as Hlp.
  pose proof (sh_limit _ _ _ H) as Hlim.
  destruct (seg_block_facts _ _ _ _ _ _ H Hin) as (H16 & _ & _ & _ & Hlo & Hhi & Hbs & Hm8).
  set (newsize := wrap32 (size + DSIZE)).
  assert (0 ≤ newsize < 2 ^ 32) as Hnew.
  { unfold newsize, wrap32. apply Z.mod_pos_bound. lia. }
  assert (∀ R A, SegFitOver.mm_realloc R A ptr size st
                 = (if size =? 0 then ret NULL
                    else realloc_tail R A SegFit.find_fit ptr s newsize) st) as Em.
  { intros R A. unfold SegFitOver.mm_realloc. cbv zeta.
    unfold GET_SIZE, HDRP, WSIZE. unfold block_size, HDRP, WSIZE in Hbs.
    repeat mstep. rewrite Hbs. reflexivity. }
  destruct (Z.eqb_spec size 0) as [Hz | Hnz].
  { right. exists NULL, st, bs, L. split; [exact H |]. split; [exact Hc |].
    split; [auto |]. split; [left; split; [reflexivity | exact Hin] |].
    intros R A _. rewrite Em. reflexivity. }
  destruct (Z_le_gt_dec newsize s) as [Hfits | Hgrow].
  { right. exists ptr, st, bs, L. split; [exact H |]. split; [exact Hc |].
    split; [auto |]. split; [right; exists s; split; [exact Hin | fold newsize; exact Hfits] |].
    intros R A _. rewrite Em. unfold realloc_tail.
    destruct (Z.leb_spec newsize s); [reflexivity | lia]. }
  destruct (seg_heap_at _ _ _ _ _ _ H Hin) as (B1 & B2 & Ebs & _).
  pose proof H as H0. rewrite Ebs in H0.
  destruct (seg_neighbourhood _ _ _ _ _ _ _ H0)
    as (psize & pflag & nsize & nflag & Hnb & Hpf & Hnf & HP & HN).
  clear H0.
  pose proof (nb_next_hdr _ _ _ _ _ _ _ Hnb) as (Hn1 & Hn2 & Hn3).
  pose proof (nb_prev_ftr _ _ _ _ _ _ _ Hnb) as (_ & Hp2 & _).
  pose proof (nb_total _ _ _ _ _ _ _ Hnb) as Htot.
  assert (0 ≤ psize) as Hp0 by (rewrite <- Hp2; apply size_of_range).
  assert (0 ≤ nsize) as Hn0 by (rewrite <- Hn2; apply size_of_range).
  apply in_heap_spec in Hn1.
  assert (∀ R A, realloc_tail R A SegFit.find_fit ptr s newsize st
                 = (if (nflag =? 0) && (newsize <=? s + nsize) then
                      let* next := NEXT_BLKP ptr in
                      R next >>
                      PUT (HDRP ptr) (PACK (s + nsize) 1) >>
                      let* ftr := FTRP ptr in
                      PUT ftr (PACK (s + nsize) 1) >>
                      ret ptr
                    else
                      let* newptr := mm_malloc R A SegFit.find_fit newsize in
                      if newptr =? NULL then ret NULL
                      else
                        memcpy newptr ptr newsize >>
                        mm_free R A ptr >>
                        ret newptr) st) as Et.
  { intros R A. unfold realloc_tail.
    destruct (Z.leb_spec newsize s) as [Hbad | _]; [lia |].
    unfold NEXT_BLKP at 1, GET_SIZE at 1, GET_SIZE at 1, GET_ALLOC, HDRP at 1 2 3, WSIZE at 1 2 3.
    unfold block_size, HDRP, WSIZE in Hbs.
    repeat mstep. rewrite Hbs. repeat mstep. rewrite Hn2, Hn3.
    rewrite (wrap32_small (s + nsize)) by lia. reflexivity. }
  destruct ((nflag =? 0) && (newsize <=? s + nsize)) eqn:Hcond.
  - (* the next block is free and large enough *)
    apply andb_true_iff in Hcond as [Hf0 Hle]. apply Z.eqb_eq in Hf0. apply Z.leb_le in Hle.
    destruct (HN Hf0) as (B2' & EB2).
    assert (bs = B1 ++ [(ptr, s, 1); (ptr + s, nsize, 0)] ++ B2')
      as Hbs' by (rewrite Ebs, EB2; reflexivity).
    assert ((ptr + s, nsize, 0) ∈ bs) as Hnext by (rewrite Hbs'; mem_solve).
    destruct (seg_block_facts _ _ _ _ _ _ H Hnext) as (Hn16 & _ & _ & _ & _ & Hnhi & _ & Hnm8).
    destruct (seg_floor_remove st bs L [] (ptr + s) nsize H Hc Hnext)
      as (st1 & L1 & H1 & C1 & U1 & Usub1 & S1 & ER1); [apply not_elem_of_nil |].
    pose proof S1 as (X1 & X2 & X3 & _).
    pose proof (sh_listp _ _ _ H1) as Hlp1.
    set (st2 := set_bytes (put_word (put_word (mem_bytes st1) (ptr - 4) (PACK (s + nsize) 1))
                             (ptr + (s + nsize) - 8) (PACK (s + nsize) 1)) st1).
    assert ((s + nsize) mod 8 = 0) as HTm by (rewrite Z.add_mod, Hm8, Hnm8 by lia; reflexivity).
    destruct (retag_block st1 ptr (s + nsize) 1) as [Tm2 Hfr]; try lia.
    fold st2 in Tm2, Hfr.
    pose proof H1 as H1'. rewrite Hbs' in H1'.
    destruct (seg_heap_parts _ _ _ _ _ H1') as (m1 & m2 & T1 & Tm & T2).
    pose proof Tm as Tm0.
    apply tiles_cons_inv in Tm0 as [-> Tm0]. apply tiles_cons_inv in Tm0 as [_ Tm0].
    cbn [tiles] in Tm0.
    assert (m2 = ptr + (s + nsize)) as -> by lia. clear Tm0.
    pose proof (unlisted_outside _ _ _ _ _ _ H1 Hin (allocated_unlisted _ _ _ _ _ H1 Hin)) as O1.
    pose proof (unlisted_outside _ _ _ _ _ _ H1 Hnext U1) as O2.
    assert (seg_heap st2 (B1 ++ [(ptr, s + nsize, 1)] ++ B2') L1) as H2.
    { apply (seg_heap_retag st1 st2 B1 _ _ B2' L1 ptr (ptr + (s + nsize)) H1' T1 Tm);
        [| reflexivity | reflexivity | reflexivity | reflexivity | exact Hfr | exact Tm2].
      intros c b Hc0 Hb. specialize (O1 c b Hc0 Hb). specialize (O2 c b Hc0 Hb). lia. }
    right. exists ptr, st2, (B1 ++ [(ptr, s + nsize, 1)] ++ B2'), L1.
    split; [exact H2 |]. split; [| split; [| split]].
    + intros b s' Hb _.
      assert ((b, s', 0) ∈ B1 ++ B2') as Hb'.
      { repeat (progress (rewrite ?elem_of_app, ?elem_of_cons, ?elem_of_nil in Hb)).
        destruct Hb as [Hb | [[Hb | []] | Hb]]; [mem_solve | discriminate Hb | mem_solve]. }
      destruct (tiles_part_sides _ _ _ _ _ _ _ _ _ _ T1 T2 Hb') as [Hs' Hd].
      apply C1; [rewrite Hbs'; mem_solve | not_among].
    + intros b s1 Hb Hne. rewrite Hbs' in Hb.
      repeat (progress (rewrite ?elem_of_app, ?elem_of_cons, ?elem_of_nil in Hb)).
      destruct Hb as [Hb | [[Hb | [Hb | []]] | Hb]];
        [mem_solve | injection Hb as -> _; contradiction | discriminate Hb | mem_solve].
    + right. exists (s + nsize). split; [mem_solve | fold newsize; exact Hle].
    + intros R A [HR HA]. rewrite Em, Et.
      unfold NEXT_BLKP, FTRP, GET_SIZE, HDRP, WSIZE, DSIZE.
      unfold block_size, HDRP, WSIZE in Hbs.
      repeat mstep. rewrite Hbs. rewrite (bind_Ok _ _ _ _ _ (ER1 R HR)).
      repeat pstep. reflexivity.
  - (* the block moves *)
    destruct (seg_mm_malloc st bs L newsize H Hc Hnew)
      as [[_ Hfault] | [Hnull | (st1 & bs1 & L1 & r & s' & H1 & C1 & Hr & Hs' & Hal & Hfresh
                                  & RunM)]].
    + left. intros R A _. rewrite Em, Et. apply bind_Fault, Hfault.
    + right. exists NULL, st, bs, L. split; [exact H |]. split; [exact Hc |].
      split; [auto |]. split; [left; split; [reflexivity | exact Hin] |].
      intros R A _. rewrite Em, Et. rewrite (bind_Ok _ _ _ _ _ (Hnull R A)). reflexivity.
    + destruct (seg_block_facts _ _ _ _ _ _ H1 Hr) as (_ & _ & _ & _ & Hrlo & Hrhi & _).
      pose proof (sh_base _ _ _ H1) as Hbase1. pose proof (sh_listp _ _ _ H1) as Hlp1.
      destruct (in_arena st1 ptr newsize && in_arena st1 r newsize) eqn:Hmc.
      * set (st2 := set_bytes (copy_bytes (mem_bytes st1) r ptr newsize (mem_bytes st1)) st1).
        assert (memcpy r ptr newsize st1 = Ok tt st2) as Emc.
        { unfold memcpy. rewrite Hmc. reflexivity. }
        assert (seg_heap st2 bs1 L1) as H2.
        { apply (seg_heap_payload st1 st2 bs1 L1 r s' H1 Hr); try reflexivity.
          intros a Ha. cbn [st2 mem_bytes set_bytes]. apply copy_bytes_outside. lia. }
        destruct (seg_mm_free st2 bs1 L1 ptr s H2 C1 (Hal _ _ Hin))
          as (st' & bs' & L' & H' & C' & Hal' & RunF).
        assert (r ≠ ptr) as Hrp by (intros ->; exact (Hfresh _ Hin)).
        right. exists r, st', bs', L'. split; [exact H' |]. split; [exact C' |].
        split; [intros b s1 Hb Hne; exact (Hal' _ _ (Hal _ _ Hb) Hne) |].
        split; [right; exists s'; split; [exact (Hal' _ _ Hr Hrp) | fold newsize; lia] |].
        intros R A HF. rewrite Em, Et. rewrite (bind_Ok _ _ _ _ _ (RunM R A HF)).
        destruct (Z.eqb_spec r NULL) as [E0 | _]; [unfold NULL in E0; lia |].
        rewrite (bind_Ok _ _ _ _ _ Emc). rewrite (bind_Ok _ _ _ _ _ (RunF R A HF)).
        reflexivity.
      * left. intros R A HF. rewrite Em, Et. rewrite (bind_Ok _ _ _ _ _ (RunM R A HF)).
        destruct (Z.eqb_spec r NULL) as [E0 | _]; [unfold NULL in E0; lia |].
        apply bind_Fault. unfold memcpy. rewrite Hmc. reflexivity.
Qed.

(** The loop of [mm_init] over the root slots. *)
Lemma init_roots_run (n : nat) (p i : Z) (st : heap_state) :
  mem_start_brk st ≤ p + (2 + i) * 4 → p + (2 + i + Z.of_nat n) * 4 ≤ mem_brk st →
  ∃ st', init_roots n p i st = Ok tt st'
    ∧ mem_start_brk st' = mem_start_brk st ∧ mem_brk st' = mem_brk st
    ∧ mem_max_addr st' = mem_max_addr st ∧ listp st' = listp st
    ∧ (∀ j, i ≤ j < i + Z.of_nat n → word_at (mem_bytes st') (p + (2 + j) * 4) = 0)
    ∧ (∀ a, ¬ (p + (2 + i) * 4 ≤ a < p + (2 + i + Z.of_nat n) * 4) →
            byte_at (mem_bytes st') a = byte_at (mem_bytes st) a).
Proof.
  revert i st. induction n as [| n IH]; intros i st Hlo Hhi.
  - exists st. split; [reflexivity |]. repeat (split; [reflexivity |]).
    split; [intros j Hj; lia | intros a _; reflexivity].
  - cbn [init_roots]. unfold WSIZE, NULL.
    rewrite bind_PUT by (apply in_heap_spec; lia).
    set (st1 := set_bytes (put_word (mem_bytes st) (p + (2 + i) * 4) 0) st).
    destruct (IH (i + 1) st1) as (st' & E & X1 & X2 & X3 & X4 & Hw & Hs);
      [cbn; lia | cbn; lia |].
    exists st'. split; [exact E |].
    split; [exact X1 |]. split; [exact X2 |]. split; [exact X3 |]. split; [exact X4 |].
    split.
    + intros j Hj. destruct (Z.eq_dec j i) as [-> | Hne]; [| apply Hw; lia].
      rewrite (word_at_same_bytes (mem_bytes st1)).
      * cbn [st1 mem_bytes set_bytes]. rewrite word_at_put_word_same. reflexivity.
      * intros b Hb. apply Hs. lia.
    + intros a Ha. rewrite Hs by lia. cbn [st1 mem_bytes set_bytes].
      apply byte_at_put_word_other. lia.
Qed.

(** [mm_init] on an empty heap. *)
Lemma seg_mm_init (st0 : heap_state) :
  4096 ≤ mem_start_brk st0 → mem_brk st0 = mem_start_brk st0 →
  mem_max_addr st0 ≤ 2 ^ 32 →
  (∃ st', ∀ R A, SegFitOver.mm_init R A st0 = Ok (-1) st')
  ∨ (∃ st' bs' L',
       seg_heap st' bs' L' ∧ complete bs' L' []
       ∧ ∀ R A, floor_ops R A → SegFitOver.mm_init R A st0 = Ok 0 st').
Proof.
  intros Hbase Hempty Hmax.
  pose proof (eq_refl : 2 ^ 32 = 4294967296) as Hpow.
  pose proof (eq_refl : 2 ^ 31 = 2147483648) as Hpow'.
  set (p := mem_brk st0) in *.
  destruct (Z_lt_le_dec (mem_max_addr st0) (p + 96)) as [Hfull | Hroom].
  { left. exists (set_listp (wrap32 (-1)) st0). intros R A.
    unfold SegFitOver.mm_init.
    change ((SEGREGATED_LIST_SIZE + 4) * WSIZE) with 96.
    assert (mem_sbrk 96 st0 = Ok None st0) as Es.
    { unfold mem_sbrk. change (to_int32 96) with 96. change (96 <? 0) with false.
      fold p. destruct (Z.ltb_spec (mem_max_addr st0) (p + 96)); [reflexivity | lia]. }
    rewrite (bind_Ok _ _ _ _ _ Es). reflexivity. }
  set (sa := set_bytes (put_word (put_word (mem_bytes st0) p 0) (p + 4) (PACK 88 1))
               (set_listp p (set_brk (p + 96) st0))).
  destruct (init_roots_run 20 p 0 sa) as (sr & Er & X1 & X2 & X3 & X4 & Hroots & Hsr);
    [cbn; lia | cbn; lia |].
  cbn [sa mem_start_brk mem_brk mem_max_addr listp set_bytes set_listp set_brk] in X1, X2, X3, X4.
  set (st1 := set_listp (p + 8)
                (set_bytes (put_word (put_word (mem_bytes sr) (p + 88) (PACK 88 1))
                              (p + 92) (PACK 0 1)) sr)).
  assert (∀ R A, SegFitOver.mm_init R A st0
                 = (let* bp := extend_heap R A ((CHUNKSIZE + 2 * DSIZE) / WSIZE) in
                    if bp =? NULL then ret (-1) else ret 0) st1) as Erun.
  { intros R A. unfold SegFitOver.mm_init, SegFitOver.extend_heap.
    change ((SEGREGATED_LIST_SIZE + 4) * WSIZE) with 96.
    change ((SEGREGATED_LIST_SIZE + 2) * WSIZE) with 88.
    change ((SEGREGATED_LIST_SIZE + 3) * WSIZE) with 92.
    change (Z.to_nat SEGREGATED_LIST_SIZE) with 20%nat.
    change (1 * WSIZE) with 4. change (2 * WSIZE) with 8.
    rewrite bind_mem_sbrk by lia. fold p.
    rewrite bind_set_listp.
    rewrite bind_PUT by (apply in_heap_spec; cbn; lia).
    rewrite bind_PUT by (apply in_heap_spec; cbn; lia).
    cbn [mem_bytes set_bytes]. fold sa.
    rewrite (bind_Ok _ _ _ _ _ Er).
    rewrite bind_PUT by (apply in_heap_spec; lia).
    rewrite bind_PUT by (apply in_heap_spec; cbn; lia).
    rewrite bind_set_listp. reflexivity. }
  assert (seg_heap st1 [] (λ _, [])) as H1.
  { unfold st1. constructor.
    - cbn [mem_start_brk set_listp set_bytes]. lia.
    - cbn [mem_start_brk listp set_listp set_bytes]. lia.
    - cbn [mem_brk mem_max_addr set_listp set_bytes]. lia.
    - cbn [mem_bytes listp set_listp set_bytes].
      rewrite !word_at_put_word_other by lia.
      rewrite (word_at_same_bytes (mem_bytes sa)) by (intros b Hb; apply Hsr; lia).
      cbn [sa mem_bytes set_bytes]. replace (p + 8 - 4) with (p + 4) by lia.
      rewrite word_at_put_word_same. reflexivity.
    - cbn [listp set_listp]. replace (p + 8 + 80) with (p + 88) by lia.
      unfold tag_at. cbn [mem_bytes set_listp set_bytes].
      split; [apply in_heap_spec; cbn; lia |].
      rewrite word_at_put_word_other by lia. rewrite word_at_put_word_same.
      split; reflexivity.
    - cbn [listp mem_brk set_listp set_bytes tiles]. lia.
    - cbn [mem_brk set_listp set_bytes]. rewrite X2.
      replace (p + 96 - 4) with (p + 92) by lia.
      unfold tag_at. cbn [mem_bytes set_listp set_bytes].
      split; [apply in_heap_spec; cbn; lia |].
      rewrite word_at_put_word_same. split; reflexivity.
    - intros c Hc.
      fold st1. assert (seg_root st1 c = NULL) as ->.
      { unfold seg_root, root_slot, WSIZE, st1. cbn [mem_bytes listp set_listp set_bytes].
        rewrite !word_at_put_word_other by lia.
        replace (p + 8 + c * 4) with (p + (2 + c) * 4) by lia. apply Hroots. lia. }
      split; [reflexivity |]. split; [exact I |]. split; [exact I | apply Forall_nil_2].
    - intros c b _ Hb. apply elem_of_nil in Hb. destruct Hb. }
  assert (complete [] (λ _ : Z, @nil Z) []) as C1.
  { intros b s Hb. apply elem_of_nil in Hb. destruct Hb. }
  assert (mem_brk st1 = p + 96 ∧ mem_max_addr st1 = mem_max_addr st0) as [Eb1 Em1].
  { cbn [st1 mem_brk mem_max_addr set_listp set_bytes]. split; assumption. }
  change ((CHUNKSIZE + 2 * DSIZE) / WSIZE) with 1028 in Erun.
  destruct (seg_extend_heap st1 [] (λ _, []) 1028 H1 C1 eq_refl) as [Hfail Hgrow];
    [unfold WSIZE; lia |].
  change (1028 * WSIZE) with 4112 in Hfail, Hgrow.
  destruct (Z_lt_le_dec (mem_max_addr st1) (mem_brk st1 + 4112)) as [Hno | Hyes].
  - left. exists st1. intros R A. rewrite Erun.
    rewrite (bind_Ok _ _ _ _ _ (Hfail (or_intror Hno) R A)). reflexivity.
  - destruct (Hgrow ltac:(lia) Hyes) as (st' & bs' & L' & m & T & H' & C' & Hm & _ & _ & Run).
    destruct (seg_block_facts _ _ _ _ _ _ H' Hm) as (_ & _ & _ & _ & Hmlo & _).
    pose proof (sh_base _ _ _ H') as Hbase'. pose proof (sh_listp _ _ _ H') as Hlp'.
    right. exists st', bs', L'. split; [exact H' |]. split; [exact C' |].
    intros R A HF. rewrite Erun. rewrite (bind_Ok _ _ _ _ _ (Run R A HF)).
    destruct (Z.eqb_spec m NULL) as [E0 | _]; [unfold NULL in E0; lia | reflexivity].
Qed.

(** * The size floor of the list operations (C10) *)

(** C10: in the segregated-fit variant every block passed to
    [add_free_block] or [remove_free_block] has at least 16 bytes, so
    [get_class] answers an index from 1 to 19 and [GET_ROOT(class)] stays
    inside the root array of 20 entries; the answer -1 belongs to the
    sizes below 16, which no list operation meets.  On a well-formed heap
    (blocks of at least 16 bytes between prologue and epilogue, every
    free block in the list of its class) let [R] and [A] do what the list
    operations of the source do on blocks of at least 16 bytes and
    anything at all on smaller ones, as [floor_checked] does, which
    marks the run by [Diverge].  Then [place], [mm_malloc], [mm_free] and
    [mm_realloc] over [R] and [A] run as those of the source do, they
    return or fault but never diverge, and they leave a well-formed heap
    in which the block they return is allocated and the other allocated
    blocks are as before; [mm_init] over [R] and [A] runs as that of the
    source and makes a well-formed heap of an empty one. *)
Theorem segfit_list_operations_size_floor
  (st : heap_state) (bs : list (Z * Z * Z)) (L : Z → list Z) (R A : Z → M unit) :
  seg_heap st bs L → complete bs L [] → floor_ops R A →
  (∀ size, 2 * DSIZE ≤ size →
     1 ≤ SegFit.get_class size ≤ SEGREGATED_LIST_SIZE - 1
     ∧ listp st ≤ root_slot (listp st) (SegFit.get_class size)
     ∧ root_slot (listp st) (SegFit.get_class size) + WSIZE
       ≤ listp st + SEGREGATED_LIST_SIZE * WSIZE)
  ∧ (∀ size, SegFit.get_class size = -1 ↔ size < 2 * DSIZE)
  ∧ (∀ b s f, (b, s, f) ∈ bs →
       block_size st b = s ∧ 2 * DSIZE ≤ s ∧ (f = 0 → b ∈ L (SegFit.get_class s)))
  ∧ (∀ r s asize, (r, s, 0) ∈ bs → 2 * DSIZE ≤ asize ≤ s → asize mod 8 = 0 →
       SegFitOver.place R A r asize st = SegFit.place r asize st
       ∧ ∃ st' bs' L', SegFit.place r asize st = Ok tt st'
           ∧ seg_heap st' bs' L' ∧ complete bs' L' [])
  ∧ (∀ size, 0 ≤ size < 2 ^ 32 →
       SegFitOver.mm_malloc R A size st = SegFit.mm_malloc size st
       ∧ SegFit.mm_malloc size st ≠ Diverge
       ∧ ∀ r st', SegFit.mm_malloc size st = Ok r st' →
           ∃ bs' L', seg_heap st' bs' L' ∧ complete bs' L' []
             ∧ (∀ b s1, (b, s1, 1) ∈ bs → (b, s1, 1) ∈ bs')
             ∧ (r = NULL
                ∨ (∃ s', (r, s', 1) ∈ bs' ∧ size + DSIZE ≤ s')
                  ∧ ∀ s1, (r, s1, 1) ∉ bs))
  ∧ (∀ bp s, (bp, s, 1) ∈ bs →
       SegFitOver.mm_free R A bp st = SegFit.mm_free bp st
       ∧ ∃ st' bs' L', SegFit.mm_free bp st = Ok tt st'
           ∧ seg_heap st' bs' L' ∧ complete bs' L' []
           ∧ ∀ b s1, (b, s1, 1) ∈ bs → b ≠ bp → (b, s1, 1) ∈ bs')
  ∧ (∀ ptr s size, (ptr, s, 1) ∈ bs → 0 ≤ size < 2 ^ 32 →
       SegFitOver.mm_realloc R A ptr size st = SegFit.mm_realloc ptr size st
       ∧ SegFit.mm_realloc ptr size st ≠ Diverge
       ∧ ∀ r st', SegFit.mm_realloc ptr size st = Ok r st' →
           ∃ bs' L', seg_heap st' bs' L' ∧ complete bs' L' []
             ∧ (∀ b s1, (b, s1, 1) ∈ bs → b ≠ ptr → (b, s1, 1) ∈ bs')
             ∧ ((r = NULL ∧ (ptr, s, 1) ∈ bs')
                ∨ ∃ s', (r, s', 1) ∈ bs' ∧ wrap32 (size + DSIZE) ≤ s'))
  ∧ (∀ st0, 4096 ≤ mem_start_brk st0 → mem_brk st0 = mem_start_brk st0 →
       mem_max_addr st0 ≤ 2 ^ 32 →
       SegFitOver.mm_init R A st0 = SegFit.mm_init st0
       ∧ SegFit.mm_init st0 ≠ Diverge
       ∧ ∀ st', SegFit.mm_init st0 = Ok 0 st' →
           ∃ bs' L', seg_heap st' bs' L' ∧ complete bs' L' []).
Proof.
  intros H Hc HF. pose proof floor_ops_segfit as HS.
  split; [| split; [| split; [| split; [| split; [| split; [| split]]]]]].
  - intros size Hsz. change (2 * DSIZE) with 16 in Hsz.
    pose proof (get_class_range size Hsz) as Hr.
    unfold root_slot, SEGREGATED_LIST_SIZE, WSIZE. lia.
  - intros size. change (2 * DSIZE) with 16. apply get_class_neg.
  - intros b s f Hin.
    destruct (seg_block_facts _ _ _ _ _ _ H Hin) as (H16 & _ & _ & _ & _ & _ & Hbs & _).
    split; [exact Hbs |]. split; [unfold DSIZE; lia |].
    intros ->. apply Hc; [exact Hin | apply not_elem_of_nil].
  - intros r s asize Hin Ha Hm. change (2 * DSIZE) with 16 in Ha.
    destruct (seg_place st bs L r s asize H Hc Hin Ha Hm)
      as (st' & bs' & L' & s' & H' & C' & _ & _ & _ & Run).
    pose proof (Run _ _ HS) as ES. change (SegFit.place r asize st = Ok tt st') in ES.
    split; [unfold SegFitOver.place; rewrite (Run R A HF), ES; reflexivity |].
    exists st', bs', L'. split; [exact ES |]. split; [exact H' | exact C'].
  - intros size Hsize.
    destruct (seg_mm_malloc st bs L size H Hc Hsize)
      as [[_ Hf] | [Hn | (st' & bs' & L' & r & s' & H' & C' & Hr & Hs' & Hal & Hfr & Run)]].
    + pose proof (Hf SegFit.remove_free_block SegFit.add_free_block) as ES.
      change (SegFit.mm_malloc size st = Fault) in ES.
      split; [unfold SegFitOver.mm_malloc; rewrite (Hf R A), ES; reflexivity |].
      rewrite ES. split; [discriminate |]. intros r st' E. discriminate E.
    + pose proof (Hn SegFit.remove_free_block SegFit.add_free_block) as ES.
      change (SegFit.mm_malloc size st = Ok NULL st) in ES.
      split; [unfold SegFitOver.mm_malloc; rewrite (Hn R A), ES; reflexivity |].
      rewrite ES. split; [discriminate |]. intros r st' E. injection E as <- <-.
      exists bs, L. split; [exact H |]. split; [exact Hc |]. split; [auto |].
      left. reflexivity.
    + pose proof (Run _ _ HS) as ES. change (SegFit.mm_malloc size st = Ok r st') in ES.
      split; [unfold SegFitOver.mm_malloc; rewrite (Run R A HF), ES; reflexivity |].
      rewrite ES. split; [discriminate |]. intros r0 st0 E. injection E as <- <-.
      exists bs', L'. split; [exact H' |]. split; [exact C' |]. split; [exact Hal |].
      right. split; [| exact Hfr]. exists s'. split; [exact Hr | unfold DSIZE; lia].
  - intros bp s Hin.
    destruct (seg_mm_free st bs L bp s H Hc Hin) as (st' & bs' & L' & H' & C' & Hal & Run).
    pose proof (Run _ _ HS) as ES. change (SegFit.mm_free bp st = Ok tt st') in ES.
    split; [unfold SegFitOver.mm_free; rewrite (Run R A HF), ES; reflexivity |].
    exists st', bs', L'. split; [exact ES |]. split; [exact H' |].
    split; [exact C' | exact Hal].
  - intros ptr s size Hin Hsize.
    destruct (seg_mm_realloc st bs L ptr s size H Hc Hin Hsize)
      as [Hf | (r & st' & bs' & L' & H' & C' & Hal & Hr & Run)].
    + pose proof (Hf _ _ HS) as ES. change (SegFit.mm_realloc ptr size st = Fault) in ES.
      split; [rewrite (Hf R A HF), ES; reflexivity |].
      rewrite ES. split; [discriminate |]. intros r st' E. discriminate E.
    + pose proof (Run _ _ HS) as ES. change (SegFit.mm_realloc ptr size st = Ok r st') in ES.
      split; [rewrite (Run R A HF), ES; reflexivity |].
      rewrite ES. split; [discriminate |]. intros r0 st0 E. injection E as <- <-.
      exists bs', L'. split; [exact H' |]. split; [exact C' |]. split; [exact Hal | exact Hr].
  - intros st0 Hbase Hempty Hmax.
    destruct (seg_mm_init st0 Hbase Hempty Hmax)
      as [(st' & Hn) | (st' & bs' & L' & H' & C' & Run)].
    + pose proof (Hn SegFit.remove_free_block SegFit.add_free_block) as ES.
      change (SegFit.mm_init st0 = Ok (-1) st') in ES.
      split; [rewrite (Hn R A), ES; reflexivity |].
      rewrite ES. split; [discriminate |]. intros st1 E. discriminate E.
    + pose proof (Run _ _ HS) as ES. change (SegFit.mm_init st0 = Ok 0 st') in ES.
      split; [rewrite (Run R A HF), ES; reflexivity |].
      rewrite ES. split; [discriminate |]. intros st1 E. injection E as <-.
      exists bs', L'. split; [exact H' | exact C'].
Qed.

Lemma segfit_list_operations_size_floor_witness :
  seg_heap segfit_ready [(4192, 4112, 0)] segfit_ready_lists
  ∧ complete [(4192, 4112, 0)] segfit_ready_lists []
  ∧ floor_ops (floor_checked SegFit.remove_free_block)
      (floor_checked SegFit.add_free_block)
  ∧ SegFitOver.mm_init (floor_checked SegFit.remove_free_block)
      (floor_checked SegFit.add_free_block) fresh
    = SegFit.mm_init fresh
  ∧ SegFitOver.place (floor_checked SegFit.remove_free_block)
      (floor_checked SegFit.add_free_block) 4192 24 segfit_ready
    = SegFit.place 4192 24 segfit_ready
  ∧ SegFitOver.mm_malloc (floor_checked SegFit.remove_free_block)
      (floor_checked SegFit.add_free_block) 100 segfit_ready
    = SegFit.mm_malloc 100 segfit_ready
  ∧ SegFit.mm_malloc 100 segfit_ready ≠ Diverge
  ∧ SegFitOver.mm_free (floor_checked SegFit.remove_free_block)
      (floor_checked SegFit.add_free_block) 4192
      (after (SegFit.mm_malloc 100) segfit_ready)
    = SegFit.mm_free 4192 (after (SegFit.mm_malloc 100) segfit_ready)
  ∧ SegFitOver.mm_realloc (floor_checked SegFit.remove_free_block)
      (floor_checked SegFit.add_free_block) 4192 5000
      (after (SegFit.mm_malloc 100) segfit_ready)
    = SegFit.mm_realloc 4192 5000 (after (SegFit.mm_malloc 100) segfit_ready).
Proof.
  assert (seg_heap segfit_ready [(4192, 4112, 0)] segfit_ready_lists) as H.
  { constructor.
    - vm_compute. discriminate.
    - vm_compute. reflexivity.
    - split; vm_compute; discriminate.
    - vm_compute. reflexivity.
    - unfold tag_at. split; [vm_compute; reflexivity |]. split; vm_compute; reflexivity.
    - cbn [tiles]. split; [vm_compute; reflexivity |]. split; [lia |].
      split; [left; reflexivity |].
      split; [| split; [| vm_compute; reflexivity]];
        (unfold tag_at; split; [vm_compute; reflexivity |]; split; vm_compute; reflexivity).
    - unfold tag_at. split; [vm_compute; reflexivity |]. split; vm_compute; reflexivity.
    - intros c Hc.
      assert (c = 0 ∨ c = 1 ∨ c = 2 ∨ c = 3 ∨ c = 4 ∨ c = 5 ∨ c = 6 ∨ c = 7 ∨ c = 8
              ∨ c = 9 ∨ c = 10 ∨ c = 11 ∨ c = 12 ∨ c = 13 ∨ c = 14 ∨ c = 15 ∨ c = 16
              ∨ c = 17 ∨ c = 18 ∨ c = 19) as Hcases by lia.
      repeat (destruct Hcases as [-> | Hcases]); try subst c;
        unfold segfit_ready_lists; cbn [Z.eqb Pos.eqb]; heap_fact.
    - intros c b Hc Hb. unfold segfit_ready_lists in Hb.
      destruct (Z.eqb_spec c 9) as [-> | _]; [| apply elem_of_nil in Hb; destruct Hb].
      apply list_elem_of_singleton in Hb. subst b.
      exists 4112. split; [apply list_elem_of_here | vm_compute; reflexivity]. }
  assert (complete [(4192, 4112, 0)] segfit_ready_lists []) as Hc.
  { intros b s Hb _. apply list_elem_of_singleton in Hb. injection Hb as -> ->.
    change (SegFit.get_class 4112) with 9. apply list_elem_of_here. }
  pose proof (segfit_list_operations_size_floor segfit_ready [(4192, 4112, 0)]
                segfit_ready_lists (floor_checked SegFit.remove_free_block)
                (floor_checked SegFit.add_free_block) H Hc floor_checked_ops)
    as (_ & _ & _ & Hp & Hm & _ & _ & Hi).
  split; [exact H |]. split; [exact Hc |]. split; [exact floor_checked_ops |].
  split.
  { destruct (Hi fresh) as [Ei _]; [vm_compute; discriminate | reflexivity
                                   | vm_compute; discriminate | exact Ei]. }
  split.
  { destruct (Hp 4192 4112 24) as [Ep _];
      [apply list_elem_of_here | unfold DSIZE; lia | reflexivity | exact Ep]. }
  destruct (Hm 100 ltac:(lia)) as (Em & Hd & Hinv).
  split; [exact Em |]. split; [exact Hd |].
  assert (SegFit.mm_malloc 100 segfit_ready
          = Ok 4192 (after (SegFit.mm_malloc 100) segfit_ready)) as E1
    by (vm_compute; reflexivity).
  destruct (Hinv _ _ E1) as (bs1 & L1 & H1 & C1 & _ & [E0 | [(s' & Hr & _) _]]);
    [unfold NULL in E0; lia |].
  pose proof (segfit_list_operations_size_floor _ bs1 L1
                (floor_checked SegFit.remove_free_block)
                (floor_checked SegFit.add_free_block) H1 C1 floor_checked_ops)
    as (_ & _ & _ & _ & _ & Hf1 & Hr1 & _).
  split.
  - destruct (Hf1 4192 s' Hr) as [Ef _]. exact Ef.
  - destruct (Hr1 4192 s' 5000 Hr) as [Er _]; [lia | exact Er].
Defined.
